(* ===== verification/_CoqProject ===== *)
-Q . S2P
Prelude.v
Def.v
TimersValues.v
Result.v
Scanner.v
AddrStorage.v
Filter.v
InstanceDef.v
Parser.v
ParserTheorems.v
Grammar.v
Interfaces.v
Configuration.v
ConfigMap.v
ConfigTheorems.v
ConfigErrors.v
Printing.v
Logging.v
TesterPackets.v
Timing.v
TimingThread.v
MessageQueue.v
Messages.v
Sender.v
QueryPacket.v
IfProp.v
InterfaceAddr.v
SelfTest.v
RpFilter.v
Sockets.v
SocketTheorems.v
KernelRouting.v
InstanceSockets.v
Tester.v
SocketTests.v
MembershipDb.v
Querier.v
QuerierSpec.v
QuerierHelpers.v
QuerierReports.v
QuerierTimers.v
QuerierTheorems.v
Notify.v
RoutingData.v
Receiver.v
ReceiverThread.v
ProxyRouting.v
RoutingTheorems.v
ProxyInstance.v
Proxy.v
ProxyTheorems.v
StartupTheorems.v
InstanceTheorems.v
UpstreamSync.v
Reminders.v
Status.v
SelfTestValues.v
QuerierScripts.v
Shutdown.v
