(* ===== verification/Prelude.v ===== *)
(** * mcproxy: a verification library of an IGMP/MLD multicast proxy

    mcproxy forwards multicast traffic between one or more upstream and several
    downstream interfaces (RFC 4605). On every downstream interface a querier
    plays the router part of IGMPv3 or MLDv2 (RFC 3376, RFC 3810); the
    memberships of the downstream interfaces are merged and reported on the
    upstream interfaces; the kernel's multicast routes follow the memberships
    and the sources seen. This library models the C++ code under src/mcproxy and
    proves what makes it correct.

    ** The program and its model

    The process reads its configuration (scanner, parser, configuration),
    numbers the interfaces and starts one proxy instance per definition.
    Packets come in through a receiver, which turns them into messages for the
    priority queue of a proxy instance. The worker thread of the instance takes
    one message after the other: reports and timers go to the querier of their
    interface, new sources to the routing, configuration changes to the tables
    of interfaces. A querier tells the routing about every change through a
    callback; the routing sets kernel routes and sends records upstream. Timers
    are objects shared between the queriers and the reminder database of the
    timing thread, which puts them into the queue when they are due.

    - [Prelude] (this file): keys of ordered containers, machine integers, bit
      fields, list lemmas.
    - [Def] (include/proxy/def.hpp, src/proxy/def.cpp): protocol enumerations,
      and [source_list], a [std::set], as an ordered list with the operators
      [+=], [*=], [-=].
    - [TimersValues] (timers_values): the timer values with their tank, and the
      floating point codes of the packets (QQIC, Maximum Response Code).
    - [AddrStorage] (utils/addr_storage): addresses as octets with their
      operators. Class [Address] is what the other components use of an
      address: one proxy instance handles one address family. Instances: [ipv4]
      and [ipv6].
    - [Result], [Scanner] (token, scanner): outcomes of the parser (a value, a
      reported error, an exception that ends the process, undefined behaviour)
      and the tokens of a command.
    - [Filter], [InstanceDef] (parser/interface): tables, rules and filters of
      interfaces, definitions of instances.
    - [Parser] (parser): the recursive descent parser in a state and error
      monad; [Grammar] the language of tables as derivations, and the grammar of
      the document references/parser/script_ebnf with the points in which the
      parser departs from it; [ParserTheorems] its theorems.
    - [Configuration] (configuration): comments, commands, the loop of the
      parser and the assignment of interfaces; [ConfigTheorems],
      [ConfigErrors] its theorems.
    - [Printing] (the to_string functions of parser/interface, def and
      addr_storage): the configuration as text.
    - [Logging] (hamcast_logging): the loggers of the threads and the traces of
      scopes. The other components leave their messages out.
    - [Timing] (timing): the reminder database. [TimingThread]: the loop around it,
      with sleeping, waiting and notifications, as a step relation.
    - [MessageQueue] (message_queue, worker): the queue, over the class
      [PriorityQueue] with the laws of [std::priority_queue].
    - [Messages] (message_format): messages, timers and sources; the state
      monad [M] of the handlers over the environment [env] (timers as a store
      of shared objects, reminders, the log of socket calls, the number of clock
      readings) and its weakest preconditions [wp]. The clock, the results of
      socket calls and the packet counters of the kernel are parameters. A
      computation without a result ([None]) stands for undefined behaviour or an
      exception that ends the thread; [wp m Q e] says that [m] has a result.
    - [Sender] (sender, igmp_sender, mld_sender): the class [SenderLaws] states
      what the queriers and the routing need of a sender; both senders are
      instances.
    - [QueryPacket] (igmp_sender, mld_sender, the checksum of mroute_socket):
      the octets of the packets.
    - [Sockets] (mc_socket, mroute_socket): every operation as a program over
      logged system calls; the answers of the kernel are a parameter.
      [SocketTheorems] its theorems.
    - [IfProp] (if_prop, check_if): snapshots of the interfaces and the monitor
      of their running state. [RpFilter] (reverse_path_filter): the switches in
      the file system of the kernel. [KernelRouting] (routing, check_kernel):
      virtual interfaces and routes on the sockets, the test of the kernel.
    - [InstanceSockets] (the constructors of senders and receivers, and the
      sockets of proxy_instance): the two sockets an instance opens.
    - [MembershipDb] (membership_db), [Querier] (querier): the database of a
      querier and all of its handlers.
    - [QuerierSpec]: the specification: the router state of RFC 3810 (section
      7.2), its action tables for reports and for expiring timers, and the
      invariant of the database. [QuerierHelpers], [QuerierReports] and
      [QuerierTimers] prove the refinement, [QuerierTheorems] what follows.
      [Notify]: which calls the handlers make and when they tell the routing.
    - [Interfaces] (interfaces): the table of virtual interfaces. [InterfaceAddr]:
      its flags and source addresses from the snapshot of [IfProp].
    - [RoutingData] (simple_routing_data): the known sources.
    - [Receiver] (receiver, igmp_receiver, mld_receiver): the analysis of
      received packets on the octets of the receive buffer. [ReceiverThread]:
      the loop around it, with the memory that [recvmsg] leaves behind.
    - [ProxyRouting] (simple_mc_proxy_routing, routing): aggregation, choice of
      output interfaces, routes, and the events; [RoutingTheorems] its theorems.
    - [ProxyInstance] (proxy_instance): constructor, configuration, the message
      handlers and the loop of the worker; [InstanceTheorems] its theorems.
      [UpstreamSync]: the kernel's reception state of the upstream interfaces
      next to the databases of the queriers. [Reminders]: the instance, the timers
      in its queue and the timing thread as one system.
    - [Shutdown] (worker, receiver, timing, the destructors of proxy_instance):
      the threads of an instance and its destructor as a step relation. An action
      names the part of the instance it uses; if that part is destroyed the
      process fails ([Shutdown.step]). What a handler computes is left to
      [ProxyInstance].
    - [Status] (the to_string functions of the state, message_format, def, token):
      the text of a debug message, of the status of the process and of its help.
    - [SelfTest], [SelfTestValues], [QuerierScripts]: the test functions of the
      debug build (test_addr_storage_a and b, test_timers_values, test_arithmetic,
      test_worker, test_timing, and the scripts of test_querier) run on the model.
      [SocketTests]: those of the sockets, as programs whose kernel is a parameter.
    - [Proxy] (proxy): the command line, the start of the instances and the end
      of the process; [ProxyTheorems], [StartupTheorems] its theorems.

    The repository builds a second program, the tester, that sends and receives
    numbered packets.

    - [ConfigMap] (tester/config_map): its INI file, read line by line with
      regular expressions, whose matching is a parameter with its documented
      meaning as a law (class [RegexMatch]).
    - [TesterPackets] (packet_manager and the text of the packets in
      tester/tester): the window of known numbers, printing and reading.
    - [Tester] (tester/tester): the settings of a group, the loops that send and
      receive, the log file and [run], on the operations of [Sockets].

    ** What is proved

    - Queriers: the handlers of reports and timers refine the tables of RFC 3810
      for all report types, filter modes and protocol versions; that of reports
      always returns ([receive_record_refines]), that of timers but for one crash,
      which is characterised ([timer_triggerd_refines],
      [ret_group_timer_null_filter]); the
      database invariant holds in every reachable state ([querier_invariant]);
      the answers to the routing agree with the memberships
      ([forwarding_agrees]); the schedule of general queries.
    - Instances: their invariant holds after any sequence of messages
      ([instance_invariant]), and handling any message but the addition of a
      downstream interface never gets stuck ([worker_handles_messages]), so no
      IGMP packet read within the buffer breaks one ([packets_keep_instance]).
    - Routing: merging is the union of interests, aggregation with the rule
      FIRST is that of RFC 4605, every output interface is justified by its
      forwarding rules, without filters the outputs are exactly those of the
      rules ([forwarding_exact]), and all events return.
    - The whole instance: with the rule FIRST, no filters and a sender that records
      memberships, every message that is [carried] keeps the memberships asked for
      upstream equal to the union of those downstream ([upstream_in_sync]):
      queriers, callback, aggregation and sender together.
    - Timers across threads: every timer that an instance waits for, those of
      retransmissions included, has its reminder in the timing thread or its
      message in the queue, unless the reminder was refused because its time point
      was taken ([awaited_timers]); so no membership lasts for ever but for those
      ([memberships_expire]). No assumption is made on the clock: [e_lost] records
      the refused reminders, and [coarse_clock_loses_timer] is a run in which there
      is one. The thread itself
      delivers every reminder of its database under fair scheduling, although it
      can miss a notification ([reminder_delivered], [notification_lost]); how
      late it can be is the subject of [reminder_delay].
    - The end of an instance: under every fair schedule its destructor ends, or the
      process fails because a thread uses what is destroyed ([destructor_ends]);
      the threads do not use their base classes when these are gone
      ([bases_outlive_threads]). The members and the derived classes have no such
      protection: such failures are reachable ([members_not_protected],
      [receiver_not_protected], [late_start_fails], [reminders_outlive_instance]).
    - Interfaces: every interface of the table has an address for the queries that
      are sent on it ([table_addresses]).
    - Status: the text of a debug message is computed to the end in every reachable
      state, so no pointer it follows is null or dangling ([status_defined]).
    - Configuration: every list of commands whose names have no quote, semicolon or
      sign of a comment can be written to a file and is read back ([file_spell]);
      the parser of tables accepts exactly the language of the document with the
      departures that [Grammar.parsed] lists ([parse_table_grammar]); reading any
      file ends, and an accepted
      configuration is consistent ([run_parser_consistent]) with a number of its
      own for every interface ([interfaces_assigned]); printed flat tables with plain
      names are parsed back ([table_print_parse]); prefixes and stray characters have the outcomes stated in
      [ConfigErrors].
    - Process: starting succeeds exactly if all interfaces exist, the tables are
      distinct and in range, and the kernel accepts them and the sockets, where the
      kernel has one multicast router for a table ([start_proxy_instances_spec]);
      an instance whose settings do not contradict each other reaches its
      configuration in whatever order its queue delivers the messages
      ([startup_any_order]); the exit command ends the worker, behind the user
      input that arrives ([exit_ends_worker]).
    - Sockets: whatever of [sock_op] is called on a socket and whatever the kernel
      answers, no closed descriptor is used and none leaks
      ([descriptors_closed]); an instance owns two descriptors, or none after an
      exception ([instance_sockets_owned]), both as long as the standard input is
      open, since a socket with descriptor 0 leaks ([descriptor_zero_leaks]);
      routes
      name exactly the given outputs ([add_mroute_outputs]), which lie in the
      kernel's array if they come from the table of interfaces
      ([assigned_route_defined]); the monitor knows the interfaces that are down as
      long as the system lists them all ([monitor_tracks_running]); at the end all reverse path filters
      that were on are on ([filters_on_in_the_end]).
    - Packets: sent queries have correct checksums and are read back, up to the
      number of sources that an IP packet holds ([igmp_query_packet_valid],
      [igmp_query_packet_wraps], [mld_query_read_back]); reports arrive
      completely, through the loop of the receiver thread and whatever came
      before ([igmp_thread_delivers]; [mld_thread_delivers], as long as every
      packet brings its packet information); codes of intervals
      round trip and lose at most a known fraction; source specific queries cover
      exactly the sources in retransmission.
    - Tester: a line of the configuration has one reading, whatever the matcher
      ([matches_read_line]), and a file is accepted exactly if nothing is defined
      twice ([read_ini_accepts]); reading the sources ends
      ([get_src_list_spec]); the sender sends the texts it should
      ([send_data_sends]), and what arrives is logged ([receiver_logs]) unless its
      number is in the window of known ones ([packet_window]).
    - Containers and threads: set operators, order of addresses, filters decide
      every packet, reminders are delivered exactly when due, systemic messages
      are never lost, virtual interfaces stay in a one-to-one correspondence.
    - Logging: the file of a thread holds exactly its messages that pass the level,
      in order ([file_holds_thread]); traces are bracketed ([scopes_nest]).
    - The tests of the debug build: on the model they have the outcomes that the
      code announces ([self_test], [worker_outcome], [timing_outcome],
      [test_backward_compatibility_outcome] and the like); three checks of prefixes
      are undefined. Those of the sockets leave no descriptor open, whatever the
      kernel answers ([tests_close_sockets]).
    - Departures from the intended behaviour, each with a theorem, among them: a
      reminder is lost if its time point is taken ([timing_collision]); a
      pending retransmission meets a null filter timer
      ([ret_group_timer_null_filter]); a second leave is not queried
      ([second_leave_not_queried]); MLD records in INCLUDE mode are not sent
      ([mld_send_record_state]); the rule MUTEX drops any-source memberships
      ([mutex_drops_any_source]); reports are read beyond the receive buffer
      ([igmp_report_overread]); automatic table numbers collide with chosen ones
      ([number_collision]); the order of settings is not kept
      ([setting_order_matters]); a filter that was off is switched on
      ([filter_off_turned_on]); the destructor of the routing object is undefined
      ([destructor_undefined]); a leave of an older version joins a group without
      listeners ([older_leave_out_of_sync]); a report cut off is completed from
      the packet before it ([truncated_report_redelivers]), as is a short packet
      of the tester ([shorter_packet_stale]); descriptors and lists are released twice after an
      error ([refused_socket_closed_twice], [failed_refresh_frees_twice],
      [socket_closed_twice]).

    ** Bounds and fuel

    Integers of the program whose width matters are reduced to it explicitly.
    Loops over containers are structural. The recursions that are not are:
    matching through table references ([Filter.rule_match]), whose fuel is the
    number of tables, enough because a reference is only accepted for a table
    that exists already ([table_match_terminates]); the scanner ([scan_fuel], one
    more than the characters) and the deletion of comments (the length of the
    text), which consume a character per round; nested tables in the parser
    ([table_fuel], the number of tokens), where every level consumes a token;
    printing of decimals (20 digits, enough for 64 bits); and
    [RpFilter.reset_rp_filter_calls], which calls itself once ([reset_depth]);
    the sources of a group of the tester ([Tester.src_loop]), whose keys are
    distinct, with one round more than the group has keys. The loops of threads
    and of the tester run over the list of events that their environment brings.
    The theorems state that these functions return a result. The worker is run
    for a number of rounds that [exit_ends_worker] bounds. The runs of [Shutdown]
    are infinite and need no fuel: what a destructor still waits for decreases in a
    well-founded order ([lower]). The 16374 sources of [igmp_query_packet_valid] are
    the exact bound of the length field.

    ** Not modelled

    The debug functions that only print what a live system answers (interface
    properties, senders, the monitor); the output of the tester on the screen, and its help;
    locks (every shared structure is locked around each operation, so operations
    are atomic steps here); the threads of [main] and of the tester. Only [Shutdown]
    and [TimingThread] interleave threads. The proxy instance uses the sockets
    through a log of calls ([Messages.action]); [Sockets] models what each of these
    calls does. The table of virtual interfaces enters the routing as a function,
    since it is filled before the instances run. *)

From stdpp Require Export prelude gmap strings.
From Stdlib Require Export Sorting.Sorted ZArith Lia.

(** ** Ordered keys

    [std::map] and [std::set] find an element by the ordering of its key.
    [KeyOrder] states what the containers of the program rely on: a strict
    total order, so that two equivalent keys are equal. *)

Class KeyOrder (K : Type) := {
  key_eq_dec :: EqDecision K;
  key_countable :: Countable K;
  key_ltb : K -> K -> bool;
  key_ltb_irrefl : forall a, key_ltb a a = false;
  key_ltb_trans : forall a b c,
    key_ltb a b = true -> key_ltb b c = true -> key_ltb a c = true;
  key_ltb_total : forall a b,
    key_ltb a b = false -> key_ltb b a = false -> a = b
}.

(** Interface indexes, priorities and time points are ordered as integers. *)
#[export] Program Instance Z_KeyOrder : KeyOrder Z := {
  key_ltb := Z.ltb
}.
Next Obligation. intros a; apply Z.ltb_irrefl. Qed.
Next Obligation. intros a b c; rewrite !Z.ltb_lt; lia. Qed.
Next Obligation. intros a b; rewrite !Z.ltb_ge; lia. Qed.

Lemma key_ltb_asym `{KeyOrder K} (a b : K) :
  key_ltb a b = true -> key_ltb b a = false.
Proof.
  intros Hab. destruct (key_ltb b a) eqn:Hba; [|done].
  pose proof (key_ltb_trans _ _ _ Hab Hba) as Haa.
  by rewrite key_ltb_irrefl in Haa.
Qed.

Lemma key_ltb_ne `{KeyOrder K} (a b : K) : key_ltb a b = true -> a <> b.
Proof. intros Hab ->. by rewrite key_ltb_irrefl in Hab. Qed.

Lemma key_ltb_ge `{KeyOrder K} (a b : K) :
  key_ltb a b = false -> a <> b -> key_ltb b a = true.
Proof.
  intros Hab Hne. destruct (key_ltb b a) eqn:Hba; [done|].
  by destruct Hne; apply key_ltb_total.
Qed.

(** An element of an ordered container exposes the key it is ordered by. *)
Class Keyed (T K : Type) := key : T -> K.

#[export] Instance Z_Keyed : Keyed Z Z := fun z => z.
#[export] Instance pair_Keyed {K V : Type} : Keyed (K * V) K := fst.

(** ** Machine integers *)

(** Conversion of an integer to [int] (two's complement, 32 bits) and to
    [unsigned int]. *)
Definition to_uint32 (z : Z) : Z := z mod 2 ^ 32.
Definition to_int32 (z : Z) : Z := (z + 2 ^ 31) mod 2 ^ 32 - 2 ^ 31.

Lemma to_int32_small (z : Z) : (- 2 ^ 31 <= z < 2 ^ 31)%Z -> to_int32 z = z.
Proof. intros Hz. unfold to_int32. rewrite Z.mod_small; lia. Qed.

Lemma to_uint32_small z : (0 <= z < 2 ^ 32)%Z -> to_uint32 z = z.
Proof. intros Hz. unfold to_uint32. rewrite Z.mod_small; lia. Qed.

(** Bit fields. *)
Local Open Scope Z_scope.

Lemma land_multiple_low v p m : 0 <= p -> 0 <= v < 2 ^ p -> Z.land v (m * 2 ^ p) = 0.
Proof.
  intros Hp Hv. apply Z.bits_inj'. intros i Hi. rewrite Z.land_spec, Z.bits_0.
  destruct (Z.ltb_spec i p).
  - rewrite Z.mul_pow2_bits_low by lia. apply andb_false_r.
  - rewrite <- (Z.mod_small v (2 ^ p)), Z.mod_pow2_bits_high by lia. done.
Qed.

Lemma lor_field a b k : 0 <= k -> 0 <= b < 2 ^ k -> Z.lor (a * 2 ^ k) b = a * 2 ^ k + b.
Proof.
  intros Hk Hb. pose proof (land_multiple_low b k a Hk Hb) as Hl. rewrite Z.land_comm in Hl.
  by rewrite <- Z.lxor_lor, Z.add_nocarry_lxor.
Qed.

Lemma field_testbit a b k i :
  0 <= k -> 0 <= b < 2 ^ k -> 0 <= i ->
  Z.testbit (a * 2 ^ k + b) i = if i <? k then Z.testbit b i else Z.testbit a (i - k).
Proof.
  intros Hk Hb Hi. rewrite <- lor_field, Z.lor_spec by done.
  destruct (Z.ltb_spec i k).
  - by rewrite Z.mul_pow2_bits_low.
  - rewrite Z.mul_pow2_bits by lia.
    rewrite <- (Z.mod_small b (2 ^ k)), Z.mod_pow2_bits_high by lia. apply orb_false_r.
Qed.

Lemma land_range b d k : 0 <= k -> 0 <= b < 2 ^ k -> 0 <= Z.land b d < 2 ^ k.
Proof.
  intros Hk Hb. rewrite <- (Z.mod_small b (2 ^ k)), <- Z.land_ones by lia.
  rewrite <- Z.land_assoc, (Z.land_comm (Z.ones k)), Z.land_assoc, Z.land_ones by lia.
  apply Z.mod_pos_bound. lia.
Qed.

Lemma lor_range b d k : 0 <= k -> 0 <= b < 2 ^ k -> 0 <= d < 2 ^ k -> 0 <= Z.lor b d < 2 ^ k.
Proof.
  intros Hk Hb Hd. rewrite <- (Z.mod_small b (2 ^ k)), <- (Z.mod_small d (2 ^ k)) by lia.
  rewrite <- !Z.land_ones, <- Z.land_lor_distr_l, Z.land_ones by lia.
  apply Z.mod_pos_bound. lia.
Qed.

Lemma land_fields a b c d k :
  0 <= k -> 0 <= b < 2 ^ k -> 0 <= d < 2 ^ k ->
  Z.land (a * 2 ^ k + b) (c * 2 ^ k + d) = Z.land a c * 2 ^ k + Z.land b d.
Proof.
  intros Hk Hb Hd. apply Z.bits_inj'. intros i Hi.
  rewrite Z.land_spec, !field_testbit by (auto using land_range).
  rewrite !Z.land_spec. by destruct (i <? k).
Qed.

Lemma lor_fields a b c d k :
  0 <= k -> 0 <= b < 2 ^ k -> 0 <= d < 2 ^ k ->
  Z.lor (a * 2 ^ k + b) (c * 2 ^ k + d) = Z.lor a c * 2 ^ k + Z.lor b d.
Proof.
  intros Hk Hb Hd. apply Z.bits_inj'. intros i Hi.
  rewrite Z.lor_spec, !field_testbit by (auto using lor_range).
  rewrite !Z.lor_spec. by destruct (i <? k).
Qed.

(** ** Generic list lemmas *)

Lemma Forall_fold_left {A B : Type} (P : A -> Prop) (Q : B -> Prop)
    (f : A -> B -> A) (l : list B) (a : A) :
  P a -> Forall Q l -> (forall x y, P x -> Q y -> P (f x y)) -> P (fold_left f l a).
Proof.
  intros Ha Hl Hf. revert a Ha. induction Hl; simpl; auto.
Qed.

Lemma existsb_bool_decide {A} `{EqDecision A} (x : A) (l : list A) :
  existsb (fun y => bool_decide (y = x)) l = true <-> x ∈ l.
Proof.
  rewrite existsb_exists. setoid_rewrite bool_decide_eq_true.
  rewrite list_elem_of_In. split; [by intros (y & ? & ->)|eauto].
Qed.

(** Case analysis on the conditions of a goal or hypothesis. *)
Ltac case_if :=
  match goal with
  | |- context [if ?b then _ else _] => destruct b eqn:?
  | H : context [if ?b then _ else _] |- _ => destruct b eqn:?
  end.

(** Turn boolean tests in the context into the propositions they decide. *)
Ltac bool_simpl :=
  repeat match goal with
  | H : bool_decide _ = true |- _ => apply bool_decide_eq_true in H
  | H : bool_decide _ = false |- _ => apply bool_decide_eq_false in H
  | H : negb _ = true |- _ => apply negb_true_iff in H
  | H : negb _ = false |- _ => apply negb_false_iff in H
  | H : andb _ _ = true |- _ => apply andb_true_iff in H as [? ?]
  | H : orb _ _ = false |- _ => apply orb_false_iff in H as [? ?]
  | H : Z.ltb _ _ = true |- _ => apply Z.ltb_lt in H
  | H : Z.ltb _ _ = false |- _ => apply Z.ltb_ge in H
  | H : Z.leb _ _ = true |- _ => apply Z.leb_le in H
  | H : Z.leb _ _ = false |- _ => apply Z.leb_gt in H
  | H : Z.eqb _ _ = true |- _ => apply Z.eqb_eq in H
  | H : Z.eqb _ _ = false |- _ => apply Z.eqb_neq in H
  end.
