(* ===== verification/Def.v ===== *)
(** * Basic definitions (include/proxy/def.hpp, src/proxy/def.cpp)

    The protocol enumerations with the helper predicates on them, and the
    [source_list] template: a [std::set] kept as a list ordered by its key,
    with the operators [+=], [*=], [-=] written as the source writes them. *)

From S2P Require Import Prelude.

Local Open Scope Z_scope.

(** ** Enumerations *)

Inductive mc_filter := INCLUDE_MODE | EXCLUDE_MODE.

Inductive group_mem_protocol := IGMPv1 | IGMPv2 | IGMPv3 | MLDv1 | MLDv2.

(** [UNKNOWN_RECORD] stands for a value outside the enumeration: the receivers
    cast the record type octet of a packet without checking it. *)
Inductive mcast_addr_record_type :=
  | MODE_IS_INCLUDE
  | MODE_IS_EXCLUDE
  | CHANGE_TO_INCLUDE_MODE
  | CHANGE_TO_EXCLUDE_MODE
  | ALLOW_NEW_SOURCES
  | BLOCK_OLD_SOURCES
  | UNKNOWN_RECORD (octet : Z).

Inductive addr_family := AF_UNSPEC | AF_INET | AF_INET6.

#[export] Instance mc_filter_eq_dec : EqDecision mc_filter.
Proof. solve_decision. Defined.
#[export] Instance group_mem_protocol_eq_dec : EqDecision group_mem_protocol.
Proof. solve_decision. Defined.
#[export] Instance mcast_addr_record_type_eq_dec : EqDecision mcast_addr_record_type.
Proof. solve_decision. Defined.
#[export] Instance addr_family_eq_dec : EqDecision addr_family.
Proof. solve_decision. Defined.

(** The numeric values of the enumerators. *)
Definition gmp_code (gmp : group_mem_protocol) : Z :=
  match gmp with
  | IGMPv1 => 0x1 | IGMPv2 => 0x2 | IGMPv3 => 0x4 | MLDv1 => 0x8 | MLDv2 => 0x10
  end.

Definition record_type_of_octet (b : Z) : mcast_addr_record_type :=
  if b =? 1 then MODE_IS_INCLUDE
  else if b =? 2 then MODE_IS_EXCLUDE
  else if b =? 3 then CHANGE_TO_INCLUDE_MODE
  else if b =? 4 then CHANGE_TO_EXCLUDE_MODE
  else if b =? 5 then ALLOW_NEW_SOURCES
  else if b =? 6 then BLOCK_OLD_SOURCES
  else UNKNOWN_RECORD b.

Definition is_IPv4 (gmp : group_mem_protocol) : bool :=
  negb (Z.land (Z.lor (Z.lor (gmp_code IGMPv1) (gmp_code IGMPv2)) (gmp_code IGMPv3))
               (gmp_code gmp) =? 0).

Definition is_IPv6 (gmp : group_mem_protocol) : bool :=
  negb (Z.land (Z.lor (gmp_code MLDv1) (gmp_code MLDv2)) (gmp_code gmp) =? 0).

Definition is_older_or_equal_version (older comp_to : group_mem_protocol) : bool :=
  gmp_code older <=? gmp_code comp_to.

Definition is_newest_version (gmp : group_mem_protocol) : bool :=
  if bool_decide (gmp = IGMPv3) || bool_decide (gmp = MLDv2) then true else false.

(** [static_cast<group_mem_protocol>(gmp * 2)]; a value outside the
    enumeration would be no protocol. *)
Definition gmp_of_code (c : Z) : option group_mem_protocol :=
  if c =? 0x1 then Some IGMPv1
  else if c =? 0x2 then Some IGMPv2
  else if c =? 0x4 then Some IGMPv3
  else if c =? 0x8 then Some MLDv1
  else if c =? 0x10 then Some MLDv2
  else None.

Definition get_next_newer_version (gmp : group_mem_protocol) : group_mem_protocol :=
  if is_newest_version gmp then gmp
  else default gmp (gmp_of_code (gmp_code gmp * 2)).

Definition get_addr_family (gmp : group_mem_protocol) : addr_family :=
  if is_IPv4 gmp then AF_INET
  else if is_IPv6 gmp then AF_INET6
  else AF_UNSPEC.

(** The next newer version stays in the address family, is a protocol, and a
    second step always reaches the newest version. *)
Lemma next_newer_same_family gmp :
  get_addr_family (get_next_newer_version gmp) = get_addr_family gmp.
Proof. by destruct gmp. Qed.

Lemma next_newer_is_cast gmp :
  is_newest_version gmp = false ->
  gmp_of_code (gmp_code gmp * 2) = Some (get_next_newer_version gmp).
Proof. by destruct gmp. Qed.

Lemma next_newer_reaches_newest gmp :
  is_newest_version (get_next_newer_version (get_next_newer_version gmp)) = true.
Proof. by destruct gmp. Qed.

(** ** [source_list<T>] *)

Section SourceList.
Context {T K : Type} `{KeyOrder K} `{Keyed T K}.
Implicit Types (l r : list T) (e x : T) (k : K).

(** [std::set::find]: the element with an equivalent key. *)
Fixpoint sl_find k l : option T :=
  match l with
  | [] => None
  | x :: l' => if bool_decide (key x = k) then Some x else sl_find k l'
  end.

(** The place of a new element in the order of the set. *)
Fixpoint sl_place e l : list T :=
  match l with
  | [] => [e]
  | x :: l' => if key_ltb (key e) (key x) then e :: l else x :: sl_place e l'
  end.

(** [std::set::insert]: an element with an equivalent key is kept. *)
Definition sl_insert e l : list T :=
  match sl_find (key e) l with
  | Some _ => l
  | None => sl_place e l
  end.

(** [std::set::erase(key)]. *)
Definition sl_erase k l : list T :=
  List.filter (fun x => negb (bool_decide (key x = k))) l.

(** [operator+=]: [l.insert(r.cbegin(), r.cend())]. *)
Definition sl_add_assign l r : list T := fold_left (fun acc e => sl_insert e acc) r l.

Definition sl_add l r : list T := sl_add_assign l r.

(** [operator*=]: the simultaneous walk over both lists. [cur_l] and
    [cur_r] are the suffixes not visited yet. *)
Fixpoint sl_mul_assign l : list T -> list T :=
  match l with
  | [] => fun _ => []
  | x :: l' =>
    fix walk r : list T :=
      match r with
      | [] => []
      | y :: r' =>
        if bool_decide (key x = key y) then x :: sl_mul_assign l' r'
        else if key_ltb (key x) (key y) then sl_mul_assign l' r
        else walk r'
      end
  end.

Definition sl_mul l r : list T := sl_mul_assign l r.

(** [operator-=]: every element of [r] is erased from [l]. *)
Definition sl_sub_assign l r : list T := fold_left (fun acc e => sl_erase (key e) acc) r l.

Definition sl_sub l r : list T := sl_sub_assign l r.

(** The container invariant of [std::set]. *)
Definition sl_ordered l : Prop :=
  StronglySorted (fun a b => key_ltb (key a) (key b) = true) l.

Definition sl_keys l : gset K := list_to_set (key <$> l).

(** *** Lookup *)

Lemma sl_find_Some_key k l e : sl_find k l = Some e -> key e = k.
Proof.
  induction l as [|x l IH]; simpl; [done|]. case_bool_decide; [|auto]. by intros [= ->].
Qed.

Lemma sl_find_In k l e : sl_find k l = Some e -> e ∈ l.
Proof.
  induction l as [|x l IH]; simpl; [done|].
  case_bool_decide; [intros [= ->]; left|right; auto].
Qed.

Lemma sl_find_None k l : sl_find k l = None <-> k ∉ sl_keys l.
Proof.
  unfold sl_keys. induction l as [|x l IH]; simpl; [set_solver|].
  case_bool_decide; [set_solver|]. rewrite IH. set_solver.
Qed.

Lemma elem_of_sl_keys k l : k ∈ sl_keys l <-> is_Some (sl_find k l).
Proof.
  destruct (sl_find k l) as [e|] eqn:E.
  - split; [eauto|]. intros _. pose proof (sl_find_Some_key _ _ _ E) as <-.
    apply sl_find_In in E. unfold sl_keys. set_solver.
  - apply sl_find_None in E. split; [done|by intros []].
Qed.

Lemma sl_keys_cons x l : sl_keys (x :: l) = {[key x]} ∪ sl_keys l.
Proof. reflexivity. Qed.

Lemma sl_keys_empty l : sl_keys l = ∅ <-> l = [].
Proof.
  split; [|by intros ->]. destruct l as [|x l]; [done|].
  intros E. assert (key x ∈ sl_keys (x :: l)) by (rewrite sl_keys_cons; set_solver).
  rewrite E in *. set_solver.
Qed.

Lemma elem_of_sl_keys_In k l : k ∈ sl_keys l <-> exists e, e ∈ l /\ key e = k.
Proof.
  unfold sl_keys. rewrite elem_of_list_to_set, list_elem_of_fmap.
  split; intros (e & ? & ?); eauto.
Qed.

(** *** Insertion *)

Lemma sl_place_In e l x : x ∈ sl_place e l <-> x = e \/ x ∈ l.
Proof.
  induction l as [|y l IH]; simpl; [set_solver|].
  case_if; set_solver.
Qed.

Lemma sl_find_place k e l :
  sl_find (key e) l = None ->
  sl_find k (sl_place e l) = if bool_decide (key e = k) then Some e else sl_find k l.
Proof.
  induction l as [|x l IH]; simpl; [done|].
  intros Hn. destruct (bool_decide (key x = key e)) eqn:Hx; [done|].
  apply bool_decide_eq_false in Hx.
  destruct (key_ltb (key e) (key x)); simpl; [done|].
  rewrite IH by done. case_bool_decide as Hk; case_bool_decide as Hk'; congruence.
Qed.

Lemma sl_find_insert k e l :
  sl_find k (sl_insert e l) =
    match sl_find k l with
    | Some x => Some x
    | None => if bool_decide (key e = k) then Some e else None
    end.
Proof.
  unfold sl_insert. destruct (sl_find (key e) l) eqn:E.
  - destruct (sl_find k l) eqn:Ek; [done|]. case_bool_decide; congruence.
  - rewrite sl_find_place by done. destruct (sl_find k l) eqn:Ek; case_bool_decide; congruence.
Qed.

Lemma sl_insert_In e l x : x ∈ sl_insert e l -> x = e \/ x ∈ l.
Proof. unfold sl_insert. destruct (sl_find _ _); [auto|]. apply sl_place_In. Qed.

Lemma sl_insert_new e l x : sl_find (key e) l = None -> x ∈ sl_insert e l <-> x = e \/ x ∈ l.
Proof. unfold sl_insert. intros ->. apply sl_place_In. Qed.

Lemma sl_place_ordered e l :
  sl_find (key e) l = None -> sl_ordered l -> sl_ordered (sl_place e l).
Proof.
  intros Hn Hs. induction Hs as [|x l Hs IH Hx]; simpl; [repeat constructor|].
  simpl in Hn. case_bool_decide as Hkx; [done|].
  destruct (key_ltb (key e) (key x)) eqn:Hlt.
  - constructor; [by constructor|]. constructor; [done|].
    eapply Forall_impl; [exact Hx|]. intros y Hy. by eapply key_ltb_trans.
  - constructor; [by apply IH|]. apply Forall_forall. intros y Hy%sl_place_In.
    destruct Hy as [->|Hy].
    + apply key_ltb_ge; [done|congruence].
    + by eapply Forall_forall in Hx.
Qed.

Lemma sl_insert_ordered e l : sl_ordered l -> sl_ordered (sl_insert e l).
Proof.
  unfold sl_insert. destruct (sl_find (key e) l) eqn:E; [done|].
  by apply sl_place_ordered.
Qed.

(** *** Erasure *)

Lemma sl_erase_In k l x : x ∈ sl_erase k l <-> x ∈ l /\ key x <> k.
Proof.
  unfold sl_erase. rewrite !list_elem_of_In, filter_In, negb_true_iff, bool_decide_eq_false.
  done.
Qed.

Lemma sl_find_erase k k' l :
  sl_find k (sl_erase k' l) = if bool_decide (k = k') then None else sl_find k l.
Proof.
  unfold sl_erase. induction l as [|x l IH]; simpl; [by case_bool_decide|].
  repeat (case_bool_decide; simplify_eq/=; try done).
Qed.

Lemma filter_ordered (p : T -> bool) l : sl_ordered l -> sl_ordered (List.filter p l).
Proof.
  induction 1 as [|x l Hs IH Hx]; simpl; [constructor|]. case_if; [|done].
  constructor; [done|]. apply Forall_forall. intros y Hy.
  rewrite list_elem_of_In, filter_In in Hy. destruct Hy as [Hy _].
  rewrite Forall_forall in Hx. apply Hx. by apply list_elem_of_In.
Qed.

Lemma sl_erase_ordered k l : sl_ordered l -> sl_ordered (sl_erase k l).
Proof. apply filter_ordered. Qed.

(** *** The operators, by the lookup of a key *)

Lemma sl_find_add k l r :
  sl_find k (sl_add_assign l r) =
    match sl_find k l with Some x => Some x | None => sl_find k r end.
Proof.
  unfold sl_add_assign. revert l. induction r as [|y r IH]; intros l; simpl.
  - by destruct (sl_find k l).
  - rewrite IH, sl_find_insert. destruct (sl_find k l); [done|].
    by case_bool_decide.
Qed.

Lemma sl_find_sub k l r :
  sl_find k (sl_sub_assign l r) =
    match sl_find k r with Some _ => None | None => sl_find k l end.
Proof.
  unfold sl_sub_assign. revert l. induction r as [|y r IH]; intros l; simpl; [done|].
  rewrite IH, sl_find_erase. case_bool_decide; case_bool_decide; destruct (sl_find k r);
    congruence.
Qed.

Lemma ordered_head_absent x l k :
  sl_ordered (x :: l) -> key_ltb k (key x) = true \/ k = key x -> sl_find k l = None.
Proof.
  intros Hs Hk. apply sl_find_None. rewrite elem_of_sl_keys_In. intros (e & He & <-).
  inversion Hs as [|? ? ? Hall]; subst. rewrite Forall_forall in Hall.
  specialize (Hall e He). destruct Hk as [Hk|Hk].
  - pose proof (key_ltb_trans _ _ _ Hk Hall) as Hee. by rewrite key_ltb_irrefl in Hee.
  - rewrite Hk, key_ltb_irrefl in Hall. done.
Qed.

Lemma sl_mul_cons x l y r :
  sl_mul_assign (x :: l) (y :: r) =
    if bool_decide (key x = key y) then x :: sl_mul_assign l r
    else if key_ltb (key x) (key y) then sl_mul_assign l (y :: r)
    else sl_mul_assign (x :: l) r.
Proof. reflexivity. Qed.

Lemma sl_find_mul k l r :
  sl_ordered l -> sl_ordered r ->
  sl_find k (sl_mul_assign l r) =
    match sl_find k r with Some _ => sl_find k l | None => None end.
Proof.
  intros Hl. revert r. induction Hl as [|x l Hl IHl Hx]; intros r Hr.
  { simpl. by destruct (sl_find k r). }
  assert (Hxl : sl_ordered (x :: l)) by (by constructor).
  induction Hr as [|y r Hr IHr Hy]; [done|].
  assert (Hyr : sl_ordered (y :: r)) by (by constructor).
  rewrite sl_mul_cons. destruct (decide (key x = key y)) as [Hxy|Hxy].
  { rewrite (bool_decide_eq_true_2 _ Hxy). cbn [sl_find]. rewrite IHl, Hxy by done.
    by destruct (bool_decide (key y = k)). }
  rewrite (bool_decide_eq_false_2 _ Hxy).
  destruct (key_ltb (key x) (key y)) eqn:Hlt; [rewrite IHl by done|rewrite IHr];
    cbn [sl_find].
  - destruct (decide (key x = k)) as [<-|Hk].
    + rewrite (bool_decide_eq_false_2 (key y = key x)) by congruence.
      by rewrite (ordered_head_absent y r) by auto.
    + by rewrite (bool_decide_eq_false_2 (key x = k)).
  - destruct (decide (key y = k)) as [<-|Hk].
    + rewrite (bool_decide_eq_true_2 (key y = key y)) by done.
      rewrite (bool_decide_eq_false_2 (key x = key y)) by done.
      rewrite (ordered_head_absent y r) by auto. symmetry.
      apply (ordered_head_absent x); [done|]. left. by apply key_ltb_ge.
    + by rewrite (bool_decide_eq_false_2 (key y = k)).
Qed.

Lemma sl_keys_add l r : sl_keys (sl_add_assign l r) = sl_keys l ∪ sl_keys r.
Proof.
  apply set_eq. intros k. rewrite elem_of_union, !elem_of_sl_keys, sl_find_add.
  destruct (sl_find k l), (sl_find k r); naive_solver.
Qed.

Lemma sl_keys_sub l r : sl_keys (sl_sub_assign l r) = sl_keys l ∖ sl_keys r.
Proof.
  apply set_eq. intros k. rewrite elem_of_difference, !elem_of_sl_keys, sl_find_sub.
  destruct (sl_find k l), (sl_find k r); naive_solver.
Qed.

Lemma sl_keys_mul l r :
  sl_ordered l -> sl_ordered r -> sl_keys (sl_mul_assign l r) = sl_keys l ∩ sl_keys r.
Proof.
  intros Hl Hr. apply set_eq. intros k.
  rewrite elem_of_intersection, !elem_of_sl_keys, sl_find_mul by done.
  destruct (sl_find k l), (sl_find k r); naive_solver.
Qed.

(** *** Order and membership are kept *)

Lemma sl_add_ordered l r : sl_ordered l -> sl_ordered (sl_add_assign l r).
Proof.
  unfold sl_add_assign. revert l. induction r as [|y r IH]; simpl; [done|].
  intros l Hl. by apply IH, sl_insert_ordered.
Qed.

Lemma sl_sub_ordered l r : sl_ordered l -> sl_ordered (sl_sub_assign l r).
Proof.
  unfold sl_sub_assign. revert l. induction r as [|y r IH]; simpl; [done|].
  intros l Hl. by apply IH, sl_erase_ordered.
Qed.

Lemma sl_mul_In l r x : x ∈ sl_mul_assign l r -> x ∈ l.
Proof.
  revert r. induction l as [|y l IHl]; [done|]. intros r.
  induction r as [|z r IHr]; [simpl; set_solver|]. rewrite sl_mul_cons.
  case_bool_decide; [|case_if].
  - rewrite !elem_of_cons. naive_solver.
  - intros Hx%IHl. by right.
  - exact IHr.
Qed.

Lemma sl_mul_ordered l r : sl_ordered l -> sl_ordered (sl_mul_assign l r).
Proof.
  intros Hl. revert r. induction Hl as [|y l Hl IHl Hy]; [constructor|].
  intros r. induction r as [|z r IHr]; [constructor|]. rewrite sl_mul_cons.
  case_bool_decide; [|case_if; [apply IHl|apply IHr]].
  constructor; [apply IHl|]. apply Forall_forall. intros x Hx%sl_mul_In.
  by eapply Forall_forall in Hy.
Qed.

Lemma sl_add_In l r x : x ∈ sl_add_assign l r -> x ∈ l \/ x ∈ r.
Proof.
  unfold sl_add_assign. revert l. induction r as [|y r IH]; simpl; [auto|].
  intros l [Hx|Hx]%IH; [apply sl_insert_In in Hx|]; set_solver.
Qed.

Lemma sl_sub_In l r x : x ∈ sl_sub_assign l r -> x ∈ l.
Proof.
  unfold sl_sub_assign. revert l. induction r as [|y r IH]; simpl; [auto|].
  intros l Hx%IH. by apply sl_erase_In in Hx as [? _].
Qed.

(** In an ordered list lookup and membership agree. *)
Lemma sl_ordered_find l e : sl_ordered l -> e ∈ l -> sl_find (key e) l = Some e.
Proof.
  induction 1 as [|x l Hs IH Hx]; [set_solver|]. rewrite elem_of_cons. simpl.
  intros [->|He].
  - by rewrite bool_decide_eq_true_2.
  - rewrite bool_decide_eq_false_2; [auto|]. rewrite Forall_forall in Hx.
    by apply key_ltb_ne, Hx.
Qed.

(** Two ordered lists with the same lookups are the same list, so the
    lookup equations above determine the result of every operator. *)
Lemma sl_ext l r :
  sl_ordered l -> sl_ordered r -> (forall k, sl_find k l = sl_find k r) -> l = r.
Proof.
  intros Hl. revert r. induction Hl as [|x l Hl IH Hx]; intros r Hr Hk.
  { destruct Hr as [|y r]; [done|]. specialize (Hk (key y)). simpl in Hk.
    by rewrite bool_decide_eq_true_2 in Hk. }
  assert (Hxl : sl_ordered (x :: l)) by (by constructor).
  destruct Hr as [|y r Hr Hy].
  { specialize (Hk (key x)). simpl in Hk. by rewrite bool_decide_eq_true_2 in Hk. }
  assert (Hyr : sl_ordered (y :: r)) by (by constructor).
  assert (x = y) as ->.
  { pose proof (Hk (key x)) as H1. pose proof (Hk (key y)) as H2. simpl in H1, H2.
    rewrite (bool_decide_eq_true_2 (key x = key x)) in H1 by done.
    rewrite (bool_decide_eq_true_2 (key y = key y)) in H2 by done.
    destruct (decide (key x = key y)) as [Hxy|Hxy].
    { rewrite bool_decide_eq_true_2 in H1 by done. congruence. }
    rewrite bool_decide_eq_false_2 in H1 by congruence.
    rewrite bool_decide_eq_false_2 in H2 by congruence.
    destruct (key_ltb (key x) (key y)) eqn:Hlt.
    - rewrite (ordered_head_absent y r (key x)) in H1; auto. done.
    - rewrite (ordered_head_absent x l (key y)) in H2; [done|done|].
      left. apply key_ltb_ge; congruence. }
  f_equal. apply IH; [done|]. intros k. pose proof (Hk k) as Hk'. simpl in Hk'.
  case_bool_decide as Hyk; [|done]. subst k.
  rewrite (ordered_head_absent y l), (ordered_head_absent y r); auto.
Qed.

Lemma sl_ordered_ext l r : sl_ordered l -> sl_ordered r -> (forall x, x ∈ l <-> x ∈ r) -> l = r.
Proof.
  intros Hl Hr Hp. apply sl_ext; [done..|]. intros k. destruct (sl_find k l) as [x|] eqn:Hx.
  - pose proof (sl_find_Some_key _ _ _ Hx) as <-. apply sl_find_In in Hx. rewrite Hp in Hx.
    symmetry. by apply sl_ordered_find.
  - symmetry. apply sl_find_None in Hx. apply sl_find_None. intros Hk. apply Hx.
    apply elem_of_sl_keys_In in Hk as (e & He & <-). apply elem_of_sl_keys_In. exists e.
    by rewrite Hp.
Qed.

Lemma sl_ordered_perm l r : sl_ordered l -> sl_ordered r -> l ≡ₚ r -> l = r.
Proof. intros Hl Hr Hp. apply sl_ordered_ext; [done..|]. intros x. by rewrite Hp. Qed.
End SourceList.

#[export] Hint Resolve sl_add_ordered sl_sub_ordered sl_mul_ordered sl_insert_ordered
  sl_erase_ordered : slist.
#[export] Hint Extern 1 (sl_ordered []) => constructor : slist.

(** The two-pointer loop of [operator*=] computes the intersection: on two
    [std::set]s it returns the ordered list of exactly those elements of the
    left operand whose key occurs in the right operand. *)
Theorem source_list_mul_intersection {T K} `{KeyOrder K, Keyed T K} (l r : list T) :
  sl_ordered l -> sl_ordered r ->
  sl_mul_assign l r = List.filter (fun x => bool_decide (key x ∈ sl_keys r)) l.
Proof.
  intros Hl Hr. apply sl_ext; [by apply sl_mul_ordered|by apply filter_ordered|].
  intros k. rewrite sl_find_mul by done. clear Hl.
  destruct (sl_find k r) as [y|] eqn:Ey.
  - assert (k ∈ sl_keys r) as Hin by (rewrite elem_of_sl_keys; eauto).
    induction l as [|x l IH]; simpl; [done|].
    case_bool_decide as Hx; subst.
    + rewrite bool_decide_eq_true_2 by done. simpl. by rewrite bool_decide_eq_true_2.
    + rewrite IH. case_bool_decide; [simpl; by rewrite bool_decide_eq_false_2|done].
  - apply sl_find_None in Ey. induction l as [|x l IH]; simpl; [done|].
    case_bool_decide as Hx; [|done]. simpl. rewrite bool_decide_eq_false_2; [done|].
    by intros <-.
Qed.

Lemma source_list_mul_intersection_witness :
  sl_mul_assign [0; 1; 2; 55] [1; 2; 3; 55]
  = List.filter (fun x => bool_decide (key x ∈ sl_keys [1; 2; 3; 55])) [0; 1; 2; 55].
Proof.
  apply (source_list_mul_intersection (T := Z) (K := Z)); repeat constructor.
Defined.
