(* ===== verification/TimersValues.v ===== *)
(** * Timers and values (include/proxy/timers_values.hpp, src/proxy/timers_values.cpp)

    The protocol constants of a querier ([timers_values]), the intervals
    derived from them, and the floating point codes of RFC 3376/3810: QQIC and
    Max Resp Code. Durations are integers, in seconds or milliseconds as the
    source has them; codes are bytes ([uint8_t]) or 16 bit words. *)

From S2P Require Import Prelude.

Local Open Scope Z_scope.

(** ** The tank *)

Record timers_values_tank := {
  robustness_variable : Z;
  query_interval : Z;               (* seconds *)
  query_response_interval : Z;      (* milliseconds *)
  startup_query_interval : Z;       (* seconds *)
  startup_query_count : Z;
  last_listener_query_interval : Z; (* milliseconds *)
  last_listener_query_count : Z;
  unsolicited_report_interval : Z   (* milliseconds *)
}.

Definition default_timers_values_tank : timers_values_tank := {|
  robustness_variable := 2;
  query_interval := 125;
  query_response_interval := 10000;
  startup_query_interval := 125 / 4;
  startup_query_count := 2;
  last_listener_query_interval := 1000;
  last_listener_query_count := 2;
  unsolicited_report_interval := 1000
|}.

(** A [timers_values] object refers to the shared default tank until a setter
    gives it a tank of its own. *)
Record timers_values := {
  is_default_timers_values_tank : bool;
  tank : timers_values_tank
}.

Definition new_timers_values : timers_values :=
  {| is_default_timers_values_tank := true; tank := default_timers_values_tank |}.

Definition set_new_tank (tv : timers_values) : timers_values :=
  if is_default_timers_values_tank tv
  then {| is_default_timers_values_tank := false; tank := default_timers_values_tank |}
  else tv.

Definition reset_to_default_tank (tv : timers_values) : timers_values :=
  if negb (is_default_timers_values_tank tv)
  then {| is_default_timers_values_tank := true; tank := default_timers_values_tank |}
  else tv.

(** [operator=] and the copy constructor, for two different objects. *)
Definition assign (self tv : timers_values) : timers_values :=
  let self := reset_to_default_tank self in
  if negb (is_default_timers_values_tank tv)
  then {| is_default_timers_values_tank := false; tank := tank tv |}
  else self.

(** An object with the default flag refers to the default tank. *)
Definition tv_wf (tv : timers_values) : Prop :=
  is_default_timers_values_tank tv = true -> tank tv = default_timers_values_tank.

Section Setters.
Context (f : timers_values_tank -> timers_values_tank).

Definition update_tank (tv : timers_values) : timers_values :=
  let tv := set_new_tank tv in
  {| is_default_timers_values_tank := is_default_timers_values_tank tv;
     tank := f (tank tv) |}.
End Setters.

Definition set_robustness_variable (v : Z) : timers_values -> timers_values :=
  update_tank (fun t => Build_timers_values_tank v (query_interval t)
    (query_response_interval t) (startup_query_interval t) (startup_query_count t)
    (last_listener_query_interval t) (last_listener_query_count t)
    (unsolicited_report_interval t)).
Definition set_query_interval (v : Z) : timers_values -> timers_values :=
  update_tank (fun t => Build_timers_values_tank (robustness_variable t) v
    (query_response_interval t) (startup_query_interval t) (startup_query_count t)
    (last_listener_query_interval t) (last_listener_query_count t)
    (unsolicited_report_interval t)).
Definition set_query_response_interval (v : Z) : timers_values -> timers_values :=
  update_tank (fun t => Build_timers_values_tank (robustness_variable t) (query_interval t)
    v (startup_query_interval t) (startup_query_count t)
    (last_listener_query_interval t) (last_listener_query_count t)
    (unsolicited_report_interval t)).
Definition set_startup_query_interval (v : Z) : timers_values -> timers_values :=
  update_tank (fun t => Build_timers_values_tank (robustness_variable t) (query_interval t)
    (query_response_interval t) v (startup_query_count t)
    (last_listener_query_interval t) (last_listener_query_count t)
    (unsolicited_report_interval t)).
Definition set_startup_query_count (v : Z) : timers_values -> timers_values :=
  update_tank (fun t => Build_timers_values_tank (robustness_variable t) (query_interval t)
    (query_response_interval t) (startup_query_interval t) v
    (last_listener_query_interval t) (last_listener_query_count t)
    (unsolicited_report_interval t)).
Definition set_last_listener_query_interval (v : Z) : timers_values -> timers_values :=
  update_tank (fun t => Build_timers_values_tank (robustness_variable t) (query_interval t)
    (query_response_interval t) (startup_query_interval t) (startup_query_count t)
    v (last_listener_query_count t) (unsolicited_report_interval t)).
Definition set_last_listener_query_count (v : Z) : timers_values -> timers_values :=
  update_tank (fun t => Build_timers_values_tank (robustness_variable t) (query_interval t)
    (query_response_interval t) (startup_query_interval t) (startup_query_count t)
    (last_listener_query_interval t) v (unsolicited_report_interval t)).
Definition set_unsolicited_report_interval (v : Z) : timers_values -> timers_values :=
  update_tank (fun t => Build_timers_values_tank (robustness_variable t) (query_interval t)
    (query_response_interval t) (startup_query_interval t) (startup_query_count t)
    (last_listener_query_interval t) (last_listener_query_count t) v).

Definition get_robustness_variable (tv : timers_values) : Z := robustness_variable (tank tv).
Definition get_query_interval (tv : timers_values) : Z := query_interval (tank tv).
Definition get_query_response_interval (tv : timers_values) : Z :=
  query_response_interval (tank tv).
Definition get_startup_query_interval (tv : timers_values) : Z :=
  startup_query_interval (tank tv).
Definition get_startup_query_count (tv : timers_values) : Z := startup_query_count (tank tv).
Definition get_last_listener_query_interval (tv : timers_values) : Z :=
  last_listener_query_interval (tank tv).
Definition get_last_listener_query_count (tv : timers_values) : Z :=
  last_listener_query_count (tank tv).
Definition get_unsolicited_report_interval (tv : timers_values) : Z :=
  unsolicited_report_interval (tank tv).

(** The derived intervals, in milliseconds. *)
Definition get_multicast_address_listening_interval (tv : timers_values) : Z :=
  robustness_variable (tank tv) * query_interval (tank tv) * 1000
  + query_response_interval (tank tv).
Definition get_other_querier_present_interval (tv : timers_values) : Z :=
  robustness_variable (tank tv) * query_interval (tank tv) * 1000
  + Z.quot (query_response_interval (tank tv)) 2.
Definition get_last_listener_query_time (tv : timers_values) : Z :=
  last_listener_query_interval (tank tv) * last_listener_query_count (tank tv).
Definition get_older_host_present_interval (tv : timers_values) : Z :=
  robustness_variable (tank tv) * query_interval (tank tv) * 1000
  + query_response_interval (tank tv).

(** ** The codes *)

(** [qqic_to_qqi(bool, unsigned, unsigned)]. *)
Definition qqic_to_qqi3 (first_bit : bool) (exp mant : Z) : Z :=
  let exp := Z.land exp 0x7 in
  let mant := Z.land mant 0xF in
  if negb first_bit
  then Z.lor (Z.shiftl exp 0x4) mant
  else Z.shiftl (Z.lor mant 0x10) (exp + 3).

(** [qqic_to_qqi(uint8_t)]. *)
Definition qqic_to_qqi (qqic : Z) : Z :=
  if negb (Z.land qqic 0x80 =? 0) then
    let exp := Z.shiftr (Z.land qqic 0x70) 0x4 in
    let mant := Z.land qqic 0xF in
    Z.shiftl (Z.lor mant 0x10) (exp + 3)
  else qqic.

(** The [for] loop over bit positions: the first one with its bit set. [1 <<
    pos] is an [int]. *)
Fixpoint first_bit_set (v : Z) (positions : list Z) : option Z :=
  match positions with
  | [] => None
  | pos :: rest =>
    if negb (Z.land v (to_int32 (Z.shiftl 1 pos)) =? 0) then Some pos
    else first_bit_set v rest
  end.

(** [qqi_to_qqic]; the result is converted to [uint8_t]. *)
Definition qqi_to_qqic (sec : Z) : Z :=
  if sec <? 128 then sec mod 256
  else match first_bit_set sec [15; 14; 13; 12; 11; 10; 9; 8; 7] with
       | Some pos =>
         let exp := pos - 5 + 1 in
         let mant := Z.shiftr (Z.land sec (Z.shiftl 0xF exp)) exp in
         let exp := exp - 3 in
         Z.lor (Z.lor (Z.shiftl 1 7) (Z.shiftl exp 4)) mant mod 256
       | None => 0
       end.

Definition maxrespc_igmpv3_to_maxrespi3 (first_bit : bool) (exp mant : Z) : Z :=
  qqic_to_qqi3 first_bit exp mant * 100.

Definition maxrespc_igmpv3_to_maxrespi (max_resp_code : Z) : Z :=
  qqic_to_qqi max_resp_code * 100.

Definition maxrespi_to_maxrespc_igmpv3 (msec : Z) : Z :=
  qqi_to_qqic (Z.quot msec 100).

Definition maxrespc_mldv2_to_maxrespi3 (first_bit : bool) (exp mant : Z) : Z :=
  let exp := Z.land exp 0x7 in
  let mant := Z.land mant 0xFFF in
  if negb first_bit
  then Z.lor (Z.shiftl exp 12) mant
  else Z.shiftl (Z.lor mant 0x1000) (exp + 3).

Definition maxrespc_mldv2_to_maxrespi (max_resp_code : Z) : Z :=
  if negb (Z.land max_resp_code 0x8000 =? 0) then
    let exp := Z.shiftr (Z.land max_resp_code 0x7000) 12 in
    let mant := Z.land max_resp_code 0xFFF in
    Z.shiftl (Z.lor mant 0x1000) (exp + 3)
  else max_resp_code.

(** [maxrespi_to_maxrespc_mldv2]; the result is converted to [uint16_t]. *)
Definition maxrespi_to_maxrespc_mldv2 (msec : Z) : Z :=
  if msec <? 32767 then msec mod 65536
  else match first_bit_set msec
               [31; 30; 29; 28; 27; 26; 25; 24; 23; 22; 21; 20; 19; 18; 17; 16; 15] with
       | Some pos =>
         let exp := pos - 12 in
         let mant := Z.shiftr (Z.land msec (to_int32 (Z.shiftl 0xFFF exp))) exp in
         let exp := exp - 3 in
         Z.lor (Z.lor (Z.shiftl 1 15) (Z.shiftl exp 12)) mant mod 65536
       | None => 0
       end.

(** ** Reference codec

    RFC 3376 4.1.1 and RFC 3810 5.1.3: a code below [2^(k+3)] is the value
    itself; above, [k] mantissa bits and a 3 bit exponent are a floating point
    number. [k] is 4 for the IGMP and QQIC codes and 12 for the MLDv2 code. *)

Definition fp_decode (k c : Z) : Z :=
  if c <? 2 ^ (k + 3) then c else (c mod 2 ^ k + 2 ^ k) * 2 ^ ((c / 2 ^ k) mod 8 + 3).

Definition fp_encode (k m : Z) : Z :=
  if m <? 2 ^ (k + 3) then m
  else let p := Z.log2 m in 2 ^ (k + 3) + (p - (k + 3)) * 2 ^ k + (m / 2 ^ (p - k) - 2 ^ k).

(** *** Bit fields as arithmetic *)

Lemma testbit_log2 m p : 0 <= p -> 2 ^ p <= m < 2 ^ (p + 1) -> Z.testbit m p = true.
Proof.
  intros Hp Hm. rewrite Z.testbit_true by done.
  rewrite Z.pow_add_r in Hm by lia. change (2 ^ 1) with 2 in Hm.
  assert (m / 2 ^ p = 1) as ->; [|done].
  symmetry. apply Z.div_unique with (m - 2 ^ p); lia.
Qed.

Lemma land_pow2_zero m p : 0 <= p -> Z.land m (2 ^ p) = 0 -> Z.testbit m p = false.
Proof.
  intros Hp Hl. assert (Z.testbit (Z.land m (2 ^ p)) p = false) as Hb
    by (rewrite Hl; apply Z.bits_0).
  by rewrite Z.land_spec, Z.pow2_bits_true, andb_true_r in Hb by done.
Qed.

Lemma int32_bit p : 0 <= p <= 31 -> exists m, to_int32 (Z.shiftl 1 p) = m * 2 ^ p.
Proof.
  intros Hp. rewrite Z.shiftl_mul_pow2, Z.mul_1_l by lia.
  destruct (decide (p = 31)) as [->|]; [exists (-1); reflexivity|].
  exists 1. rewrite to_int32_small, Z.mul_1_l; [done|].
  pose proof (Z.pow_lt_mono_r 2 p 31). lia.
Qed.

(** The loop finds the highest set bit: the positions above it are clear. *)
Lemma first_bit_set_spec v p l1 l2 :
  0 <= p <= 30 -> 2 ^ p <= v < 2 ^ (p + 1) -> Forall (fun q => p < q <= 31) l1 ->
  first_bit_set v (l1 ++ p :: l2) = Some p.
Proof.
  intros Hp Hv Hl1. induction Hl1 as [|q l1 Hq Hl1 IH]; cbn [first_bit_set app].
  - rewrite to_int32_small, Z.shiftl_mul_pow2, Z.mul_1_l;
      [|lia|rewrite Z.shiftl_mul_pow2 by lia; pose proof (Z.pow_lt_mono_r 2 p 31); lia].
    destruct (Z.eqb_spec (Z.land v (2 ^ p)) 0) as [Hz|]; [|done].
    apply land_pow2_zero in Hz; [|lia]. by rewrite testbit_log2 in Hz by lia.
  - destruct (int32_bit q) as [m ->]; [lia|].
    rewrite land_multiple_low; [done|lia|].
    pose proof (Z.pow_le_mono_r 2 (p + 1) q). lia.
Qed.

(** The bit positions of a [for] loop that counts down from [hi]. *)
Fixpoint countdown (hi : Z) (n : nat) : list Z :=
  match n with O => [] | S n => hi :: countdown (hi - 1) n end.

Lemma first_bit_set_countdown v p hi n :
  0 <= p <= 30 -> 2 ^ p <= v < 2 ^ (p + 1) -> hi - Z.of_nat n < p <= hi -> hi <= 31 ->
  first_bit_set v (countdown hi n) = Some p.
Proof.
  intros Hp Hv. revert hi. induction n as [|n IH]; intros hi Hr Hhi; [lia|].
  destruct (decide (p = hi)) as [->|Hne].
  { apply (first_bit_set_spec v hi []); [lia|lia|constructor]. }
  cbn [countdown first_bit_set]. destruct (int32_bit hi) as [m ->]; [lia|].
  pose proof (Z.pow_le_mono_r 2 (p + 1) hi).
  rewrite land_multiple_low by lia. cbn. apply IH; lia.
Qed.

(** The mantissa field of a value. *)
Lemma mantissa_field v k e :
  0 <= k -> 0 <= e -> Z.shiftr (Z.land v (Z.shiftl (Z.ones k) e)) e = (v / 2 ^ e) mod 2 ^ k.
Proof.
  intros Hk He. rewrite Z.shiftr_land, Z.shiftr_shiftl_l, Z.sub_diag, Z.shiftl_0_r by lia.
  by rewrite Z.land_ones, Z.shiftr_div_pow2 by lia.
Qed.

Lemma mantissa_range m k p :
  0 <= k <= p -> 2 ^ p <= m < 2 ^ (p + 1) -> 2 ^ k <= m / 2 ^ (p - k) < 2 ^ (k + 1).
Proof.
  intros Hk Hm. split.
  - apply Z.div_le_lower_bound; [lia|]. rewrite <- Z.pow_add_r by lia.
    replace (p - k + k) with p by lia. lia.
  - apply Z.div_lt_upper_bound; [lia|]. rewrite <- Z.pow_add_r by lia.
    replace (p - k + (k + 1)) with (p + 1) by lia. lia.
Qed.

Lemma mod_of_normal x k : 0 <= k -> 2 ^ k <= x < 2 ^ (k + 1) -> x mod 2 ^ k = x - 2 ^ k.
Proof.
  intros Hk Hx. rewrite Z.pow_add_r in Hx by lia. change (2 ^ 1) with 2 in Hx.
  symmetry. apply Z.mod_unique with 1; lia.
Qed.

Lemma code_layout k e r :
  0 <= k -> 0 <= e -> 0 <= r < 2 ^ k ->
  Z.lor (Z.lor (Z.shiftl 1 (k + 3)) (Z.shiftl e k)) r mod 2 ^ (k + 4)
  = ((8 + e) * 2 ^ k + r) mod 2 ^ (k + 4) \/ 8 <= e.
Proof.
  intros Hk He Hr. destruct (Z.le_gt_cases 8 e); [by right|]. left. f_equal.
  rewrite !Z.shiftl_mul_pow2, Z.pow_add_r, Z.mul_1_l by lia.
  rewrite (Z.mul_comm (2 ^ k)). change (2 ^ 3) with 8.
  assert (Z.lor (8 * 2 ^ k) (e * 2 ^ k) = (8 + e) * 2 ^ k) as ->.
  { rewrite <- !Z.shiftl_mul_pow2 by lia. rewrite <- Z.shiftl_lor. f_equal.
    apply (lor_field 1 e 3); lia. }
  by rewrite lor_field.
Qed.

(** *** The codec *)

Section Codec.
Context (k : Z) (Hk : 0 <= k).

Lemma fp_encode_bounds m :
  0 <= m < 2 ^ (k + 11) -> 0 <= fp_encode k m < 2 ^ (k + 4).
Proof using Hk.
  intros Hm. unfold fp_encode. pose proof (Z.pow_pos_nonneg 2 k).
  destruct (Z.ltb_spec m (2 ^ (k + 3))).
  { pose proof (Z.pow_lt_mono_r 2 (k + 3) (k + 4)). lia. }
  pose proof (Z.log2_spec m) as Hs. pose proof (mantissa_range m k (Z.log2 m)) as Hq.
  pose proof (Z.pow_pos_nonneg 2 (k + 3)).
  assert (k + 3 <= Z.log2 m < k + 11) as Hp.
  { split; [apply Z.log2_le_pow2|apply Z.log2_lt_pow2]; lia. }
  rewrite (Z.pow_add_r 2 k 1) in Hq by lia.
  rewrite !Z.pow_add_r by lia. change (2 ^ 3) with 8 in *. change (2 ^ 4) with 16 in *.
  change (2 ^ 1) with 2 in *. nia.
Qed.

(** Decoding what was encoded rounds down, to [k] fraction bits. *)
Lemma fp_decode_encode m :
  0 <= m < 2 ^ (k + 11) ->
  fp_decode k (fp_encode k m) =
    if m <? 2 ^ (k + 3) then m
    else m / 2 ^ (Z.log2 m - k) * 2 ^ (Z.log2 m - k).
Proof using Hk.
  intros Hm. unfold fp_encode. destruct (Z.ltb_spec m (2 ^ (k + 3))) as [Hlt|Hge].
  { unfold fp_decode. by destruct (Z.ltb_spec m (2 ^ (k + 3))); [|lia]. }
  pose proof (Z.pow_pos_nonneg 2 k). pose proof (Z.pow_pos_nonneg 2 (k + 3)).
  pose proof (Z.log2_spec m) as Hs.
  assert (k + 3 <= Z.log2 m < k + 11) as Hp.
  { split; [apply Z.log2_le_pow2|apply Z.log2_lt_pow2]; lia. }
  pose proof (mantissa_range m k (Z.log2 m)) as Hq.
  set (q := m / 2 ^ (Z.log2 m - k)) in *. set (p := Z.log2 m) in *.
  rewrite (Z.pow_add_r 2 k 1) in Hq by lia. change (2 ^ 1) with 2 in Hq.
  unfold fp_decode. destruct (Z.ltb_spec
    (2 ^ (k + 3) + (p - (k + 3)) * 2 ^ k + (q - 2 ^ k)) (2 ^ (k + 3))); [nia|].
  replace (2 ^ (k + 3) + (p - (k + 3)) * 2 ^ k + (q - 2 ^ k))
    with (q - 2 ^ k + (p - (k + 3) + 8) * 2 ^ k)
    by (rewrite Z.pow_add_r by lia; lia).
  rewrite Z.mod_add, Z.mod_small, Z.div_add, Z.div_small by lia.
  replace ((0 + (p - (k + 3) + 8)) mod 8 + 3) with (p - k); [lia|].
  replace (0 + (p - (k + 3) + 8)) with (p - (k + 3) + 1 * 8) by lia.
  rewrite Z.mod_add, Z.mod_small by lia. lia.
Qed.

(** The rounding error is below one part in [2^k]. *)
Lemma fp_rounding m :
  0 <= m < 2 ^ (k + 11) ->
  fp_decode k (fp_encode k m) <= m /\
  2 ^ k * (m - fp_decode k (fp_encode k m)) <= fp_decode k (fp_encode k m) /\
  (m < 2 ^ (k + 3) -> fp_decode k (fp_encode k m) = m).
Proof using Hk.
  intros Hm. rewrite fp_decode_encode by done. pose proof (Z.pow_pos_nonneg 2 k).
  destruct (Z.ltb_spec m (2 ^ (k + 3))) as [|Hge]; [lia|].
  pose proof (Z.pow_pos_nonneg 2 (k + 3)).
  assert (k + 3 <= Z.log2 m) by (apply Z.log2_le_pow2; lia).
  pose proof (Z.log2_spec m) as Hs. set (p := Z.log2 m) in *.
  assert (0 <= k <= p) as Hkp by lia.
  pose proof (mantissa_range m k p Hkp ltac:(rewrite Z.add_1_r; lia)) as Hq.
  pose proof (Z.pow_pos_nonneg 2 (p - k)) as Hpos.
  pose proof (Z.div_mod m (2 ^ (p - k))) as Hdm.
  pose proof (Z.mod_pos_bound m (2 ^ (p - k))) as Hmb.
  set (q := m / 2 ^ (p - k)) in *. set (r := m mod 2 ^ (p - k)) in *. nia.
Qed.

Lemma fp_decode_range c : 0 <= c < 2 ^ (k + 4) -> 0 <= fp_decode k c < 2 ^ (k + 11).
Proof using Hk.
  intros Hc. unfold fp_decode. pose proof (Z.pow_pos_nonneg 2 k).
  destruct (Z.ltb_spec c (2 ^ (k + 3))).
  { pose proof (Z.pow_lt_mono_r 2 (k + 3) (k + 11)). lia. }
  pose proof (Z.mod_pos_bound c (2 ^ k)). pose proof (Z.mod_pos_bound (c / 2 ^ k) 8).
  pose proof (Z.pow_pos_nonneg 2 ((c / 2 ^ k) mod 8 + 3)).
  pose proof (Z.pow_le_mono_r 2 ((c / 2 ^ k) mod 8 + 3) 10).
  rewrite (Z.pow_add_r 2 k 11) by lia. change (2 ^ 10) with 1024 in *.
  change (2 ^ 11) with 2048. nia.
Qed.

(** Encoding inverts decoding on every code. *)
Lemma fp_encode_decode c : 0 <= c < 2 ^ (k + 4) -> fp_encode k (fp_decode k c) = c.
Proof using Hk.
  intros Hc. unfold fp_decode. destruct (Z.ltb_spec c (2 ^ (k + 3))) as [Hlt|Hge].
  { unfold fp_encode. by destruct (Z.ltb_spec c (2 ^ (k + 3))); [|lia]. }
  pose proof (Z.pow_pos_nonneg 2 k).
  pose proof (Z.mod_pos_bound c (2 ^ k)) as Hr. pose proof (Z.div_mod c (2 ^ k)) as Hd.
  set (r := c mod 2 ^ k) in *. set (d := c / 2 ^ k) in *.
  rewrite !Z.pow_add_r in Hc, Hge by lia. change (2 ^ 3) with 8 in *.
  change (2 ^ 4) with 16 in *.
  assert (8 <= d < 16) as Hde by nia.
  assert (d mod 8 = d - 8) as Hdm by (symmetry; apply Z.mod_unique with 1; lia).
  rewrite Hdm. set (e := d - 8) in *. assert (0 <= e < 8) as He by (unfold e; lia).
  assert (Z.log2 ((r + 2 ^ k) * 2 ^ (e + 3)) = k + (e + 3)) as Hl.
  { apply Z.log2_unique; [lia|]. rewrite !Z.pow_succ_r, !(Z.pow_add_r 2 k) by lia. nia. }
  unfold fp_encode. rewrite Hl.
  replace (k + (e + 3) - k) with (e + 3) by lia. rewrite Z.div_mul by lia.
  replace (k + (e + 3) - (k + 3)) with e by lia. rewrite (Z.pow_add_r 2 k 3) by lia.
  change (2 ^ 3) with 8.
  destruct (Z.ltb_spec ((r + 2 ^ k) * 2 ^ (e + 3)) (2 ^ k * 8)) as [Hbad|].
  - rewrite (Z.pow_add_r 2 e 3) in Hbad by lia. pose proof (Z.pow_pos_nonneg 2 e).
    change (2 ^ 3) with 8 in Hbad. nia.
  - unfold e in *. nia.
Qed.
End Codec.

(** *** The routines of the source implement the codec *)

Lemma shiftr_land_field c m e k :
  0 <= k -> 0 <= e -> m = Z.shiftl (Z.ones k) e ->
  Z.shiftr (Z.land c m) e = (c / 2 ^ e) mod 2 ^ k.
Proof. intros ? ? ->. by apply mantissa_field. Qed.

Lemma high_bit_test c p :
  0 <= p -> 0 <= c < 2 ^ (p + 1) -> negb (Z.land c (2 ^ p) =? 0) = negb (c <? 2 ^ p).
Proof.
  intros Hp Hc. destruct (Z.ltb_spec c (2 ^ p)) as [Hlt|Hge].
  - rewrite <- (Z.mul_1_l (2 ^ p)), land_multiple_low by lia. done.
  - destruct (Z.eqb_spec (Z.land c (2 ^ p)) 0) as [Hz|]; [|done].
    apply land_pow2_zero in Hz; [|done]. by rewrite testbit_log2 in Hz by lia.
Qed.

Lemma decode_layout (k c : Z) :
  0 <= k -> 0 <= c ->
  Z.shiftl (Z.lor (Z.land c (Z.ones k)) (2 ^ k))
    (Z.shiftr (Z.land c (Z.shiftl (Z.ones 3) k)) k + 3)
  = (c mod 2 ^ k + 2 ^ k) * 2 ^ ((c / 2 ^ k) mod 8 + 3).
Proof.
  intros Hk Hc. rewrite Z.land_ones by done.
  rewrite (shiftr_land_field c _ k 3) by (lia || done). change (2 ^ 3) with 8.
  pose proof (Z.mod_pos_bound c (2 ^ k)). pose proof (Z.mod_pos_bound (c / 2 ^ k) 8).
  rewrite Z.shiftl_mul_pow2, Z.lor_comm by lia. f_equal.
  rewrite <- (Z.mul_1_l (2 ^ k)) at 1. rewrite lor_field by (auto with zarith || lia). lia.
Qed.

Lemma qqic_to_qqi_spec c : 0 <= c < 256 -> qqic_to_qqi c = fp_decode 4 c.
Proof.
  intros Hc. unfold qqic_to_qqi, fp_decode. change 0x80 with (2 ^ 7).
  rewrite (high_bit_test c 7) by (simpl; lia). change (4 + 3) with 7.
  destruct (c <? 2 ^ 7); [done|]. cbn [negb].
  apply (decode_layout 4); lia.
Qed.

Lemma maxrespc_mldv2_spec c : 0 <= c < 65536 -> maxrespc_mldv2_to_maxrespi c = fp_decode 12 c.
Proof.
  intros Hc. unfold maxrespc_mldv2_to_maxrespi, fp_decode. change 0x8000 with (2 ^ 15).
  rewrite (high_bit_test c 15) by (simpl; lia). change (12 + 3) with 15.
  destruct (c <? 2 ^ 15); [done|]. cbn [negb].
  apply (decode_layout 12); lia.
Qed.

(** The code built from the position of the highest bit. *)
Lemma encode_layout k m p :
  0 <= k -> k + 3 <= p < k + 11 -> 2 ^ p <= m < 2 ^ (p + 1) ->
  Z.lor (Z.lor (Z.shiftl 1 (k + 3)) (Z.shiftl (p - k - 3) k))
    (Z.shiftr (Z.land m (Z.shiftl (Z.ones k) (p - k))) (p - k)) mod 2 ^ (k + 4)
  = fp_encode k m.
Proof.
  intros Hk Hp Hm. assert (0 <= k <= p) as Hkp by lia.
  pose proof (mantissa_range m k p Hkp Hm) as Hq.
  rewrite mantissa_field by lia. rewrite (mod_of_normal _ k Hk Hq).
  rewrite (Z.pow_add_r 2 k 1) in Hq by lia. change (2 ^ 1) with 2 in Hq.
  set (q := m / 2 ^ (p - k)) in *. assert (Z.log2 m = p) as Hl by (apply Z.log2_unique; rewrite <- ?Z.add_1_r; lia).
  destruct (code_layout k (p - k - 3) (q - 2 ^ k)) as [->|]; try lia.
  assert (m <? 2 ^ (k + 3) = false) as Hf.
  { apply Z.ltb_ge. pose proof (Z.pow_le_mono_r 2 (k + 3) p). lia. }
  unfold fp_encode. rewrite Hf, Hl. cbv zeta. fold q. rewrite !(Z.pow_add_r 2 k) by lia.
  change (2 ^ 3) with 8. change (2 ^ 4) with 16. rewrite Z.mod_small; nia.
Qed.

Lemma qqi_to_qqic_spec s : 0 <= s < 2 ^ 15 -> qqi_to_qqic s = fp_encode 4 s.
Proof.
  intros Hs. unfold qqi_to_qqic. destruct (Z.ltb_spec s 128).
  { unfold fp_encode. destruct (Z.ltb_spec s (2 ^ (4 + 3))); [|simpl in *; lia].
    apply Z.mod_small; lia. }
  assert (7 <= Z.log2 s < 15) as Hl.
  { split; [apply Z.log2_le_pow2|apply Z.log2_lt_pow2]; simpl; lia. }
  pose proof (Z.log2_spec s). rewrite <- Z.add_1_r in *. set (p := Z.log2 s) in *.
  change [15; 14; 13; 12; 11; 10; 9; 8; 7] with (countdown 15 9).
  rewrite (first_bit_set_countdown s p) by lia.
  replace (p - 5 + 1) with (p - 4) by lia. apply (encode_layout 4); lia.
Qed.

Lemma maxrespi_mldv2_spec m :
  0 <= m < 2 ^ 23 -> m <> 32767 -> maxrespi_to_maxrespc_mldv2 m = fp_encode 12 m.
Proof.
  intros Hm Hne. unfold maxrespi_to_maxrespc_mldv2. destruct (Z.ltb_spec m 32767).
  { unfold fp_encode. destruct (Z.ltb_spec m (2 ^ (12 + 3))); [|simpl in *; lia].
    apply Z.mod_small; lia. }
  assert (15 <= Z.log2 m < 23) as Hl.
  { split; [apply Z.log2_le_pow2|apply Z.log2_lt_pow2]; simpl; lia. }
  pose proof (Z.log2_spec m). rewrite <- Z.add_1_r in *. set (p := Z.log2 m) in *.
  change [31; 30; 29; 28; 27; 26; 25; 24; 23; 22; 21; 20; 19; 18; 17; 16; 15]
    with (countdown 31 17).
  rewrite (first_bit_set_countdown m p) by lia.
  rewrite to_int32_small; [apply (encode_layout 12); lia|].
  rewrite Z.shiftl_mul_pow2 by lia. pose proof (Z.pow_le_mono_r 2 (p - 12) 10).
  pose proof (Z.pow_pos_nonneg 2 (p - 12)). change (2 ^ 10) with 1024 in *. simpl; lia.
Qed.

(** *** Properties *)

(** Every QQIC byte survives decoding and encoding: the querier's query
    interval code is canonical. *)
Theorem qqic_roundtrip c : 0 <= c < 256 -> qqi_to_qqic (qqic_to_qqi c) = c.
Proof.
  intros Hc. rewrite qqic_to_qqi_spec by done.
  rewrite qqi_to_qqic_spec, fp_encode_decode by (simpl; lia || apply fp_decode_range; lia).
  done.
Qed.

Lemma qqic_roundtrip_witness : qqi_to_qqic (qqic_to_qqi 0xB7) = 0xB7.
Proof. apply (qqic_roundtrip 0xB7). lia. Defined.

(** An announced query interval of less than [2^15] seconds is rounded
    down by less than one part in sixteen, and is exact below 128 seconds. *)
Theorem qqi_rounding s :
  0 <= s < 2 ^ 15 ->
  qqic_to_qqi (qqi_to_qqic s) <= s /\
  16 * (s - qqic_to_qqi (qqi_to_qqic s)) <= qqic_to_qqi (qqi_to_qqic s) /\
  (s < 128 -> qqic_to_qqi (qqi_to_qqic s) = s).
Proof.
  intros Hs. rewrite qqi_to_qqic_spec by done.
  rewrite qqic_to_qqi_spec by (apply (fp_encode_bounds 4); simpl in *; lia).
  apply (fp_rounding 4); simpl in *; lia.
Qed.

Lemma qqi_rounding_witness :
  qqic_to_qqi (qqi_to_qqic 1000) <= 1000 /\
  16 * (1000 - qqic_to_qqi (qqi_to_qqic 1000)) <= qqic_to_qqi (qqi_to_qqic 1000) /\
  (1000 < 128 -> qqic_to_qqi (qqi_to_qqic 1000) = 1000).
Proof. apply (qqi_rounding 1000). lia. Defined.

(** Every MLDv2 Maximum Response Code other than 32767 survives decoding
    and encoding. *)
Theorem maxrespc_mldv2_roundtrip c :
  0 <= c < 65536 -> c <> 32767 ->
  maxrespi_to_maxrespc_mldv2 (maxrespc_mldv2_to_maxrespi c) = c.
Proof.
  intros Hc Hne. rewrite maxrespc_mldv2_spec by done.
  rewrite maxrespi_mldv2_spec; [apply (fp_encode_decode 12); simpl; lia| |].
  - apply (fp_decode_range 12); simpl; lia.
  - intros Hd. apply Hne. rewrite <- (fp_encode_decode 12 ltac:(lia) c), Hd by (simpl; lia). reflexivity.
Qed.

Lemma maxrespc_mldv2_roundtrip_witness :
  maxrespi_to_maxrespc_mldv2 (maxrespc_mldv2_to_maxrespi 0x9001) = 0x9001.
Proof. apply (maxrespc_mldv2_roundtrip 0x9001); lia. Defined.

(** C38: A response delay of less than [2^23] milliseconds other than 32767 is
    rounded down by less than one part in 4096 in an MLDv2 query. *)
Theorem maxrespi_mldv2_rounding m :
  0 <= m < 2 ^ 23 -> m <> 32767 ->
  maxrespc_mldv2_to_maxrespi (maxrespi_to_maxrespc_mldv2 m) <= m /\
  4096 * (m - maxrespc_mldv2_to_maxrespi (maxrespi_to_maxrespc_mldv2 m))
    <= maxrespc_mldv2_to_maxrespi (maxrespi_to_maxrespc_mldv2 m) /\
  (m < 32768 -> maxrespc_mldv2_to_maxrespi (maxrespi_to_maxrespc_mldv2 m) = m).
Proof.
  intros Hm Hne. rewrite maxrespi_mldv2_spec by done.
  rewrite maxrespc_mldv2_spec by (apply (fp_encode_bounds 12); simpl in *; lia).
  apply (fp_rounding 12); simpl in *; lia.
Qed.

Lemma maxrespi_mldv2_rounding_witness :
  maxrespc_mldv2_to_maxrespi (maxrespi_to_maxrespc_mldv2 100000) <= 100000 /\
  4096 * (100000 - maxrespc_mldv2_to_maxrespi (maxrespi_to_maxrespc_mldv2 100000))
    <= maxrespc_mldv2_to_maxrespi (maxrespi_to_maxrespc_mldv2 100000) /\
  (100000 < 32768 -> maxrespc_mldv2_to_maxrespi (maxrespi_to_maxrespc_mldv2 100000) = 100000).
Proof. apply (maxrespi_mldv2_rounding 100000); lia. Defined.

(** The comparison [msec.count() < 32767] leaves out the largest plain
    value: a delay of 32767 ms finds no bit in the loop and is sent as 0. *)
Theorem maxrespi_mldv2_32767 :
  maxrespi_to_maxrespc_mldv2 32767 = 0 /\ maxrespc_mldv2_to_maxrespi 32767 = 32767.
Proof. split; reflexivity. Qed.

Lemma land_int_field_bounds s : 0 <= Z.shiftr (Z.land s (Z.shiftl 0xF 11)) 11 < 16.
Proof.
  rewrite (shiftr_land_field s _ 11 4) by (lia || reflexivity). apply Z.mod_pos_bound. lia.
Qed.

(** The loop of [qqi_to_qqic] starts one bit too high: for every interval
    from [2^15] to [2^16 - 1] seconds the exponent 8 overflows into the top
    bit, and the code that is sent stands for at most 248 seconds. *)
Theorem qqi_exponent_overflow s :
  2 ^ 15 <= s < 2 ^ 16 -> qqic_to_qqi (qqi_to_qqic s) <= 248.
Proof.
  intros Hs. unfold qqi_to_qqic. destruct (Z.ltb_spec s 128); [simpl in *; lia|].
  change [15; 14; 13; 12; 11; 10; 9; 8; 7] with (countdown 15 9).
  rewrite (first_bit_set_countdown s 15) by lia.
  change (15 - 5 + 1) with 11. change (11 - 3) with 8.
  pose proof (land_int_field_bounds s) as Hr.
  set (r := Z.shiftr (Z.land s (Z.shiftl 15 11)) 11) in *. cbv zeta.
  change (Z.lor (Z.shiftl 1 7) (Z.shiftl 8 4)) with (8 * 2 ^ 4).
  rewrite lor_field, Z.mod_small by (simpl; lia). change (8 * 2 ^ 4) with 128.
  rewrite qqic_to_qqi_spec by lia. unfold fp_decode. change (2 ^ (4 + 3)) with 128.
  destruct (Z.ltb_spec (128 + r) 128); [lia|]. change (2 ^ 4) with 16.
  replace (128 + r) with (r + 8 * 16) by lia.
  rewrite Z.mod_add, Z.div_add, (Z.mod_small r 16), (Z.div_small r 16) by lia.
  change (2 ^ ((0 + 8) mod 8 + 3)) with 8. lia.
Qed.

Lemma qqi_exponent_overflow_witness : qqic_to_qqi (qqi_to_qqic 32768) <= 248.
Proof. apply (qqi_exponent_overflow 32768). lia. Defined.

(** The two overloads of each decoder agree on the fields of a code. *)
Lemma qqic_overloads_agree c :
  0 <= c < 256 ->
  qqic_to_qqi3 (negb (c <? 128)) (c / 16) c = qqic_to_qqi c.
Proof.
  intros Hc. rewrite qqic_to_qqi_spec by done. unfold qqic_to_qqi3, fp_decode.
  change (2 ^ (4 + 3)) with 128. destruct (Z.ltb_spec c 128); cbn [negb].
  - change 0x7 with (Z.ones 3). change 0xF with (Z.ones 4).
    rewrite !Z.land_ones, Z.shiftl_mul_pow2 by lia.
    rewrite lor_field by (lia || apply Z.mod_pos_bound; lia).
    change (2 ^ 3) with 8. change (2 ^ 4) with 16. rewrite (Z.mod_small (c / 16)).
    + pose proof (Z.div_mod c 16). lia.
    + split; [apply Z.div_pos; lia|apply Z.div_lt_upper_bound; lia].
  - rewrite <- (decode_layout 4) by lia. f_equal. f_equal.
    rewrite (shiftr_land_field c _ 4 3) by (lia || done).
    change 0x7 with (Z.ones 3). by rewrite Z.land_ones by lia.
Qed.

(** A copy of a [timers_values] object has the values of the original,
    whether the original uses the default tank or its own, and the setters of
    the copy leave a tank of its own behind. *)
Theorem timers_values_copy self tv :
  tv_wf self -> tv_wf tv -> tank (assign self tv) = tank tv /\ tv_wf (assign self tv).
Proof.
  unfold assign, reset_to_default_tank, tv_wf. intros Hs Ht.
  destruct (is_default_timers_values_tank tv) eqn:Et; simpl; [|done].
  rewrite Ht by done.
  destruct (is_default_timers_values_tank self) eqn:Es; simpl; auto.
Qed.

Lemma timers_values_copy_witness :
  tank (assign new_timers_values (set_query_interval 10 new_timers_values))
  = tank (set_query_interval 10 new_timers_values)
  /\ tv_wf (assign new_timers_values (set_query_interval 10 new_timers_values)).
Proof. apply timers_values_copy; done. Defined.
