(* ===== verification/Result.v ===== *)
(** * Exceptions

    Code that runs before the worker threads (scanner, parser, configuration,
    start-up) reports errors by throwing C strings that [main] catches. A
    computation of this part ends with a result or with one of the ways not to
    have one. *)

From S2P Require Import Prelude.

(** [Throw] is an exception that is caught by [main]; [Terminate] a call of
    [std::terminate] (a [throw;] without a current exception); [Undefined]
    undefined behaviour; [OutOfFuel] only says that a loop of the model was cut
    off, which the termination theorems exclude. *)
Inductive failure := Throw (msg : string) | Terminate | Undefined | OutOfFuel.

Inductive result (X : Type) := Ok (x : X) | Err (e : failure).
Arguments Ok {X} _.
Arguments Err {X} _.

#[export] Instance result_ret : MRet result := fun _ x => Ok x.
#[export] Instance result_bind : MBind result := fun _ _ f m =>
  match m with Ok x => f x | Err e => Err e end.

#[export] Instance failure_eq_dec : EqDecision failure.
Proof. solve_decision. Defined.

Definition of_option {X} (e : failure) (o : option X) : result X :=
  match o with Some x => Ok x | None => Err e end.

(** The result of a computation that may throw, but neither ends the process
    nor runs out of fuel. *)
Definition settled {X} (r : result X) : Prop := r <> Err OutOfFuel.

Lemma bind_Ok {X Y} (m : result X) (f : X -> result Y) y :
  m ≫= f = Ok y <-> exists x, m = Ok x /\ f x = Ok y.
Proof. destruct m; cbn; naive_solver. Qed.

Lemma settled_Ok {X} (x : X) : settled (Ok x).
Proof. done. Qed.

Lemma settled_Err {X} e : e <> OutOfFuel -> settled (@Err X e).
Proof. unfold settled. congruence. Qed.

Lemma settled_bind {X Y} (m : result X) (f : X -> result Y) :
  settled m -> (forall x, m = Ok x -> settled (f x)) -> settled (m ≫= f).
Proof. destruct m; cbn; [naive_solver|]. unfold settled. congruence. Qed.

Lemma settled_of_option {X} e (o : option X) : e <> OutOfFuel -> settled (of_option e o).
Proof. destruct o; unfold settled; simpl; congruence. Qed.

(** ** Stateful computations that may throw *)

Definition SM (S X : Type) : Type := S -> result (X * S).

#[export] Instance SM_ret {S} : MRet (SM S) := fun _ x s => Ok (x, s).
#[export] Instance SM_bind {S} : MBind (SM S) := fun _ _ f m s =>
  match m s with Ok (x, s') => f x s' | Err e => Err e end.

Definition fail_with {S X} (e : failure) : SM S X := fun _ => Err e.
Definition throw {S X} (msg : string) : SM S X := fail_with (Throw msg).
Definition get_state {S} : SM S S := fun s => Ok (s, s).
Definition lift {S X} (r : result X) : SM S X := fun s => x ← r; Ok (x, s).

Lemma SM_bind_Ok {S X Y} (m : SM S X) (f : X -> SM S Y) s r :
  (m ≫= f) s = Ok r <-> exists x s', m s = Ok (x, s') /\ f x s' = Ok r.
Proof.
  unfold mbind, SM_bind. destruct (m s) as [[x s']|e]; [|naive_solver].
  split; [eauto|]. by intros (? & ? & [= -> ->] & ?).
Qed.

Lemma settled_SM_bind {S X Y} (m : SM S X) (f : X -> SM S Y) s :
  settled (m s) -> (forall x s', m s = Ok (x, s') -> settled (f x s')) -> settled ((m ≫= f) s).
Proof.
  unfold mbind, SM_bind. destruct (m s) as [[x s']|e]; [|unfold settled; congruence]. eauto.
Qed.

Create HintDb settled.
#[export] Hint Resolve settled_Ok settled_bind settled_SM_bind settled_of_option : settled.
#[export] Hint Extern 1 (settled (Err _)) => by apply settled_Err : settled.

(** *** Postconditions

    [post r Q]: the computation is not cut off, and if it has a result, [Q]
    holds of it. *)

Definition post {S X} (r : result (X * S)) (Q : X -> S -> Prop) : Prop :=
  match r with
  | Ok (x, s) => Q x s
  | Err OutOfFuel => False
  | Err _ => True
  end.

Lemma post_bind {S X Y} (m : SM S X) (f : X -> SM S Y) s (Q : Y -> S -> Prop) :
  post (m s) (fun x s' => post (f x s') Q) -> post ((m ≫= f) s) Q.
Proof. unfold mbind, SM_bind. by destruct (m s) as [[x s']|[]]. Qed.

Lemma post_mono {S X} (r : result (X * S)) (Q Q' : X -> S -> Prop) :
  post r Q -> (forall x s, Q x s -> Q' x s) -> post r Q'.
Proof. destruct r as [[x s]|[]]; cbn; auto. Qed.

Lemma post_settled {S X} (r : result (X * S)) Q : post r Q -> settled r.
Proof. destruct r as [[x s]|[]]; cbn; unfold settled; naive_solver. Qed.

Lemma post_Ok {S X} (r : result (X * S)) Q x s : post r Q -> r = Ok (x, s) -> Q x s.
Proof. by intros Hp ->. Qed.

(** The same for computations without state. *)
Definition outcome {X} (r : result X) (Q : X -> Prop) : Prop :=
  match r with
  | Ok x => Q x
  | Err OutOfFuel => False
  | Err _ => True
  end.

Lemma outcome_bind {X Y} (m : result X) (f : X -> result Y) (Q : Y -> Prop) :
  outcome m (fun x => outcome (f x) Q) -> outcome (m ≫= f) Q.
Proof. by destruct m as [x|[]]. Qed.

Lemma outcome_mono {X} (r : result X) (Q Q' : X -> Prop) :
  outcome r Q -> (forall x, Q x -> Q' x) -> outcome r Q'.
Proof. destruct r as [x|[]]; cbn; auto. Qed.

Lemma outcome_post {S X} (r : result (X * S)) (Q : X -> S -> Prop) :
  post r Q -> outcome r (fun xs => Q xs.1 xs.2).
Proof. by destruct r as [[x s]|[]]. Qed.

Lemma outcome_settled {X} (r : result X) : settled r -> outcome r (fun x => r = Ok x).
Proof. by destruct r as [x|[]]. Qed.

Lemma settled_outcome {X} (r : result X) Q : outcome r Q -> settled r.
Proof. destruct r as [x|[]]; cbn; unfold settled; naive_solver. Qed.
