(* ===== verification/Scanner.v ===== *)
(** * Scanner (include/parser/token.hpp, scanner.hpp, src/parser/token.cpp, scanner.cpp)

    The scanner turns one command of the configuration file into tokens. Its
    position in the command, [m_current_cmd_pos], is represented by the
    characters that are left, [m_rest]. *)

From Stdlib Require Import Strings.Ascii.
From S2P Require Import Prelude Result.

(** ** Tokens *)

Inductive token_type :=
  | TT_PROTOCOL | TT_MLDV1 | TT_MLDV2 | TT_IGMPV1 | TT_IGMPV2 | TT_IGMPV3
  | TT_PINSTANCE | TT_DOUBLE_DOT | TT_DOT | TT_ARROW | TT_UPSTREAM | TT_DOWNSTREAM
  | TT_OUT | TT_IN | TT_BLACKLIST | TT_WHITELIST | TT_RULE_MATCHING | TT_TABLE
  | TT_ALL | TT_FIRST | TT_MUTEX | TT_DISABLE
  | TT_LEFT_BRACE | TT_RIGHT_BRACE | TT_LEFT_BRACKET | TT_RIGHT_BRACKET
  | TT_RANGE | TT_SLASH | TT_STAR | TT_PIPE | TT_STRING | TT_NIL.

#[export] Instance token_type_eq_dec : EqDecision token_type.
Proof. solve_decision. Defined.

Record token := Token { get_type : token_type; get_string : string }.

#[export] Instance token_eq_dec : EqDecision token.
Proof. solve_decision. Defined.

(** The constructor with its default string. *)
Definition tok (t : token_type) : token := Token t "".

(** ** Characters

    The classification functions of the C library in the "C" locale, in which
    no character beyond 127 belongs to a class. *)

Definition code (c : ascii) : Z := Z.of_N (N_of_ascii c).
Definition between (lo hi : Z) (c : ascii) : bool := (lo <=? code c)%Z && (code c <=? hi)%Z.

Definition isspace (c : ascii) : bool := (code c =? 32)%Z || between 9 13 c.
Definition isdigit (c : ascii) : bool := between 48 57 c.
Definition isalpha (c : ascii) : bool := between 65 90 c || between 97 122 c.
Definition tolower (c : ascii) : ascii :=
  if between 65 90 c then ascii_of_N (Z.to_N (code c + 32)) else c.

Definition NUL : ascii := "000"%char.
Definition quote : ascii := ascii_of_N 34.

(** ** Reading characters *)

Record scanner := { m_current_cmd_char : ascii; m_rest : string }.

Definition read_next_char (s : scanner) : scanner :=
  match m_rest s with
  | EmptyString => {| m_current_cmd_char := NUL; m_rest := EmptyString |}
  | String c rest => {| m_current_cmd_char := c; m_rest := rest |}
  end.

(** [while (p(m_current_cmd_char)) { out << m_current_cmd_char; read_next_char(); }],
    for a [p] that is false at the end of the command. *)
Fixpoint span (p : ascii -> bool) (c : ascii) (rest : string) : string * scanner :=
  if p c then
    match rest with
    | EmptyString => (String c EmptyString, {| m_current_cmd_char := NUL; m_rest := EmptyString |})
    | String c' rest' => let '(out, s) := span p c' rest' in (String c out, s)
    end
  else (EmptyString, {| m_current_cmd_char := c; m_rest := rest |}).

Definition read_while (p : ascii -> bool) (s : scanner) : string * scanner :=
  span p (m_current_cmd_char s) (m_rest s).

Definition skip_spaces (s : scanner) : scanner := (read_while isspace s).2.

(** ** Reading tokens *)

Definition is_string (c : ascii) : bool := isalpha c || isdigit c || Ascii.eqb c "_".

Fixpoint to_lower (s : string) : string :=
  match s with
  | EmptyString => EmptyString
  | String c s' => String (tolower c) (to_lower s')
  end.

Definition keywords : list (string * token_type) :=
  [("protocol", TT_PROTOCOL); ("mldv1", TT_MLDV1); ("mldv2", TT_MLDV2);
   ("igmpv1", TT_IGMPV1); ("igmpv2", TT_IGMPV2); ("igmpv3", TT_IGMPV3);
   ("pinstance", TT_PINSTANCE); ("upstream", TT_UPSTREAM); ("downstream", TT_DOWNSTREAM);
   ("rulematching", TT_RULE_MATCHING); ("out", TT_OUT); ("in", TT_IN);
   ("blacklist", TT_BLACKLIST); ("whitelist", TT_WHITELIST); ("table", TT_TABLE);
   ("all", TT_ALL); ("first", TT_FIRST); ("mutex", TT_MUTEX); ("disable", TT_DISABLE)].

(** The chain of comparisons at the end of [read_next_token]. *)
Definition word_token (s : string) : token :=
  match find (fun kw => String.eqb (to_lower s) kw.1) keywords with
  | Some kw => tok kw.2
  | None => Token TT_STRING s
  end.

(** The tokens of one character. *)
Definition punctuation : list (ascii * token_type) :=
  [(":"%char, TT_DOUBLE_DOT); ("."%char, TT_DOT); ("{"%char, TT_LEFT_BRACE);
   ("}"%char, TT_RIGHT_BRACE); ("("%char, TT_LEFT_BRACKET); (")"%char, TT_RIGHT_BRACKET);
   ("-"%char, TT_RANGE); ("/"%char, TT_SLASH); ("*"%char, TT_STAR); ("|"%char, TT_PIPE)].

Definition in_quotes (c : ascii) : bool := negb (Ascii.eqb c NUL) && negb (Ascii.eqb c quote).

Definition unsupported_char : string := "failed to scan config file. Unsupported char".

Definition read_next_token (s : scanner) : result (token * scanner) :=
  let s := skip_spaces s in
  let c := m_current_cmd_char s in
  if Ascii.eqb c NUL then Ok (tok TT_NIL, s)
  else if Ascii.eqb c "=" then
    let s := read_next_char s in
    if Ascii.eqb (m_current_cmd_char s) "=" then
      let s := read_next_char s in
      if Ascii.eqb (m_current_cmd_char s) ">" then Ok (tok TT_ARROW, read_next_char s)
      else Ok (tok TT_NIL, s)
    else Ok (tok TT_NIL, s)
  else if Ascii.eqb c quote then
    let '(str, s) := read_while in_quotes (read_next_char s) in
    Ok (Token TT_STRING str, read_next_char s)
  else match find (fun p => Ascii.eqb c p.1) punctuation with
  | Some p => Ok (tok p.2, read_next_char s)
  | None =>
    if is_string c then
      let '(str, s) := read_while is_string s in Ok (word_token str, s)
    else Err (Throw unsupported_char)
  end.

(** The loop of [fill_token_vec]: tokens are read until the first [TT_NIL]. *)
Fixpoint fill_token_vec (fuel : nat) (s : scanner) : result (list token) :=
  match fuel with
  | O => Err OutOfFuel
  | S fuel =>
    '(t, s) ← read_next_token s;
    if bool_decide (get_type t = TT_NIL) then Ok []
    else ts ← fill_token_vec fuel s; Ok (t :: ts)
  end.

Definition scan_fuel (cmd : string) : nat := S (String.length cmd).

(** The constructor of the scanner: the token vector of a command. *)
Definition scan (cmd : string) : result (list token) :=
  fill_token_vec (scan_fuel cmd) (read_next_char {| m_current_cmd_char := NUL; m_rest := cmd |}).

(** ** The characters in front of the scanner

    Every state of the scanner is [at_text cs] for the text [cs] that begins
    with the current character. *)

Definition at_text (cs : string) : scanner :=
  read_next_char {| m_current_cmd_char := NUL; m_rest := cs |}.

Lemma read_next_char_at c cs : read_next_char (at_text (String c cs)) = at_text cs.
Proof. done. Qed.

Lemma scan_at cmd : scan cmd = fill_token_vec (scan_fuel cmd) (at_text cmd).
Proof. done. Qed.

Lemma read_while_stop p cs :
  p (m_current_cmd_char (at_text cs)) = false -> read_while p (at_text cs) = (EmptyString, at_text cs).
Proof. unfold read_while. destruct cs as [|c [|c' cs]]; cbn; by intros ->. Qed.

Lemma read_while_step p c cs :
  p NUL = false -> p c = true ->
  read_while p (at_text (String c cs))
  = (String c (read_while p (at_text cs)).1, (read_while p (at_text cs)).2).
Proof.
  intros Hn Hc. unfold read_while. destruct cs as [|c' cs]; cbn; rewrite Hc.
  - by rewrite Hn.
  - by destruct (span p c' cs).
Qed.

Lemma append_cons c (w cs : string) : String c w +:+ cs = String c (w +:+ cs).
Proof. done. Qed.

Lemma append_nil_l (cs : string) : EmptyString +:+ cs = cs.
Proof. done. Qed.

Lemma append_assoc (a b c : string) : (a +:+ b) +:+ c = a +:+ (b +:+ c).
Proof. induction a as [|x a IH]; [done|]. by rewrite !append_cons, IH. Qed.

Lemma append_nil_r (a : string) : a +:+ EmptyString = a.
Proof. induction a as [|x a IH]; [done|]. by rewrite append_cons, IH. Qed.

(** All characters of a text are in a class. *)
Fixpoint all_chars (p : ascii -> bool) (cs : string) : bool :=
  match cs with
  | EmptyString => true
  | String c cs' => p c && all_chars p cs'
  end.

(** A loop stops at the end or at the first character outside its class. *)
Lemma read_while_all p w cs :
  p NUL = false -> all_chars p w = true ->
  p (m_current_cmd_char (at_text cs)) = false ->
  read_while p (at_text (w +:+ cs)) = (w, at_text cs).
Proof.
  intros Hn Hw Hcs. induction w as [|c w IH].
  - by apply read_while_stop.
  - cbn in Hw. apply andb_true_iff in Hw as [Hc Hw].
    rewrite append_cons, read_while_step, IH by done. done.
Qed.

Lemma read_while_at p cs :
  p NUL = false ->
  exists cs', (read_while p (at_text cs)).2 = at_text cs' /\ String.length cs' <= String.length cs
    /\ (p (m_current_cmd_char (at_text cs)) = true -> String.length cs' < String.length cs).
Proof.
  intros Hn. induction cs as [|c cs IH].
  { exists EmptyString. rewrite read_while_stop by done. split_and!; [done|lia|]. cbn. by rewrite Hn. }
  destruct (p c) eqn:Hc.
  - rewrite read_while_step by done. destruct IH as (cs' & He & Hl & _).
    exists cs'. cbn. split_and!; [done|lia|lia].
  - rewrite read_while_stop by done. exists (String c cs). cbn. rewrite Hc. split_and!; [done|lia|done].
Qed.

Lemma read_next_char_at_le cs :
  exists cs', read_next_char (at_text cs) = at_text cs' /\ String.length cs' <= String.length cs
    /\ (m_current_cmd_char (at_text cs) <> NUL -> String.length cs' < String.length cs).
Proof.
  destruct cs as [|c cs]; [by exists EmptyString|]. exists cs. cbn. split_and!; [done|lia|lia].
Qed.

(** Every token but [TT_NIL] takes at least one character. *)
Lemma read_next_token_progress cs t s :
  read_next_token (at_text cs) = Ok (t, s) -> get_type t <> TT_NIL ->
  exists cs', s = at_text cs' /\ String.length cs' < String.length cs.
Proof.
  unfold read_next_token, skip_spaces.
  destruct (read_while_at isspace cs) as (cs1 & -> & Hle & _); [done|].
  destruct cs1 as [|c cs1]; cbn [at_text read_next_char m_rest m_current_cmd_char].
  { cbn. by intros [= <- <-]. }
  cbn [String.length] in Hle. change {| m_current_cmd_char := c; m_rest := cs1 |}
    with (at_text (String c cs1)). rewrite read_next_char_at.
  destruct (Ascii.eqb c NUL); [by intros [= <- <-]|].
  destruct (Ascii.eqb c "=").
  { destruct cs1 as [|c1 cs1]; cbn; [by intros [= <- <-]|].
    destruct (Ascii.eqb c1 "="); [|by intros [= <- <-]].
    destruct cs1 as [|c2 cs1]; cbn; [by intros [= <- <-]|].
    destruct (Ascii.eqb c2 ">"); [|by intros [= <- <-]].
    intros [= <- <-] _. exists cs1. split; [done|]. cbn in Hle. lia. }
  destruct (Ascii.eqb c quote).
  { destruct (read_while_at in_quotes cs1) as (cs2 & He & Hl2 & _); [done|].
    destruct (read_while in_quotes (at_text cs1)) as [str s2]. cbn in He. subst s2.
    destruct (read_next_char_at_le cs2) as (cs3 & -> & Hl3 & _).
    intros [= <- <-] _. exists cs3. split; [done|lia]. }
  destruct (find _ punctuation).
  { intros [= <- <-] _. exists cs1. split; [done|lia]. }
  destruct (is_string c) eqn:Hc; [|done].
  destruct (read_while_at is_string (String c cs1)) as (cs2 & He & _ & Hl2); [done|].
  destruct (read_while is_string _) as [str s2]. cbn in He. subst s2.
  intros [= <- <-] _. exists cs2. split; [done|]. specialize (Hl2 Hc). cbn in Hl2. lia.
Qed.

(** With enough fuel the result does not depend on it. *)
Lemma fill_token_vec_fuel n1 n2 cs :
  String.length cs < n1 -> String.length cs < n2 ->
  fill_token_vec n1 (at_text cs) = fill_token_vec n2 (at_text cs)
  /\ settled (fill_token_vec n1 (at_text cs)).
Proof.
  revert n2 cs. induction n1 as [|n1 IH]; intros [|n2] cs H1 H2; try lia.
  cbn [fill_token_vec].
  destruct (read_next_token (at_text cs)) as [[t s]|e] eqn:Ht; cbn [mbind result_bind].
  - case_bool_decide as Hnil; [done|].
    destruct (read_next_token_progress cs t s Ht Hnil) as (cs' & -> & Hlt).
    destruct (IH n2 cs') as [<- Hs]; [lia..|]. split; [done|].
    apply settled_bind; [done|]. intros. apply settled_Ok.
  - split; [done|]. intros [= ->]. unfold read_next_token in Ht.
    repeat case_match; simplify_eq.
Qed.

Lemma scan_step cs t cs' :
  read_next_token (at_text cs) = Ok (t, at_text cs') -> get_type t <> TT_NIL ->
  scan cs = (ts ← scan cs'; Ok (t :: ts)).
Proof.
  intros Ht Hnil. destruct (read_next_token_progress cs t _ Ht Hnil) as (cs2 & Hcs2 & Hlt).
  rewrite scan_at. unfold scan_fuel. cbn [fill_token_vec]. rewrite Ht. cbn [mbind result_bind].
  rewrite bool_decide_eq_false_2 by done. f_equal. rewrite scan_at. unfold scan_fuel.
  set (n := S (String.length cs + String.length cs')).
  destruct (fill_token_vec_fuel (S (String.length cs')) n cs') as [-> _]; [lia..|].
  rewrite Hcs2. apply fill_token_vec_fuel; lia.
Qed.

Lemma scan_nil cs s : read_next_token (at_text cs) = Ok (tok TT_NIL, s) -> scan cs = Ok [].
Proof. intros Ht. rewrite scan_at. unfold scan_fuel. cbn [fill_token_vec]. by rewrite Ht. Qed.

Lemma scan_settled cmd : settled (scan cmd).
Proof. rewrite scan_at. apply (fill_token_vec_fuel _ (scan_fuel cmd)); unfold scan_fuel; lia. Qed.

(** ** Scanning text piece by piece *)

Lemma skip_spaces_space c cs :
  isspace c = true -> skip_spaces (at_text (String c cs)) = skip_spaces (at_text cs).
Proof. intros Hc. unfold skip_spaces. by rewrite read_while_step. Qed.

Lemma skip_spaces_none c cs :
  isspace c = false -> skip_spaces (at_text (String c cs)) = at_text (String c cs).
Proof. intros Hc. unfold skip_spaces. by rewrite read_while_stop. Qed.

Lemma scan_space c cs : isspace c = true -> scan (String c cs) = scan cs.
Proof.
  intros Hc. rewrite !scan_at. unfold scan_fuel.
  assert (Hr : read_next_token (at_text (String c cs)) = read_next_token (at_text cs)).
  { unfold read_next_token. by rewrite skip_spaces_space. }
  transitivity (fill_token_vec (S (String.length (String c cs))) (at_text cs)).
  - cbn [fill_token_vec]. by rewrite Hr.
  - apply fill_token_vec_fuel; cbn; lia.
Qed.

(** A character that begins a word begins nothing else. *)
Lemma is_string_not c :
  is_string c = true ->
  isspace c = false /\ Ascii.eqb c NUL = false /\ Ascii.eqb c "=" = false
  /\ Ascii.eqb c quote = false /\ find (fun p => Ascii.eqb c p.1) punctuation = None.
Proof. destruct c as [[][][][][][][][]]; vm_compute; auto; discriminate. Qed.

Lemma punctuation_not c p :
  find (fun p => Ascii.eqb c p.1) punctuation = Some p ->
  isspace c = false /\ Ascii.eqb c NUL = false /\ Ascii.eqb c "=" = false
  /\ Ascii.eqb c quote = false /\ get_type (tok p.2) <> TT_NIL.
Proof.
  destruct c as [[][][][][][][][]]; vm_compute; try discriminate; intros [= <-]; done.
Qed.

Lemma word_token_not_nil w : get_type (word_token w) <> TT_NIL.
Proof.
  unfold word_token. destruct (find _ keywords) as [kw|] eqn:Hk; [|done].
  apply find_some in Hk as [Hin _]. cbn in *. intros Heq. repeat destruct Hin as [<-|Hin]; done.
Qed.

Lemma read_next_token_at c cs :
  isspace c = false -> Ascii.eqb c NUL = false -> Ascii.eqb c "=" = false ->
  read_next_token (at_text (String c cs)) =
  if Ascii.eqb c quote then
    let '(str, s) := read_while in_quotes (at_text cs) in
    Ok (Token TT_STRING str, read_next_char s)
  else match find (fun p => Ascii.eqb c p.1) punctuation with
  | Some p => Ok (tok p.2, at_text cs)
  | None =>
    if is_string c then
      let '(str, s) := read_while is_string (at_text (String c cs)) in Ok (word_token str, s)
    else Err (Throw unsupported_char)
  end.
Proof.
  intros Hs Hn He. unfold read_next_token. rewrite skip_spaces_none by done.
  change (m_current_cmd_char (at_text (String c cs))) with c. rewrite read_next_char_at.
  cbv zeta. by rewrite Hn, He.
Qed.

Lemma scan_punct c p cs :
  find (fun p => Ascii.eqb c p.1) punctuation = Some p ->
  scan (String c cs) = (ts ← scan cs; Ok (tok p.2 :: ts)).
Proof.
  intros Hp. destruct (punctuation_not c p Hp) as (Hs & Hn & He & Hq & Hnil).
  apply scan_step; [|done]. by rewrite read_next_token_at, Hq, Hp.
Qed.

Lemma scan_arrow cs : scan ("==>" +:+ cs) = (ts ← scan cs; Ok (tok TT_ARROW :: ts)).
Proof. apply scan_step; done. Qed.

(** The text behind a word does not continue it. *)
Definition word_ends (cs : string) : Prop := is_string (m_current_cmd_char (at_text cs)) = false.

Lemma scan_word w cs :
  w <> EmptyString -> all_chars is_string w = true -> word_ends cs ->
  scan (w +:+ cs) = (ts ← scan cs; Ok (word_token w :: ts)).
Proof.
  intros Hne Hw Hcs. apply scan_step; [|apply word_token_not_nil].
  destruct w as [|c w]; [done|]. pose proof Hw as Hc. cbn in Hc. apply andb_true_iff in Hc as [Hc _].
  destruct (is_string_not c Hc) as (Hs & Hn & He & Hq & Hp).
  rewrite append_cons, read_next_token_at, Hq, Hp, Hc, <- append_cons by done.
  by rewrite read_while_all.
Qed.

Lemma scan_quoted str cs :
  all_chars in_quotes str = true ->
  scan (String quote (str +:+ String quote cs))
  = (ts ← scan cs; Ok (Token TT_STRING str :: ts)).
Proof.
  intros Hs. apply scan_step; [|done]. rewrite read_next_token_at by done. cbn [Ascii.eqb].
  change (Ascii.eqb quote quote) with true. cbv iota. by rewrite read_while_all.
Qed.

(** ** Theorems *)

Lemma fill_token_vec_shape n s ts :
  fill_token_vec n s = Ok ts -> Forall (fun t => get_type t <> TT_NIL) ts.
Proof.
  revert s ts. induction n as [|n IH]; intros s ts; [done|]. cbn [fill_token_vec].
  intros ([t s'] & Ht & Hts)%bind_Ok. case_bool_decide; [by injection Hts as <-|].
  apply bind_Ok in Hts as (ts' & Hts' & [= <-]). constructor; eauto.
Qed.

Lemma fill_token_vec_error n s e :
  fill_token_vec n s = Err e -> e = OutOfFuel \/ e = Throw unsupported_char.
Proof.
  revert s. induction n as [|n IH]; intros s; [by intros [= <-]; left|]. cbn [fill_token_vec].
  destruct (read_next_token s) as [[t s']|e'] eqn:Ht; cbn [mbind result_bind].
  - case_bool_decide; [done|]. specialize (IH s').
    destruct (fill_token_vec n s'); cbn; [done|]. intros [= ->]. by apply IH.
  - intros [= ->]. right. unfold read_next_token in Ht. by repeat case_match; simplify_eq.
Qed.

(** Scanning a command always ends: with a vector of tokens, none of them
    the end marker, or with the exception for a character that begins no
    token. *)
Theorem scan_terminates cmd :
  (exists ts, scan cmd = Ok ts /\ Forall (fun t => get_type t <> TT_NIL) ts)
  \/ scan cmd = Err (Throw unsupported_char).
Proof.
  pose proof (scan_settled cmd) as Hs. destruct (scan cmd) as [ts|e] eqn:H.
  - left. exists ts. split; [done|]. rewrite scan_at in H. by apply fill_token_vec_shape in H.
  - right. rewrite scan_at in H. destruct (fill_token_vec_error _ _ _ H) as [->| ->]; [by destruct Hs|done].
Qed.

(** The spelling of a token: keywords and punctuation as in the grammar, names
    and numbers in quotes. *)
Definition spelling (t : token) : string :=
  match get_type t with
  | TT_STRING => String quote (get_string t +:+ String quote EmptyString)
  | TT_ARROW => "==>"
  | ty =>
    match find (fun p => bool_decide (p.2 = ty)) punctuation with
    | Some p => String p.1 EmptyString
    | None => match find (fun kw => bool_decide (kw.2 = ty)) keywords with
              | Some kw => kw.1
              | None => EmptyString
              end
    end
  end.

(** Tokens the scanner can deliver: no end marker, no text but that of names,
    and names without the end of text and the quote. *)
Definition writable (t : token) : Prop :=
  match get_type t with
  | TT_NIL => False
  | TT_STRING => all_chars in_quotes (get_string t) = true
  | _ => get_string t = EmptyString
  end.

Fixpoint spell (ts : list token) : string :=
  match ts with
  | [] => EmptyString
  | t :: ts' => spelling t +:+ String " " (spell ts')
  end.

Lemma scan_spelling_ends t cs' :
  writable t -> word_ends cs' -> scan (spelling t +:+ cs') = (ts ← scan cs'; Ok (t :: ts)).
Proof.
  intros Ht He. destruct t as [ty str]. unfold writable in Ht. cbn [get_type get_string] in Ht.
  destruct ty; try done; try subst str.
  31: { unfold spelling. cbn [get_type get_string].
        rewrite append_cons, append_assoc. by apply scan_quoted. }
  all: match goal with |- scan (spelling ?t +:+ _) = _ =>
         let s := eval vm_compute in (spelling t) in
         change (spelling t) with s;
         first [apply scan_arrow
               |refine (scan_word s cs' _ _ He); [discriminate|reflexivity]
               |match s with String ?c _ => exact (scan_punct c (c, get_type t) cs' eq_refl) end]
       end.
Qed.

Lemma scan_spelling t cs :
  writable t -> scan (spelling t +:+ String " " cs) = (ts ← scan cs; Ok (t :: ts)).
Proof. intros Ht. by rewrite scan_spelling_ends, scan_space. Qed.

Lemma scan_spell_app ts cs :
  Forall writable ts -> scan (spell ts +:+ cs) = (ts' ← scan cs; Ok (ts ++ ts')).
Proof.
  induction 1 as [|t ts Ht Hts IH]; cbn [spell].
  { rewrite append_nil_l. by destruct (scan cs). }
  rewrite append_assoc, append_cons, scan_spelling, IH by done. by destruct (scan cs).
Qed.

(** Scanning is a left inverse of spelling, also when the last token is followed by
    nothing, as in a command that was trimmed. *)
Lemma scan_spelled_command ts t :
  Forall writable ts -> writable t -> scan (spell ts +:+ spelling t) = Ok (ts ++ [t]).
Proof.
  intros Hts Ht. rewrite scan_spell_app by done. rewrite <- (append_nil_r (spelling t)).
  by rewrite scan_spelling_ends.
Qed.

Theorem scan_spell ts : Forall writable ts -> scan (spell ts) = Ok ts.
Proof.
  intros Hts. rewrite <- (append_nil_r (spell ts)), scan_spell_app by done.
  change (scan EmptyString) with (Ok (X:=list token) []). cbn. by rewrite app_nil_r.
Qed.

Lemma read_next_token_equals cs :
  read_next_token (at_text (String "=" cs)) =
  let s := at_text cs in
  if Ascii.eqb (m_current_cmd_char s) "=" then
    let s := read_next_char s in
    if Ascii.eqb (m_current_cmd_char s) ">" then Ok (tok TT_ARROW, read_next_char s)
    else Ok (tok TT_NIL, s)
  else Ok (tok TT_NIL, s).
Proof. unfold read_next_token. by rewrite skip_spaces_none. Qed.

(** A lone equals sign ends the command: what follows is never looked at. *)
Lemma scan_equals_ends cs :
  (forall r, cs <> "=>" +:+ r) -> scan (String "=" cs) = Ok [].
Proof.
  intros Hcs.
  destruct (Ascii.eqb_spec (m_current_cmd_char (at_text cs)) "=") as [Hc|Hc].
  - destruct cs as [|c cs]; [done|]. cbn in Hc. subst c.
    destruct (Ascii.eqb_spec (m_current_cmd_char (at_text cs)) ">") as [Hc|Hc].
    + destruct cs as [|c cs]; [done|]. cbn in Hc. subst c. by destruct (Hcs cs).
    + eapply scan_nil. rewrite read_next_token_equals. cbv zeta.
      rewrite read_next_char_at. apply Ascii.eqb_neq in Hc. by rewrite Hc.
  - eapply scan_nil. rewrite read_next_token_equals. cbv zeta.
    apply Ascii.eqb_neq in Hc. by rewrite Hc.
Qed.
