(* ===== verification/AddrStorage.v ===== *)
(** * IP addresses (include/utils/addr_storage.hpp, src/utils/addr_storage.cpp)

    [addr_storage] wraps a [sockaddr_storage]. The model keeps the fields the
    class touches: the family, the port and the address octets in memory
    (network) order. [sin_addr] and [sin6_flowinfo] are the same four octets of
    the structure, as in the C layout. *)

From Stdlib Require Import Strings.Ascii.
From S2P Require Import Prelude Def.

Local Open Scope Z_scope.

(** ** Octets and words *)

(** [ntohl]/[htonl] on octets in network order: the big endian value. *)
Definition be_value (bs : list Z) : Z := fold_left (fun acc b => acc * 256 + b) bs 0.

Definition to_be32 (z : Z) : list Z :=
  [(z / 2 ^ 24) mod 256; (z / 2 ^ 16) mod 256; (z / 2 ^ 8) mod 256; z mod 256].

Definition is_octet (b : Z) : Prop := 0 <= b < 256.
Definition octets (n : nat) (bs : list Z) : Prop := length bs = n /\ Forall is_octet bs.

(** [s6_addr32[i]] as octets, and its replacement. *)
Definition word32 (i : nat) (bs : list Z) : list Z := take 4 (drop (4 * i) bs).
Definition set_word32 (i : nat) (w bs : list Z) : list Z :=
  take (4 * i) bs ++ w ++ drop (4 * i + 4) bs.

(** ** The class *)

Record addr_storage := {
  ss_family : addr_family;
  port : Z;
  sin_addr : list Z;   (* four octets, also sin6_flowinfo *)
  sin6_addr : list Z   (* sixteen octets *)
}.

Definition zeros (n : nat) : list Z := replicate n 0.

(** [clean()] sets the family, the port and the flow info, not the address. *)
Definition clean (a : addr_storage) : addr_storage :=
  {| ss_family := AF_UNSPEC; port := 0; sin_addr := zeros 4; sin6_addr := sin6_addr a |}.

Definition set_invalid (a : addr_storage) : addr_storage := clean a.

Definition set_addr_family (f : addr_family) (a : addr_storage) : addr_storage :=
  {| ss_family := f; port := port a; sin_addr := sin_addr a; sin6_addr := sin6_addr a |}.

(** [addr_storage(int addr_family)]: all octets zero. *)
Definition of_family (f : addr_family) : addr_storage :=
  {| ss_family := f; port := 0; sin_addr := zeros 4; sin6_addr := zeros 16 |}.

Definition set_in_addr (w : list Z) (a : addr_storage) : addr_storage :=
  {| ss_family := ss_family a; port := port a; sin_addr := w; sin6_addr := sin6_addr a |}.

Definition set_in6_addr (w : list Z) (a : addr_storage) : addr_storage :=
  {| ss_family := ss_family a; port := port a; sin_addr := sin_addr a; sin6_addr := w |}.

(** Assignment from [in_addr] and [in6_addr]. *)
Definition assign_in_addr (a : addr_storage) (s : list Z) : addr_storage :=
  set_in_addr s (set_addr_family AF_INET (clean a)).

Definition assign_in6_addr (a : addr_storage) (s : list Z) : addr_storage :=
  set_in6_addr s (set_addr_family AF_INET6 (clean a)).

(** Assignment from text; [inet_pton] is the C library's. *)
Definition assign_string (inet_pton : addr_family -> string -> option (list Z))
    (a : addr_storage) (s : string) : addr_storage :=
  let a := clean a in
  if negb (existsb (Ascii.eqb ":"%char) (String.list_ascii_of_string s)) then
    let a := set_addr_family AF_INET a in
    match inet_pton AF_INET s with
    | Some w => set_in_addr w a
    | None => set_invalid a
    end
  else
    let a := set_addr_family AF_INET6 a in
    match inet_pton AF_INET6 s with
    | Some w => set_in6_addr w a
    | None => set_invalid a
    end.

Definition get_addr_len (a : addr_storage) : Z :=
  match ss_family a with AF_INET => 16 | AF_INET6 => 28 | AF_UNSPEC => 0 end.

Definition operator_eq (a b : addr_storage) : bool :=
  match ss_family a, ss_family b with
  | AF_INET, AF_INET => bool_decide (sin_addr a = sin_addr b)
  | AF_INET6, AF_INET6 => bool_decide (sin6_addr a = sin6_addr b)
  | _, _ => false
  end.

Definition operator_ne (a b : addr_storage) : bool := negb (operator_eq a b).

(** The loop of [operator<] over the octets of two IPv6 addresses. *)
Fixpoint octets_lt (a1 a2 : list Z) : bool :=
  match a1, a2 with
  | x :: a1', y :: a2' => if y <? x then false else if x <? y then true else octets_lt a1' a2'
  | _, _ => false
  end.

Definition operator_lt (a b : addr_storage) : bool :=
  match ss_family a, ss_family b with
  | AF_INET, AF_INET => be_value (sin_addr a) <? be_value (sin_addr b)
  | AF_INET6, AF_INET6 => octets_lt (sin6_addr a) (sin6_addr b)
  | _, _ => false
  end.

Definition operator_gt (a b : addr_storage) : bool :=
  negb (operator_lt a b) && negb (operator_eq a b).
Definition operator_le (a b : addr_storage) : bool := operator_lt a b || operator_eq a b.
Definition operator_ge (a b : addr_storage) : bool := negb (operator_lt a b).

(** The carry loop of [operator++] over the four words, from [i = 3] down. *)
Fixpoint incr_words (n : nat) (bs : list Z) : list Z :=
  match n with
  | O => bs
  | S i =>
    let tmp := to_be32 (to_uint32 (be_value (word32 i bs) + 1)) in
    let bs := set_word32 i tmp bs in
    if negb (bool_decide (tmp = zeros 4)) then bs else incr_words i bs
  end.

Definition operator_incr (a : addr_storage) : addr_storage :=
  match ss_family a with
  | AF_INET => set_in_addr (to_be32 (to_uint32 (be_value (sin_addr a) + 1))) a
  | AF_INET6 => set_in6_addr (incr_words 4 (sin6_addr a)) a
  | AF_UNSPEC => a
  end.

(** Postfix [++] returns (value, new object): the value is the incremented one. *)
Definition operator_incr_post (a : addr_storage) : addr_storage * addr_storage :=
  (operator_incr a, operator_incr a).

Fixpoint decr_words (n : nat) (bs : list Z) : list Z :=
  match n with
  | O => bs
  | S i =>
    let tmp := to_be32 (to_uint32 (be_value (word32 i bs) - 1)) in
    let bs := set_word32 i tmp bs in
    if negb (bool_decide (tmp = replicate 4 255)) then bs else decr_words i bs
  end.

Definition operator_decr (a : addr_storage) : addr_storage :=
  match ss_family a with
  | AF_INET => set_in_addr (to_be32 (to_uint32 (be_value (sin_addr a) - 1))) a
  | AF_INET6 => set_in6_addr (decr_words 4 (sin6_addr a)) a
  | AF_UNSPEC => a
  end.

(** Postfix [--] calls the prefix [++]. *)
Definition operator_decr_post (a : addr_storage) : addr_storage * addr_storage :=
  (operator_incr a, operator_incr a).

Definition get_port (a : addr_storage) : Z := port a.
Definition set_port (p : Z) (a : addr_storage) : addr_storage :=
  {| ss_family := ss_family a; port := p mod 2 ^ 16; sin_addr := sin_addr a;
     sin6_addr := sin6_addr a |}.

Definition zip_land (a b : list Z) : list Z := zip_with Z.land a b.
Definition zip_lor (a b : list Z) : list Z := zip_with Z.lor a b.

Definition mask_ipv4 (a subnet_mask : addr_storage) : addr_storage :=
  match ss_family a, ss_family subnet_mask with
  | AF_INET, AF_INET => set_in_addr (zip_land (sin_addr a) (sin_addr subnet_mask)) a
  | _, _ => a
  end.

(** [static_cast<unsigned int>(-1) >> suffix]; shifting a 32 bit value by 32
    or more is undefined behaviour, [None]. *)
Definition host_bits (suffix : Z) : option Z :=
  if (0 <=? suffix) && (suffix <? 32) then Some (Z.shiftr (2 ^ 32 - 1) suffix) else None.

(** The word loop of [mask] and [broadcast_addr]: [f] changes the word the
    prefix ends in, [fill] replaces the words behind it. *)
Fixpoint prefix_words (f : list Z -> Z -> list Z) (fill : list Z) (suffix : Z)
    (n : nat) (bs : list Z) : option (list Z) :=
  match n with
  | O => Some bs
  | S i =>
    let tmp_suffix := suffix - Z.of_nat i * 32 in
    if tmp_suffix <=? 0 then prefix_words f fill suffix i (set_word32 i fill bs)
    else if tmp_suffix <? 32 then
      match host_bits suffix with
      | Some h => prefix_words f fill suffix i (set_word32 i (f (word32 i bs) h) bs)
      | None => None
      end
    else Some bs
  end.

Definition and_not (w : list Z) (h : Z) : list Z := zip_land w (to_be32 (2 ^ 32 - 1 - h)).
Definition or_host (w : list Z) (h : Z) : list Z := zip_lor w (to_be32 h).

Definition mask (suffix : Z) (a : addr_storage) : option addr_storage :=
  match ss_family a with
  | AF_INET => h ← host_bits suffix; Some (set_in_addr (and_not (sin_addr a) h) a)
  | AF_INET6 =>
    bs ← prefix_words and_not (zeros 4) suffix 4 (sin6_addr a); Some (set_in6_addr bs a)
  | AF_UNSPEC => Some a
  end.

Definition broadcast_addr (suffix : Z) (a : addr_storage) : option addr_storage :=
  match ss_family a with
  | AF_INET => h ← host_bits suffix; Some (set_in_addr (or_host (sin_addr a) h) a)
  | AF_INET6 =>
    bs ← prefix_words or_host (replicate 4 255) suffix 4 (sin6_addr a);
    Some (set_in6_addr bs a)
  | AF_UNSPEC => Some a
  end.

(** [IN_MULTICAST]: class D; [IN6_IS_ADDR_MULTICAST]: first octet 0xff. *)
Definition is_multicast_addr (a : addr_storage) : bool :=
  match ss_family a with
  | AF_INET => Z.land (be_value (sin_addr a)) 0xf0000000 =? 0xe0000000
  | AF_INET6 => default 0 (head (sin6_addr a)) =? 0xff
  | AF_UNSPEC => false
  end.

Definition is_valid (a : addr_storage) : bool := negb (bool_decide (ss_family a = AF_UNSPEC)).

Definition addr_wf (a : addr_storage) : Prop :=
  octets 4 (sin_addr a) /\ octets 16 (sin6_addr a).

(** The number an address stands for. *)
Definition addr_value (a : addr_storage) : Z :=
  match ss_family a with
  | AF_INET => be_value (sin_addr a)
  | AF_INET6 => be_value (sin6_addr a)
  | AF_UNSPEC => 0
  end.

(** ** Octet strings as numbers *)

Lemma be_value_acc acc bs :
  fold_left (fun acc b => acc * 256 + b) bs acc
  = acc * 256 ^ Z.of_nat (length bs) + be_value bs.
Proof.
  unfold be_value. revert acc. induction bs as [|b bs IH]; intros acc; cbn [fold_left length].
  { rewrite Z.pow_0_r. lia. }
  rewrite IH, (IH (0 * 256 + b)), Nat2Z.inj_succ, Z.pow_succ_r by lia. lia.
Qed.

Lemma be_value_cons b bs : be_value (b :: bs) = b * 256 ^ Z.of_nat (length bs) + be_value bs.
Proof. unfold be_value at 1. cbn [fold_left]. by rewrite be_value_acc. Qed.

Lemma be_value_app l r : be_value (l ++ r) = be_value l * 256 ^ Z.of_nat (length r) + be_value r.
Proof. unfold be_value at 1. by rewrite fold_left_app, be_value_acc. Qed.

Lemma be_value_bound bs : Forall is_octet bs -> 0 <= be_value bs < 256 ^ Z.of_nat (length bs).
Proof.
  induction 1 as [|b bs Hb Hbs IH]; [done|]. unfold is_octet in Hb.
  rewrite be_value_cons. cbn [length]. rewrite Nat2Z.inj_succ, Z.pow_succ_r by lia. nia.
Qed.

Lemma be_value_inj l r :
  Forall is_octet l -> Forall is_octet r -> length l = length r ->
  be_value l = be_value r -> l = r.
Proof.
  intros Hl. revert r. induction Hl as [|x l Hx Hl IH]; intros r Hr Hlen Hv.
  { by destruct r. }
  destruct Hr as [|y r Hy Hr]; [done|]. simpl in Hlen. injection Hlen as Hlen.
  rewrite !be_value_cons, Hlen in Hv.
  pose proof (be_value_bound l Hl) as Bl. pose proof (be_value_bound r Hr) as Br.
  rewrite Hlen in Bl. assert (x = y) as -> by nia. f_equal. apply IH; [done..|lia].
Qed.

Lemma octets_lt_value l r :
  Forall is_octet l -> Forall is_octet r -> length l = length r ->
  octets_lt l r = (be_value l <? be_value r).
Proof.
  intros Hl. revert r. induction Hl as [|x l Hx Hl IH]; intros r Hr Hlen.
  { by destruct r. }
  destruct Hr as [|y r Hy Hr]; [done|]. simpl in Hlen. injection Hlen as Hlen.
  rewrite !be_value_cons, Hlen. cbn [octets_lt].
  pose proof (be_value_bound l Hl) as Bl. pose proof (be_value_bound r Hr) as Br.
  rewrite Hlen in Bl. symmetry.
  destruct (Z.ltb_spec y x); [apply Z.ltb_ge; nia|].
  destruct (Z.ltb_spec x y); [apply Z.ltb_lt; nia|].
  assert (x = y) as -> by lia. rewrite IH by done.
  destruct (Z.ltb_spec (be_value l) (be_value r)); [apply Z.ltb_lt|apply Z.ltb_ge]; lia.
Qed.

Lemma to_be32_octets z : octets 4 (to_be32 z).
Proof.
  split; [done|]. unfold to_be32. repeat constructor; apply Z.mod_pos_bound; lia.
Qed.

Lemma be_value_to_be32 z : 0 <= z < 2 ^ 32 -> be_value (to_be32 z) = z.
Proof.
  intros Hz. unfold be_value, to_be32. cbn [fold_left].
  change (2 ^ 24) with 16777216. change (2 ^ 16) with 65536. change (2 ^ 8) with 256.
  change (2 ^ 32) with 4294967296 in Hz. Z.div_mod_to_equations. lia.
Qed.

(** *** Order and equality within a family *)

Definition same_family (f : addr_family) (a : addr_storage) : Prop :=
  addr_wf a /\ ss_family a = f /\ f <> AF_UNSPEC.

Lemma operator_lt_value f a b :
  same_family f a -> same_family f b -> operator_lt a b = (addr_value a <? addr_value b).
Proof.
  intros ([[? ?] [? ?]] & Ha & Hf) ([[? ?] [? ?]] & Hb & _).
  unfold operator_lt, addr_value. rewrite Ha, Hb. destruct f; [done|done|].
  apply octets_lt_value; congruence.
Qed.

Lemma operator_eq_value f a b :
  same_family f a -> same_family f b -> operator_eq a b = (addr_value a =? addr_value b).
Proof.
  intros ([[? ?] [? ?]] & Ha & Hf) ([[? ?] [? ?]] & Hb & _).
  unfold operator_eq, addr_value. rewrite Ha, Hb. destruct f; [done| |];
    (case_bool_decide as He; [by rewrite He, Z.eqb_refl|]);
    symmetry; apply Z.eqb_neq; intros Hv; apply He; apply be_value_inj; congruence.
Qed.

(** On addresses of one family the comparison operators are those of a
    total order: exactly one of [<], [==], [>] holds, [<=] and [>=] are their
    disjunctions, and [<] is transitive, as [std::map] and [std::set] require
    of the keys they hold. *)
Theorem addr_storage_total_order f a b c :
  same_family f a -> same_family f b -> same_family f c ->
  (operator_lt a b = true <-> operator_gt b a = true) /\
  (operator_le a b = true <-> operator_ge b a = true) /\
  (operator_lt a b = true \/ operator_eq a b = true \/ operator_lt b a = true) /\
  (operator_lt a b = true -> operator_lt b a = false /\ operator_eq a b = false) /\
  (operator_lt a b = true -> operator_lt b c = true -> operator_lt a c = true).
Proof.
  intros Ha Hb Hc. unfold operator_gt, operator_le, operator_ge.
  rewrite !(operator_lt_value f), !(operator_eq_value f) by done.
  repeat match goal with
  | |- context [?x <? ?y] => destruct (Z.ltb_spec x y)
  | |- context [?x =? ?y] => destruct (Z.eqb_spec x y)
  end; cbn [negb andb orb]; split_and!; try split; try lia; intros; try discriminate; auto; lia.
Qed.

Definition ip4 (a b c d : Z) : addr_storage := assign_in_addr (of_family AF_INET) [a; b; c; d].

(** The IPv6 address [a:0:0:0:0:0:0:b]. *)
Definition ip6 (a b : Z) : addr_storage :=
  assign_in6_addr (of_family AF_INET6) ([a / 256; a mod 256] ++ zeros 12 ++ [b / 256; b mod 256]).

Lemma ip4_same_family a b c d :
  is_octet a -> is_octet b -> is_octet c -> is_octet d -> same_family AF_INET (ip4 a b c d).
Proof.
  intros. split; [|done]. repeat split; simpl;
    repeat (apply Forall_cons_2; [done|]); try apply Forall_nil_2.
Qed.

Lemma addr_storage_total_order_witness :
  operator_lt (ip4 10 0 0 1) (ip4 10 0 0 2) = true /\
  operator_lt (ip4 10 0 0 1) (ip4 224 0 0 1) = true.
Proof.
  split; [reflexivity|].
  apply (addr_storage_total_order AF_INET (ip4 10 0 0 1) (ip4 10 0 0 2) (ip4 224 0 0 1));
    try (apply ip4_same_family; unfold is_octet; lia); reflexivity.
Defined.

(** *** Increment *)

Lemma set_word32_split i w bs :
  length bs = 16%nat -> length w = 4%nat -> (i < 4)%nat ->
  exists hi lo, bs = hi ++ word32 i bs ++ lo /\ set_word32 i w bs = hi ++ w ++ lo /\
    length hi = (4 * i)%nat /\ length lo = (12 - 4 * i)%nat /\ length (word32 i bs) = 4%nat.
Proof.
  intros Hb Hw Hi. exists (take (4 * i) bs), (drop (4 * i + 4) bs).
  unfold word32, set_word32. split_and!; [|done|rewrite length_take; lia
    |rewrite length_drop; lia|rewrite length_take, length_drop; lia].
  by rewrite <- drop_drop, !take_drop.
Qed.

(** The carry loop adds one to the number formed by the first [n] words. *)
Lemma incr_words_spec n bs :
  (n <= 4)%nat -> octets 16 bs ->
  octets 16 (incr_words n bs) /\
  exists hi lo, bs = hi ++ lo /\ length hi = (4 * n)%nat /\
    exists hi', incr_words n bs = hi' ++ lo /\ length hi' = (4 * n)%nat /\
      be_value hi' = (be_value hi + 1) mod 256 ^ Z.of_nat (4 * n).
Proof.
  intros Hn. revert bs. induction n as [|i IH]; intros bs Hbs.
  { split; [done|]. exists [], bs. do 2 (split; [done|]). exists []. split_and!; [done..|].
    by rewrite Z.mod_1_r. }
  cbn [incr_words]. set (tmp := to_be32 _).
  destruct Hbs as [Hlen Hoct].
  destruct (set_word32_split i tmp bs) as (hi & lo & Ebs & Es & Hhi & Hlo & Hw);
    [done|apply to_be32_octets|lia|].
  rewrite Es. set (w := word32 i bs) in *. clearbody w. subst bs.
  rewrite !Forall_app in Hoct. destruct Hoct as (Ohi & Ow & Olo).
  pose proof (be_value_bound w Ow) as Bw. rewrite Hw in Bw.
  change (256 ^ Z.of_nat 4) with (2 ^ 32) in Bw.
  pose proof (be_value_bound hi Ohi) as Bhi.
  destruct (to_be32_octets (to_uint32 (be_value w + 1))) as [Lt Ot]. fold tmp in Lt, Ot.
  assert (Vt : be_value tmp = (be_value w + 1) mod 2 ^ 32).
  { unfold tmp. apply be_value_to_be32. apply Z.mod_pos_bound. lia. }
  assert (Hoct' : octets 16 (hi ++ tmp ++ lo)).
  { split; [rewrite !length_app; lia|by rewrite !Forall_app]. }
  assert (Hpow : 256 ^ Z.of_nat (4 * S i) = 256 ^ Z.of_nat (4 * i) * 2 ^ 32).
  { replace (Z.of_nat (4 * S i)) with (Z.of_nat (4 * i) + 4) by lia.
    by rewrite Z.pow_add_r by lia. }
  rewrite Hhi in Bhi. case_bool_decide as Hz; cbn [negb].
  - destruct (IH ltac:(lia) _ Hoct') as [IHo (hi1 & lo1 & E1 & L1 & hi2 & E2 & L2 & V2)].
    apply app_inj_1 in E1 as [<- <-]; [|lia]. split; [done|].
    exists (hi ++ w), lo. split; [by rewrite <- app_assoc|]. split; [rewrite length_app; lia|].
    exists (hi2 ++ tmp). rewrite E2, <- app_assoc, !length_app, !be_value_app, Lt, Hw.
    split_and!; [done|lia|]. change (256 ^ Z.of_nat 4) with (2 ^ 32).
    rewrite V2, Vt, Hpow.
    assert (be_value tmp = 0) as V0 by (by rewrite Hz). rewrite V0 in Vt.
    assert (be_value w + 1 = 2 ^ 32) as Hw1.
    { destruct (decide (be_value w + 1 = 2 ^ 32)); [done|].
      rewrite Z.mod_small in Vt by lia. lia. }
    replace (be_value hi * 2 ^ 32 + be_value w + 1) with ((be_value hi + 1) * 2 ^ 32) by lia.
    rewrite Z.mul_mod_distr_r by (try apply Z.pow_nonzero; lia). rewrite <- Vt. lia.
  - split; [done|]. exists (hi ++ w), lo. split; [by rewrite <- app_assoc|].
    split; [rewrite length_app; lia|]. exists (hi ++ tmp).
    rewrite <- app_assoc, !length_app, !be_value_app, Lt, Hw. split_and!; [done|lia|].
    change (256 ^ Z.of_nat 4) with (2 ^ 32). rewrite Vt, Hpow.
    assert (be_value w + 1 <> 2 ^ 32) as Hne.
    { intros Hw1. apply Hz. unfold tmp, to_uint32. rewrite Hw1, Z.mod_same by lia. reflexivity. }
    rewrite (Z.mod_small (be_value w + 1)) by lia. rewrite Z.mod_small; nia.
Qed.

(** The prefix [++] adds one to the address, with the carry running through
    the words of an IPv6 address and wrapping after the last address. *)
Theorem operator_incr_value f a :
  same_family f a ->
  same_family f (operator_incr a) /\
  addr_value (operator_incr a)
    = (addr_value a + 1) mod (match f with AF_INET6 => 2 ^ 128 | _ => 2 ^ 32 end).
Proof.
  intros ([O4 O6] & Hf & Hne). unfold operator_incr, same_family, addr_wf, addr_value.
  rewrite Hf. destruct f; [done| |]; cbn [ss_family sin_addr sin6_addr set_in_addr set_in6_addr];
    rewrite Hf.
  - split; [split_and!; try done; apply to_be32_octets|].
    rewrite be_value_to_be32; [done|]. apply Z.mod_pos_bound. lia.
  - destruct (incr_words_spec 4 (sin6_addr a))
      as [Ho (hi & lo & E & L & hi' & E' & L' & V)]; [lia|done|]. split; [split_and!; done|].
    assert (lo = []) as ->.
    { destruct O6 as [L6 _]. apply nil_length_inv. rewrite E, length_app in L6. lia. }
    rewrite app_nil_r in *. rewrite E', V, <- E. reflexivity.
Qed.

Lemma operator_incr_value_witness :
  same_family AF_INET (operator_incr (ip4 10 0 0 255)) /\
  addr_value (operator_incr (ip4 10 0 0 255)) = (addr_value (ip4 10 0 0 255) + 1) mod 2 ^ 32.
Proof.
  apply (operator_incr_value AF_INET). apply ip4_same_family; unfold is_octet; lia.
Defined.

(** The postfix operators do not do what their names say: [a++] returns
    the incremented address instead of the old one, and [a--] increments. *)
Theorem postfix_operators_wrong :
  fst (operator_incr_post (ip4 10 0 0 1)) <> ip4 10 0 0 1 /\
  snd (operator_decr_post (ip4 10 0 0 1)) = ip4 10 0 0 2 /\
  operator_decr (ip4 10 0 0 1) = ip4 10 0 0 0.
Proof. split_and!; [|reflexivity|reflexivity]. intros H%(f_equal sin_addr). discriminate H. Qed.

(** *** Prefixes *)

Lemma pow_256 n : 256 ^ Z.of_nat n = 2 ^ (8 * Z.of_nat n).
Proof. by rewrite Z.pow_mul_r by lia. Qed.

Section Bitwise.
Context (op : Z -> Z -> Z)
  (op_fields : forall a b c d k, 0 <= k -> 0 <= b < 2 ^ k -> 0 <= d < 2 ^ k ->
     op (a * 2 ^ k + b) (c * 2 ^ k + d) = op a c * 2 ^ k + op b d)
  (op_0 : op 0 0 = 0).

(** A bitwise operation on octets is the operation on the numbers. *)
Lemma be_value_zip l r :
  Forall is_octet l -> Forall is_octet r -> length l = length r ->
  be_value (zip_with op l r) = op (be_value l) (be_value r).
Proof using op_fields op_0.
  intros Hl. revert r. induction Hl as [|x l Hx Hl IH]; intros r Hr Hlen.
  { by destruct r. }
  destruct Hr as [|y r Hy Hr]; [done|]. simpl in Hlen. injection Hlen as Hlen.
  cbn [zip_with]. rewrite !be_value_cons, IH, length_zip_with, <- Hlen, Nat.min_id by done.
  pose proof (be_value_bound l Hl) as Bl. pose proof (be_value_bound r Hr) as Br.
  rewrite <- Hlen in Br. rewrite pow_256 in *. symmetry. apply op_fields; lia.
Qed.
End Bitwise.

Lemma octets_zip (op : Z -> Z -> Z) n l r :
  (forall x y, is_octet x -> is_octet y -> is_octet (op x y)) ->
  octets n l -> octets n r -> octets n (zip_with op l r).
Proof.
  intros Hop [Ll Ol] [Lr Or]. split; [rewrite length_zip_with; lia|].
  revert r n Ll Lr Or. induction Ol as [|x l Hx Ol IH]; intros r n Ll Lr Or; [constructor|].
  destruct Or as [|y r Hy Or]; [constructor|]. cbn. constructor; [auto|].
  eapply IH; [reflexivity| |done]. simpl in *. lia.
Qed.

Lemma land_octet x y : is_octet x -> is_octet y -> is_octet (Z.land x y).
Proof. intros Hx _. by apply (land_range x y 8). Qed.

Lemma lor_octet x y : is_octet x -> is_octet y -> is_octet (Z.lor x y).
Proof. intros Hx Hy. by apply (lor_range x y 8). Qed.

Lemma set_in_addr_family a w :
  same_family AF_INET a -> octets 4 w -> same_family AF_INET (set_in_addr w a).
Proof. intros ([_ O6] & Hf & Hne) Hw. repeat split; simpl; try apply Hw; try apply O6; done. Qed.

Lemma host_bits_Some n : 0 <= n < 32 -> host_bits n = Some (Z.ones (32 - n)).
Proof.
  intros Hn. unfold host_bits.
  rewrite (proj2 (Z.leb_le 0 n)), (proj2 (Z.ltb_lt n 32)) by lia. cbn [andb].
  change (2 ^ 32 - 1) with (Z.ones 32). by rewrite Z.shiftr_div_pow2, Z.ones_div_pow2 by lia.
Qed.

Lemma land_network v k :
  0 <= k <= 32 -> 0 <= v < 2 ^ 32 -> Z.land v (2 ^ 32 - 1 - Z.ones k) = v - v mod 2 ^ k.
Proof.
  intros Hk Hv. pose proof (Z.div_mod v (2 ^ k)) as Hd.
  pose proof (Z.mod_pos_bound v (2 ^ k)) as Hr. pose proof (Z.pow_pos_nonneg 2 k) as Hp.
  assert (2 ^ 32 - 1 - Z.ones k = (2 ^ (32 - k) - 1) * 2 ^ k + 0) as ->.
  { rewrite Z.ones_equiv, Z.mul_sub_distr_r, <- Z.pow_add_r by lia.
    replace (32 - k + k) with 32 by lia. lia. }
  rewrite Hd at 1 by lia. rewrite (Z.mul_comm (2 ^ k)), land_fields by lia.
  rewrite Z.land_0_r, Z.add_0_r. replace (2 ^ (32 - k) - 1) with (Z.ones (32 - k)) by (rewrite Z.ones_equiv; lia).
  rewrite Z.land_ones by lia.
  rewrite Z.mod_small; [lia|]. split; [apply Z.div_pos; lia|].
  apply Z.div_lt_upper_bound; [lia|]. rewrite <- Z.pow_add_r by lia.
  replace (k + (32 - k)) with 32 by lia. lia.
Qed.

Lemma lor_host v k : 0 <= k -> 0 <= v -> Z.lor v (Z.ones k) = v - v mod 2 ^ k + (2 ^ k - 1).
Proof.
  intros Hk Hv. pose proof (Z.div_mod v (2 ^ k)) as Hd.
  pose proof (Z.mod_pos_bound v (2 ^ k)) as Hr. pose proof (Z.pow_pos_nonneg 2 k) as Hp.
  rewrite Hd at 1 by lia. rewrite (Z.mul_comm (2 ^ k)).
  replace (Z.ones k) with (0 * 2 ^ k + (2 ^ k - 1)) by (rewrite Z.ones_equiv; lia).
  rewrite lor_fields, Z.lor_0_r by lia.
  replace (2 ^ k - 1) with (Z.ones k) at 1 by (rewrite Z.ones_equiv; lia).
  destruct (decide (v mod 2 ^ k = 0)) as [E|E].
  - rewrite E, Z.lor_0_l, Z.ones_equiv. lia.
  - rewrite Z.lor_ones_low; [rewrite Z.ones_equiv; lia|lia|].
    apply Z.log2_lt_pow2; lia.
Qed.

(** The bounds of a prefix. *)
Lemma ipv4_prefix_bounds n a :
  0 <= n < 32 -> same_family AF_INET a ->
  exists lo hi, mask n a = Some lo /\ broadcast_addr n a = Some hi /\
    same_family AF_INET lo /\ same_family AF_INET hi /\
    addr_value lo = addr_value a - addr_value a mod 2 ^ (32 - n) /\
    addr_value hi = addr_value lo + 2 ^ (32 - n) - 1.
Proof.
  intros Hn Ha. pose proof Ha as ([[L4 O4] O6] & Hf & Hne). unfold mask, broadcast_addr.
  rewrite Hf, host_bits_Some by done.
  cbn [mbind option_bind]. eexists _, _. do 2 (split; [reflexivity|]).
  pose proof (be_value_bound _ O4) as B4. rewrite L4 in B4.
  change (256 ^ Z.of_nat 4) with (2 ^ 32) in B4.
  assert (0 <= Z.ones (32 - n) < 2 ^ 32) as Bh.
  { rewrite Z.ones_equiv. pose proof (Z.pow_le_mono_r 2 (32 - n) 32).
    pose proof (Z.pow_pos_nonneg 2 (32 - n)). lia. }
  pose proof (to_be32_octets (2 ^ 32 - 1 - Z.ones (32 - n))) as Om.
  pose proof (to_be32_octets (Z.ones (32 - n))) as Oh.
  set (lo := set_in_addr (and_not _ _) _). set (hi := set_in_addr (or_host _ _) _).
  assert (Slo : same_family AF_INET lo)
    by (by apply set_in_addr_family, octets_zip; [|apply land_octet| |]).
  assert (Shi : same_family AF_INET hi)
    by (by apply set_in_addr_family, octets_zip; [|apply lor_octet| |]).
  assert (Vlo : addr_value lo = addr_value a - addr_value a mod 2 ^ (32 - n)).
  { unfold lo, addr_value, and_not, zip_land. cbn [ss_family sin_addr set_in_addr]. rewrite Hf.
    rewrite (be_value_zip Z.land) by (apply land_fields || apply Om || done).
    rewrite be_value_to_be32 by lia. apply land_network; lia. }
  assert (Vhi : addr_value hi = addr_value lo + 2 ^ (32 - n) - 1).
  { rewrite Vlo. unfold hi, addr_value, or_host, zip_lor. cbn [ss_family sin_addr set_in_addr].
    rewrite Hf. rewrite (be_value_zip Z.lor) by (apply lor_fields || apply Oh || done).
    rewrite be_value_to_be32, lor_host by lia. lia. }
  by split_and!.
Qed.

Lemma operator_le_value f a b :
  same_family f a -> same_family f b -> operator_le a b = true <-> addr_value a <= addr_value b.
Proof.
  intros Ha Hb. unfold operator_le.
  rewrite orb_true_iff, (operator_lt_value f), (operator_eq_value f) by done.
  rewrite Z.ltb_lt, Z.eqb_eq. lia.
Qed.

(** [mask] and [broadcast_addr] of an IPv4 address give the first and the
    last address of the prefix, for every prefix length from 0 to 31; the
    address itself lies between them. *)
Theorem ipv4_prefix_range n a :
  0 <= n < 32 -> same_family AF_INET a ->
  exists lo hi, mask n a = Some lo /\ broadcast_addr n a = Some hi /\
    addr_value lo = addr_value a - addr_value a mod 2 ^ (32 - n) /\
    addr_value hi = addr_value lo + 2 ^ (32 - n) - 1 /\
    operator_le lo a = true /\ operator_le a hi = true.
Proof.
  intros Hn Ha. destruct (ipv4_prefix_bounds n a Hn Ha) as (lo & hi & Hlo & Hhi & Slo & Shi & Vlo & Vhi).
  exists lo, hi. pose proof (Z.mod_pos_bound (addr_value a) (2 ^ (32 - n))).
  pose proof (Z.pow_pos_nonneg 2 (32 - n)).
  rewrite !(operator_le_value AF_INET) by done. split_and!; [done..| |]; lia.
Qed.

Lemma ipv4_prefix_range_witness :
  exists lo hi, mask 8 (ip4 239 1 2 3) = Some lo /\ broadcast_addr 8 (ip4 239 1 2 3) = Some hi /\
    addr_value lo = addr_value (ip4 239 1 2 3) - addr_value (ip4 239 1 2 3) mod 2 ^ (32 - 8) /\
    addr_value hi = addr_value lo + 2 ^ (32 - 8) - 1 /\
    operator_le lo (ip4 239 1 2 3) = true /\ operator_le (ip4 239 1 2 3) hi = true.
Proof.
  apply (ipv4_prefix_range 8); [lia|]. apply ip4_same_family; unfold is_octet; lia.
Defined.

(** A host prefix ([/32]) of an IPv4 address, and every IPv6 prefix longer
    than 32 bits that does not end on a word boundary, shift a 32 bit value by
    32 or more bits: undefined behaviour. *)
Theorem prefix_shift_undefined a :
  (ss_family a = AF_INET -> mask 32 a = None /\ broadcast_addr 32 a = None) /\
  (ss_family a = AF_INET6 -> forall n, 32 < n < 128 -> n mod 32 <> 0 ->
     mask n a = None /\ broadcast_addr n a = None).
Proof.
  split; intros Hf; unfold mask, broadcast_addr; rewrite Hf; [done|]. intros n Hn Hm.
  assert (Hh : host_bits n = None).
  { unfold host_bits. rewrite (proj2 (Z.ltb_ge n 32)) by lia. by rewrite andb_false_r. }
  assert (Hw : forall f fill bs, prefix_words f fill n 4 bs = None); [|by rewrite !Hw].
  intros f fill bs. cbn [prefix_words]. rewrite Hh.
  change (Z.of_nat 3 * 32) with 96. change (Z.of_nat 2 * 32) with 64.
  change (Z.of_nat 1 * 32) with 32. change (Z.of_nat 0 * 32) with 0.
  assert (n <> 64 /\ n <> 96) as [H64 H96] by (split; intros ->; by apply Hm).
  repeat match goal with
  | |- context [?x <=? ?y] => destruct (Z.leb_spec x y); try lia
  | |- context [?x <? ?y] => destruct (Z.ltb_spec x y); try lia
  end; done.
Qed.

(** ** Addresses of one family

    A proxy instance handles one address family, so the containers of the
    querier and of the routing hold addresses of one family only. [Address] is
    what those components use of an address type: an order with the laws of
    [KeyOrder] that is the order of the [addr_storage] it stands for. *)

Class Address (A : Type) := {
  address_order :: KeyOrder A;
  address_family : addr_family;
  to_storage : A -> addr_storage;
  to_storage_family : forall a, same_family address_family (to_storage a);
  to_storage_lt : forall a b, operator_lt (to_storage a) (to_storage b) = key_ltb a b;
  to_storage_eq : forall a b, operator_eq (to_storage a) (to_storage b) = bool_decide (a = b)
}.

(** An address is its number in host order; [w] is the width of the family. *)
Record ipaddr (w : Z) := IpAddr {
  ip_value : Z;
  ip_ok : bool_decide (0 <= ip_value < 2 ^ w) = true
}.

Arguments IpAddr {w} _ _.
Arguments ip_value {w} _.
Arguments ip_ok {w} _.

Notation ipv4 := (ipaddr 32).
Notation ipv6 := (ipaddr 128).

Section IpAddr.
Context {w : Z}.
Implicit Types a b : ipaddr w.

Lemma ip_eq a b : ip_value a = ip_value b -> a = b.
Proof.
  destruct a as [x p], b as [y q]. simpl. intros <-. f_equal. apply (proof_irrel p q).
Qed.

Lemma ip_range a : 0 <= ip_value a < 2 ^ w.
Proof. exact (proj1 (bool_decide_eq_true _) (ip_ok a)). Qed.

#[export] Instance ip_eq_dec : EqDecision (ipaddr w).
Proof.
  intros a b. destruct (decide (ip_value a = ip_value b)) as [H|H].
  - left. by apply ip_eq.
  - right. congruence.
Defined.

Definition ip_of (z : Z) : option (ipaddr w) :=
  match decide (bool_decide (0 <= z < 2 ^ w) = true) with
  | left p => Some (IpAddr z p)
  | right _ => None
  end.

Lemma ip_of_value a : ip_of (ip_value a) = Some a.
Proof.
  destruct a as [z p]. unfold ip_of. simpl. destruct (decide _) as [q|]; [|done].
  f_equal. by apply ip_eq.
Qed.

#[export] Instance ip_countable : Countable (ipaddr w) := inj_countable ip_value ip_of ip_of_value.

#[export] Program Instance ip_order : KeyOrder (ipaddr w) := {
  key_ltb a b := ip_value a <? ip_value b
}.
Next Obligation. intros a. apply Z.ltb_irrefl. Qed.
Next Obligation. intros a b c. rewrite !Z.ltb_lt. lia. Qed.
Next Obligation. intros a b. rewrite !Z.ltb_ge. intros. apply ip_eq. lia. Qed.
End IpAddr.

(** The octets of a number. *)
Fixpoint to_be (n : nat) (z : Z) : list Z :=
  match n with
  | O => []
  | S n' => to_be n' (z / 256) ++ [z mod 256]
  end.

Lemma to_be_octets n z : octets n (to_be n z).
Proof.
  revert z. induction n as [|n IH]; intros z; [by split|]. simpl. destruct (IH (z / 256)) as [Hl Ho].
  split; [rewrite length_app, Hl; simpl; lia|]. apply Forall_app. split; [done|].
  apply Forall_singleton. apply Z.mod_pos_bound. lia.
Qed.

Lemma be_value_to_be n z : 0 <= z < 256 ^ Z.of_nat n -> be_value (to_be n z) = z.
Proof.
  revert z. induction n as [|n IH]; intros z Hz; [simpl in *; unfold be_value; simpl; lia|].
  cbn [to_be]. rewrite be_value_app, IH.
  - unfold be_value. simpl. rewrite (Z.div_mod z 256) at 3; lia.
  - rewrite Nat2Z.inj_succ, Z.pow_succ_r in Hz by lia.
    split; [apply Z.div_pos; lia|apply Z.div_lt_upper_bound; lia].
Qed.

Definition ipv4_storage (a : ipv4) : addr_storage :=
  assign_in_addr (of_family AF_INET) (to_be 4 (ip_value a)).

Definition ipv6_storage (a : ipv6) : addr_storage :=
  assign_in6_addr (of_family AF_INET6) (to_be 16 (ip_value a)).

Lemma zeros_octets n : octets n (zeros n).
Proof.
  split; [apply length_replicate|]. apply Forall_replicate. unfold is_octet. lia.
Qed.

Lemma ipv4_storage_family a : same_family AF_INET (ipv4_storage a).
Proof. split; [|done]. split; [apply to_be_octets|apply (zeros_octets 16)]. Qed.

Lemma ipv6_storage_family a : same_family AF_INET6 (ipv6_storage a).
Proof. split; [|done]. split; [apply (zeros_octets 4)|apply to_be_octets]. Qed.

Lemma ipv4_storage_value a : addr_value (ipv4_storage a) = ip_value a.
Proof. apply (be_value_to_be 4). apply (ip_range a). Qed.

Lemma ipv6_storage_value a : addr_value (ipv6_storage a) = ip_value a.
Proof. apply (be_value_to_be 16). apply (ip_range a). Qed.

#[export] Program Instance ipv4_Address : Address ipv4 := {
  address_family := AF_INET;
  to_storage := ipv4_storage
}.
Next Obligation. apply ipv4_storage_family. Qed.
Next Obligation.
  intros a b. rewrite (operator_lt_value AF_INET), !ipv4_storage_value
    by apply ipv4_storage_family. done.
Qed.
Next Obligation.
  intros a b. rewrite (operator_eq_value AF_INET), !ipv4_storage_value
    by apply ipv4_storage_family.
  case_bool_decide as H; [subst; apply Z.eqb_refl|]. apply Z.eqb_neq. intros Hv.
  by apply H, ip_eq.
Qed.

#[export] Program Instance ipv6_Address : Address ipv6 := {
  address_family := AF_INET6;
  to_storage := ipv6_storage
}.
Next Obligation. apply ipv6_storage_family. Qed.
Next Obligation.
  intros a b. rewrite (operator_lt_value AF_INET6), !ipv6_storage_value
    by apply ipv6_storage_family. done.
Qed.
Next Obligation.
  intros a b. rewrite (operator_eq_value AF_INET6), !ipv6_storage_value
    by apply ipv6_storage_family.
  case_bool_decide as H; [subst; apply Z.eqb_refl|]. apply Z.eqb_neq. intros Hv.
  by apply H, ip_eq.
Qed.

(** The address with the given octets. *)
Lemma ip_mod_ok (w z : Z) : 0 <= w -> bool_decide (0 <= z mod 2 ^ w < 2 ^ w) = true.
Proof. intros Hw. apply bool_decide_eq_true_2, Z.mod_pos_bound. by apply Z.pow_pos_nonneg. Qed.

Definition ipv4_of_octets (bs : list Z) : ipv4 :=
  IpAddr (be_value bs mod 2 ^ 32) (ip_mod_ok 32 (be_value bs) ltac:(lia)).
Definition ipv6_of_octets (bs : list Z) : ipv6 :=
  IpAddr (be_value bs mod 2 ^ 128) (ip_mod_ok 128 (be_value bs) ltac:(lia)).

(** Literals for examples. *)
Definition mk_ipv4 (a b c d : Z) : ipv4 := ipv4_of_octets [a; b; c; d].
