(* ===== verification/Filter.v ===== *)
(** * Interface filters (include/parser/interface.hpp, src/parser/interface.cpp)

    Address patterns, rule tables with references into the global table set,
    rule bindings, and the input and output filters of an interface. A table
    reference is resolved when a packet is matched, so matching recurses
    through the global table set; [rule_match] has fuel for that recursion, and
    the fuel [match_fuel] is shown to be enough for every table set the parser
    can build, because a reference is only accepted to a table that exists. *)

From S2P Require Import Prelude Def AddrStorage.

(** ** Address patterns *)

Inductive addr_match :=
  | single_addr (m_addr : addr_storage)
  | addr_range (m_from m_to : addr_storage).

Definition is_wildcard (addr : addr_storage) (f : addr_family) : bool :=
  operator_eq addr (of_family f).

Definition addr_match_match (m : addr_match) (addr : addr_storage) : bool :=
  match m with
  | single_addr m_addr => operator_eq addr m_addr || is_wildcard m_addr (ss_family addr)
  | addr_range m_from m_to =>
    (operator_ge addr m_from || is_wildcard m_from (ss_family addr))
    && (operator_le addr m_to || is_wildcard m_to (ss_family addr))
  end.

(** ** Tables *)

Inductive rule_box :=
  | rule_addr (m_if_name : string) (m_group m_source : addr_match)
  | rule_table (m_name : string) (m_rule_box_list : list rule_box)
  | rule_table_ref (m_table_name : string).

Record table := { m_name : string; m_rule_box_list : list rule_box }.

(** The global table set: at most one table of a name. *)
Definition global_table_set_insert (t : table) (gts : gmap string table)
    : gmap string table * bool :=
  match gts !! m_name t with
  | Some _ => (gts, false)
  | None => (<[m_name t := t]> gts, true)
  end.

Definition get_table (gts : gmap string table) (name : string) : option table := gts !! name.

Definition rule_addr_match (m_if_name : string) (m_group m_source : addr_match)
    (if_name : string) (gaddr saddr : addr_storage) : bool :=
  if String.eqb m_if_name "" then
    addr_match_match m_group gaddr && addr_match_match m_source saddr
  else
    String.eqb m_if_name if_name && addr_match_match m_group gaddr
    && addr_match_match m_source saddr.

(** The loop of [table::match]: the first rule box that matches decides. *)
Definition any_match {B : Type} (f : B -> option bool) : list B -> option bool :=
  fix any l :=
    match l with
    | [] => Some false
    | b :: l' =>
      match f b with
      | Some true => Some true
      | Some false => any l'
      | None => None
      end
    end.

Fixpoint rule_match (fuel : nat) (gts : gmap string table)
    (if_name : string) (gaddr saddr : addr_storage) : rule_box -> option bool :=
  fix go (b : rule_box) :=
    match b with
    | rule_addr n g s => Some (rule_addr_match n g s if_name gaddr saddr)
    | rule_table _ boxes => any_match go boxes
    | rule_table_ref n =>
      match get_table gts n with
      | None => Some false
      | Some t =>
        match fuel with
        | O => None
        | S fuel' => any_match (rule_match fuel' gts if_name gaddr saddr) (m_rule_box_list t)
        end
      end
    end.

Definition table_match (fuel : nat) (gts : gmap string table) (t : table)
    (if_name : string) (gaddr saddr : addr_storage) : option bool :=
  any_match (rule_match fuel gts if_name gaddr saddr) (m_rule_box_list t).

(** ** Rule bindings and interfaces *)

Inductive rb_type := RBT_FILTER | RBT_RULE_MATCHING | RBT_TIMER_VALUE.
Inductive rb_interface_type := IT_UPSTREAM | IT_DOWNSTREAM.
Inductive rb_interface_direction := ID_IN | ID_OUT | ID_WILDCARD.
Inductive rb_filter_type := FT_BLACKLIST | FT_WHITELIST | FT_UNDEFINED.
Inductive rb_rule_matching_type := RMT_ALL | RMT_FIRST | RMT_MUTEX | RMT_UNDEFINED.

#[export] Instance rb_type_eq_dec : EqDecision rb_type.
Proof. solve_decision. Defined.
#[export] Instance rb_interface_type_eq_dec : EqDecision rb_interface_type.
Proof. solve_decision. Defined.
#[export] Instance rb_interface_direction_eq_dec : EqDecision rb_interface_direction.
Proof. solve_decision. Defined.
#[export] Instance rb_rule_matching_type_eq_dec : EqDecision rb_rule_matching_type.
Proof. solve_decision. Defined.

Record rule_binding := {
  m_rule_binding_type : rb_type;
  m_instance_name : string;
  m_interface_type : rb_interface_type;
  rb_if_name : string;
  m_filter_direction : rb_interface_direction;
  m_filter_type : rb_filter_type;
  m_table : option table;
  m_rule_matching_type : rb_rule_matching_type;
  m_timeout : Z
}.

(** The two constructors: a filter and a rule matching. *)
Definition filter_binding (instance_name : string) (it : rb_interface_type) (if_name : string)
    (dir : rb_interface_direction) (ft : rb_filter_type) (t : table) : rule_binding :=
  {| m_rule_binding_type := RBT_FILTER; m_instance_name := instance_name;
     m_interface_type := it; rb_if_name := if_name; m_filter_direction := dir;
     m_filter_type := ft; m_table := Some t; m_rule_matching_type := RMT_UNDEFINED;
     m_timeout := 0 |}.

Definition matching_binding (instance_name : string) (it : rb_interface_type)
    (if_name : string) (dir : rb_interface_direction) (rmt : rb_rule_matching_type)
    (timeout : Z) : rule_binding :=
  {| m_rule_binding_type := RBT_RULE_MATCHING; m_instance_name := instance_name;
     m_interface_type := it; rb_if_name := if_name; m_filter_direction := dir;
     m_filter_type := FT_UNDEFINED; m_table := None; m_rule_matching_type := rmt;
     m_timeout := timeout |}.

(** Enough fuel for a table set whose references do not form a cycle. *)
Definition match_fuel (gts : gmap string table) : nat := size gts.

Definition rule_binding_match (gts : gmap string table) (rb : rule_binding)
    (if_name : string) (gaddr saddr : addr_storage) : option bool :=
  match m_table rb with
  | Some t =>
    match m_filter_type rb with
    | FT_BLACKLIST => negb <$> table_match (match_fuel gts) gts t if_name gaddr saddr
    | FT_WHITELIST => table_match (match_fuel gts) gts t if_name gaddr saddr
    | FT_UNDEFINED => Some false
    end
  | None => Some false
  end.

Record interface := {
  if_name : string;
  m_output_filter : option rule_binding;
  m_input_filter : option rule_binding
}.

Definition new_interface (name : string) : interface :=
  {| if_name := name; m_output_filter := None; m_input_filter := None |}.

Definition match_filter (gts : gmap string table) (input_if_name : string)
    (gaddr saddr : addr_storage) (filter : option rule_binding) : option bool :=
  match filter with
  | Some rb => rule_binding_match gts rb input_if_name gaddr saddr
  | None => Some true
  end.

Definition match_output_filter (gts : gmap string table) (i : interface)
    (input_if_name : string) (gaddr saddr : addr_storage) : option bool :=
  match_filter gts input_if_name gaddr saddr (m_output_filter i).

Definition match_input_filter (gts : gmap string table) (i : interface)
    (input_if_name : string) (gaddr saddr : addr_storage) : option bool :=
  match_filter gts input_if_name gaddr saddr (m_input_filter i).

(** ** Termination of matching *)

(** The tables a rule box refers to. *)
Fixpoint refs (b : rule_box) : list string :=
  match b with
  | rule_addr _ _ _ => []
  | rule_table _ boxes => flat_map refs boxes
  | rule_table_ref n => [n]
  end.

Definition table_refs (t : table) : list string := flat_map refs (m_rule_box_list t).

(** The table sets the parser builds: [parse_table] accepts a reference only to
    a table that is already in the set. *)
Inductive gts_built : gmap string table -> Prop :=
  | gts_empty : gts_built ∅
  | gts_insert gts t :
      gts_built gts -> (forall n, In n (table_refs t) -> is_Some (gts !! n)) ->
      gts_built (global_table_set_insert t gts).1.

(** References descend in a ranking of the tables. *)
Definition ranked (rank : string -> nat) (gts : gmap string table) : Prop :=
  forall n t, gts !! n = Some t ->
    rank n < size gts /\
    forall m, In m (table_refs t) -> is_Some (gts !! m) /\ rank m < rank n.

Lemma gts_built_ranked gts : gts_built gts -> exists rank, ranked rank gts.
Proof.
  induction 1 as [|gts t Hg [rank Hr] Ht].
  { exists (fun _ => 0). intros n t. by rewrite lookup_empty. }
  unfold global_table_set_insert. destruct (gts !! m_name t) as [t'|] eqn:Ht'; [by exists rank|].
  exists (fun n => if decide (n = m_name t) then size gts else rank n). cbn.
  intros n u Hu. rewrite map_size_insert_None by done.
  apply lookup_insert_Some in Hu as [[<- <-]|[Hne Hu]].
  - rewrite decide_True by done. split; [lia|]. intros m Hm.
    destruct (Ht m Hm) as [v Hv]. assert (m <> m_name t) by congruence.
    rewrite decide_False, lookup_insert_ne by done. split; [eauto|]. by apply (Hr m v).
  - rewrite decide_False by done. destruct (Hr n u Hu) as [Hlt Hrefs]. split; [lia|].
    intros m Hm. destruct (Hrefs m Hm) as [[v Hv] Hmn].
    assert (m <> m_name t) by congruence.
    rewrite decide_False, lookup_insert_ne by done. eauto.
Qed.

Lemma any_match_total {B} (f : B -> option bool) l :
  (forall b, In b l -> is_Some (f b)) -> is_Some (any_match f l).
Proof.
  induction l as [|b l IH]; cbn; [eauto|]. intros Hl.
  destruct (Hl b) as [r Hr]; [by left|]. rewrite Hr. destruct r; [eauto|].
  apply IH. intros; apply Hl; by right.
Qed.

(** Induction on rule boxes through the nested lists. *)
Lemma rule_box_ind_nested (P : rule_box -> Prop) :
  (forall n g s, P (rule_addr n g s)) ->
  (forall n boxes, (forall b, In b boxes -> P b) -> P (rule_table n boxes)) ->
  (forall n, P (rule_table_ref n)) ->
  forall b, P b.
Proof.
  intros Ha Ht Hr. fix IH 1. intros [n g s|n boxes|n]; [apply Ha| |apply Hr].
  apply Ht. induction boxes as [|b boxes IHb]; intros b' Hb; [destruct Hb|].
  destruct Hb as [<-|Hb]; [apply IH|by apply IHb].
Qed.

Lemma rule_match_total rank gts if_name gaddr saddr :
  ranked rank gts ->
  forall fuel b,
    (forall n, In n (refs b) -> is_Some (gts !! n) -> rank n < fuel) ->
    is_Some (rule_match fuel gts if_name gaddr saddr b).
Proof.
  intros Hr. induction fuel as [|fuel IH]; intros b; induction b as [n g s|n boxes IHb|n]
    using rule_box_ind_nested; intros Hb; cbn [rule_match]; [eauto| | |eauto| |].
  1, 3: apply any_match_total; intros b Hin; apply IHb; [done|]; intros m Hm;
    apply Hb; apply in_flat_map; eauto.
  - unfold get_table. destruct (gts !! n) eqn:E; [|eauto].
    specialize (Hb n). rewrite E in Hb. exfalso. pose proof (Hb (or_introl eq_refl) ltac:(eauto)). lia.
  - unfold get_table. destruct (gts !! n) as [t|] eqn:E; [|eauto].
    apply any_match_total. intros b Hin. apply IH. intros m Hm _.
    destruct (Hr n t E) as [_ Hrefs].
    destruct (Hrefs m) as [_ Hlt]; [apply in_flat_map; eauto|].
    specialize (Hb n (or_introl eq_refl)). rewrite E in Hb. specialize (Hb ltac:(eauto)). lia.
Qed.

Lemma table_match_total gts t if_name gaddr saddr :
  gts_built gts -> is_Some (table_match (match_fuel gts) gts t if_name gaddr saddr).
Proof.
  intros [rank Hr]%gts_built_ranked. apply any_match_total. intros b _.
  apply (rule_match_total rank); [done|]. intros n _ [u Hu].
  destruct (Hr n u Hu) as [Hlt _]. exact Hlt.
Qed.

(** Matching a packet against a table terminates with a verdict for every
    global table set the parser can build, whatever the table refers to. *)
Theorem table_match_terminates gts t if_name gaddr saddr :
  gts_built gts -> is_Some (table_match (match_fuel gts) gts t if_name gaddr saddr).
Proof. apply table_match_total. Qed.

Lemma table_match_terminates_witness :
  let leaf := {| m_name := "leaf"; m_rule_box_list :=
    [rule_addr "" (single_addr (ip4 224 1 1 1)) (single_addr (of_family AF_INET))] |} in
  let gts := (global_table_set_insert leaf ∅).1 in
  is_Some (table_match (match_fuel gts) gts
    {| m_name := "root"; m_rule_box_list := [rule_table_ref "leaf"; rule_table_ref "none"] |}
    "eth0" (ip4 224 1 1 1) (ip4 10 0 0 1)).
Proof.
  intros leaf gts. apply (table_match_terminates gts). apply gts_insert; [apply gts_empty|].
  intros n Hn. destruct Hn.
Defined.

(** ** Filters *)

(** The verdict of a table: does some rule of it, or of a table it refers to,
    accept the packet? *)
Definition table_accepts (gts : gmap string table) (t : table) (if_name : string)
    (gaddr saddr : addr_storage) : Prop :=
  table_match (match_fuel gts) gts t if_name gaddr saddr = Some true.

(** The filter of an interface decides every packet: without a filter it is
    accepted, a whitelist accepts exactly the packets its table matches, and a
    blacklist exactly the others. *)
Theorem filter_decides gts i input_if_name gaddr saddr :
  gts_built gts ->
  exists verdict,
    match_input_filter gts i input_if_name gaddr saddr = Some verdict
    /\ match m_input_filter i with
       | None => verdict = true
       | Some rb =>
         match m_table rb, m_filter_type rb with
         | Some t, FT_WHITELIST => verdict = true <-> table_accepts gts t input_if_name gaddr saddr
         | Some t, FT_BLACKLIST =>
           verdict = true <-> ~ table_accepts gts t input_if_name gaddr saddr
         | _, _ => verdict = false
         end
       end.
Proof.
  intros Hg. unfold match_input_filter, match_filter, rule_binding_match, table_accepts.
  destruct (m_input_filter i) as [rb|]; [|by exists true].
  destruct (m_table rb) as [t|]; [|by exists false].
  destruct (table_match_total gts t input_if_name gaddr saddr Hg) as [v Hv].
  destruct (m_filter_type rb); [exists (negb v)|exists v|by exists false]; rewrite Hv;
    (split; [done|]); destruct v; simpl; naive_solver.
Qed.

Lemma filter_decides_witness :
  exists verdict,
    match_input_filter ∅ (new_interface "eth0") "eth1" (ip4 224 1 1 1) (ip4 10 0 0 1)
    = Some verdict /\ verdict = true.
Proof.
  apply (filter_decides ∅ (new_interface "eth0") "eth1" (ip4 224 1 1 1) (ip4 10 0 0 1)).
  apply gts_empty.
Defined.
