(* ===== verification/InstanceDef.v ===== *)
(** * Instance definitions (include/parser/interface.hpp, src/parser/interface.cpp)

    What the configuration says about a proxy instance: its interfaces with
    their filters, its routing table number and its global settings. The set
    [inst_def_set] is ordered by the names of the instances. *)

From Stdlib Require Import Strings.Ascii.
From S2P Require Import Prelude Result Scanner Def AddrStorage Filter.

(** ** The order of names

    [std::string::compare]: the first different character decides, compared as
    an unsigned octet, and a proper prefix is smaller. *)

Fixpoint string_ltb (a b : string) : bool :=
  match a, b with
  | _, EmptyString => false
  | EmptyString, String _ _ => true
  | String x a', String y b' =>
    if (code x <? code y)%Z then true
    else if (code y <? code x)%Z then false
    else string_ltb a' b'
  end.

Lemma code_inj x y : code x = code y -> x = y.
Proof.
  unfold code. intros He. apply N2Z.inj in He.
  by rewrite <- (ascii_N_embedding x), <- (ascii_N_embedding y), He.
Qed.

Lemma string_ltb_irrefl a : string_ltb a a = false.
Proof. induction a as [|x a IH]; cbn; [done|]. by rewrite Z.ltb_irrefl. Qed.

Lemma string_ltb_trans a b c :
  string_ltb a b = true -> string_ltb b c = true -> string_ltb a c = true.
Proof.
  revert b c. induction a as [|x a IH]; intros [|y b] [|z c]; cbn; try done.
  repeat match goal with |- context [(?u <? ?v)%Z] => destruct (Z.ltb_spec u v) end;
    try done; try lia. apply IH.
Qed.

Lemma string_ltb_total a b : string_ltb a b = false -> string_ltb b a = false -> a = b.
Proof.
  revert b. induction a as [|x a IH]; intros [|y b]; cbn; try done.
  repeat match goal with |- context [(?u <? ?v)%Z] => destruct (Z.ltb_spec u v) end; try done.
  intros Ha Hb. f_equal; [apply code_inj; lia|auto].
Qed.

#[export] Instance string_KeyOrder : KeyOrder string := {
  key_ltb := string_ltb;
  key_ltb_irrefl := string_ltb_irrefl;
  key_ltb_trans := string_ltb_trans;
  key_ltb_total := string_ltb_total
}.

(** ** Instances *)

Record instance_definition := {
  id_instance_name : string;
  m_table_number : Z;
  m_user_selected_table_number : bool;
  id_upstreams : list interface;
  id_downstreams : list interface;
  m_global_settings : list rule_binding
}.

(** The constructor with the interfaces; there are no settings yet. *)
Definition new_instance_definition (name : string) (upstreams downstreams : list interface)
    (table_number : Z) (user_selected : bool) : instance_definition :=
  {| id_instance_name := name; m_table_number := table_number;
     m_user_selected_table_number := user_selected; id_upstreams := upstreams;
     id_downstreams := downstreams; m_global_settings := [] |}.

#[export] Instance instance_definition_Keyed : Keyed instance_definition string :=
  id_instance_name.

(** [inst_def_set]: [insert] keeps an instance that has the name already. *)
Definition inst_def_set := list instance_definition.

Definition inst_def_set_insert (id : instance_definition) (ids : inst_def_set)
    : inst_def_set * bool :=
  match sl_find (id_instance_name id) ids with
  | Some _ => (ids, false)
  | None => (sl_insert id ids, true)
  end.

Definition inst_def_set_find (name : string) (ids : inst_def_set) : option instance_definition :=
  sl_find name ids.

Definition inst_def_set_size (ids : inst_def_set) : nat := length ids.

(** Changes through the shared pointers of the set. *)
Definition update_instance (name : string) (f : instance_definition -> instance_definition)
    (ids : inst_def_set) : inst_def_set :=
  map (fun id => if String.eqb (id_instance_name id) name then f id else id) ids.

Definition set_id_upstreams (l : list interface) (id : instance_definition) : instance_definition :=
  {| id_instance_name := id_instance_name id; m_table_number := m_table_number id;
     m_user_selected_table_number := m_user_selected_table_number id; id_upstreams := l;
     id_downstreams := id_downstreams id; m_global_settings := m_global_settings id |}.

Definition set_id_downstreams (l : list interface) (id : instance_definition)
    : instance_definition :=
  {| id_instance_name := id_instance_name id; m_table_number := m_table_number id;
     m_user_selected_table_number := m_user_selected_table_number id;
     id_upstreams := id_upstreams id; id_downstreams := l;
     m_global_settings := m_global_settings id |}.

(** [m_global_settings.push_back(rb)]. *)
Definition push_global_setting (rb : rule_binding) (id : instance_definition)
    : instance_definition :=
  {| id_instance_name := id_instance_name id; m_table_number := m_table_number id;
     m_user_selected_table_number := m_user_selected_table_number id;
     id_upstreams := id_upstreams id; id_downstreams := id_downstreams id;
     m_global_settings := m_global_settings id ++ [rb] |}.

Definition set_input_filter (rb : rule_binding) (i : interface) : interface :=
  {| if_name := if_name i; m_output_filter := m_output_filter i; m_input_filter := Some rb |}.
Definition set_output_filter (rb : rule_binding) (i : interface) : interface :=
  {| if_name := if_name i; m_output_filter := Some rb; m_input_filter := m_input_filter i |}.

(** ** Lemmas on the set *)

Lemma update_instance_keys name f ids :
  (forall id, id_instance_name (f id) = id_instance_name id) ->
  map id_instance_name (update_instance name f ids) = map id_instance_name ids.
Proof.
  intros Hf. unfold update_instance. rewrite map_map. apply map_ext. intros id.
  by destruct (String.eqb _ _); rewrite ?Hf.
Qed.
