(* ===== verification/Parser.v ===== *)
(** * Parser (include/parser/parser.hpp, src/parser/parser.cpp)

    A recursive descent parser over the tokens of one command. Its state is the
    current token and the tokens the scanner has not handed out yet
    ([m_token_vec] from [m_token_pos] on). Loops and recursion that follow the
    tokens have fuel; [ParserTheorems] shows that it is enough and that the
    parser accepts the grammar of references/parser/script_ebnf. *)

From Stdlib Require Import Strings.Ascii.
From S2P Require Import Prelude Result Scanner Def AddrStorage Filter InstanceDef.

(** ** State *)

Inductive parser_type :=
  PT_PROTOCOL | PT_INSTANCE_DEFINITION | PT_TABLE | PT_INTERFACE_RULE_BINDING.

#[export] Instance parser_type_eq_dec : EqDecision parser_type.
Proof. solve_decision. Defined.

Record parser := { m_current_token : token; m_scanner : list token }.

Notation P := (SM parser).

(** [scanner::get_next_token()] into [m_current_token]; behind the last token
    there is only [TT_NIL]. *)
Definition advance (ts : list token) : parser :=
  match ts with
  | [] => {| m_current_token := tok TT_NIL; m_scanner := [] |}
  | t :: ts' => {| m_current_token := t; m_scanner := ts' |}
  end.

Definition get_next_token : P unit := fun p => Ok (tt, advance (m_scanner p)).

(** [scanner::get_next_token(true, token_count)]. *)
Definition peek (token_count : nat) : P token_type := fun p =>
  Ok (get_type (nth token_count (m_scanner p) (tok TT_NIL)), p).

Definition cur_type : P token_type := fun p => Ok (get_type (m_current_token p), p).
Definition cur_string : P string := fun p => Ok (get_string (m_current_token p), p).

Definition parse_failed : string := "failed to parse config file".
Definition failed {X} : P X := throw parse_failed.

(** Comparison of token types. *)
Definition is_tt (ty ty' : token_type) : bool := bool_decide (ty = ty').

(** The constructor: scan the command and load the first token. *)
Definition new_parser (cmd : string) : result parser := ts ← scan cmd; Ok (advance ts).

Definition get_parser_type : P parser_type :=
  ty ← cur_type;
  match ty with
  | TT_PROTOCOL => mret PT_PROTOCOL
  | TT_TABLE => mret PT_TABLE
  | TT_PINSTANCE =>
    cmp ← peek 1;
    match cmp with
    | TT_DOUBLE_DOT | TT_LEFT_BRACKET => mret PT_INSTANCE_DEFINITION
    | TT_UPSTREAM | TT_DOWNSTREAM => mret PT_INTERFACE_RULE_BINDING
    | _ => failed
    end
  | TT_DISABLE => throw "mcproxy is disabled"
  | _ => failed
  end.

(** ** Numbers

    [std::stoi]: white space, a sign and decimal digits; what follows is
    ignored. [None] is the exception for no digits or a value out of range. *)

Fixpoint drop_spaces (s : string) : string :=
  match s with
  | String c s' => if isspace c then drop_spaces s' else s
  | EmptyString => EmptyString
  end.

Fixpoint digits_value (acc : Z) (s : string) : Z :=
  match s with
  | String c s' => if isdigit c then digits_value (acc * 10 + (code c - 48)) s' else acc
  | EmptyString => acc
  end%Z.

Definition unsigned_value (s : string) : option Z :=
  match s with
  | String c _ => if isdigit c then Some (digits_value 0 s) else None
  | EmptyString => None
  end.

(** A number in front of the text, with its sign. *)
Definition signed_value (s : string) : option Z :=
  match drop_spaces s with
  | String c s' as s =>
    if Ascii.eqb c "-" then Z.opp <$> unsigned_value s'
    else if Ascii.eqb c "+" then unsigned_value s'
    else unsigned_value s
  | EmptyString => None
  end.

Definition stoi (s : string) : option Z :=
  v ← signed_value s;
  if ((- 2 ^ 31 <=? v) && (v <? 2 ^ 31))%Z then Some v else None.

(** [std::stol]; a [long] has 64 bits. *)
Definition stol (s : string) : option Z :=
  v ← signed_value s;
  if ((- 2 ^ 63 <=? v) && (v <? 2 ^ 63))%Z then Some v else None.

(** ** Protocol *)

Definition parse_group_mem_proto : P group_mem_protocol :=
  pt ← get_parser_type;
  if bool_decide (pt = PT_PROTOCOL) then
    _ ← get_next_token;
    ty ← cur_type;
    gmp ← match ty with
          | TT_MLDV1 => mret MLDv1 | TT_MLDV2 => mret MLDv2
          | TT_IGMPV1 => mret IGMPv1 | TT_IGMPV2 => mret IGMPv2 | TT_IGMPV3 => mret IGMPv3
          | _ => failed
          end;
    _ ← get_next_token;
    ty ← cur_type;
    if is_tt ty TT_NIL then mret gmp else failed
  else failed.

(** ** Instance definitions *)

(** The loops [while (m_current_token.get_type() == TT_STRING)] over names of
    interfaces. *)
Fixpoint if_names (t : token) (ts : list token) : list string * parser :=
  if is_tt (get_type t) TT_STRING then
    match ts with
    | [] => ([get_string t], advance [])
    | t' :: ts' => let '(names, p) := if_names t' ts' in (get_string t :: names, p)
    end
  else ([], {| m_current_token := t; m_scanner := ts |}).

Definition parse_if_names : P (list string) := fun p =>
  Ok (if_names (m_current_token p) (m_scanner p)).

(** The optional table number in brackets: the number and whether the user chose it. *)
Definition parse_table_number : P (Z * bool) :=
  ty ← cur_type;
  if is_tt ty TT_LEFT_BRACKET then
    _ ← get_next_token;
    ty ← cur_type;
    if is_tt ty TT_STRING then
      s ← cur_string;
      match stoi s with
      | None => failed
      | Some n =>
        _ ← get_next_token;
        ty ← cur_type;
        if is_tt ty TT_RIGHT_BRACKET then _ ← get_next_token; mret (n, true) else failed
      end
    else failed
  else mret (0%Z, false).

Definition parse_instance_definition (ids : inst_def_set) : P inst_def_set :=
  pt ← get_parser_type;
  if bool_decide (pt = PT_INSTANCE_DEFINITION) then
    _ ← get_next_token;
    ty ← cur_type;
    if is_tt ty TT_STRING then
      instance_name ← cur_string;
      _ ← get_next_token;
      '(table_number, user_selected) ← parse_table_number;
      ty ← cur_type;
      if is_tt ty TT_DOUBLE_DOT then
        _ ← get_next_token;
        upstreams ← parse_if_names;
        ty ← cur_type;
        if is_tt ty TT_ARROW then
          _ ← get_next_token;
          downstreams ← parse_if_names;
          ty ← cur_type;
          if (0 <? length downstreams)%nat && is_tt ty TT_NIL then
            let '(ids, inserted) := inst_def_set_insert
              (new_instance_definition instance_name (map new_interface upstreams)
                 (map new_interface downstreams) table_number user_selected) ids in
            if inserted : bool then mret ids else failed
          else failed
        else failed
      else failed
    else failed
  else failed.

(** ** Tables *)

Section Tables.
Context (inet_pton : addr_family -> string -> option (list Z)).
Context (gts : gmap string table) (gmp : group_mem_protocol).

(** The text a token adds to an address. *)
Definition addr_piece (t : token) : option string :=
  match get_type t with
  | TT_STRING => Some (get_string t)
  | TT_DOT => Some "."
  | TT_DOUBLE_DOT => Some ":"
  | _ => None
  end.

(** The loop of [get_addr]. *)
Fixpoint addr_text (t : token) (ts : list token) : string * parser :=
  match addr_piece t with
  | Some s =>
    match ts with
    | [] => (s, advance [])
    | t' :: ts' => let '(s', p) := addr_text t' ts' in (s +:+ s', p)
    end
  | None => (EmptyString, {| m_current_token := t; m_scanner := ts |})
  end.

(** [addr_storage(s)]: the octets the constructor leaves alone do not belong to
    the family of the address. *)
Definition addr_of_text (s : string) : addr_storage :=
  assign_string inet_pton (of_family AF_UNSPEC) s.

Definition get_addr : P addr_storage :=
  s ← (fun p => Ok (addr_text (m_current_token p) (m_scanner p)) : result (string * parser));
  let r := addr_of_text s in
  if is_valid r then
    if bool_decide (ss_family r = get_addr_family gmp) then mret r else failed
  else failed.

(** An address or [*], which is the address of zeros. *)
Definition parse_ip : P addr_storage :=
  ty ← cur_type;
  if is_tt ty TT_STRING then get_addr
  else _ ← get_next_token; mret (of_family (get_addr_family gmp)).

Definition ends_part (ty : token_type) : bool := is_tt ty TT_RIGHT_BRACKET || is_tt ty TT_PIPE.

(** The addresses [from] and [to] of a prefix, with the check [prefix > 128]. *)
Definition prefix_range (addr : addr_storage) (str : string) : result addr_match :=
  match stoi str with
  | None => Err (Throw parse_failed)
  | Some v =>
    let prefix := to_uint32 v in
    if (128 <? prefix)%Z then Err Terminate
    else
      from ← of_option Undefined (mask prefix addr);
      to ← of_option Undefined (broadcast_addr prefix addr);
      Ok (addr_range from to)
  end.

Definition parse_rule_part : P addr_match :=
  ty ← cur_type;
  if is_tt ty TT_STRING || is_tt ty TT_STAR then
    addr_from ← parse_ip;
    ty ← cur_type;
    if is_tt ty TT_SLASH then
      _ ← get_next_token;
      ty ← cur_type;
      if is_tt ty TT_STRING then
        str ← cur_string;
        m ← lift (prefix_range addr_from str);
        _ ← get_next_token;
        ty ← cur_type;
        if ends_part ty then mret m else failed
      else failed
    else if ends_part ty then mret (single_addr addr_from)
    else if is_tt ty TT_RANGE then
      _ ← get_next_token;
      ty ← cur_type;
      if is_tt ty TT_STRING || is_tt ty TT_STAR then
        addr_to ← parse_ip;
        ty ← cur_type;
        if ends_part ty then mret (addr_range addr_from addr_to) else failed
      else failed
    else failed
  else failed.

(** An address rule behind its opening bracket. *)
Definition parse_addr_rule (name : string) : P rule_box :=
  group ← parse_rule_part;
  ty ← cur_type;
  if is_tt ty TT_PIPE then
    _ ← get_next_token;
    source ← parse_rule_part;
    ty ← cur_type;
    if is_tt ty TT_RIGHT_BRACKET then mret (rule_addr name group source) else failed
  else failed.

(** The token behind a table: the end of the command or the closing bracket. *)
Definition closes (inside_rule_box : bool) (ty : token_type) : bool :=
  if inside_rule_box then is_tt ty TT_RIGHT_BRACKET else is_tt ty TT_NIL.

(** [parse_table] with the loop over its rules as a parameter. *)
Definition parse_table_body (parse_rules : P (list rule_box)) (inside_rule_box : bool)
    : P table :=
  pt ← get_parser_type;
  if bool_decide (pt = PT_TABLE) then
    _ ← get_next_token;
    next ← peek 0;
    ty ← cur_type;
    if closes inside_rule_box next then
      if is_tt ty TT_STRING then
        table_name ← cur_string;
        match get_table gts table_name with
        | Some _ =>
          _ ← get_next_token;
          mret {| m_name := EmptyString; m_rule_box_list := [rule_table_ref table_name] |}
        | None => failed
        end
      else failed
    else if is_tt ty TT_STRING || is_tt ty TT_LEFT_BRACE then
      table_name ←
        (if is_tt ty TT_STRING then
           s ← cur_string;
           _ ← get_next_token;
           ty ← cur_type;
           if is_tt ty TT_LEFT_BRACE then mret s else failed
         else mret EmptyString);
      _ ← get_next_token;
      boxes ← parse_rules;
      ty ← cur_type;
      if is_tt ty TT_RIGHT_BRACE then
        _ ← get_next_token;
        ty ← cur_type;
        if closes inside_rule_box ty then
          mret {| m_name := table_name; m_rule_box_list := boxes |}
        else failed
      else failed
    else failed
  else failed.

(** [parse_rule] with the parser of an inner table as a parameter. [None] is the
    null pointer for a token that begins no rule. *)
Definition parse_rule (parse_table : P table) : P (option rule_box) :=
  ty ← cur_type;
  if is_tt ty TT_STRING || is_tt ty TT_LEFT_BRACKET then
    name ← (if is_tt ty TT_STRING then s ← cur_string; _ ← get_next_token; mret s
            else mret EmptyString);
    ty ← cur_type;
    if is_tt ty TT_LEFT_BRACKET then
      _ ← get_next_token;
      ty ← cur_type;
      if is_tt ty TT_TABLE then
        t ← parse_table;
        mret (Some (rule_table (m_name t) (m_rule_box_list t)))
      else b ← parse_addr_rule name; mret (Some b)
    else failed
  else mret None.

(** The loop over the rules of a table, which ties the recursion. *)
Fixpoint parse_rules (fuel : nat) : P (list rule_box) :=
  match fuel with
  | O => fail_with OutOfFuel
  | S fuel =>
    tmp_rule ← parse_rule (parse_table_body (parse_rules fuel) true);
    match tmp_rule with
    | None => mret []
    | Some b =>
      _ ← get_next_token;
      boxes ← parse_rules fuel;
      mret (b :: boxes)
    end
  end.

(** Every rule takes a token. *)
Definition table_fuel (p : parser) : nat := length (m_scanner p).

Definition parse_table : P table := fun p =>
  parse_table_body (parse_rules (table_fuel p)) false p.

(** ** Bindings of filters and settings *)

(** [std::find] in a list of interfaces and the assignment of a filter that the
    interface does not have yet; [None] if there is no such interface or its
    filter is set already. *)
Fixpoint bind_filter (dir : rb_interface_direction) (rb : rule_binding) (name : string)
    (l : list interface) : option (list interface) :=
  match l with
  | [] => None
  | i :: l' =>
    if String.eqb (if_name i) name then
      match dir with
      | ID_IN => match m_input_filter i with
                 | None => Some (set_input_filter rb i :: l') | Some _ => None end
      | ID_OUT => match m_output_filter i with
                  | None => Some (set_output_filter rb i :: l') | Some _ => None end
      | ID_WILDCARD => None
      end
    else (i ::.) <$> bind_filter dir rb name l'
  end.

Definition parse_interface_table_binding (instance_name : string) (it : rb_interface_type)
    (name : string) (dir : rb_interface_direction) (ids : inst_def_set) : P inst_def_set :=
  ty ← cur_type;
  ft ← match ty with
       | TT_WHITELIST => mret FT_WHITELIST
       | TT_BLACKLIST => mret FT_BLACKLIST
       | _ => failed
       end;
  _ ← get_next_token;
  t ← parse_table;
  ty ← cur_type;
  if is_tt ty TT_NIL then
    match inst_def_set_find instance_name ids with
    | Some id =>
      let rb := filter_binding instance_name it name dir ft t in
      match it with
      | IT_UPSTREAM =>
        match bind_filter dir rb name (id_upstreams id) with
        | Some l => mret (update_instance instance_name (set_id_upstreams l) ids)
        | None => failed
        end
      | IT_DOWNSTREAM =>
        match bind_filter dir rb name (id_downstreams id) with
        | Some l => mret (update_instance instance_name (set_id_downstreams l) ids)
        | None => failed
        end
      end
    | None => failed
    end
  else failed.

Definition parse_interface_rule_match_binding (instance_name : string) (it : rb_interface_type)
    (name : string) (dir : rb_interface_direction) (ids : inst_def_set) : P inst_def_set :=
  ty ← cur_type;
  '(rmt, timeout) ←
    (if is_tt ty TT_RULE_MATCHING then
       _ ← get_next_token;
       ty ← cur_type;
       match ty with
       | TT_ALL => mret (RMT_ALL, 0%Z)
       | TT_FIRST => mret (RMT_FIRST, 0%Z)
       | TT_MUTEX =>
         _ ← get_next_token;
         ty ← cur_type;
         if is_tt ty TT_STRING then
           s ← cur_string;
           match stoi s with Some n => mret (RMT_MUTEX, n) | None => failed end
         else failed
       | _ => failed
       end
     else failed);
  _ ← get_next_token;
  ty ← cur_type;
  if is_tt ty TT_NIL then
    match inst_def_set_find instance_name ids with
    | Some _ =>
      mret (update_instance instance_name
        (push_global_setting (matching_binding instance_name it name dir rmt timeout)) ids)
    | None => failed
    end
  else failed.

Definition parse_interface_rule_binding (ids : inst_def_set) : P inst_def_set :=
  pt ← get_parser_type;
  if bool_decide (pt = PT_INTERFACE_RULE_BINDING) then
    _ ← get_next_token;
    ty ← cur_type;
    if is_tt ty TT_STRING then
      instance_name ← cur_string;
      match inst_def_set_find instance_name ids with
      | None => failed
      | Some _ =>
        _ ← get_next_token;
        ty ← cur_type;
        it ← match ty with
             | TT_UPSTREAM => mret IT_UPSTREAM
             | TT_DOWNSTREAM => mret IT_DOWNSTREAM
             | _ => failed
             end;
        _ ← get_next_token;
        ty ← cur_type;
        name ← match ty with
               | TT_STRING => cur_string
               | TT_STAR => mret "*"
               | _ => failed
               end;
        _ ← get_next_token;
        ty ← cur_type;
        dir ← match ty with
              | TT_IN => mret ID_IN
              | TT_OUT => mret ID_OUT
              | _ => failed
              end;
        _ ← get_next_token;
        ty ← cur_type;
        match ty with
        | TT_WHITELIST | TT_BLACKLIST =>
          parse_interface_table_binding instance_name it name dir ids
        | TT_RULE_MATCHING =>
          parse_interface_rule_match_binding instance_name it name dir ids
        | _ => failed
        end
      end
    else failed
  else failed.
End Tables.
