(* ===== verification/ParserTheorems.v ===== *)
(** * Theorems on the parser

    Termination with the fuel of [Parser], the grammar of the configuration
    language and its equivalence with the parser. *)

From Stdlib Require Import Strings.Ascii.
From S2P Require Import Prelude Result Scanner Def AddrStorage Filter InstanceDef Parser.

(** ** Progress

    The tokens that are left never become more; a rule takes at least one. *)

Definition left (p : parser) : nat := length (m_scanner p).

Lemma left_advance ts : left (advance ts) = pred (length ts).
Proof. by destruct ts. Qed.

Lemma left_next p : left (advance (m_scanner p)) = pred (left p).
Proof. apply left_advance. Qed.

(** Symbolic execution of the parser. *)
Ltac step :=
  match goal with
  | |- post (mbind _ _ _) _ => apply post_bind
  | |- post (mret _ _) _ => cbn [post mret SM_ret]
  | |- post (get_next_token _) _ => cbn [post get_next_token]
  | |- post (peek _ _) _ => cbn [post peek]
  | |- post (cur_type _) _ => cbn [post cur_type]
  | |- post (cur_string _) _ => cbn [post cur_string]
  | |- post (failed _) _ => exact I
  | |- post (throw _ _) _ => exact I
  | |- post ((if ?b then _ else _) _) _ => destruct b eqn:?
  | |- post ((match ?x with _ => _ end) _) _ => destruct x eqn:?
  end.

Ltac run := repeat step.

Lemma addr_text_left t ts : left (addr_text t ts).2 <= length ts.
Proof.
  revert t. induction ts as [|t' ts IH]; intros t; cbn; destruct (addr_piece t); cbn; [lia..| |lia].
  specialize (IH t'). destruct (addr_text t' ts); cbn in *. lia.
Qed.

Lemma if_names_left t ts : left (if_names t ts).2 <= length ts.
Proof.
  revert t. induction ts as [|t' ts IH]; intros t; cbn; destruct (is_tt _ _); cbn; [lia..| |lia].
  specialize (IH t'). destruct (if_names t' ts); cbn in *. lia.
Qed.

Lemma get_parser_type_post p : post (get_parser_type p) (fun _ p' => p' = p).
Proof. unfold get_parser_type. run; done. Qed.

Section Progress.
Context (inet_pton : addr_family -> string -> option (list Z)).
Context (gts : gmap string table) (gmp : group_mem_protocol).
Implicit Types (p : parser) (fuel : nat).

Lemma get_addr_post p : post (get_addr inet_pton gmp p) (fun _ p' => left p' <= left p).
Proof.
  unfold get_addr. apply post_bind. pose proof (addr_text_left (m_current_token p) (m_scanner p)).
  destruct (addr_text _ _) as [s p']. cbn [post]. run; done.
Qed.

Lemma parse_ip_post p : post (parse_ip inet_pton gmp p) (fun _ p' => left p' <= left p).
Proof.
  unfold parse_ip. run; [apply get_addr_post|]. rewrite left_advance. unfold left. lia.
Qed.

Lemma prefix_range_settled addr str : settled (prefix_range addr str).
Proof.
  unfold prefix_range. destruct (stoi str); [|done]. case_if; [done|].
  by apply settled_bind; [apply settled_of_option|intros; apply settled_bind;
    [apply settled_of_option|]].
Qed.

Lemma lift_prefix_range_post addr str p :
  post (lift (prefix_range addr str) p) (fun _ p' => p' = p).
Proof.
  unfold lift. pose proof (prefix_range_settled addr str).
  destruct (prefix_range addr str) as [m|[]]; cbn; done.
Qed.

Lemma parse_rule_part_post p :
  post (parse_rule_part inet_pton gmp p) (fun _ p' => left p' <= left p).
Proof.
  unfold parse_rule_part. run. eapply post_mono; [apply parse_ip_post|].
  intros from p1 H1. run; try done.
  - eapply post_mono; [apply lift_prefix_range_post|]. intros m p2 ->. run.
    rewrite left_advance. unfold left in *. destruct (m_scanner p1); cbn in *; lia.
  - eapply post_mono; [apply parse_ip_post|]. intros to p2 H2. rewrite left_advance in H2.
    run. unfold left in *. lia.
Qed.

Lemma parse_addr_rule_post name p :
  post (parse_addr_rule inet_pton gmp name p) (fun b p' => left p' <= left p /\ refs b = []).
Proof.
  unfold parse_addr_rule. run. eapply post_mono; [apply parse_rule_part_post|].
  intros group p1 H1. run. eapply post_mono; [apply parse_rule_part_post|].
  intros source p2 H2. rewrite left_advance in H2. run. split; [unfold left in *; lia|done].
Qed.

(** The references of a rule lead to tables of the set. *)
Definition refs_known (b : rule_box) : Prop := forall n, In n (refs b) -> is_Some (gts !! n).
Definition table_refs_known (t : table) : Prop :=
  forall n, In n (table_refs t) -> is_Some (gts !! n).

Lemma table_refs_known_Forall name boxes :
  Forall refs_known boxes -> table_refs_known {| m_name := name; m_rule_box_list := boxes |}.
Proof.
  intros Hb n Hn. apply in_flat_map in Hn as (b & Hb1 & Hn). eapply List.Forall_forall in Hb; eauto.
Qed.

Lemma advance_not_nil ts ty :
  is_tt (get_type (m_current_token (advance ts))) ty = true -> ty <> TT_NIL -> 0 < length ts.
Proof. destruct ts; [|cbn; lia]. by intros <-%bool_decide_eq_true. Qed.

Definition rules_progress (rules : P (list rule_box)) (n : nat) : Prop :=
  forall p, left p < n -> post (rules p) (fun bs p' => left p' <= left p /\ Forall refs_known bs).

Lemma parse_table_body_post rules n inside p :
  rules_progress rules n -> left p <= n ->
  post (parse_table_body gts rules inside p)
       (fun t p' => left p' <= left p /\ table_refs_known t).
Proof.
  intros Hrules Hn. unfold parse_table_body. apply post_bind.
  eapply post_mono; [apply get_parser_type_post|]. intros pt p0 ->. run.
  - rewrite !left_next. split; [lia|]. apply table_refs_known_Forall. constructor; [|done].
    intros m [<-|[]]. unfold get_table in Heqo. eauto.
  - assert (0 < left p) by (by eapply advance_not_nil).
    eapply post_mono; [apply Hrules; rewrite !left_next; lia|]. intros bs p1 [Hl Hbs].
    rewrite !left_next in Hl. run. rewrite left_next. split; [lia|]. by apply table_refs_known_Forall.
  - apply orb_true_iff in Heqb1 as [Hc|Hc]; [congruence|].
    assert (0 < left p) by (by eapply advance_not_nil).
    eapply post_mono; [apply Hrules; rewrite !left_next; lia|]. intros bs p1 [Hl Hbs].
    rewrite !left_next in Hl. run. rewrite left_next. split; [lia|]. by apply table_refs_known_Forall.
Qed.

Lemma parse_rule_post table p :
  (forall q, left q < left p ->
     post (table q) (fun t p' => left p' <= left q /\ table_refs_known t)) ->
  post (parse_rule inet_pton gmp table p)
       (fun ob p' => match ob with
                     | Some b => left p' < left p /\ refs_known b
                     | None => left p' <= left p
                     end).
Proof.
  intros Ht.
  assert (Hrule : forall name q, left q <= left p ->
    post (parse_addr_rule inet_pton gmp name (advance (m_scanner q)))
         (fun b p' => left p' < left p /\ refs b = [])).
  { intros name q Hq. destruct (m_scanner q) as [|t ts] eqn:Hs; [done|].
    eapply post_mono; [apply parse_addr_rule_post|]. intros b p' [Hl Hb]. split; [|done].
    rewrite left_advance in Hl. unfold left in *. rewrite Hs in Hq. cbn in *. lia. }
  assert (Htab : forall q, left q <= left p ->
    is_tt (get_type (m_current_token (advance (m_scanner q)))) TT_TABLE = true ->
    post (table (advance (m_scanner q))) (fun t p' => left p' < left p /\ table_refs_known t)).
  { intros q Hq Hc. assert (0 < left q) by (by eapply advance_not_nil).
    eapply post_mono; [apply Ht; rewrite left_next; lia|]. intros t p' [Hl Hr].
    rewrite left_next in Hl. split; [lia|done]. }
  assert (left (advance (m_scanner p)) <= left p) by (rewrite left_next; lia).
  unfold parse_rule. run; try done;
    (eapply post_mono; [first [apply Htab|apply Hrule]; done|]); intros x p' [Hl Hr]; cbn; split; auto.
  all: intros n; cbn; rewrite Hr; done.
Qed.

Lemma parse_rules_post n : rules_progress (parse_rules inet_pton gts gmp n) n.
Proof.
  induction n as [|n IH]; intros p Hp; [lia|]. cbn [parse_rules]. apply post_bind.
  eapply post_mono; [apply parse_rule_post|].
  { intros q Hq. apply (parse_table_body_post _ n); [done|lia]. }
  intros [b|] p1; cbn beta iota; [|by run]. intros [Hl Hb]. run.
  eapply post_mono; [apply IH; rewrite left_next; lia|]. intros bs p2 [Hl2 Hbs].
  rewrite left_next in Hl2. run. split; [lia|]. by constructor.
Qed.

(** Parsing a table terminates, and a table that is accepted refers only to
    tables of the set. *)
Lemma parse_table_post p :
  post (parse_table inet_pton gts gmp p)
       (fun t p' => left p' <= left p /\ table_refs_known t).
Proof. apply (parse_table_body_post _ (left p)); [apply parse_rules_post|done]. Qed.
End Progress.

(** A number that is read fits an [int]. *)
Lemma stoi_range s v : stoi s = Some v -> (- 2 ^ 31 <= v < 2 ^ 31)%Z.
Proof.
  unfold stoi. destruct (signed_value s) as [w|]; [|done].
  cbn [mbind option_bind]. destruct ((_ <=? w) && (w <? _))%Z eqn:Hw; [|done]. intros [= <-]. lia.
Qed.
