(* ===== verification/Grammar.v ===== *)
(** * The grammar of tables

    Two descriptions of the texts of tables. The relations [g_*] say what
    [parse_table] makes of a token sequence; the relations [s_*] are the rules of
    the document references/parser/script_ebnf with a record of the points in which
    the document and the parser may differ. The parser accepts exactly the
    sentences of [parsed], which differs from [documented] as follows: it also
    takes a prefix behind a group, a table without rules or without a name, an
    interface in front of an inner table (which has no effect), and numbers as
    [std::stoi] reads them; it does not take a path box, an address that starts
    with a colon, an address of the other family, a reference to an unknown table,
    and a prefix whose length makes a shift undefined. (The document writes the
    inner of a rule as group_box | source_box, which it does not define; it is read
    as its group, a bar, and its source.) *)

From Stdlib Require Import Strings.Ascii.
From S2P Require Import Prelude Result Scanner Def AddrStorage Filter InstanceDef Parser.
From S2P Require Import ParserTheorems.

(** ** Execution on known tokens *)

Lemma bind_runs {S X Y} (m : SM S X) (f : X -> SM S Y) s x s' r :
  m s = Ok (x, s') -> f x s' = r -> (m ≫= f) s = r.
Proof. unfold mbind, SM_bind. by intros ->. Qed.

Lemma is_tt_eq ty ty' : ty = ty' -> is_tt ty ty' = true.
Proof. apply bool_decide_eq_true_2. Qed.

Lemma is_tt_ne ty ty' : ty <> ty' -> is_tt ty ty' = false.
Proof. apply bool_decide_eq_false_2. Qed.

(** Execution of the parser on tokens of known type. *)
Ltac go1 :=
  match goal with
  | |- mbind _ get_next_token _ = _ => eapply bind_runs; [reflexivity|]
  | |- mbind _ cur_type _ = _ => eapply bind_runs; [reflexivity|]
  | |- mbind _ cur_string _ = _ => eapply bind_runs; [reflexivity|]
  | |- mbind _ (peek _) _ = _ => eapply bind_runs; [reflexivity|]
  | |- mbind _ (mret _) _ = _ => eapply bind_runs; [reflexivity|]
  | |- mbind _ (mbind _ _) _ = _ => eapply bind_runs
  | |- mret _ _ = _ => reflexivity
  | H : get_type ?t = _ |- context [get_type ?t] => rewrite H
  | |- context [is_tt ?a ?b] =>
    let v := eval vm_compute in (is_tt a b) in
    match v with true => idtac | false => idtac end; change (is_tt a b) with v
  end.
Ltac go :=
  repeat first [progress cbn [app advance m_current_token m_scanner orb andb] | go1].

(** ** The grammar *)

Section Grammar.
Context (inet_pton : addr_family -> string -> option (list Z)).
Context (gts : gmap string table) (gmp : group_mem_protocol).
Implicit Types (ts : list token) (t : token).

(** The text of an address: the pieces of its tokens. *)
Fixpoint addr_words ts : option string :=
  match ts with
  | [] => Some EmptyString
  | t :: ts' => s ← addr_piece t; s' ← addr_words ts'; Some (s +:+ s')
  end.

(** ip_address = "*" | @ipv4_address@ | @ipv6_address@ *)
Inductive g_ip : list token -> addr_storage -> Prop :=
  | g_star t : get_type t = TT_STAR -> g_ip [t] (of_family (get_addr_family gmp))
  | g_address t ts s :
      get_type t = TT_STRING -> addr_words (t :: ts) = Some s ->
      is_valid (addr_of_text inet_pton s) = true ->
      ss_family (addr_of_text inet_pton s) = get_addr_family gmp ->
      g_ip (t :: ts) (addr_of_text inet_pton s).

(** group, source = range | ip_address [ "/" netmask_prefix ] *)
Inductive g_part : list token -> addr_match -> Prop :=
  | g_single ts a : g_ip ts a -> g_part ts (single_addr a)
  | g_prefix ts a slash n m :
      g_ip ts a -> get_type slash = TT_SLASH -> get_type n = TT_STRING ->
      prefix_range a (get_string n) = Ok m -> g_part (ts ++ [slash; n]) m
  | g_range ts1 a dash ts2 b :
      g_ip ts1 a -> get_type dash = TT_RANGE -> g_ip ts2 b ->
      g_part (ts1 ++ dash :: ts2) (addr_range a b).

(** An optional name. *)
Inductive g_name : list token -> string -> Prop :=
  | g_no_name : g_name [] EmptyString
  | g_some_name t : get_type t = TT_STRING -> g_name [t] (get_string t).

(** rule_box = "(" table ")" | [@if_name@] "(" group "|" source ")", without the
    closing bracket; table = "table" (table_definition | table_reference). *)
Inductive g_rule : list token -> rule_box -> Prop :=
  | g_rule_addr tn name lb tg g pipe tso s :
      g_name tn name -> get_type lb = TT_LEFT_BRACKET -> g_part tg g ->
      get_type pipe = TT_PIPE -> g_part tso s ->
      g_rule (tn ++ lb :: tg ++ pipe :: tso) (rule_addr name g s)
  | g_rule_table tn name lb tts tb :
      g_name tn name -> get_type lb = TT_LEFT_BRACKET -> g_table tts tb ->
      g_rule (tn ++ lb :: tts) (rule_table (m_name tb) (m_rule_box_list tb))
with g_table : list token -> table -> Prop :=
  | g_table_ref kw n :
      get_type kw = TT_TABLE -> get_type n = TT_STRING -> is_Some (gts !! get_string n) ->
      g_table [kw; n]
        {| m_name := EmptyString; m_rule_box_list := [rule_table_ref (get_string n)] |}
  | g_table_def kw tn name lb trs bs rb :
      get_type kw = TT_TABLE -> g_name tn name -> get_type lb = TT_LEFT_BRACE ->
      g_rules trs bs -> get_type rb = TT_RIGHT_BRACE ->
      g_table (kw :: tn ++ lb :: trs ++ [rb]) {| m_name := name; m_rule_box_list := bs |}
with g_rules : list token -> list rule_box -> Prop :=
  | g_rules_nil : g_rules [] []
  | g_rules_cons ts b rb trs bs :
      g_rule ts b -> get_type rb = TT_RIGHT_BRACKET -> g_rules trs bs ->
      g_rules (ts ++ rb :: trs) (b :: bs).

(** ** The parser accepts what the grammar generates *)

(** The first token, the end marker if there is none. *)
Definition head_type ts : token_type := get_type (m_current_token (advance ts)).

Definition stops_addr ts : Prop := addr_piece (m_current_token (advance ts)) = None.

Lemma addr_text_words ts s rest t :
  addr_words (t :: ts) = Some s -> stops_addr rest ->
  addr_text t (ts ++ rest) = (s, advance rest).
Proof.
  unfold stops_addr. revert t s. induction ts as [|t' ts IH]; intros t s Hs Hrest.
  - cbn in Hs. destruct (addr_piece t) as [s1|] eqn:Ht; [|done]. cbn in Hs.
    injection Hs as <-. rewrite append_nil_r. destruct rest as [|r rest]; cbn; rewrite Ht; [done|].
    cbn in Hrest. destruct rest; cbn; rewrite Hrest; by rewrite append_nil_r.
  - cbn [addr_words] in Hs. destruct (addr_piece t) as [s1|] eqn:Ht; [|done].
    cbn [mbind option_bind] in Hs.
    destruct (addr_words (t' :: ts)) as [s2|] eqn:Ht'.
    2: { cbn [addr_words mbind option_bind] in Ht'. cbn in Hs. by rewrite Ht' in Hs. }
    cbn [app addr_text]. rewrite Ht. rewrite (IH t' s2) by done.
    cbn [addr_words mbind option_bind] in Ht'. rewrite Ht' in Hs. by injection Hs as <-.
Qed.

Lemma parse_ip_complete ts a rest :
  g_ip ts a -> stops_addr rest ->
  parse_ip inet_pton gmp (advance (ts ++ rest)) = Ok (a, advance rest).
Proof.
  intros [t Ht|t ts' s Ht Hs Hv Hf] Hrest; unfold parse_ip; go.
  unfold get_addr. eapply bind_runs.
  - cbn [advance m_current_token m_scanner app]. by rewrite (addr_text_words _ s).
  - cbn beta zeta. rewrite Hv. by rewrite bool_decide_eq_true_2.
Qed.

Lemma g_ip_head ts a rest :
  g_ip ts a ->
  is_tt (get_type (m_current_token (advance (ts ++ rest)))) TT_STRING
  || is_tt (get_type (m_current_token (advance (ts ++ rest)))) TT_STAR = true.
Proof. intros [t Ht|t ts' s Ht]; cbn; by rewrite Ht. Qed.

Lemma ends_part_stops rest : ends_part (head_type rest) = true -> stops_addr rest.
Proof.
  unfold ends_part, head_type, stops_addr, addr_piece.
  by intros [->%bool_decide_eq_true| ->%bool_decide_eq_true]%orb_true_iff.
Qed.

Lemma ends_part_not rest :
  ends_part (head_type rest) = true -> is_tt (head_type rest) TT_SLASH = false.
Proof.
  unfold ends_part. by intros [->%bool_decide_eq_true| ->%bool_decide_eq_true]%orb_true_iff.
Qed.

Lemma stops_addr_cons t ts : addr_piece t = None -> stops_addr (t :: ts).
Proof. done. Qed.

Lemma parse_rule_part_complete ts m rest :
  g_part ts m -> ends_part (head_type rest) = true ->
  parse_rule_part inet_pton gmp (advance (ts ++ rest)) = Ok (m, advance rest).
Proof.
  intros Hg Hrest. unfold parse_rule_part. eapply bind_runs; [reflexivity|].
  destruct Hg as [ts a Ha|ts a slash n m Ha Hslash Hn Hm|ts1 a dash ts2 b Ha Hdash Hb].
  - rewrite (g_ip_head ts a) by done.
    eapply bind_runs; [apply parse_ip_complete; [done|by apply ends_part_stops]|].
    eapply bind_runs; [reflexivity|]. fold (head_type rest). by rewrite ends_part_not, Hrest.
  - rewrite <- app_assoc. cbn [app]. rewrite (g_ip_head ts a) by done.
    eapply bind_runs; [apply parse_ip_complete; [done|]|].
    { apply stops_addr_cons. unfold addr_piece. by rewrite Hslash. }
    go. eapply bind_runs; [unfold lift; cbn [advance m_current_token m_scanner]; by rewrite Hm|]. go. fold (head_type rest). by rewrite Hrest.
  - rewrite <- app_assoc. cbn [app]. rewrite (g_ip_head ts1 a) by done.
    eapply bind_runs; [apply parse_ip_complete; [done|]|].
    { apply stops_addr_cons. unfold addr_piece. by rewrite Hdash. }
    go. unfold ends_part at 1. go. rewrite (g_ip_head ts2 b) by done.
    eapply bind_runs; [apply parse_ip_complete; [done|by apply ends_part_stops]|].
    go. fold (head_type rest). by rewrite Hrest.
Qed.

Lemma parse_addr_rule_complete name tg g pipe tso s rb rest :
  g_part tg g -> get_type pipe = TT_PIPE -> g_part tso s -> get_type rb = TT_RIGHT_BRACKET ->
  parse_addr_rule inet_pton gmp name (advance (tg ++ pipe :: tso ++ rb :: rest))
  = Ok (rule_addr name g s, advance (rb :: rest)).
Proof.
  intros Hg Hp Hs Hrb. unfold parse_addr_rule.
  eapply bind_runs; [apply parse_rule_part_complete; [done|]|].
  { unfold head_type. cbn. by rewrite Hp. }
  go. eapply bind_runs; [apply parse_rule_part_complete; [done|]|].
  { unfold head_type. cbn. by rewrite Hrb. }
  go.
Qed.

Lemma g_part_head ts m rest : g_part ts m -> is_tt (head_type (ts ++ rest)) TT_TABLE = false.
Proof.
  intros Hg. assert (exists ts1 a ts2, g_ip ts1 a /\ ts = ts1 ++ ts2) as (ts1 & a & ts2 & Ha & ->).
  { destruct Hg; eauto. by exists ts, a, []; rewrite app_nil_r. }
  rewrite <- app_assoc. pose proof (g_ip_head ts1 a (ts2 ++ rest) Ha) as H. unfold head_type.
  by apply orb_true_iff in H as [->%bool_decide_eq_true| ->%bool_decide_eq_true].
Qed.

Lemma g_name_head tn name lb rest :
  g_name tn name -> get_type lb = TT_LEFT_BRACKET ->
  is_tt (head_type (tn ++ lb :: rest)) TT_STRING
  || is_tt (head_type (tn ++ lb :: rest)) TT_LEFT_BRACKET = true.
Proof. intros [|t Ht] Hlb; unfold head_type; cbn; [by rewrite Hlb|by rewrite Ht]. Qed.

(** The name of a rule, read up to the opening bracket. *)
Lemma parse_rule_name_complete tn name lb rest table r :
  g_name tn name -> get_type lb = TT_LEFT_BRACKET ->
  (if is_tt (head_type rest) TT_TABLE then
     t ← table;
     mret (Some (rule_table (m_name t) (m_rule_box_list t)))
   else b ← parse_addr_rule inet_pton gmp name; mret (Some b)) (advance rest) = r ->
  parse_rule inet_pton gmp table (advance (tn ++ lb :: rest)) = r.
Proof.
  intros Hn Hlb Hr. unfold parse_rule. eapply bind_runs; [reflexivity|].
  fold (head_type (tn ++ lb :: rest)). rewrite (g_name_head tn name) by done.
  destruct Hn as [|t Ht]; unfold head_type; go; exact Hr.
Qed.

Lemma g_rules_head trs bs rb rest inside :
  g_rules trs bs -> get_type rb = TT_RIGHT_BRACE ->
  closes inside (head_type (trs ++ rb :: rest)) = false.
Proof.
  intros Hg Hrb. assert (head_type (trs ++ rb :: rest) ∈ [TT_STRING; TT_LEFT_BRACKET; TT_RIGHT_BRACE])
    as Hin.
  { destruct Hg as [|ts b rb' trs bs Hr]; unfold head_type; [cbn; rewrite Hrb; set_solver|].
    destruct Hr as [tn name lb tg g pipe tso s Hn Hlb|tn name lb tts tb Hn Hlb];
      destruct Hn as [|t Ht]; cbn; rewrite ?Hlb, ?Ht; set_solver. }
  unfold closes. destruct inside; apply is_tt_ne; intros He; rewrite He in Hin; set_solver.
Qed.

Lemma nth_head ts : get_type (nth 0 ts (tok TT_NIL)) = head_type ts.
Proof. by destruct ts. Qed.

Definition rule_complete ts b : Prop :=
  forall n rb rest, get_type rb = TT_RIGHT_BRACKET -> length ts <= n ->
  parse_rule inet_pton gmp
    (parse_table_body gts (parse_rules inet_pton gts gmp n) true) (advance (ts ++ rb :: rest))
  = Ok (Some b, advance (rb :: rest)).

Definition table_complete ts tb : Prop :=
  forall n inside rest, closes inside (head_type rest) = true -> length ts <= S n ->
  parse_table_body gts (parse_rules inet_pton gts gmp n) inside (advance (ts ++ rest))
  = Ok (tb, advance rest).

Definition rules_complete trs bs : Prop :=
  forall n rb rest, get_type rb = TT_RIGHT_BRACE -> length trs < n ->
  parse_rules inet_pton gts gmp n (advance (trs ++ rb :: rest)) = Ok (bs, advance (rb :: rest)).

Scheme g_rule_mut := Induction for g_rule Sort Prop
  with g_table_mut := Induction for g_table Sort Prop
  with g_rules_mut := Induction for g_rules Sort Prop.
Combined Scheme g_mutind from g_rule_mut, g_table_mut, g_rules_mut.

Lemma rule_addr_complete tn name lb tg g pipe tso s :
  g_name tn name -> get_type lb = TT_LEFT_BRACKET -> g_part tg g ->
  get_type pipe = TT_PIPE -> g_part tso s ->
  rule_complete (tn ++ lb :: tg ++ pipe :: tso) (rule_addr name g s).
Proof.
  intros Hn Hlb Hg Hp Hs k rb rest Hrb _. rewrite <- app_assoc. cbn [app].
  apply (parse_rule_name_complete _ name); [done..|].
  rewrite <- app_assoc. cbn [app].
  rewrite (g_part_head tg g) by done. eapply bind_runs; [by apply parse_addr_rule_complete|done].
Qed.

Lemma table_def_complete kw tn name lb trs bs rb :
  get_type kw = TT_TABLE -> g_name tn name -> get_type lb = TT_LEFT_BRACE ->
  g_rules trs bs -> rules_complete trs bs -> get_type rb = TT_RIGHT_BRACE ->
  table_complete (kw :: tn ++ lb :: trs ++ [rb]) {| m_name := name; m_rule_box_list := bs |}.
Proof.
  intros Hkw Hn Hlb Hg Hrs Hrb k inside rest Hclose Hlen.
  cbn in Hlen. rewrite length_app in Hlen. cbn in Hlen. rewrite length_app in Hlen. cbn in Hlen.
  unfold parse_table_body. eapply bind_runs; [unfold get_parser_type; go|].
  rewrite bool_decide_eq_true_2 by done. rewrite <- app_assoc. cbn [app]. rewrite <- app_assoc.
  cbn [app].
  assert (Hbody : forall nm, (boxes ← parse_rules inet_pton gts gmp k;
     ty ← cur_type;
     if is_tt ty TT_RIGHT_BRACE then
       _ ← get_next_token;
       ty ← cur_type;
       if closes inside ty then mret {| m_name := nm; m_rule_box_list := boxes |} else failed
     else failed) (advance (trs ++ rb :: rest))
    = Ok ({| m_name := nm; m_rule_box_list := bs |}, advance rest)).
  { intros nm. eapply bind_runs; [by apply Hrs; [|lia]|]. go.
    fold (head_type rest). by rewrite Hclose. }
  destruct Hn as [|t Ht]; go; rewrite nth_head.
  - rewrite (g_rules_head trs bs) by done. go. apply Hbody.
  - replace (closes inside _) with false by (unfold head_type; cbn [advance m_current_token]; rewrite Hlb; by destruct inside). go. apply Hbody.
Qed.

Lemma grammar_complete :
  (forall ts b, g_rule ts b -> rule_complete ts b)
  /\ (forall ts tb, g_table ts tb -> table_complete ts tb)
  /\ (forall trs bs, g_rules trs bs -> rules_complete trs bs).
Proof.
  apply g_mutind.
  - intros. by apply rule_addr_complete.
  - intros tn name lb tts tb Hn Hlb Ht IH k rb rest Hrb Hlen. rewrite <- app_assoc. cbn [app].
    apply (parse_rule_name_complete _ name); [done..|].
    assert (is_tt (head_type (tts ++ rb :: rest)) TT_TABLE = true) as ->.
    { unfold head_type. destruct Ht; cbn; by apply is_tt_eq. }
    rewrite length_app in Hlen. cbn in Hlen.
    eapply bind_runs; [apply IH; [|lia]|done]. unfold head_type. cbn. by rewrite Hrb.
  - intros kw n Hkw Hn [u Hu] k inside rest Hclose Hlen. unfold parse_table_body.
    eapply bind_runs; [unfold get_parser_type; go|]. rewrite bool_decide_eq_true_2 by done.
    go. rewrite nth_head, Hclose. go. unfold get_table. rewrite Hu. go.
  - intros. by apply table_def_complete.
  - intros k rb rest Hrb Hlen. destruct k as [|k]; [cbn in Hlen; lia|]. cbn [parse_rules].
    eapply bind_runs; [unfold parse_rule; go|]. go.
  - intros ts b rb trs bs Hr IHr Hrb Hrs IHrs k rb' rest Hrb' Hlen.
    rewrite length_app in Hlen. cbn in Hlen. destruct k as [|k]; [lia|]. cbn [parse_rules].
    rewrite <- app_assoc. cbn [app]. eapply bind_runs; [apply IHr; [done|lia]|].
    go. eapply bind_runs; [apply IHrs; [done|lia]|done].
Qed.

(** ** The grammar generates what the parser accepts *)

Definition reads {X} (G : list token -> X -> Prop) ts (x : X) (p : parser) : Prop :=
  exists ts1 rest, ts = ts1 ++ rest /\ p = advance rest /\ G ts1 x.

Lemma head_cons ts ty :
  is_tt (get_type (m_current_token (advance ts))) ty = true -> ty <> TT_NIL ->
  exists t ts', ts = t :: ts' /\ get_type t = ty.
Proof. destruct ts as [|t ts]; intros <-%bool_decide_eq_true; [done|eauto]. Qed.

Lemma addr_text_sound ts t :
  is_Some (addr_piece t) ->
  exists ts1 rest, ts = ts1 ++ rest /\ (addr_text t ts).2 = advance rest
    /\ addr_words (t :: ts1) = Some (addr_text t ts).1.
Proof.
  revert t. induction ts as [|t' ts IH]; intros t [s Hs].
  - exists [], []. cbn. rewrite Hs. cbn. by rewrite append_nil_r.
  - cbn [addr_text]. rewrite Hs. destruct (addr_piece t') as [s'|] eqn:Ht'.
    + destruct (IH t' ltac:(eauto)) as (ts1 & rest & -> & Hr & Hw).
      exists (t' :: ts1), rest. destruct (addr_text t' (ts1 ++ rest)) as [s2 p2]. cbn in Hr, Hw |- *.
      rewrite Hs, Ht'. cbn. rewrite Ht' in Hw. cbn in Hw.
      destruct (addr_words ts1); cbn in Hw |- *; by simplify_eq.
    + exists [], (t' :: ts). destruct ts; cbn; rewrite Ht'; cbn; rewrite Hs; cbn; done.
Qed.

Lemma parse_ip_sound ts :
  is_tt (get_type (m_current_token (advance ts))) TT_STRING
  || is_tt (get_type (m_current_token (advance ts))) TT_STAR = true ->
  post (parse_ip inet_pton gmp (advance ts)) (reads g_ip ts).
Proof.
  intros Hh. unfold parse_ip. do 2 step. step.
  - destruct (head_cons ts TT_STRING) as (t & ts' & -> & Ht); [done..|].
    unfold get_addr. step. cbn [post advance m_current_token m_scanner].
    destruct (addr_text_sound ts' t) as (ts1 & rest & -> & Hr & Hw).
    { unfold addr_piece. rewrite Ht. eauto. }
    destruct (addr_text t (ts1 ++ rest)) as [s p]. cbn in Hr, Hw. subst p. run.
    exists (t :: ts1), rest. split_and!; [done..|]. bool_simpl. by apply g_address.
  - destruct (head_cons ts TT_STAR) as (t & ts' & -> & Ht); [|done|].
    { by destruct (is_tt _ TT_STRING). }
    run. exists [t], ts'. split_and!; [done..|]. by apply g_star.
Qed.

Lemma parse_rule_part_sound ts :
  post (parse_rule_part inet_pton gmp (advance ts)) (reads g_part ts).
Proof.
  unfold parse_rule_part. run. eapply post_mono; [by apply parse_ip_sound|].
  intros a p (ts1 & rest & -> & -> & Ha). do 2 step. step.
  - destruct (head_cons rest TT_SLASH) as (sl & rest' & -> & Hsl); [done..|].
    do 4 step. step; [|step]. destruct (head_cons rest' TT_STRING) as (n & rest2 & -> & Hn); [done..|].
    do 2 step. step. eapply post_mono.
    { instantiate (1 := fun m p => p = advance (n :: rest2) /\ prefix_range a (get_string n) = Ok m).
      unfold lift. cbn. pose proof (prefix_range_settled a (get_string n)) as Hs.
      destruct (prefix_range a (get_string n)) as [m|[]]; cbn; done. }
    intros m p [-> Hm]. run. exists (ts1 ++ [sl; n]), rest2.
    split_and!; [by rewrite <- app_assoc|done|by eapply g_prefix].
  - step; [by exists ts1, rest; split_and!; [..|by apply g_single]|].
    step; [|step]. destruct (head_cons rest TT_RANGE) as (d & rest' & -> & Hd); [done..|].
    run. eapply post_mono; [by apply parse_ip_sound|].
    intros b p (ts2 & rest2 & Hr & -> & Hb). cbn in Hr. subst rest'. run.
    exists (ts1 ++ d :: ts2), rest2.
    split_and!; [by rewrite <- app_assoc|done|by apply g_range].
Qed.

Lemma parse_addr_rule_sound name ts :
  post (parse_addr_rule inet_pton gmp name (advance ts))
    (fun b p => exists tg g pipe tso s rb rest,
       ts = tg ++ pipe :: tso ++ rb :: rest /\ p = advance (rb :: rest) /\ b = rule_addr name g s
       /\ g_part tg g /\ get_type pipe = TT_PIPE /\ g_part tso s
       /\ get_type rb = TT_RIGHT_BRACKET).
Proof.
  unfold parse_addr_rule. step. eapply post_mono; [apply parse_rule_part_sound|].
  intros g p (tg & rest & -> & -> & Hg). do 2 step. step; [|step].
  destruct (head_cons rest TT_PIPE) as (pipe & rest' & -> & Hp); [done..|].
  do 2 step. step. eapply post_mono; [apply parse_rule_part_sound|].
  intros s p (tso & rest & Hr & -> & Hs). cbn in Hr. subst rest'. do 2 step. step; [|step].
  destruct (head_cons rest TT_RIGHT_BRACKET) as (rb & rest' & -> & Hrb); [done..|].
  step. by exists tg, g, pipe, tso, s, rb, rest'.
Qed.

(** A name in front of a bracket. *)
Lemma name_sound ts lb :
  post ((if is_tt (get_type (m_current_token (advance ts))) TT_STRING
         then s ← cur_string; _ ← get_next_token; mret s
         else mret EmptyString) (advance ts)) (fun name p =>
    is_tt (get_type (m_current_token p)) lb = true -> lb <> TT_NIL ->
    exists tn t rest, ts = tn ++ t :: rest /\ p = advance (t :: rest) /\ g_name tn name
      /\ get_type t = lb).
Proof.
  step; run; intros Hlb Hne.
  - destruct (head_cons ts TT_STRING) as (t & ts' & -> & Ht); [done..|].
    destruct (head_cons ts' lb) as (l & rest & -> & Hl); [done..|].
    exists [t], l, rest. split_and!; [done..| |done]. by apply g_some_name.
  - destruct (head_cons ts lb) as (l & rest & -> & Hl); [done..|].
    exists [], l, rest. split_and!; [done..| |done]. apply g_no_name.
Qed.

Definition table_sound (table : P table) (inside : bool) ts : Prop :=
  post (table (advance ts)) (fun tb p => exists ts1 rest,
    ts = ts1 ++ rest /\ p = advance rest /\ g_table ts1 tb /\ closes inside (head_type rest) = true).

Definition rules_sound (rules : P (list rule_box)) (n : nat) : Prop :=
  forall ts, left (advance ts) < n -> post (rules (advance ts)) (reads g_rules ts).

Lemma parse_rule_sound table ts :
  (forall ts', length ts' < length ts -> table_sound table true ts') ->
  post (parse_rule inet_pton gmp table (advance ts)) (fun ob p =>
    match ob with
    | None => p = advance ts
    | Some b => exists ts1 rb rest, ts = ts1 ++ rb :: rest /\ p = advance (rb :: rest)
                  /\ g_rule ts1 b /\ get_type rb = TT_RIGHT_BRACKET
    end).
Proof.
  intros Htab. unfold parse_rule. do 2 step. step; [|by step]. step.
  eapply post_mono; [apply (name_sound ts TT_LEFT_BRACKET)|]. intros name p Hname.
  do 2 step. step; [|step]. destruct (Hname ltac:(done) ltac:(done)) as (tn & lb & rest & -> & -> & Hn & Hlb).
  do 4 step. step.
  - step. eapply post_mono; [apply Htab; rewrite length_app; cbn; lia|].
    cbn [advance m_scanner]. intros tb p (ts1 & rest' & -> & -> & Ht & Hc). step.
    destruct (head_cons rest' TT_RIGHT_BRACKET) as (rb & rest2 & -> & Hrb); [done..|].
    exists (tn ++ lb :: ts1), rb, rest2. split_and!; [by rewrite <- app_assoc|done| |done].
    by apply (g_rule_table tn name).
  - step. cbn [advance m_scanner]. eapply post_mono; [apply parse_addr_rule_sound|].
    intros b p (tg & g & pipe & tso & s & rb & rest' & -> & -> & -> & Hg & Hp & Hs & Hrb). step.
    exists (tn ++ lb :: tg ++ pipe :: tso), rb, rest'.
    split_and!; [by rewrite <- !app_assoc; cbn; rewrite <- app_assoc|done| |done].
    by apply g_rule_addr.
Qed.

Lemma parse_table_body_sound rules n inside ts :
  rules_sound rules n -> left (advance ts) <= n ->
  table_sound (parse_table_body gts rules inside) inside ts.
Proof.
  intros Hrules Hn. unfold table_sound, parse_table_body. step.
  eapply post_mono; [instantiate (1 := fun pt p => p = advance ts
    /\ (pt = PT_TABLE -> is_tt (get_type (m_current_token (advance ts))) TT_TABLE = true))|].
  { unfold get_parser_type. run; (split; [done|]); done. }
  intros pt p [-> Hpt]. step; [|step].
  destruct (head_cons ts TT_TABLE) as (kw & ts' & -> & Hkw); [by apply Hpt; bool_simpl|done|].
  cbn in Hn. do 2 step. cbn [advance m_scanner]. do 4 step. step.
  - step; [|step]. destruct (head_cons ts' TT_STRING) as (nm & ts2 & -> & Hnm); [done..|].
    run. exists [kw; nm], ts2. split_and!; [done..| |by rewrite <- nth_head].
    apply g_table_ref; [done..|]. unfold get_table in *. eauto.
  - step; [|step]. step.
    eapply post_mono; [instantiate (1 := fun name p => exists tn lb rest,
      ts' = tn ++ lb :: rest /\ p = advance (lb :: rest) /\ g_name tn name
      /\ get_type lb = TT_LEFT_BRACE)|].
    { run.
      - destruct (head_cons ts' TT_STRING) as (nm & ts2 & -> & Hnm); [done..|].
        destruct (head_cons ts2 TT_LEFT_BRACE) as (lb & rest & -> & Hlb); [done..|].
        exists [nm], lb, rest. split_and!; [done..| |done]. by apply g_some_name.
      - destruct (head_cons ts' TT_LEFT_BRACE) as (lb & rest & -> & Hlb); [|done|].
        { by destruct (is_tt _ TT_STRING). }
        exists [], lb, rest. split_and!; [done..| |done]. apply g_no_name. }
    intros name p (tn & lb & rest & -> & -> & Hname & Hlb). do 2 step. cbn [advance m_scanner].
    step. eapply post_mono; [apply Hrules|].
    { rewrite length_app in Hn. cbn in Hn. rewrite left_advance. lia. }
    intros bs p (trs & rest' & -> & -> & Hbs). do 2 step. step; [|step].
    destruct (head_cons rest' TT_RIGHT_BRACE) as (rb & rest2 & -> & Hrb); [done..|].
    run. exists (kw :: tn ++ lb :: trs ++ [rb]), rest2.
    split_and!; [by cbn; rewrite <- app_assoc; cbn; rewrite <- app_assoc|done| |done].
    by apply g_table_def.
Qed.

Lemma parse_rules_sound n : rules_sound (parse_rules inet_pton gts gmp n) n.
Proof.
  induction n as [|n IH]; intros ts Hn; [lia|]. cbn [parse_rules]. step.
  eapply post_mono; [apply parse_rule_sound|].
  { intros ts' Hlt. apply (parse_table_body_sound _ n); [done|].
    rewrite left_advance in *. lia. }
  intros [b|] p; cbn beta iota.
  - intros (ts1 & rb & rest & -> & -> & Hb & Hrb). do 2 step. cbn [advance m_scanner]. step.
    eapply post_mono; [apply IH|].
    { rewrite left_advance in *. rewrite length_app in Hn. cbn in Hn.
      destruct ts1 as [|t1 ts1]; [by inversion Hb as [[] | []]|cbn in Hn; lia]. }
    intros bs p (trs & rest' & -> & -> & Hbs). step. exists (ts1 ++ rb :: trs), rest'.
    split_and!; [by rewrite <- app_assoc|done|by apply g_rules_cons].
  - intros ->. step. exists [], ts. split_and!; [done..|apply g_rules_nil].
Qed.

(** ** Equivalence *)

(** The state behind an accepted table is the end of the command. *)
Lemma parse_table_end ts tb p :
  Forall (fun t => get_type t <> TT_NIL) ts ->
  parse_table inet_pton gts gmp (advance ts) = Ok (tb, p) -> p = advance [] /\ g_table ts tb.
Proof.
  intros Hnil Hp.
  pose proof (parse_table_body_sound _ _ false ts (parse_rules_sound _) (le_n _)) as Hs.
  unfold table_sound in Hs. unfold parse_table, table_fuel in Hp. fold (left (advance ts)) in Hp.
  rewrite Hp in Hs. destruct Hs as (ts1 & rest & -> & -> & Hg & Hc).
  destruct rest as [|t rest]; [by rewrite app_nil_r|]. exfalso.
  apply Forall_app in Hnil as [_ [Ht _]%Forall_cons]. apply Ht. by apply bool_decide_eq_true in Hc.
Qed.

Lemma parse_table_iff ts tb :
  Forall (fun t => get_type t <> TT_NIL) ts ->
  parse_table inet_pton gts gmp (advance ts) = Ok (tb, advance []) <-> g_table ts tb.
Proof.
  intros Hnil. split; [intros Hp; by destruct (parse_table_end ts tb _ Hnil Hp)|].
  unfold parse_table, table_fuel. fold (left (advance ts)).
  - intros Hg. rewrite <- (app_nil_r ts) at 2.
    apply (proj1 (proj2 grammar_complete) ts tb Hg); [done|]. rewrite left_advance. lia.
Qed.

(** ** The document *)

(** The points in which dialects of the language differ. *)
Record dialect := {
  group_prefix : bool;
  empty_table : bool;
  unnamed_table : bool;
  named_inner_table : bool;
  path_box : bool;
  leading_colon : bool;
  other_family : bool;
  unknown_reference : bool;
  prefix_ok : addr_storage -> string -> Prop
}.

Fixpoint all_digits (s : string) : bool :=
  match s with String c s' => isdigit c && all_digits s' | EmptyString => true end.

(** netmask_prefix = @number@ (0 - 128) *)
Definition documented_prefix (_ : addr_storage) (n : string) : Prop :=
  n <> EmptyString /\ all_digits n = true /\ (digits_value 0 n <= 128)%Z.

Definition documented : dialect :=
  {| group_prefix := false; empty_table := false; unnamed_table := false; named_inner_table := false;
     path_box := true; leading_colon := true; other_family := true; unknown_reference := true;
     prefix_ok := documented_prefix |}.

Definition parsed : dialect :=
  {| group_prefix := true; empty_table := true; unnamed_table := true; named_inner_table := true;
     path_box := false; leading_colon := false; other_family := false; unknown_reference := false;
     prefix_ok a n := exists m, prefix_range a n = Ok m |}.

(** What two dialects both allow. *)
Definition meet (d d' : dialect) : dialect :=
  {| group_prefix := group_prefix d && group_prefix d'; empty_table := empty_table d && empty_table d';
     unnamed_table := unnamed_table d && unnamed_table d';
     named_inner_table := named_inner_table d && named_inner_table d';
     path_box := path_box d && path_box d'; leading_colon := leading_colon d && leading_colon d';
     other_family := other_family d && other_family d';
     unknown_reference := unknown_reference d && unknown_reference d';
     prefix_ok a n := prefix_ok d a n /\ prefix_ok d' a n |}.

Section Sentences.
Context (d : dialect).

(** ip_address = "*" | @ipv4_address@ | @ipv6_address@ *)
Inductive s_ip : list token -> addr_storage -> Prop :=
  | s_star t : get_type t = TT_STAR -> s_ip [t] (of_family (get_addr_family gmp))
  | s_address t ts s :
      get_type t = TT_STRING \/ leading_colon d = true /\ get_type t = TT_DOUBLE_DOT ->
      addr_words (t :: ts) = Some s -> is_valid (addr_of_text inet_pton s) = true ->
      ss_family (addr_of_text inet_pton s) = get_addr_family gmp \/ other_family d = true ->
      s_ip (t :: ts) (addr_of_text inet_pton s).

(** range | ip_address, and [ "/" netmask_prefix ] where [prefix] allows it. *)
Inductive s_part (prefix : bool) : list token -> Prop :=
  | s_single ts a : s_ip ts a -> s_part prefix ts
  | s_prefix ts a slash n :
      prefix = true -> s_ip ts a -> get_type slash = TT_SLASH -> get_type n = TT_STRING ->
      prefix_ok d a (get_string n) -> s_part prefix (ts ++ [slash; n])
  | s_range ts1 a dash ts2 b :
      s_ip ts1 a -> get_type dash = TT_RANGE -> s_ip ts2 b -> s_part prefix (ts1 ++ dash :: ts2).

Definition s_name ts : Prop := ts = [] \/ exists t, ts = [t] /\ get_type t = TT_STRING.

Definition is_path ts : Prop :=
  ts <> [] /\ Forall (fun t => get_type t ∈ [TT_STRING; TT_SLASH; TT_DOT]) ts.

(** rule_box = "(" @path@ ")" | "(" table ")" | [@if_name@] "(" group "|" source ")",
    without the closing bracket; table = "table" (@table_name@ | table_definition);
    table_definition = @table_name@ "{" rule_box {rule_box} "}". *)
Inductive s_rule : list token -> Prop :=
  | s_rule_addr tn lb tg pipe tso :
      s_name tn -> get_type lb = TT_LEFT_BRACKET -> s_part (group_prefix d) tg ->
      get_type pipe = TT_PIPE -> s_part true tso -> s_rule (tn ++ lb :: tg ++ pipe :: tso)
  | s_rule_table tn lb tts :
      s_name tn -> tn = [] \/ named_inner_table d = true -> get_type lb = TT_LEFT_BRACKET ->
      s_table tts -> s_rule (tn ++ lb :: tts)
  | s_rule_path lb tp :
      path_box d = true -> get_type lb = TT_LEFT_BRACKET -> is_path tp -> s_rule (lb :: tp)
with s_table : list token -> Prop :=
  | s_table_ref kw n :
      get_type kw = TT_TABLE -> get_type n = TT_STRING ->
      is_Some (gts !! get_string n) \/ unknown_reference d = true -> s_table [kw; n]
  | s_table_def kw tn lb trs rb :
      get_type kw = TT_TABLE -> s_name tn -> tn <> [] \/ unnamed_table d = true ->
      get_type lb = TT_LEFT_BRACE -> s_rules trs -> trs <> [] \/ empty_table d = true ->
      get_type rb = TT_RIGHT_BRACE -> s_table (kw :: tn ++ lb :: trs ++ [rb])
with s_rules : list token -> Prop :=
  | s_rules_nil : s_rules []
  | s_rules_cons ts rb trs :
      s_rule ts -> get_type rb = TT_RIGHT_BRACKET -> s_rules trs -> s_rules (ts ++ rb :: trs).
End Sentences.

Scheme s_rule_mut := Induction for s_rule Sort Prop
  with s_table_mut := Induction for s_table Sort Prop
  with s_rules_mut := Induction for s_rules Sort Prop.
Combined Scheme s_mutind from s_rule_mut, s_table_mut, s_rules_mut.

(** A dialect that allows more. *)
Record below (d d' : dialect) : Prop := {
  be_group_prefix : group_prefix d = true -> group_prefix d' = true;
  be_empty_table : empty_table d = true -> empty_table d' = true;
  be_unnamed_table : unnamed_table d = true -> unnamed_table d' = true;
  be_named_inner_table : named_inner_table d = true -> named_inner_table d' = true;
  be_path_box : path_box d = true -> path_box d' = true;
  be_leading_colon : leading_colon d = true -> leading_colon d' = true;
  be_other_family : other_family d = true -> other_family d' = true;
  be_unknown_reference : unknown_reference d = true -> unknown_reference d' = true;
  be_prefix a n : prefix_ok d a n -> prefix_ok d' a n
}.

Lemma meet_below_l d d' : below (meet d d') d.
Proof. split; cbn; try (by intros [? _]%andb_true_iff); by intros a n [? _]. Qed.

Lemma meet_below_r d d' : below (meet d d') d'.
Proof. split; cbn; try (by intros [_ ?]%andb_true_iff); by intros a n [_ ?]. Qed.

Lemma s_ip_below d d' ts a : below d d' -> s_ip d ts a -> s_ip d' ts a.
Proof.
  intros Hb [t Ht|t ts' s Ht Hs Hv Hf]; [by apply s_star|]. apply s_address; [|done|done|].
  - destruct Ht as [?|[? ?]]; [by left|right; split; [by apply (be_leading_colon _ _ Hb)|done]].
  - destruct Hf as [?|?]; [by left|right; by apply (be_other_family _ _ Hb)].
Qed.

Lemma s_part_below d d' (b b' : bool) ts :
  below d d' -> (b = true -> b' = true) -> s_part d b ts -> s_part d' b' ts.
Proof.
  intros Hb Hp [ts' a Ha|ts' a slash n Hpr Ha Hs Hn Hm|ts1 a dash ts2 c Ha Hd Hc].
  - eapply s_single. by eapply s_ip_below.
  - eapply s_prefix; [auto|by eapply s_ip_below|done|done|by apply (be_prefix _ _ Hb)].
  - eapply s_range; [by eapply s_ip_below|done|by eapply s_ip_below].
Qed.

Lemma s_below d d' :
  below d d' ->
  (forall ts, s_rule d ts -> s_rule d' ts) /\ (forall ts, s_table d ts -> s_table d' ts)
  /\ (forall ts, s_rules d ts -> s_rules d' ts).
Proof.
  intros Hb. apply s_mutind.
  - intros. apply s_rule_addr; [done|done| |done|].
    + by eapply s_part_below; [|apply (be_group_prefix _ _ Hb)|].
    + by eapply s_part_below.
  - intros tn lb tts Hn Hi Hlb _ Ht. apply s_rule_table; [done| |done|done].
    destruct Hi as [?|?]; [by left|right; by apply (be_named_inner_table _ _ Hb)].
  - intros. apply s_rule_path; [by apply (be_path_box _ _ Hb)|done|done].
  - intros kw n Hkw Hn Hr. apply s_table_ref; [done|done|].
    destruct Hr as [?|?]; [by left|right; by apply (be_unknown_reference _ _ Hb)].
  - intros kw tn lb trs rb Hkw Hn Hu Hlb _ Hr He Hrb. apply s_table_def; try done.
    + destruct Hu as [?|?]; [by left|right; by apply (be_unnamed_table _ _ Hb)].
    + destruct He as [?|?]; [by left|right; by apply (be_empty_table _ _ Hb)].
  - apply s_rules_nil.
  - intros. by apply s_rules_cons.
Qed.

(** The two descriptions of what is parsed agree. *)
Lemma g_ip_parsed ts a : g_ip ts a <-> s_ip parsed ts a.
Proof.
  split.
  - intros [t Ht|t ts' s Ht Hs Hv Hf]; [by apply s_star|]. apply s_address; auto.
  - intros [t Ht|t ts' s Ht Hs Hv Hf]; [by apply g_star|].
    apply g_address; [by destruct Ht as [?|[? _]]|done|done|by destruct Hf].
Qed.

Lemma g_part_parsed ts : (exists m, g_part ts m) <-> s_part parsed true ts.
Proof.
  split.
  - intros [m Hm]. destruct Hm as [ts a Ha|ts a slash n m Ha Hs Hn Hm|ts1 a dash ts2 b Ha Hd Hb].
    + eapply s_single. by apply g_ip_parsed.
    + eapply s_prefix; [done|by apply g_ip_parsed|done|done|by exists m].
    + eapply s_range; [by apply g_ip_parsed|done|by apply g_ip_parsed].
  - intros [ts' a Ha%g_ip_parsed|ts' a slash n _ Ha%g_ip_parsed Hs Hn [m Hm]|ts1 a dash ts2 b Ha%g_ip_parsed Hd Hb%g_ip_parsed].
    + eexists. by apply g_single.
    + exists m. by eapply g_prefix.
    + eexists. by apply g_range.
Qed.

Lemma g_name_parsed ts : (exists name, g_name ts name) <-> s_name ts.
Proof.
  split.
  - intros [name Hn]. destruct Hn as [|t Ht]; [by left|right; by exists t].
  - intros [->|(t & -> & Ht)]; [eexists; apply g_no_name|eexists; by apply g_some_name].
Qed.

Lemma g_sentence :
  (forall ts b, g_rule ts b -> s_rule parsed ts) /\ (forall ts tb, g_table ts tb -> s_table parsed ts)
  /\ (forall trs bs, g_rules trs bs -> s_rules parsed trs).
Proof.
  apply g_mutind.
  - intros. apply s_rule_addr; [apply g_name_parsed; by eexists|done|apply g_part_parsed; by eexists
      |done|apply g_part_parsed; by eexists].
  - intros. apply s_rule_table; [apply g_name_parsed; by eexists|by right|done|done].
  - intros. by apply s_table_ref; [| |left].
  - intros. apply s_table_def; [done|apply g_name_parsed; by eexists|by right|done|done|by right|done].
  - apply s_rules_nil.
  - intros. by apply s_rules_cons.
Qed.

Lemma sentence_g :
  (forall ts, s_rule parsed ts -> exists b, g_rule ts b) /\ (forall ts, s_table parsed ts -> exists tb, g_table ts tb)
  /\ (forall trs, s_rules parsed trs -> exists bs, g_rules trs bs).
Proof.
  apply s_mutind.
  - intros tn lb tg pipe tso [name Hn]%g_name_parsed Hlb [g Hg]%g_part_parsed Hp [s Hs]%g_part_parsed.
    eexists. by eapply g_rule_addr.
  - intros tn lb tts [name Hn]%g_name_parsed _ Hlb _ [tb Ht]. eexists. by eapply g_rule_table.
  - done.
  - intros kw n Hkw Hn [?|?]; [|done]. eexists. by apply g_table_ref.
  - intros kw tn lb trs rb Hkw [name Hn]%g_name_parsed _ Hlb _ [bs Hbs] _ Hrb. eexists. by apply (g_table_def kw tn name).
  - eexists. apply g_rules_nil.
  - intros ts rb trs _ [b Hb] Hrb _ [bs Hbs]. eexists. by apply g_rules_cons.
Qed.

(** C12: What the parser of tables accepts, and how it relates to the grammar of
    the document. For every token sequence of the scanner: [parse_table] returns a
    table if and only if the rules of the parser derive it from all of the tokens,
    and it never runs out of fuel; the sequences it accepts are the sentences of
    the document's grammar with the deviations that the record [parsed] lists (it
    also takes prefixes behind groups, empty and unnamed tables and names in front
    of inner tables; it rejects path boxes, addresses that start with a colon or
    are of the other family, unknown references, and some prefixes that are
    documented); and it accepts every sentence of the document's own grammar that
    avoids what [parsed] does not allow. *)
Theorem parse_table_grammar ts :
  Forall (fun t => get_type t <> TT_NIL) ts ->
  (forall tb p, parse_table inet_pton gts gmp (advance ts) = Ok (tb, p)
     <-> g_table ts tb /\ p = advance [])
  /\ parse_table inet_pton gts gmp (advance ts) <> Err OutOfFuel
  /\ ((exists r, parse_table inet_pton gts gmp (advance ts) = Ok r) <-> s_table parsed ts)
  /\ (s_table (meet documented parsed) ts ->
      s_table documented ts /\ exists r, parse_table inet_pton gts gmp (advance ts) = Ok r).
Proof.
  intros Hnil.
  assert (Hp : (exists r, parse_table inet_pton gts gmp (advance ts) = Ok r) <-> s_table parsed ts).
  { split.
    - intros [[tb p] Hp]. destruct (parse_table_end ts tb p Hnil Hp) as [_ Hg]. by eapply g_sentence.
    - intros [tb Hg]%sentence_g. eexists. by apply parse_table_iff. }
  split_and!; [| |exact Hp|].
  - intros tb p. split; [intros Hr; by destruct (parse_table_end ts tb p Hnil Hr)|].
    intros [Hg ->]. by apply parse_table_iff.
  - eapply (post_settled _ _), parse_table_post.
  - intros Hs. split; [|apply Hp]; eapply s_below; [apply meet_below_l|done|apply meet_below_r|done].
Qed.
End Grammar.

Lemma parse_table_grammar_witness :
  g_table (fun _ _ => None) ∅ IGMPv3
    [tok TT_TABLE; Token TT_STRING "t"; tok TT_LEFT_BRACE; Token TT_STRING "eth0"; tok TT_LEFT_BRACKET;
     tok TT_STAR; tok TT_PIPE; tok TT_STAR; tok TT_RIGHT_BRACKET; tok TT_RIGHT_BRACE]
    {| m_name := "t"; m_rule_box_list :=
       [rule_addr "eth0" (single_addr (of_family AF_INET)) (single_addr (of_family AF_INET))] |}.
Proof.
  refine (proj1 (proj1 (proj1 (parse_table_grammar (fun _ _ => None) ∅ IGMPv3 _ _) _ (advance [])) _));
    [repeat (apply Forall_cons_2; [done|]); apply Forall_nil_2|vm_compute; reflexivity].
Defined.

(** ** Where the document and the parser disagree *)

Section Disagreement.
Local Open Scope Z_scope.

Definition ex_pton (f : addr_family) (s : string) : option (list Z) :=
  match f with
  | AF_INET => if String.eqb s "10.0.0.1" then Some [10; 0; 0; 1] else None
  | AF_INET6 => if String.eqb s "::1" then Some (replicate 15 0 ++ [1]) else None
  | AF_UNSPEC => None
  end.

(** The definition of a table "t" with the box [ts]. *)
Definition one_box (ts : list token) : list token :=
  tok TT_TABLE :: [Token TT_STRING "t"] ++ tok TT_LEFT_BRACE :: (ts ++ tok TT_RIGHT_BRACKET :: []) ++ [tok TT_RIGHT_BRACE].

Lemma one_box_sentence gts gmp d ts :
  s_rule ex_pton gts gmp d ts -> s_table ex_pton gts gmp d (one_box ts).
Proof.
  intros Hr. apply s_table_def; [done|right; by eexists|by left|done| |left; by destruct ts|done].
  apply s_rules_cons; [done|done|apply s_rules_nil].
Qed.

Definition path_tokens : list token := [tok TT_LEFT_BRACKET; Token TT_STRING "more"].
Definition loopback_tokens : list token :=
  [tok TT_LEFT_BRACKET; tok TT_STAR; tok TT_PIPE; tok TT_DOUBLE_DOT; tok TT_DOUBLE_DOT; Token TT_STRING "1"].
Definition host_tokens : list token :=
  [tok TT_LEFT_BRACKET; tok TT_STAR; tok TT_PIPE; Token TT_STRING "10"; tok TT_DOT; Token TT_STRING "0"; tok TT_DOT;
   Token TT_STRING "0"; tok TT_DOT; Token TT_STRING "1"; tok TT_SLASH; Token TT_STRING "32"].

(** The document allows a file in a box, the address ::1 and a prefix of 32 bits; the
    parser refuses the first two, and the third one shifts a word by its width. *)
Lemma documented_not_parsed :
  (s_table ex_pton ∅ IGMPv3 documented (one_box path_tokens)
   /\ exists f, parse_table ex_pton ∅ IGMPv3 (advance (one_box path_tokens)) = Err (Throw f))
  /\ (s_table ex_pton ∅ MLDv2 documented (one_box loopback_tokens)
      /\ exists f, parse_table ex_pton ∅ MLDv2 (advance (one_box loopback_tokens)) = Err (Throw f))
  /\ (s_table ex_pton ∅ IGMPv3 documented (one_box host_tokens)
      /\ parse_table ex_pton ∅ IGMPv3 (advance (one_box host_tokens)) = Err Undefined).
Proof.
  split_and!; try (eexists; vm_compute; reflexivity); apply one_box_sentence.
  - apply s_rule_path; [done|done|]. split; [done|]. apply Forall_singleton. by left.
  - apply (s_rule_addr _ _ _ _ [] _ [tok TT_STAR] _ [tok TT_DOUBLE_DOT; tok TT_DOUBLE_DOT; Token TT_STRING "1"]);
      [by left|done|by eapply s_single, s_star|done|].
    eapply s_single, (s_address _ _ _ _ _ "::1"); [by right|done|vm_compute; done|by right].
  - apply (s_rule_addr _ _ _ _ [] _ [tok TT_STAR] _
      ([Token TT_STRING "10"; tok TT_DOT; Token TT_STRING "0"; tok TT_DOT; Token TT_STRING "0"; tok TT_DOT; Token TT_STRING "1"]
       ++ [tok TT_SLASH; Token TT_STRING "32"]));
      [by left|done|by eapply s_single, s_star|done|].
    eapply s_prefix; [done| |done|done|by split_and!].
    eapply (s_address _ _ _ _ _ "10.0.0.1"); [by left|done|vm_compute; done|by left].
Qed.

(** The parser takes a table without rules; the document does not. *)
Definition no_boxes : list token := tok TT_TABLE :: [] ++ tok TT_LEFT_BRACE :: [] ++ [tok TT_RIGHT_BRACE].

Lemma parsed_not_documented :
  (exists r, parse_table ex_pton ∅ IGMPv3 (advance no_boxes) = Ok r)
  /\ ~ s_table ex_pton ∅ IGMPv3 documented no_boxes.
Proof.
  split; [eexists; vm_compute; reflexivity|].
  cut (forall ts, s_table ex_pton ∅ IGMPv3 documented ts -> ts <> no_boxes); [intros Hn Hs; by apply (Hn _ Hs)|].
  intros ts [kw n _ Hn _|kw tn lb trs rb _ Hn Hu _ _ _ _]; [by intros [= _ ->]|].
  destruct Hu as [Hu|Hu]; [|done]. destruct Hn as [->|(t & -> & Ht)]; [done|]. by intros [= _ ->].
Qed.
End Disagreement.
