(* ===== verification/Interfaces.v ===== *)
(** * Interface table (include/proxy/interfaces.hpp, src/proxy/interfaces.cpp)

    The numbers the kernel's multicast routing uses for the interfaces. Both
    maps of the class are ordered lists of pairs. What the operating system
    knows of an interface is a parameter: [if_flags] are the flags of the
    address of an interface, if it has one in the address family, [props] the
    addresses of the interfaces in the order of their names and
    [if_nametoindex] the index of a name. *)

From S2P Require Import Prelude Def AddrStorage.

Local Open Scope Z_scope.

(** [MAXVIFS] and [MAXMIFS] of the kernel. *)
Definition MAXVIFS : nat := 32.
Definition MAXMIFS : nat := 32.

Definition INTERFACES_UNKOWN_IF_INDEX : Z := 0.
Definition INTERFACES_UNKOWN_VIF_INDEX : Z := -1.
Definition IFF_UP : Z := 1.

Record interfaces := {
  m_addr_family : addr_family;
  m_reset_reverse_path_filter : bool;
  m_vif_if : list (Z * Z);
  m_if_vif : list (Z * Z)
}.

(** The calls to the reverse path filter, by interface. *)
Inductive rp_action := reset_rp_filter (if_index : Z) | restore_rp_filter (if_index : Z).

Implicit Types (ifs : interfaces) (i v : Z).

Definition new_interfaces (f : addr_family) (reset : bool) : interfaces :=
  {| m_addr_family := f; m_reset_reverse_path_filter := bool_decide (f = AF_INET) && reset;
     m_vif_if := []; m_if_vif := [] |}.

Definition set_maps (vi iv : list (Z * Z)) ifs : interfaces :=
  {| m_addr_family := m_addr_family ifs;
     m_reset_reverse_path_filter := m_reset_reverse_path_filter ifs;
     m_vif_if := vi; m_if_vif := iv |}.

Definition get_if_index_vif (virtual_if_index : Z) ifs : Z :=
  match sl_find virtual_if_index (m_vif_if ifs) with
  | Some e => e.2
  | None => INTERFACES_UNKOWN_IF_INDEX
  end.

Definition get_virtual_if_index (if_index : Z) ifs : Z :=
  match sl_find if_index (m_if_vif ifs) with
  | Some e => e.2
  | None => INTERFACES_UNKOWN_VIF_INDEX
  end.

(** The loop that fills the vector of virtual interfaces. The outer option is
    undefined behaviour (an index below zero), the inner one the early return. *)
Fixpoint fill_vifs (l : list (Z * Z)) (vifs : list Z) : option (option (list Z)) :=
  match l with
  | [] => Some (Some vifs)
  | (i, v) :: l' =>
    if Z.of_nat (length vifs) <=? v then Some None
    else if v <? 0 then None
    else fill_vifs l' (<[Z.to_nat v := to_int32 i]> vifs)
  end.

(** The loop that looks for the first free entry, from position [i] on. *)
Fixpoint first_unknown (i : Z) (vifs : list Z) : Z :=
  match vifs with
  | [] => INTERFACES_UNKOWN_VIF_INDEX
  | x :: vifs' => if x =? INTERFACES_UNKOWN_IF_INDEX then i else first_unknown (i + 1) vifs'
  end.

Definition vifs_elements (f : addr_family) : option nat :=
  match f with AF_INET => Some MAXVIFS | AF_INET6 => Some MAXMIFS | AF_UNSPEC => None end.

Definition get_free_vif_number ifs : option Z :=
  match vifs_elements (m_addr_family ifs) with
  | None => Some INTERFACES_UNKOWN_VIF_INDEX
  | Some n =>
    vifs ← fill_vifs (m_if_vif ifs) (replicate n INTERFACES_UNKOWN_IF_INDEX);
    match vifs with
    | None => Some INTERFACES_UNKOWN_VIF_INDEX
    | Some vifs => Some (first_unknown 0 vifs)
    end
  end.

(** The interface of an IPv4 address: the first one whose subnet it is in. *)
Fixpoint get_if_index_saddr (if_nametoindex : string -> Z)
    (props : list (string * option (addr_storage * addr_storage))) (sa : addr_storage) : Z :=
  if bool_decide (ss_family sa = AF_INET) then
    match props with
    | [] => INTERFACES_UNKOWN_IF_INDEX
    | (name, Some (netmask, addr)) :: props' =>
      let src_subnet := mask_ipv4 addr netmask in
      if operator_eq src_subnet (mask_ipv4 netmask sa) then if_nametoindex name
      else get_if_index_saddr if_nametoindex props' sa
    | (_, None) :: props' => get_if_index_saddr if_nametoindex props' sa
    end
  else INTERFACES_UNKOWN_IF_INDEX.

Section Table.
Context (if_flags : addr_family -> Z -> option Z).

Definition is_interface (if_index interface_flags : Z) ifs : bool :=
  match m_addr_family ifs with
  | AF_UNSPEC => false
  | f => match if_flags f if_index with
         | Some flags => negb (Z.land flags interface_flags =? 0)
         | None => false
         end
  end.

Definition add_interface (if_index : Z) ifs : option (bool * interfaces * list rp_action) :=
  free_vif ← get_free_vif_number ifs;
  if INTERFACES_UNKOWN_VIF_INDEX <? free_vif then
    if negb (is_interface if_index IFF_UP ifs) then Some (false, ifs, [])
    else match sl_find if_index (m_if_vif ifs) with
         | Some _ => Some (true, ifs, [])
         | None =>
           let iv := sl_insert (if_index, free_vif) (m_if_vif ifs) in
           match sl_find free_vif (m_vif_if ifs) with
           | Some _ => Some (false, set_maps (m_vif_if ifs) iv ifs, [])
           | None =>
             Some (true, set_maps (sl_insert (free_vif, if_index) (m_vif_if ifs)) iv ifs,
                   if m_reset_reverse_path_filter ifs then [reset_rp_filter if_index] else [])
           end
         end
  else Some (false, ifs, []).

Definition del_interface (if_index : Z) ifs : bool * interfaces * list rp_action :=
  if negb (if_index =? INTERFACES_UNKOWN_IF_INDEX) then
    let vif := get_virtual_if_index if_index ifs in
    (true, set_maps (sl_erase vif (m_vif_if ifs)) (sl_erase if_index (m_if_vif ifs)) ifs,
     if m_reset_reverse_path_filter ifs then [restore_rp_filter if_index] else [])
  else (false, ifs, []).
End Table.

(** ** Lookup in the two maps *)

Definition vif_of ifs i : option Z := snd <$> sl_find i (m_if_vif ifs).
Definition if_of ifs v : option Z := snd <$> sl_find v (m_vif_if ifs).

(** The maps are inverse to each other, with virtual interfaces in the range of
    the kernel. *)
Record ifs_wf ifs : Prop := {
  iw_iv : sl_ordered (m_if_vif ifs);
  iw_vi : sl_ordered (m_vif_if ifs);
  iw_inverse : forall i v, vif_of ifs i = Some v <-> if_of ifs v = Some i;
  iw_range : forall i v, vif_of ifs i = Some v -> 0 < i < 2 ^ 32 /\ 0 <= v < 32
}.

Lemma pair_find_In (l : list (Z * Z)) k x : snd <$> sl_find k l = Some x -> (k, x) ∈ l.
Proof.
  intros (e & He & ->)%fmap_Some. pose proof (sl_find_Some_key _ _ _ He) as Hk.
  apply sl_find_In in He. destruct e. unfold key, pair_Keyed in Hk. simpl in *. by subst.
Qed.

Lemma pair_In_find (l : list (Z * Z)) k x :
  sl_ordered l -> (k, x) ∈ l -> snd <$> sl_find k l = Some x.
Proof. intros Ho Hin. pose proof (sl_ordered_find l (k, x) Ho Hin) as Hf.
  change (key (k, x)) with k in Hf. by rewrite Hf. Qed.

Lemma find_insert_pair (l : list (Z * Z)) k x k' :
  sl_find k l = None ->
  snd <$> sl_find k' (sl_insert (k, x) l) = if decide (k' = k) then Some x else snd <$> sl_find k' l.
Proof.
  intros Hk. rewrite sl_find_insert. change (key (k, x)) with k. case_decide as Hd.
  - subst k'. rewrite Hk. by rewrite bool_decide_eq_true_2.
  - destruct (sl_find k' l); [done|]. by rewrite bool_decide_eq_false_2 by congruence.
Qed.

Lemma find_erase_pair (l : list (Z * Z)) k k' :
  snd <$> sl_find k' (sl_erase k l) = if decide (k' = k) then None else snd <$> sl_find k' l.
Proof.
  rewrite sl_find_erase. case_decide; [by rewrite bool_decide_eq_true_2|].
  by rewrite bool_decide_eq_false_2.
Qed.

(** ** The search for a free number *)

Lemma to_int32_nonzero i : 0 < i < 2 ^ 32 -> to_int32 i <> 0.
Proof.
  intros Hi. unfold to_int32. intros Heq.
  assert (Hm : (i + 2 ^ 31) mod 2 ^ 32 = 2 ^ 31) by lia.
  assert (Hd : i + 2 ^ 31 = 2 ^ 32 * ((i + 2 ^ 31) / 2 ^ 32) + 2 ^ 31)
    by (rewrite <- Hm at 3; apply Z.div_mod; lia).
  nia.
Qed.

Lemma fill_vifs_spec l vifs :
  Forall (fun e => 0 < e.1 < 2 ^ 32 /\ 0 <= e.2 < Z.of_nat (length vifs)) l ->
  exists vifs', fill_vifs l vifs = Some (Some vifs') /\ length vifs' = length vifs
    /\ forall k, vifs' !! k = Some 0 <-> vifs !! k = Some 0 /\ Z.of_nat k ∉ l.*2.
Proof.
  revert vifs. induction l as [|[i v] l IH]; intros vifs Hl; cbn [fill_vifs].
  { exists vifs. split_and!; [done|done|]. intros k. set_solver. }
  apply Forall_cons in Hl as [[Hi Hv] Hl]. simpl in *.
  rewrite (proj2 (Z.leb_gt _ _)) by lia. rewrite (proj2 (Z.ltb_ge _ _)) by lia.
  destruct (IH (<[Z.to_nat v := to_int32 i]> vifs)) as (vifs' & Hf & Hlen & Hspec).
  { eapply Forall_impl; [exact Hl|]. simpl. intros [j x] Hj. by rewrite length_insert. }
  exists vifs'. rewrite length_insert in Hlen. split_and!; [done|done|]. intros k.
  rewrite Hspec. rewrite not_elem_of_cons. destruct (decide (k = Z.to_nat v)) as [->|Hk].
  - rewrite list_lookup_insert_eq by lia. rewrite Z2Nat.id by lia. split; [|naive_solver].
    intros [[= Hz] _]. by apply to_int32_nonzero in Hi.
  - rewrite list_lookup_insert_ne by done. assert (Z.of_nat k <> v) by lia. naive_solver.
Qed.

Lemma first_unknown_spec i vifs :
  (first_unknown i vifs = -1 /\ forall k, vifs !! k <> Some 0)
  \/ exists k, first_unknown i vifs = i + Z.of_nat k /\ vifs !! k = Some 0
       /\ forall k', (k' < k)%nat -> vifs !! k' <> Some 0.
Proof.
  revert i. induction vifs as [|x vifs IH]; intros i; simpl; [by left|].
  unfold INTERFACES_UNKOWN_IF_INDEX. destruct (Z.eqb_spec x 0) as [->|Hx].
  { right. exists 0%nat. split_and!; [lia|done|lia]. }
  destruct (IH (i + 1)) as [[-> Hno]|(k & -> & Hk & Hmin)].
  - left. split; [done|]. intros [|k]; simpl; [congruence|apply Hno].
  - right. exists (S k). split_and!; [lia|done|]. intros [|k'] Hk'; simpl; [congruence|].
    apply Hmin. lia.
Qed.

Definition used_vifs ifs : list Z := (m_if_vif ifs).*2.

Lemma used_vif_of ifs v :
  ifs_wf ifs -> v ∈ used_vifs ifs <-> exists i, vif_of ifs i = Some v.
Proof.
  intros [Ho _ _ _]. unfold used_vifs. rewrite list_elem_of_fmap. split.
  - intros ([i v'] & -> & Hin). exists i. by apply pair_In_find.
  - intros [i Hi]. apply pair_find_In in Hi. by exists (i, v).
Qed.

Lemma free_vif_spec ifs :
  ifs_wf ifs -> m_addr_family ifs <> AF_UNSPEC ->
  exists v, get_free_vif_number ifs = Some v
    /\ ((v = -1 /\ forall k, 0 <= k < 32 -> k ∈ used_vifs ifs)
        \/ (0 <= v < 32 /\ v ∉ used_vifs ifs /\ forall k, 0 <= k < v -> k ∈ used_vifs ifs)).
Proof.
  intros Hwf Hf. unfold get_free_vif_number.
  assert (vifs_elements (m_addr_family ifs) = Some 32%nat) as -> by (by destruct (m_addr_family ifs)).
  destruct (fill_vifs_spec (m_if_vif ifs) (replicate 32 0)) as (vifs & Hfill & Hlen & Hspec).
  { apply Forall_forall. intros [i v] Hin. apply (pair_In_find _ _ _ (iw_iv _ Hwf)) in Hin.
    apply (iw_range _ Hwf i v Hin). }
  unfold INTERFACES_UNKOWN_IF_INDEX. rewrite Hfill. simpl.
  assert (Hused : forall k, 0 <= k < 32 -> vifs !! Z.to_nat k <> Some 0 -> k ∈ used_vifs ifs).
  { intros k Hk Hno. rewrite Hspec in Hno. destruct (decide (k ∈ used_vifs ifs)); [done|].
    destruct Hno. rewrite Z2Nat.id by lia. split; [|done]. apply lookup_replicate. lia. }
  eexists. split; [reflexivity|].
  destruct (first_unknown_spec 0 vifs) as [[-> Hno]|(k & -> & Hk & Hmin)].
  - left. split; [done|]. intros k Hk. by apply Hused.
  - right. apply Hspec in Hk as [Hk Hnot]. apply lookup_replicate in Hk as [_ Hk].
    split_and!; [lia|lia|done|]. intros k' Hk'. apply Hused; [lia|]. apply Hmin. lia.
Qed.

(** ** Invariant *)

Section Invariant.
Context (if_flags : addr_family -> Z -> option Z).

(** The index 0 is never an interface. *)
Hypothesis no_interface_0 : forall f, if_flags f 0 = None.

Lemma new_interfaces_wf f reset : ifs_wf (new_interfaces f reset).
Proof. split; simpl; [constructor|constructor|done|done]. Qed.

Lemma is_interface_nonzero i flags ifs : is_interface if_flags i flags ifs = true -> i <> 0.
Proof.
  unfold is_interface. intros Hi ->. rewrite !no_interface_0 in Hi. by destruct (m_addr_family ifs).
Qed.

(** The result of [add_interface] in a well-formed table. *)
Definition added_to ifs i (b : bool) (ifs' : interfaces) : Prop :=
  (b = true /\ ifs' = ifs /\ is_Some (vif_of ifs i))
  \/ (b = true /\ vif_of ifs i = None /\ exists v, 0 <= v < 32 /\ v ∉ used_vifs ifs
        /\ forall j, vif_of ifs' j = if decide (j = i) then Some v else vif_of ifs j)
  \/ (b = false /\ ifs' = ifs
        /\ (is_interface if_flags i IFF_UP ifs = false \/ m_addr_family ifs = AF_UNSPEC
            \/ forall k, 0 <= k < 32 -> k ∈ used_vifs ifs)).

Lemma insert_wf i v ifs :
  ifs_wf ifs -> 0 < i < 2 ^ 32 -> 0 <= v < 32 -> vif_of ifs i = None -> if_of ifs v = None ->
  ifs_wf (set_maps (sl_insert (v, i) (m_vif_if ifs)) (sl_insert (i, v) (m_if_vif ifs)) ifs).
Proof.
  intros [Hiv Hvi Hinv Hr] Hi Hv Hni Hnv.
  assert (Hfi : sl_find i (m_if_vif ifs) = None) by (by apply fmap_None in Hni).
  assert (Hfv : sl_find v (m_vif_if ifs) = None) by (by apply fmap_None in Hnv).
  split; simpl; [auto with slist|auto with slist| |].
  - intros j u. unfold vif_of, if_of. simpl.
    rewrite !find_insert_pair by done. specialize (Hinv j u).
    unfold vif_of, if_of in *. repeat case_decide; naive_solver.
  - intros j u. unfold vif_of. simpl. rewrite find_insert_pair by done.
    case_decide; [naive_solver|]. apply Hr.
Qed.

Lemma add_interface_spec i ifs :
  ifs_wf ifs -> 0 <= i < 2 ^ 32 ->
  exists b ifs' acts, add_interface if_flags i ifs = Some (b, ifs', acts)
    /\ ifs_wf ifs' /\ added_to ifs i b ifs'.
Proof.
  intros Hwf Hi. unfold add_interface.
  destruct (decide (m_addr_family ifs = AF_UNSPEC)) as [Hf|Hf].
  { unfold get_free_vif_number. rewrite Hf. simpl. eexists _, _, _. split_and!; [done|done|].
    do 2 right. naive_solver. }
  destruct (free_vif_spec ifs Hwf Hf) as (v & -> & Hv). simpl.
  destruct Hv as [[-> Hall]|(Hv & Hfree & _)].
  { eexists _, _, _. split_and!; [done|done|]. do 2 right. naive_solver. }
  rewrite (proj2 (Z.ltb_lt _ _)) by (unfold INTERFACES_UNKOWN_VIF_INDEX; lia).
  destruct (is_interface if_flags i IFF_UP ifs) eqn:Hup; simpl.
  2: { eexists _, _, _. split_and!; [done|done|]. do 2 right. naive_solver. }
  pose proof (is_interface_nonzero _ _ _ Hup) as Hnz.
  destruct (sl_find i (m_if_vif ifs)) as [e|] eqn:Hin.
  { eexists _, _, _. split_and!; [done|done|]. left. unfold vif_of. rewrite Hin. eauto. }
  assert (Hni : vif_of ifs i = None) by (unfold vif_of; by rewrite Hin).
  assert (Hnv : if_of ifs v = None).
  { destruct (if_of ifs v) as [j|] eqn:Hj; [|done]. apply (iw_inverse _ Hwf) in Hj.
    destruct Hfree. apply used_vif_of; eauto. }
  assert (Hvi : sl_find v (m_vif_if ifs) = None) by (by apply fmap_None in Hnv).
  rewrite Hvi. eexists _, _, _. split_and!; [done|apply insert_wf; [done|lia|done..]|].
  right. left. split_and!; [done|done|]. exists v. split_and!; [lia|lia|done|].
  intros j. unfold vif_of. simpl. by rewrite find_insert_pair.
Qed.

Lemma del_interface_spec i ifs :
  ifs_wf ifs ->
  ifs_wf (del_interface i ifs).1.2
  /\ forall j, vif_of (del_interface i ifs).1.2 j
       = if decide (j = i /\ i <> 0) then None else vif_of ifs j.
Proof.
  intros Hwf. unfold del_interface, INTERFACES_UNKOWN_IF_INDEX.
  destruct (Z.eqb_spec i 0) as [->|Hi]; simpl.
  { split; [done|]. intros j. case_decide; [lia|done]. }
  assert (Hvif : forall j, vif_of (set_maps (sl_erase (get_virtual_if_index i ifs) (m_vif_if ifs))
    (sl_erase i (m_if_vif ifs)) ifs) j = if decide (j = i) then None else vif_of ifs j).
  { intros j. unfold vif_of. simpl. by rewrite find_erase_pair. }
  split; [|intros j; rewrite Hvif; repeat case_decide; naive_solver].
  destruct Hwf as [Hiv Hvi Hinv Hr]. split; [by apply sl_erase_ordered|by apply sl_erase_ordered| |].
  - intros j u. rewrite Hvif. unfold if_of. simpl. rewrite find_erase_pair.
    specialize (Hinv j u) as Hju. fold (if_of ifs u).
    assert (Hg : forall w, vif_of ifs i = Some w -> get_virtual_if_index i ifs = w).
    { unfold vif_of, get_virtual_if_index. destruct (sl_find i (m_if_vif ifs)); naive_solver. }
    assert (Hn : vif_of ifs i = None -> get_virtual_if_index i ifs = -1).
    { unfold vif_of, get_virtual_if_index. by destruct (sl_find i (m_if_vif ifs)). }
    destruct (vif_of ifs i) as [x|] eqn:Hx.
    + rewrite (Hg x eq_refl). pose proof (proj1 (Hinv i x) Hx).
      repeat case_decide; simplify_eq; try done.
      * split; [done|]. intros Hu. apply Hinv in Hu. congruence.
      * rewrite Hju. split; [|done]. intros Hu. congruence.
    + rewrite (Hn eq_refl). repeat case_decide; simplify_eq; try done.
      * split; [done|]. intros Hu. apply Hinv in Hu. congruence.
      * split; [|done]. intros Hu. apply Hr in Hu. lia.
  - intros j u. rewrite Hvif. case_decide; [done|]. apply Hr.
Qed.

(** The calls the proxy makes on the table. *)
Inductive ifs_op := AddInterface (if_index : Z) | DelInterface (if_index : Z).

Definition op_index (o : ifs_op) : Z := match o with AddInterface i => i | DelInterface i => i end.

Definition ifs_run1 (o : ifs_op) ifs : option interfaces :=
  match o with
  | AddInterface i => (fun r => r.1.2) <$> add_interface if_flags i ifs
  | DelInterface i => Some (del_interface i ifs).1.2
  end.

Fixpoint ifs_run (ops : list ifs_op) ifs : option interfaces :=
  match ops with
  | [] => Some ifs
  | o :: ops' => ifs' ← ifs_run1 o ifs; ifs_run ops' ifs'
  end.

Lemma ifs_run_wf ops ifs :
  ifs_wf ifs -> Forall (fun o => 0 <= op_index o < 2 ^ 32) ops ->
  exists ifs', ifs_run ops ifs = Some ifs' /\ ifs_wf ifs'.
Proof.
  intros Hwf Hops. revert ifs Hwf. induction Hops as [|o ops Ho Hops IH]; intros ifs Hwf; simpl;
    [eauto|].
  destruct o as [i|i]; simpl in *.
  - destruct (add_interface_spec i ifs Hwf Ho) as (b & ifs' & acts & -> & Hwf' & _). simpl. auto.
  - apply IH. by apply del_interface_spec.
Qed.

(** C27: Interfaces and virtual interfaces stay in a one-to-one correspondence:
    after any history of additions and deletions, which never run into
    undefined behaviour, an interface that has a virtual interface gets it back
    through both lookups, the number is in the range of the kernel, and two
    interfaces never share one. *)
Theorem interfaces_bijection f reset ops :
  Forall (fun o => 0 <= op_index o < 2 ^ 32) ops ->
  exists ifs, ifs_run ops (new_interfaces f reset) = Some ifs
    /\ (forall i, get_virtual_if_index i ifs <> INTERFACES_UNKOWN_VIF_INDEX ->
          0 <= get_virtual_if_index i ifs < Z.of_nat MAXVIFS
          /\ get_if_index_vif (get_virtual_if_index i ifs) ifs = i)
    /\ (forall v, get_if_index_vif v ifs <> INTERFACES_UNKOWN_IF_INDEX ->
          get_virtual_if_index (get_if_index_vif v ifs) ifs = v).
Proof.
  intros Hops. destruct (ifs_run_wf ops _ (new_interfaces_wf f reset) Hops) as (ifs & Hrun & Hwf).
  exists ifs. split; [done|].
  assert (Hv : forall i, get_virtual_if_index i ifs = default (-1) (vif_of ifs i)).
  { intros i. unfold get_virtual_if_index, vif_of. by destruct (sl_find i (m_if_vif ifs)). }
  assert (Hi : forall v, get_if_index_vif v ifs = default 0 (if_of ifs v)).
  { intros v. unfold get_if_index_vif, if_of. by destruct (sl_find v (m_vif_if ifs)). }
  split.
  - intros i. rewrite Hv. destruct (vif_of ifs i) as [v|] eqn:Hiv; [|done]. intros _.
    pose proof (iw_range _ Hwf _ _ Hiv) as [_ Hr]. split; [exact Hr|]. rewrite Hi. simpl.
    apply (iw_inverse _ Hwf) in Hiv. by rewrite Hiv.
  - intros v. rewrite Hi. destruct (if_of ifs v) as [i|] eqn:Hvi; [|done]. intros _. simpl.
    rewrite Hv. apply (iw_inverse _ Hwf) in Hvi. by rewrite Hvi.
Qed.

(** Adding an interface fails only for a reason: the call always returns; if
    it says false, nothing changed and all 32 virtual interfaces are in use, the
    address family is unknown, or the interface is not up; otherwise the
    interface has a virtual interface, the other interfaces keep theirs, and the
    one-to-one correspondence is kept. *)
Theorem add_interface_allocates i ifs :
  ifs_wf ifs -> 0 <= i < 2 ^ 32 ->
  exists b ifs' acts, add_interface if_flags i ifs = Some (b, ifs', acts)
    /\ ifs_wf ifs'
    /\ (b = true -> get_virtual_if_index i ifs' <> INTERFACES_UNKOWN_VIF_INDEX
          /\ forall j, j <> i -> get_virtual_if_index j ifs' = get_virtual_if_index j ifs)
    /\ (b = false -> ifs' = ifs
          /\ (is_interface if_flags i IFF_UP ifs = false \/ m_addr_family ifs = AF_UNSPEC
              \/ (32 <= length (m_if_vif ifs))%nat)).
Proof.
  intros Hwf Hi. destruct (add_interface_spec i ifs Hwf Hi) as (b & ifs' & acts & Hadd & Hwf' & Hs).
  exists b, ifs', acts. split_and!; [done|done| |].
  - assert (Hv : forall ifs i, get_virtual_if_index i ifs = default (-1) (vif_of ifs i)).
    { intros ifs0 j. unfold get_virtual_if_index, vif_of. by destruct (sl_find j (m_if_vif ifs0)). }
    intros ->. rewrite Hv. destruct Hs as [(_ & -> & [v Hiv])|[(_ & _ & v & Hr & _ & Hj)|[[=] _]]].
    + rewrite Hiv. apply (iw_range _ Hwf) in Hiv. unfold INTERFACES_UNKOWN_VIF_INDEX. simpl.
      split; [lia|done].
    + rewrite Hj. rewrite decide_True by done. unfold INTERFACES_UNKOWN_VIF_INDEX. simpl.
      split; [lia|]. intros j Hne. rewrite !Hv, Hj. by rewrite decide_False.
  - intros ->. destruct Hs as [[[=] _]|[[[=] _]|(_ & -> & Hwhy)]]. split; [done|].
    destruct Hwhy as [?|[?|Hall]]; [by left|by right; left|]. do 2 right.
    assert (Hsub : seqZ 0 32 ⊆+ used_vifs ifs).
    { apply NoDup_submseteq; [apply NoDup_seqZ|]. intros k Hk. apply elem_of_seqZ in Hk.
      apply Hall. lia. }
    apply submseteq_length in Hsub. rewrite length_seqZ in Hsub. unfold used_vifs in Hsub.
    by rewrite length_fmap in Hsub.
Qed.
End Invariant.

(** Three interfaces that are up; the second one is deleted, its number is used
    again. *)
Definition ex_flags (f : addr_family) (i : Z) : option Z := if i =? 0 then None else Some IFF_UP.
Definition ex_ops : list ifs_op :=
  [AddInterface 3; AddInterface 7; AddInterface 9; DelInterface 7; AddInterface 4].

Lemma interfaces_bijection_witness :
  exists ifs, ifs_run ex_flags ex_ops (new_interfaces AF_INET true) = Some ifs
    /\ get_if_index_vif (get_virtual_if_index 4 ifs) ifs = 4.
Proof.
  destruct (interfaces_bijection ex_flags (fun f => eq_refl) AF_INET true ex_ops)
    as (ifs & Hrun & Hi & _).
  { repeat constructor; simpl; lia. }
  exists ifs. split; [exact Hrun|]. apply Hi. vm_compute in Hrun. injection Hrun as <-.
  discriminate.
Defined.

Lemma add_interface_allocates_witness :
  exists b ifs' acts,
    add_interface ex_flags 5 (new_interfaces AF_INET6 false) = Some (b, ifs', acts) /\ b = true.
Proof.
  destruct (add_interface_allocates ex_flags (fun f => eq_refl) 5 (new_interfaces AF_INET6 false)
    (new_interfaces_wf AF_INET6 false)) as (b & ifs' & acts & Hadd & _); [lia|].
  exists b, ifs', acts. split; [exact Hadd|]. vm_compute in Hadd. by injection Hadd as <- _ _.
Defined.
