(* ===== verification/Configuration.v ===== *)
(** * Configuration (include/parser/configuration.hpp, src/parser/configuration.cpp)

    From the text of the configuration file to the definitions of the proxy
    instances and their tables of virtual interfaces. The content of the file
    and what the operating system knows of the interfaces are parameters. *)

From Stdlib Require Import Strings.Ascii.
From S2P Require Import Prelude Result Scanner Def AddrStorage Filter InstanceDef Parser.
From S2P Require Import ParserTheorems Interfaces.

(** ** Text *)

Definition newline : ascii := "010".

(** [std::string::find(c, pos)], [substr(0, n)] and the tail from a position. *)
Fixpoint find_char (c : ascii) (s : string) : option nat :=
  match s with
  | EmptyString => None
  | String x s' => if Ascii.eqb x c then Some 0 else S <$> find_char c s'
  end.

Fixpoint str_take (n : nat) (s : string) : string :=
  match n, s with
  | S n', String x s' => String x (str_take n' s')
  | _, _ => EmptyString
  end.

Fixpoint str_drop (n : nat) (s : string) : string :=
  match n, s with
  | S n', String _ s' => str_drop n' s'
  | _, _ => s
  end.

Definition find_from (c : ascii) (pos : nat) (s : string) : option nat :=
  Nat.add pos <$> find_char c (str_drop pos s).

(** [s.erase(pos, len)]. *)
Definition erase (pos len : nat) (s : string) : string :=
  str_take pos s +:+ str_drop (pos + len) s.

(** The items [std::getline(stream, item, delim)] delivers one after the other:
    a delimiter at the very end is not followed by an empty item. *)
Fixpoint getlines (delim : ascii) (s : string) : list string :=
  match s with
  | EmptyString => []
  | String c s' =>
    if Ascii.eqb c delim then EmptyString :: getlines delim s'
    else match getlines delim s' with
         | [] => [String c EmptyString]
         | l :: ls => String c l :: ls
         end
  end.

Definition ltrim (s : string) : string := drop_spaces s.

Fixpoint rtrim (s : string) : string :=
  match s with
  | EmptyString => EmptyString
  | String c s' =>
    match rtrim s' with
    | EmptyString => if isspace c then EmptyString else String c EmptyString
    | r => String c r
    end
  end.

Fixpoint count_chars (s : string) (comp : ascii) : Z :=
  match s with
  | EmptyString => 0
  | String c s' => (if Ascii.eqb c comp then 1 else 0) + count_chars s' comp
  end%Z.

(** ** Commands *)

(** [None] is a file that cannot be opened. Every line ends with a newline. *)
Definition load_file (file : option string) : result string :=
  match file with
  | None => Err (Throw "failed to open config file")
  | Some text =>
    Ok (fold_right (fun line acc => line +:+ String newline acc) EmptyString
          (getlines newline text))
  end.

(** The loop of [delete_comments]; [cc] is the position of a comment character. *)
Fixpoint delete_comments_loop (fuel : nat) (script_file : string) (cc : option nat)
    : result string :=
  match cc with
  | None => Ok script_file
  | Some cc =>
    match fuel with
    | O => Err OutOfFuel
    | S fuel =>
      match find_from newline (cc + 1) script_file with
      | None => Ok (str_take cc script_file)
      | Some eoc =>
        let script_file := erase cc (eoc - cc) script_file in
        delete_comments_loop fuel script_file (find_from "#" cc script_file)
      end
    end
  end.

Definition delete_comments (script_file : string) : result string :=
  delete_comments_loop (String.length script_file) script_file (find_char "#" script_file).

Fixpoint separate_items (current_line : Z) (items : list string) : list (Z * string) :=
  match items with
  | [] => []
  | item :: items' =>
    let line_count_before := count_chars item newline in
    let item := ltrim item in
    let line_count_after := count_chars item newline in
    let item := rtrim item in
    let rest := separate_items (to_uint32 (current_line + line_count_before)) items' in
    if String.eqb item EmptyString then rest
    else (to_uint32 (current_line + (line_count_before - line_count_after)), item) :: rest
  end.

Definition separate_commands (script_file : string) : list (Z * string) :=
  separate_items 1 (getlines ";" script_file).

(** ** The parser of the file *)

Record configuration := {
  m_gmp : group_mem_protocol;
  m_global_table_set : gmap string table;
  m_inst_def_set : inst_def_set
}.

Definition default_configuration : configuration :=
  {| m_gmp := IGMPv3; m_global_table_set := ∅; m_inst_def_set := [] |}.

Section Config.
Context (inet_pton : addr_family -> string -> option (list Z)).

(** The body of the loop of [run_parser]: one command. *)
Definition run_command (cmd : string) (c : configuration) : result configuration :=
  p ← new_parser cmd;
  '(pt, p) ← get_parser_type p;
  match pt with
  | PT_PROTOCOL =>
    '(gmp, _) ← parse_group_mem_proto p;
    Ok {| m_gmp := gmp; m_global_table_set := m_global_table_set c;
          m_inst_def_set := m_inst_def_set c |}
  | PT_INSTANCE_DEFINITION =>
    '(ids, _) ← parse_instance_definition (m_inst_def_set c) p;
    Ok {| m_gmp := m_gmp c; m_global_table_set := m_global_table_set c; m_inst_def_set := ids |}
  | PT_TABLE =>
    '(t, _) ← parse_table inet_pton (m_global_table_set c) (m_gmp c) p;
    let '(gts, inserted) := global_table_set_insert t (m_global_table_set c) in
    if inserted : bool then
      Ok {| m_gmp := m_gmp c; m_global_table_set := gts; m_inst_def_set := m_inst_def_set c |}
    else Err (Throw "failed to parse configfile")
  | PT_INTERFACE_RULE_BINDING =>
    '(ids, _) ← parse_interface_rule_binding inet_pton (m_global_table_set c) (m_gmp c)
                  (m_inst_def_set c) p;
    Ok {| m_gmp := m_gmp c; m_global_table_set := m_global_table_set c; m_inst_def_set := ids |}
  end.

Fixpoint run_parser (cmds : list (Z * string)) (c : configuration) : result configuration :=
  match cmds with
  | [] => Ok c
  | (_, cmd) :: cmds' => c ← run_command cmd c; run_parser cmds' c
  end.

(** ** Virtual interfaces *)

Context (if_nametoindex : string -> Z) (if_flags : addr_family -> Z -> option Z).

(** The lambda [add] of [initalize_interfaces] for a list of interfaces; the
    calls to the reverse path filter are collected. *)
Fixpoint add_interfaces (l : list interface) (r : interfaces * list rp_action)
    : result (interfaces * list rp_action) :=
  match l with
  | [] => Ok r
  | i :: l' =>
    let if_index := if_nametoindex (if_name i) in
    if (if_index =? 0)%Z then Err (Throw "unknown interface")
    else match add_interface if_flags if_index r.1 with
         | None => Err Undefined
         | Some (false, _, _) => Err (Throw "failed to add interface")
         | Some (true, ifs, acts) => add_interfaces l' (ifs, r.2 ++ acts)
         end
  end.

Definition instance_interfaces (c : configuration) (reset : bool) (id : instance_definition)
    : result (interfaces * list rp_action) :=
  r ← add_interfaces (id_downstreams id) (new_interfaces (get_addr_family (m_gmp c)) reset, []);
  add_interfaces (id_upstreams id) r.

Fixpoint initalize_interfaces (c : configuration) (reset : bool) (ids : inst_def_set)
    (m : gmap string interfaces) : result (gmap string interfaces) :=
  match ids with
  | [] => Ok m
  | id :: ids' =>
    r ← instance_interfaces c reset id;
    match m !! id_instance_name id with
    | Some _ => Err (Throw "failed to add instance")
    | None => initalize_interfaces c reset ids' (<[id_instance_name id := r.1]> m)
    end
  end.

(** The constructor. *)
Definition new_configuration (file : option string) (reset : bool)
    : result (configuration * gmap string interfaces) :=
  text ← load_file file;
  text ← delete_comments text;
  c ← run_parser (separate_commands text) default_configuration;
  m ← initalize_interfaces c reset (m_inst_def_set c) ∅;
  Ok (c, m).

Definition get_interfaces_for_pinstance (m : gmap string interfaces) (name : string)
    : option interfaces := m !! name.
End Config.
