(* ===== verification/ConfigMap.v ===== *)
(** * The configuration of the tester
      (include/tester/config_map.hpp, src/tester/config_map.cpp)

    An INI file read line by line; a line is matched against three regular
    expressions. Their matching belongs to a library: it is a parameter with the
    documented meaning of regular expressions ([rmatch]) as its law. Captures are
    shown to be unique, so that [read_line], a direct reading of a line, is what
    the code computes. *)

From Stdlib Require Import Strings.Ascii.
From S2P Require Import Prelude Scanner Configuration.

Local Open Scope list_scope.

(** ** Regular expressions *)

Definition chars : Type := list ascii.

(** The constructs used: a character of a class, repetitions of it, sequence,
    option, and a group that is captured. *)
Inductive regex :=
  | One (p : ascii -> bool)
  | Star (p : ascii -> bool)
  | Plus (p : ascii -> bool)
  | Seq (r1 r2 : regex)
  | Opt (r : regex)
  | Group (r : regex).

(** The whole text is matched, with the captures in order. *)
Inductive rmatch : regex -> chars -> list chars -> Prop :=
  | match_one p c : p c = true -> rmatch (One p) [c] []
  | match_star p s : forallb p s = true -> rmatch (Star p) s []
  | match_plus p s : s <> [] -> forallb p s = true -> rmatch (Plus p) s []
  | match_seq r1 r2 s1 s2 c1 c2 :
      rmatch r1 s1 c1 -> rmatch r2 s2 c2 -> rmatch (Seq r1 r2) (s1 ++ s2) (c1 ++ c2)
  | match_none r : rmatch (Opt r) [] []
  | match_some r s c : rmatch r s c -> rmatch (Opt r) s c
  | match_group r s c : rmatch r s c -> rmatch (Group r) s (s :: c).

(** [boost::regex_match]. *)
Class RegexMatch (regex_match : regex -> chars -> option (list chars)) : Prop := {
  regex_match_sound r s c : regex_match r s = Some c -> rmatch r s c;
  regex_match_complete r s : regex_match r s = None -> forall c, ~ rmatch r s c
}.

(** ** The three expressions *)

Definition is_char (d c : ascii) : bool := Ascii.eqb c d.
Definition anything (_ : ascii) : bool := true.
Definition name_char (c : ascii) : bool :=
  isalpha c || isdigit c || is_char "." c || is_char "_" c.
Definition value_char (c : ascii) : bool := name_char c || is_char "/" c.
Definition not_quote (c : ascii) : bool := negb (is_char quote c).

(** White space and a comment, up to the end of the line. *)
Definition trailer_rx : regex := Seq (Star isspace) (Opt (Seq (One (is_char ";")) (Star anything))).

(** A name in brackets. *)
Definition section_rx : regex :=
  Seq (One (is_char "[")) (Seq (Group (Plus name_char)) (Seq (One (is_char "]")) trailer_rx)).

(** A name and an equals sign in front of a value. *)
Definition key_rx (value : regex) : regex :=
  Seq (Group (Plus name_char)) (Seq (Star isspace) (Seq (One (is_char "=")) (Seq (Star isspace) value))).

(** A plain value. *)
Definition value_rx : regex := key_rx (Seq (Group (Plus value_char)) trailer_rx).

(** A value in quotes. *)
Definition string_rx : regex :=
  key_rx (Seq (One (is_char quote)) (Seq (Group (Plus not_quote)) (Seq (One (is_char quote)) trailer_rx))).

(** ** The map *)

Notation mapped_type := (gmap string string).
Notation config_map := (gmap string mapped_type).

(** [std::runtime_error] with its message; nothing catches it. *)
Definition error := string.

(** A handler works on the map and the current section. *)
Definition regex_handler : Type := list chars -> config_map * string -> error + config_map * string.

Definition text (c : chars) : string := String.string_of_list_ascii c.

(** [sm[i]]; a group that does not exist is empty. *)
Definition capture (sm : list chars) (i : nat) : string := text (default [] (sm !! i)).

Definition new_section : regex_handler := fun sm '(cm, _) =>
  let sec_name := capture sm 0 in
  match cm !! sec_name with
  | Some _ => inl ("section " +:+ sec_name +:+ " already defined")
  | None => inr (<[sec_name := ∅]> cm, sec_name)
  end.

Definition add_key_value_pair : regex_handler := fun sm '(cm, sec) =>
  if String.eqb sec "" then inl "key value pair outside section"
  else
    let key := capture sm 0 in
    let value := capture sm 1 in
    let kv_map := default ∅ (cm !! sec) in
    match kv_map !! key with
    | Some _ => inl ("key " +:+ key +:+ " already defined")
    | None => inr (<[sec := <[key := value]> kv_map]> cm, sec)
    end.

Section ReadIni.
Context (regex_match : regex -> chars -> option (list chars)).

(** [None]: no expression matches. *)
Fixpoint matches (vec : list (regex * regex_handler)) (line : chars) (st : config_map * string)
    : option (error + config_map * string) :=
  match vec with
  | [] => None
  | (rx, rxh) :: vec' =>
    match regex_match rx line with
    | Some sm => Some (rxh sm st)
    | None => matches vec' line st
    end
  end.

Definition rx_handler : list (regex * regex_handler) :=
  [(section_rx, new_section); (value_rx, add_key_value_pair); (string_rx, add_key_value_pair)].

(** The loop; the numbers of the lines that are reported and skipped. *)
Fixpoint read_lines (lines : list chars) (line_count : nat) (st : config_map * string)
    : error + config_map * list nat :=
  match lines with
  | [] => inr (st.1, [])
  | line :: lines' =>
    let line_count := S line_count in
    let ignored := match line with [] => true | c :: _ => Ascii.eqb c ";" end in
    if ignored then read_lines lines' line_count st
    else
      match matches rx_handler line st with
      | None =>
        match read_lines lines' line_count st with
        | inr (cm, skipped) => inr (cm, line_count :: skipped)
        | inl err => inl err
        end
      | Some (inl err) => inl err
      | Some (inr st') => read_lines lines' line_count st'
      end
  end.

Definition file_lines (content : string) : list chars :=
  String.list_ascii_of_string <$> getlines newline content.

(** The content is absent if the file cannot be opened. *)
Definition read_ini (filename : string) (file : option string) (m_data : config_map)
    : error + config_map * list nat :=
  match file with
  | None => inl ("Config file " +:+ filename +:+ " not found")
  | Some content => read_lines (file_lines content) 0 (m_data, "")
  end.
End ReadIni.

Definition has_group (m_data : config_map) (group : string) : bool := bool_decide (is_Some (m_data !! group)).

(** An absent key is an empty string. *)
Definition get (m_data : config_map) (group key : string) : string :=
  match m_data !! group with
  | Some kv => default "" (kv !! key)
  | None => ""
  end.

(** ** A direct reading of a line *)

Inductive content := Section_line (name : chars) | Pair_line (key value : chars).

(** The longest prefix in a class, and the rest. *)
Fixpoint span_while (p : ascii -> bool) (s : chars) : chars * chars :=
  match s with
  | c :: s' => if p c then let '(a, b) := span_while p s' in (c :: a, b) else ([], s)
  | [] => ([], [])
  end.

Definition ends_line (s : chars) : bool :=
  match (span_while isspace s).2 with [] => true | c :: _ => is_char ";" c end.

Definition read_section (s : chars) : option (list chars) :=
  match s with
  | c :: s1 =>
    let '(name, s2) := span_while name_char s1 in
    if is_char "[" c && negb (bool_decide (name = [])) then
      match s2 with
      | d :: s3 => if is_char "]" d && ends_line s3 then Some [name] else None
      | [] => None
      end
    else None
  | [] => None
  end.

(** A key, an equals sign and what [value] reads. *)
Definition read_key (value : chars -> option (list chars)) (s : chars) : option (list chars) :=
  let '(key, s1) := span_while name_char s in
  if bool_decide (key = []) then None
  else match (span_while isspace s1).2 with
       | d :: s2 => if is_char "=" d then cons key <$> value (span_while isspace s2).2 else None
       | [] => None
       end.

Definition read_plain (s : chars) : option (list chars) :=
  let '(value, s1) := span_while value_char s in
  if negb (bool_decide (value = [])) && ends_line s1 then Some [value] else None.

Definition read_quoted (s : chars) : option (list chars) :=
  match s with
  | c :: s1 =>
    let '(value, s2) := span_while not_quote s1 in
    if is_char quote c && negb (bool_decide (value = [])) then
      match s2 with
      | d :: s3 => if is_char quote d && ends_line s3 then Some [value] else None
      | [] => None
      end
    else None
  | [] => None
  end.

(** ** Matching is reading *)

(** The text does not go on with a character of the class. *)
Definition off (p : ascii -> bool) (s : chars) : Prop :=
  match s with [] => True | c :: _ => p c = false end.

Definition starts_off (p : ascii -> bool) (r : regex) : Prop := forall s c, rmatch r s c -> off p s.

Lemma span_while_spec p s :
  s = (span_while p s).1 ++ (span_while p s).2 /\ forallb p (span_while p s).1 = true /\ off p (span_while p s).2.
Proof.
  induction s as [|c s (IH1 & IH2 & IH3)]; [done|]. simpl. destruct (p c) eqn:Hc; [|done].
  destruct (span_while p s) as [a b]. simpl in *. by rewrite IH1 at 1; rewrite Hc.
Qed.

Lemma span_while_app p a b : forallb p a = true -> off p b -> span_while p (a ++ b) = (a, b).
Proof.
  intros Ha Hb. induction a as [|c a IH]; simpl in *.
  - destruct b as [|c b]; [done|]. simpl in *. by rewrite Hb.
  - apply andb_true_iff in Ha as [-> Ha]. by rewrite IH.
Qed.

Lemma match_seq_one p r s c :
  rmatch (Seq (One p) r) s c <-> exists x s', s = x :: s' /\ p x = true /\ rmatch r s' c.
Proof.
  split.
  - intros Hm. inversion Hm as [| | |? ? s1 s2 c1 c2 H1 H2| | |]; subst. inversion H1; subst. eauto.
  - intros (x & s' & -> & Hx & Hm). change (x :: s') with ([x] ++ s'). change c with ([] ++ c).
    by constructor; [constructor|].
Qed.

Lemma match_seq_star p r s c :
  starts_off p r -> rmatch (Seq (Star p) r) s c <-> rmatch r (span_while p s).2 c.
Proof.
  intros Hr. split.
  - intros Hm. inversion Hm as [| | |? ? s1 s2 c1 c2 H1 H2| | |]; subst. inversion H1; subst.
    by rewrite span_while_app; [|done|by eapply Hr].
  - intros Hm. destruct (span_while_spec p s) as (Hs & Hp & _). rewrite Hs. change c with ([] ++ c).
    by constructor; [constructor|].
Qed.

Lemma match_seq_group p r s c :
  starts_off p r ->
  rmatch (Seq (Group (Plus p)) r) s c <->
  (span_while p s).1 <> [] /\ exists c', c = (span_while p s).1 :: c' /\ rmatch r (span_while p s).2 c'.
Proof.
  intros Hr. split.
  - intros Hm. inversion Hm as [| | |? ? s1 s2 c1 c2 H1 H2| | |]; subst.
    inversion H1 as [| | | | | |? ? ? Hp]; subst. inversion Hp; subst.
    rewrite span_while_app; [|done|by eapply Hr]. simpl. eauto.
  - intros (Hn & c' & -> & Hm). destruct (span_while_spec p s) as (Hs & Hp & _). rewrite Hs at 1.
    change (?a :: c') with ([a] ++ c'). by constructor; [by constructor; constructor|].
Qed.

(** The classes are disjoint. *)
Ltac each_char c :=
  destruct c as [[] [] [] [] [] [] [] []]; vm_compute; try done.

Lemma space_not_value c : isspace c = true -> value_char c = false.
Proof. each_char c. Qed.
Lemma space_not_name c : isspace c = true -> name_char c = false.
Proof. each_char c. Qed.
Lemma name_not_space c : name_char c = true -> isspace c = false.
Proof. each_char c. Qed.
Lemma value_not_space c : value_char c = true -> isspace c = false.
Proof. each_char c. Qed.

Lemma is_char_eq d c : is_char d c = true -> c = d.
Proof. apply Ascii.eqb_eq. Qed.

Lemma starts_off_one p q r : (forall c, q c = true -> p c = false) -> starts_off p (Seq (One q) r).
Proof. intros Hq s c Hm. apply match_seq_one in Hm as (x & s' & -> & Hx & _). by apply Hq. Qed.

Lemma starts_off_group p q r : (forall c, q c = true -> p c = false) -> starts_off p (Seq (Group (Plus q)) r).
Proof.
  intros Hq s c Hm. inversion Hm as [| | |? ? s1 s2 c1 c2 H1 H2| | |]; subst.
  inversion H1 as [| | | | | |? ? ? Hp]; subst. inversion Hp as [| |? ? Hne Hall| | | |]; subst.
  destruct s1 as [|x s1]; [done|]. simpl in *. apply andb_true_iff in Hall as [Hx _]. by apply Hq.
Qed.

Lemma starts_off_star p q r :
  (forall c, q c = true -> p c = false) -> starts_off p r -> starts_off p (Seq (Star q) r).
Proof.
  intros Hq Hr s c Hm. inversion Hm as [| | |? ? s1 s2 c1 c2 H1 H2| | |]; subst. inversion H1 as [|? ? Hall| | | | |]; subst.
  destruct s1 as [|x s1]; [by eapply Hr|]. simpl in *. apply andb_true_iff in Hall as [Hx _]. by apply Hq.
Qed.

Lemma starts_off_opt p r : starts_off p r -> starts_off p (Opt r).
Proof. intros Hr s c Hm. inversion Hm; subst; [done|by eapply Hr]. Qed.

Lemma comment_starts_off p : p ";"%char = false -> starts_off p (Opt (Seq (One (is_char ";")) (Star anything))).
Proof. intros Hp. apply starts_off_opt, starts_off_one. by intros c ->%is_char_eq. Qed.

Lemma trailer_starts_off p :
  (forall c, isspace c = true -> p c = false) -> p ";"%char = false -> starts_off p trailer_rx.
Proof. intros Hs Hp. by apply starts_off_star, comment_starts_off. Qed.

Lemma match_trailer s c : rmatch trailer_rx s c <-> c = [] /\ ends_line s = true.
Proof.
  unfold trailer_rx, ends_line. rewrite match_seq_star by by apply comment_starts_off.
  destruct (span_while isspace s).2 as [|d s'].
  - split; [|intros [-> _]; constructor]. intros Hm. inversion Hm as [| | | | |? ? ? H1|]; subst; [done|].
    by apply match_seq_one in H1 as (? & ? & ? & _).
  - split.
    + intros Hm. inversion Hm as [| | | | |? ? ? H1|]; subst.
      apply match_seq_one in H1 as (x & s'' & [= <- <-] & Hx & H1). by inversion H1.
    + intros [-> Hd]. apply match_some, match_seq_one. exists d, s'. split_and!; [done|done|].
      constructor. by apply forallb_forall.
Qed.

Lemma match_section s c : rmatch section_rx s c <-> read_section s = Some c.
Proof.
  unfold section_rx, read_section. rewrite match_seq_one.
  destruct s as [|x s]; [split; [intros (? & ? & ? & _)|]; done|].
  assert (Hoff : starts_off name_char (Seq (One (is_char "]")) trailer_rx))
    by (apply starts_off_one; by intros d ->%is_char_eq).
  destruct (span_while name_char s) as [name s2] eqn:Hs.
  transitivity (is_char "[" x = true /\ name <> [] /\ exists c', c = name :: c' /\ rmatch (Seq (One (is_char "]")) trailer_rx) s2 c').
  { split.
    - intros (y & s' & [= <- <-] & Hx & Hm). apply match_seq_group in Hm; [|done]. by rewrite Hs in Hm.
    - intros (Hx & Hm). exists x, s. split_and!; [done|done|]. apply match_seq_group; [done|]. by rewrite Hs. }
  setoid_rewrite match_seq_one. setoid_rewrite match_trailer. split.
  - intros (-> & Hn & c' & -> & d & s3 & -> & Hd & -> & He). rewrite bool_decide_eq_false_2 by done.
    simpl. by rewrite Hd, He.
  - case_if; [|done]. bool_simpl. destruct s2 as [|d s3]; [done|]. case_if; [|done]. bool_simpl.
    intros [= <-]. split_and!; [done|done|]. eauto 10.
Qed.

Lemma match_key value read s c :
  starts_off isspace value ->
  (forall s c, rmatch value s c <-> read s = Some c) ->
  rmatch (key_rx value) s c <-> read_key read s = Some c.
Proof.
  intros Hsp Hread. unfold key_rx, read_key.
  assert (Hoff1 : starts_off isspace (Seq (One (is_char "=")) (Seq (Star isspace) value)))
    by (apply starts_off_one; by intros d ->%is_char_eq).
  assert (Hoff2 : starts_off name_char (Seq (Star isspace) (Seq (One (is_char "=")) (Seq (Star isspace) value)))).
  { apply starts_off_star; [apply space_not_name|]. apply starts_off_one. by intros d ->%is_char_eq. }
  rewrite match_seq_group by done. destruct (span_while name_char s) as [key s1]. cbn [fst snd].
  setoid_rewrite match_seq_star; [|done]. setoid_rewrite match_seq_one. setoid_rewrite match_seq_star; [|done].
  setoid_rewrite Hread. destruct (span_while isspace s1).2 as [|d s2].
  - case_bool_decide; split; try done; intros (_ & ? & _ & ? & ? & ? & _); done.
  - case_bool_decide as Hk; [by split; [intros [? _]|]|]. split.
    + intros (_ & c' & -> & x & s' & [= <- <-] & Hd & Hv). by rewrite Hd, Hv.
    + case_if; [|done]. destruct (read _) as [c'|] eqn:Hv; intros [= <-]. split; [done|]. eauto 10.
Qed.

Lemma match_plain s c : rmatch (Seq (Group (Plus value_char)) trailer_rx) s c <-> read_plain s = Some c.
Proof.
  rewrite match_seq_group by (apply trailer_starts_off; [apply space_not_value|done]).
  unfold read_plain. destruct (span_while value_char s) as [value s1]. cbn [fst snd].
  setoid_rewrite match_trailer. split.
  - intros (Hv & c' & -> & -> & He). by rewrite bool_decide_eq_false_2, He.
  - case_if; [|done]. bool_simpl. intros [= <-]. eauto.
Qed.

Lemma match_quoted s c :
  rmatch (Seq (One (is_char quote)) (Seq (Group (Plus not_quote)) (Seq (One (is_char quote)) trailer_rx))) s c
  <-> read_quoted s = Some c.
Proof.
  rewrite match_seq_one. unfold read_quoted. destruct s as [|x s]; [split; [intros (? & ? & ? & _)|]; done|].
  assert (Hoff : starts_off not_quote (Seq (One (is_char quote)) trailer_rx))
    by (apply starts_off_one; intros d Hd; unfold not_quote; by rewrite Hd).
  destruct (span_while not_quote s) as [value s2] eqn:Hs.
  transitivity (is_char quote x = true /\ value <> []
    /\ exists c', c = value :: c' /\ rmatch (Seq (One (is_char quote)) trailer_rx) s2 c').
  { split.
    - intros (y & s' & [= <- <-] & Hx & Hm). apply match_seq_group in Hm; [|done]. by rewrite Hs in Hm.
    - intros (Hx & Hm). exists x, s. split_and!; [done|done|]. apply match_seq_group; [done|]. by rewrite Hs. }
  setoid_rewrite match_seq_one. setoid_rewrite match_trailer. split.
  - intros (-> & Hn & c' & -> & d & s3 & -> & Hd & -> & He). rewrite bool_decide_eq_false_2 by done.
    simpl. by rewrite Hd, He.
  - case_if; [|done]. bool_simpl. destruct s2 as [|d s3]; [done|]. case_if; [|done]. bool_simpl.
    intros [= <-]. split_and!; [done|done|]. eauto 10.
Qed.

Lemma match_value s c : rmatch value_rx s c <-> read_key read_plain s = Some c.
Proof. apply match_key; [|apply match_plain]. apply starts_off_group, value_not_space. Qed.

Lemma match_string s c : rmatch string_rx s c <-> read_key read_quoted s = Some c.
Proof. apply match_key; [|apply match_quoted]. apply starts_off_one. by intros d ->%is_char_eq. Qed.

(** A section, a pair, or neither. *)
Definition read_line (line : chars) : option content :=
  match read_section line with
  | Some sm => Some (Section_line (default [] (sm !! 0)))
  | None =>
    match read_key read_plain line, read_key read_quoted line with
    | Some sm, _ | None, Some sm => Some (Pair_line (default [] (sm !! 0)) (default [] (sm !! 1)))
    | None, None => None
    end
  end.

Definition apply_content (c : content) (st : config_map * string) : error + config_map * string :=
  match c with
  | Section_line name => new_section [name] st
  | Pair_line key value => add_key_value_pair [key; value] st
  end.

Section Reading.
Context (regex_match : regex -> chars -> option (list chars)) `{!RegexMatch regex_match}.

Lemma regex_match_reads rx read line :
  (forall s c, rmatch rx s c <-> read s = Some c) -> regex_match rx line = read line.
Proof.
  intros Hr. destruct (regex_match rx line) as [c|] eqn:E.
  - symmetry. apply Hr. by apply regex_match_sound.
  - destruct (read line) as [c|] eqn:Er; [|done].
    exfalso. by apply (regex_match_complete _ _ E c), Hr.
Qed.

(** The regular expressions read a line without ambiguity: whatever matcher
    with the documented meaning is used, a line is a section, a pair with a plain
    or a quoted value, or not understood, as the direct reading says, and the
    captures are its name, or its key and value. *)
Theorem matches_read_line line st :
  matches regex_match rx_handler line st = (fun c => apply_content c st) <$> read_line line.
Proof.
  unfold matches, rx_handler, read_line.
  rewrite (regex_match_reads section_rx read_section) by apply match_section.
  rewrite (regex_match_reads value_rx (read_key read_plain)) by apply match_value.
  rewrite (regex_match_reads string_rx (read_key read_quoted)) by apply match_string.
  destruct (read_section line) as [sm|]; [by destruct st|].
  destruct (read_key read_plain line); [by destruct st|]. by destruct (read_key read_quoted line), st.
Qed.
End Reading.

(** ** What is read *)

Section Lookups.
Context (regex_match : regex -> chars -> option (list chars)) `{!RegexMatch regex_match}.

(** The pairs of a file with their sections. *)
Fixpoint pairs_of (lines : list chars) (sec : string) : list (string * string * string) :=
  match lines with
  | [] => []
  | line :: lines' =>
    let ignored := match line with [] => true | c :: _ => Ascii.eqb c ";" end in
    if ignored then pairs_of lines' sec
    else match read_line line with
         | Some (Section_line name) => pairs_of lines' (text name)
         | Some (Pair_line key value) => (sec, text key, text value) :: pairs_of lines' sec
         | None => pairs_of lines' sec
         end
  end.

Fixpoint sections_of (lines : list chars) : list string :=
  match lines with
  | [] => []
  | line :: lines' =>
    let ignored := match line with [] => true | c :: _ => Ascii.eqb c ";" end in
    if ignored then sections_of lines'
    else match read_line line with
         | Some (Section_line name) => text name :: sections_of lines'
         | _ => sections_of lines'
         end
  end.

Definition value_at (cm : config_map) (sec key : string) : option string := kv ← cm !! sec; kv !! key.

Lemma value_at_pair cm sec key value sec' key' :
  is_Some (cm !! sec) ->
  value_at (<[sec := <[key := value]> (default ∅ (cm !! sec))]> cm) sec' key'
  = if bool_decide (sec' = sec /\ key' = key) then Some value else value_at cm sec' key'.
Proof.
  intros [kv Hkv]. unfold value_at. rewrite Hkv. simpl.
  destruct (decide (sec' = sec)) as [->|Hs].
  - rewrite lookup_insert_eq, Hkv. simpl. destruct (decide (key' = key)) as [->|Hk].
    + by rewrite lookup_insert_eq, bool_decide_eq_true_2.
    + rewrite lookup_insert_ne by done. by rewrite bool_decide_eq_false_2 by tauto.
  - rewrite lookup_insert_ne by done. by rewrite bool_decide_eq_false_2 by tauto.
Qed.

Lemma value_at_section cm sec sec' key' :
  cm !! sec = None -> value_at (<[sec := ∅]> cm) sec' key' = value_at cm sec' key'.
Proof.
  intros Hn. unfold value_at. destruct (decide (sec' = sec)) as [->|Hs].
  - by rewrite lookup_insert_eq, Hn.
  - by rewrite lookup_insert_ne.
Qed.

(** The current section exists, or there is none yet. *)
Definition section_known (st : config_map * string) : Prop := st.2 = "" \/ is_Some (st.1 !! st.2).

Lemma read_lines_values lines n st cm skipped :
  section_known st -> read_lines regex_match lines n st = inr (cm, skipped) ->
  forall sec key value, value_at cm sec key = Some value
    <-> value_at st.1 sec key = Some value \/ (sec, key, value) ∈ pairs_of lines st.2.
Proof.
  revert n st skipped. induction lines as [|line lines IH]; intros n st skipped Hst Hr sec key value.
  { simpl in *. injection Hr as <- _. set_solver. }
  cbn [read_lines pairs_of] in *. cbv zeta in *.
  destruct (match line with [] => true | c :: _ => Ascii.eqb c ";" end); [by eapply IH|].
  rewrite matches_read_line in Hr by done. destruct (read_line line) as [[name|k v]|] eqn:Hl; cbn [fmap option_fmap option_map] in Hr.
  - destruct st as [m s]. unfold apply_content, new_section, capture in Hr. simpl in Hr.
    destruct (m !! text name) eqn:Hm; [done|]. apply IH with (sec := sec) (key := key) (value := value) in Hr.
    + rewrite Hr. simpl. by rewrite value_at_section.
    + right. simpl. rewrite lookup_insert_eq. eauto.
  - destruct st as [m s]. unfold apply_content, add_key_value_pair, capture in Hr. simpl in Hr.
    destruct (String.eqb_spec s "") as [->|Hs]; [done|]. destruct Hst as [|Hst]; [done|]. simpl in Hst.
    destruct (default ∅ (m !! s) !! text k) eqn:Hk; [done|].
    apply IH with (sec := sec) (key := key) (value := value) in Hr.
    + rewrite Hr. simpl. rewrite value_at_pair by done. rewrite elem_of_cons.
      assert (Hfresh : value_at m s (text k) = None).
      { unfold value_at. destruct Hst as [kv Hkv]. rewrite Hkv in *. simpl in *. done. }
      case_bool_decide as Hd; [destruct Hd as [-> ->]|]; naive_solver.
    + right. simpl. rewrite lookup_insert_eq. eauto.
  - destruct (read_lines regex_match lines (S n) st) as [err|[cm' sk]] eqn:E; [done|].
    injection Hr as <- _. by eapply IH.
Qed.

(** An accepted configuration contains exactly what its lines say: a key of a
    section has a value if and only if a pair line below the section gives it,
    and what [get] returns is that value. *)
Theorem read_ini_values filename content cm skipped sec key value :
  read_ini regex_match filename (Some content) ∅ = inr (cm, skipped) -> value <> "" ->
  get cm sec key = value <-> (sec, key, value) ∈ pairs_of (file_lines content) "".
Proof.
  intros Hr Hv. simpl in Hr.
  assert (Hst : section_known (∅, "")) by by left.
  pose proof (read_lines_values _ _ _ _ _ Hst Hr sec key value) as Hval.
  assert (Hnone : value_at ∅ sec key = None) by (unfold value_at; by rewrite lookup_empty).
  simpl in Hval. rewrite Hnone in Hval.
  transitivity (value_at cm sec key = Some value); [|rewrite Hval; naive_solver].
  unfold get, value_at. destruct (cm !! sec) as [kv|]; simpl; [|naive_solver].
  destruct (kv !! key); simpl; naive_solver.
Qed.

(** *** Which files are accepted *)

Definition keys_of (lines : list chars) (sec : string) : list (string * string) :=
  (fun x => (x.1.1, x.1.2)) <$> pairs_of lines sec.

(** No section and no key of a section is defined twice, here or before, and no
    pair is outside of a section. *)
Definition acceptable (lines : list chars) (st : config_map * string) : Prop :=
  NoDup (sections_of lines) /\ (forall x, x ∈ sections_of lines -> st.1 !! x = None)
  /\ NoDup (keys_of lines st.2)
  /\ (forall x, x ∈ keys_of lines st.2 -> x.1 <> "" /\ value_at st.1 x.1 x.2 = None).

Lemma read_section_nonempty line sm : read_section line = Some sm -> exists name, sm = [name] /\ name <> [].
Proof.
  unfold read_section. destruct line as [|c line]; [done|]. destruct (span_while name_char line) as [name rest].
  case_if; [|done]. bool_simpl. destruct rest; [done|]. case_if; [|done]. intros [= <-]. eauto.
Qed.

Lemma text_nonempty name : name <> [] -> text name <> "".
Proof. by destruct name. Qed.

Lemma read_line_section line name : read_line line = Some (Section_line name) -> text name <> "".
Proof.
  unfold read_line. destruct (read_section line) as [sm|] eqn:E.
  - apply read_section_nonempty in E as (n & -> & Hn). intros [= <-]. by apply text_nonempty.
  - destruct (read_key read_plain line); [done|]. by destruct (read_key read_quoted line).
Qed.

Lemma acceptable_section name lines m :
  text name <> "" ->
  NoDup (text name :: sections_of lines) /\ (forall x, x ∈ text name :: sections_of lines -> m !! x = None)
  /\ NoDup (keys_of lines (text name))
  /\ (forall x, x ∈ keys_of lines (text name) -> x.1 <> "" /\ value_at m x.1 x.2 = None)
  <-> m !! text name = None /\ acceptable lines (<[text name := ∅]> m, text name).
Proof.
  intros Hn. unfold acceptable. simpl. rewrite NoDup_cons. setoid_rewrite elem_of_cons. split.
  - intros ([Hni Hnd] & Hm & Hk & Hv). assert (Hnone : m !! text name = None) by (apply Hm; by left).
    split_and!; try done.
    + intros x Hx. rewrite lookup_insert_ne by congruence. apply Hm. by right.
    + intros x Hx. rewrite value_at_section by done. by apply Hv.
  - intros (Hnone & Hnd & Hm & Hk & Hv). split_and!; try done.
    + intros Hx. apply Hm in Hx. by rewrite lookup_insert_eq in Hx.
    + intros x [->|Hx]; [done|]. specialize (Hm x Hx). destruct (decide (x = text name)) as [->|]; [done|].
      by rewrite lookup_insert_ne in Hm.
    + intros x Hx. specialize (Hv x Hx). by rewrite value_at_section in Hv.
Qed.

Lemma acceptable_pair key value lines m s :
  is_Some (m !! s) -> s <> "" ->
  NoDup (sections_of lines) /\ (forall x, x ∈ sections_of lines -> m !! x = None)
  /\ NoDup ((s, key) :: keys_of lines s)
  /\ (forall x, x ∈ (s, key) :: keys_of lines s -> x.1 <> "" /\ value_at m x.1 x.2 = None)
  <-> value_at m s key = None
      /\ acceptable lines (<[s := <[key := value]> (default ∅ (m !! s))]> m, s).
Proof.
  intros Hs Hne. unfold acceptable. simpl. rewrite NoDup_cons. setoid_rewrite elem_of_cons.
  assert (Hlook : forall x, <[s := <[key := value]> (default ∅ (m !! s))]> m !! x = None <-> m !! x = None).
  { intros x. destruct (decide (x = s)) as [->|]; [|by rewrite lookup_insert_ne].
    rewrite lookup_insert_eq. destruct Hs as [kv ->]. done. }
  setoid_rewrite Hlook. setoid_rewrite value_at_pair; [|done]. split.
  - intros (Hnd & Hm & [Hni Hk] & Hv). split_and!; try done; [by apply (Hv (s, key)); left|].
    intros [a k] Hx. simpl. rewrite bool_decide_eq_false_2; [apply (Hv (a, k)); by right|].
    intros [-> ->]. done.
  - intros (Hnone & Hnd & Hm & Hk & Hv). split_and!; try done.
    + intros Hx. destruct (Hv _ Hx) as [_ Hx']. simpl in Hx'. by rewrite bool_decide_eq_true_2 in Hx'.
    + intros x [->|Hx]; [done|]. destruct (Hv x Hx) as [H1 H2]. split; [done|]. by case_bool_decide.
Qed.

Lemma read_lines_accepts lines n st :
  section_known st -> (exists r, read_lines regex_match lines n st = inr r) <-> acceptable lines st.
Proof.
  revert n st. induction lines as [|line lines IH]; intros n [m s] Hst.
  { simpl. split; [|eauto]. intros _. split_and!; [constructor|set_solver|constructor|]. intros x Hx. set_solver. }
  unfold acceptable. cbn [read_lines keys_of pairs_of sections_of]. cbv zeta. unfold keys_of. cbn [pairs_of].
  destruct (match line with [] => true | c :: _ => Ascii.eqb c ";" end); [by apply IH|].
  rewrite matches_read_line by done.
  destruct (read_line line) as [[name|k v]|] eqn:Hl; cbn [fmap option_fmap option_map].
  - pose proof (read_line_section _ _ Hl) as Hn. etransitivity; [|symmetry; by apply acceptable_section].
    unfold apply_content, new_section, capture. simpl. destruct (m !! text name) eqn:Hm.
    { split; [by intros [? ?]|by intros [? _]]. }
    rewrite IH; [naive_solver|]. right. simpl. rewrite lookup_insert_eq. eauto.
  - unfold apply_content, add_key_value_pair, capture. simpl. destruct (String.eqb_spec s "") as [->|Hs].
    { split; [by intros [? ?]|]. intros (_ & _ & _ & Hv). exfalso. by destruct (Hv ("", text k)) as [? _]; [left|]. }
    destruct Hst as [|Hst]; [done|]. simpl in Hst.
    etransitivity; [|symmetry; by apply (acceptable_pair (text k) (text v))].
    assert (Hval : value_at m s (text k) = default ∅ (m !! s) !! text k)
      by (unfold value_at; by destruct Hst as [kv ->]).
    rewrite Hval. destruct (default ∅ (m !! s) !! text k).
    { split; [by intros [? ?]|by intros [? _]]. }
    rewrite IH; [naive_solver|]. right. simpl. rewrite lookup_insert_eq. eauto.
  - match goal with |- ?l <-> _ => change (l <-> acceptable lines (m, s)) end. rewrite <- (IH (S n)) by done.
    destruct (read_lines regex_match lines (S n) (m, s)) as [err|[cm sk]]; naive_solver.
Qed.

(** A file is accepted exactly if no section and no key of a section is
    defined twice and every pair is below a section; lines that are not
    understood are never an error. *)
Theorem read_ini_accepts filename content :
  (exists r, read_ini regex_match filename (Some content) ∅ = inr r)
  <-> NoDup (sections_of (file_lines content)) /\ NoDup (keys_of (file_lines content) "")
      /\ Forall (fun x => x.1 <> "") (keys_of (file_lines content) "").
Proof.
  simpl. rewrite read_lines_accepts by by left. unfold acceptable. simpl. rewrite Forall_forall.
  unfold value_at. setoid_rewrite lookup_empty. naive_solver.
Qed.
End Lookups.

(** ** A matcher

    All captures of a text, by trying all splits: the law of [RegexMatch] can be
    satisfied. *)

Fixpoint all_matches (r : regex) (s : chars) : list (list chars) :=
  match r with
  | One p => match s with [c] => if p c then [[]] else [] | _ => [] end
  | Star p => if forallb p s then [[]] else []
  | Plus p => if negb (bool_decide (s = [])) && forallb p s then [[]] else []
  | Seq r1 r2 =>
    k ← seq 0 (S (length s));
    c1 ← all_matches r1 (take k s);
    c2 ← all_matches r2 (drop k s);
    [c1 ++ c2]
  | Opt r => (if bool_decide (s = []) then [[]] else []) ++ all_matches r s
  | Group r => cons s <$> all_matches r s
  end.

Lemma all_matches_spec r s c : c ∈ all_matches r s <-> rmatch r s c.
Proof.
  revert s c. induction r as [p|p|p|r1 IH1 r2 IH2|r IH|r IH]; intros s c; cbn [all_matches].
  - destruct s as [|x [|y s]]; [|destruct (p x) eqn:Hx|]; rewrite ?list_elem_of_singleton, ?elem_of_nil;
      split; try done; try (intros Hm; inversion Hm; congruence).
    intros ->. by constructor.
  - case_if; rewrite ?list_elem_of_singleton, ?elem_of_nil; split; try done; try (intros Hm; inversion Hm; congruence).
    intros ->. by constructor.
  - case_if; bool_simpl; rewrite ?list_elem_of_singleton, ?elem_of_nil; split; try done.
    + intros ->. by constructor.
    + intros Hm. by inversion Hm.
    + intros Hm. inversion Hm as [| |? ? Hne Hall| | | |]; subst. rewrite bool_decide_eq_false_2, Hall in Heqb; done.
  - setoid_rewrite list_elem_of_bind. setoid_rewrite list_elem_of_bind. setoid_rewrite list_elem_of_bind.
    setoid_rewrite list_elem_of_singleton. setoid_rewrite IH1. setoid_rewrite IH2. split.
    + intros (k & (c1 & (c2 & -> & H2) & H1) & _). rewrite <- (take_drop k s). by constructor.
    + intros Hm. inversion Hm as [| | |? ? s1 s2 c1 c2 H1 H2| | |]; subst. exists (length s1). split.
      * exists c1. rewrite take_app_length, drop_app_length. split; [|done]. eauto.
      * apply elem_of_seq. rewrite length_app. lia.
  - rewrite elem_of_app, IH. split.
    + intros [Hs|Hm]; [|by constructor]. case_if; bool_simpl; [|set_solver]. subst.
      apply list_elem_of_singleton in Hs as ->. constructor.
    + intros Hm. inversion Hm; subst; [left|by right]. simpl. set_solver.
  - rewrite list_elem_of_fmap. setoid_rewrite IH. split.
    + intros (c' & -> & Hm). by constructor.
    + intros Hm. inversion Hm; subst. eauto.
Qed.

Definition search_match (r : regex) (s : chars) : option (list chars) := head (all_matches r s).

#[export] Instance search_match_laws : RegexMatch search_match.
Proof.
  split; unfold search_match.
  - intros r s c Hh. apply all_matches_spec. destruct (all_matches r s); [done|]. injection Hh as ->. left.
  - intros r s Hh c Hm. apply all_matches_spec in Hm. destruct (all_matches r s); [|done]. by apply elem_of_nil in Hm.
Qed.

(** *** A file *)

Definition ex_ini : string :=
  "[recv] ; a comment" +:+ String newline
  ("action = receive" +:+ String newline
  ("not a line" +:+ String newline
  ("group=" +:+ String quote ("FF05::99:99" +:+ String quote (" ;" +:+ String newline
  ("max_count=0 ;0=infinity" +:+ String newline "")))))).

Definition ex_config : config_map :=
  {[ "recv" := <[ "max_count" := "0" ]> (<[ "group" := "FF05::99:99" ]> {[ "action" := "receive" ]}) ]}.

Lemma ex_ini_read : read_ini search_match "tester.ini" (Some ex_ini) ∅ = inr (ex_config, [3]).
Proof. vm_compute. reflexivity. Qed.

Lemma matches_read_line_witness :
  matches search_match rx_handler (String.list_ascii_of_string "action = receive") ({["recv" := ∅]}, "recv")
  = Some (inr ({["recv" := {["action" := "receive"]}]}, "recv")).
Proof. etransitivity; [apply (matches_read_line search_match)|]. vm_compute. reflexivity. Defined.

Lemma read_ini_values_witness : get ex_config "recv" "action" = "receive".
Proof.
  apply (read_ini_values search_match "tester.ini" ex_ini ex_config [3] "recv" "action" "receive").
  - vm_compute. reflexivity.
  - discriminate.
  - vm_compute. left.
Defined.

Lemma read_ini_accepts_witness :
  exists r, read_ini search_match "tester.ini" (Some ex_ini) ∅ = inr r.
Proof.
  apply (read_ini_accepts search_match "tester.ini" ex_ini). split_and!.
  - apply (bool_decide_unpack _). vm_compute. exact I.
  - apply (bool_decide_unpack _). vm_compute. exact I.
  - apply (bool_decide_unpack _). vm_compute. exact I.
Defined.
