(* ===== verification/ConfigTheorems.v ===== *)
(** * Theorems on the configuration

    Comments and commands of the file, the invariant of the configuration the
    parser builds, and the tables of virtual interfaces. *)

From Stdlib Require Import Strings.Ascii.
From S2P Require Import Prelude Result Scanner Def AddrStorage Filter InstanceDef Parser.
From S2P Require Import ParserTheorems Interfaces Configuration.

(** ** Text *)

Definition without (c : ascii) (s : string) : Prop := all_chars (fun x => negb (Ascii.eqb x c)) s = true.

Lemma without_cons c x s : without c (String x s) <-> x <> c /\ without c s.
Proof.
  unfold without. cbn. rewrite andb_true_iff, negb_true_iff, Ascii.eqb_neq. done.
Qed.

Lemma without_app c a b : without c (a +:+ b) <-> without c a /\ without c b.
Proof.
  induction a as [|x a IH]; [by split; [|intros []]|].
  rewrite append_cons, !without_cons, IH. tauto.
Qed.

Lemma find_char_Some c s n :
  find_char c s = Some n ->
  exists a b, s = a +:+ String c b /\ String.length a = n /\ without c a.
Proof.
  revert n. induction s as [|x s IH]; intros n; cbn; [done|].
  destruct (Ascii.eqb_spec x c) as [->|Hx].
  - intros [= <-]. by exists EmptyString, s.
  - destruct (find_char c s) as [m|]; [|done]. intros [= <-].
    destruct (IH m eq_refl) as (a & b & -> & Hl & Ha). exists (String x a), b.
    split_and!; [done|by cbn; rewrite Hl|by apply without_cons].
Qed.

Lemma find_char_None c s : find_char c s = None -> without c s.
Proof.
  induction s as [|x s IH]; cbn; [done|]. destruct (Ascii.eqb_spec x c) as [->|Hx]; [done|].
  intros Hn%fmap_None. apply without_cons. auto.
Qed.

Lemma str_drop_app a b : str_drop (String.length a) (a +:+ b) = b.
Proof. by induction a. Qed.

Lemma str_take_app a b : str_take (String.length a) (a +:+ b) = a.
Proof. induction a as [|x a IH]; [by destruct b|]. rewrite append_cons. cbn. by rewrite IH. Qed.

Lemma append_length a b : String.length (a +:+ b) = String.length a + String.length b.
Proof. induction a as [|x a IH]; [done|]. rewrite append_cons. cbn. by rewrite IH. Qed.

(** ** Comments *)

(** The reference: a comment begins with [#] and ends before the end of the
    line. *)
Fixpoint strip_comments (in_comment : bool) (s : string) : string :=
  match s with
  | EmptyString => EmptyString
  | String c s' =>
    if Ascii.eqb c newline then String c (strip_comments false s')
    else if in_comment || Ascii.eqb c "#" then strip_comments true s'
    else String c (strip_comments false s')
  end.

Lemma strip_no_newline s : without newline s -> strip_comments true s = EmptyString.
Proof.
  induction s as [|c s IH]; [done|]. intros [Hc Hs]%without_cons. cbn.
  rewrite (proj2 (Ascii.eqb_neq _ _) Hc). auto.
Qed.

Lemma strip_comment_line a s :
  without newline a ->
  strip_comments true (a +:+ String newline s) = String newline (strip_comments false s).
Proof.
  induction a as [|c a IH]; [done|]. intros [Hc Hs]%without_cons. rewrite append_cons. cbn.
  rewrite (proj2 (Ascii.eqb_neq _ _) Hc). auto.
Qed.

Lemma strip_no_comment a s :
  without "#" a -> strip_comments false (a +:+ s) = a +:+ strip_comments false s.
Proof.
  induction a as [|c a IH]; [done|]. intros [Hc Hs]%without_cons. rewrite !append_cons. cbn.
  rewrite (proj2 (Ascii.eqb_neq _ _) Hc), IH by done. cbn. by destruct (Ascii.eqb c newline).
Qed.

Lemma strip_clean s : without "#" s -> strip_comments false s = s.
Proof.
  intros Hs. rewrite <- (append_nil_r s) at 1. rewrite strip_no_comment by done.
  apply append_nil_r.
Qed.

Lemma delete_comments_loop_done fuel s : delete_comments_loop fuel s None = Ok s.
Proof. by destruct fuel. Qed.

Lemma delete_comments_loop_spec fuel pre rest :
  String.length rest < fuel ->
  delete_comments_loop fuel (pre +:+ String "#" rest) (Some (String.length pre))
  = Ok (pre +:+ strip_comments true rest).
Proof.
  revert pre rest. induction fuel as [|fuel IH]; intros pre rest Hf; [lia|]. cbn [delete_comments_loop].
  assert (Hdrop : str_drop (String.length pre + 1) (pre +:+ String "#" rest) = rest).
  { replace (pre +:+ String "#" rest) with ((pre +:+ "#") +:+ rest) by (by rewrite append_assoc).
    change 1 with (String.length "#"). rewrite <- append_length. apply str_drop_app. }
  unfold find_from at 1. rewrite Hdrop.
  destruct (find_char newline rest) as [n|] eqn:Hn; cbn [fmap option_fmap option_map].
  - destruct (find_char_Some _ _ _ Hn) as (a & b & -> & Hl & Ha).
    assert (He : erase (String.length pre) (String.length pre + 1 + n - String.length pre)
      (pre +:+ String "#" (a +:+ String newline b)) = pre +:+ String newline b).
    { unfold erase. rewrite str_take_app. f_equal.
      replace (String.length pre + _) with (String.length ((pre +:+ String "#" EmptyString) +:+ a))
        by (rewrite !append_length; cbn; lia).
      replace (pre +:+ String "#" (a +:+ String newline b))
        with (((pre +:+ String "#" EmptyString) +:+ a) +:+ String newline b)
        by (by rewrite !append_assoc).
      apply str_drop_app. }
    rewrite He, strip_comment_line by done. unfold find_from. rewrite str_drop_app.
    destruct (find_char "#" (String newline b)) as [k|] eqn:Hk; cbn [fmap option_fmap option_map].
    + destruct (find_char_Some _ _ _ Hk) as (q & r & Hq & Hlq & Hnq).
      destruct q as [|x q]; [done|]. rewrite append_cons in Hq. injection Hq as <- ->.
      replace (pre +:+ String newline (q +:+ String "#" r))
        with ((pre +:+ String newline q) +:+ String "#" r) by (by rewrite append_assoc).
      replace (String.length pre + k) with (String.length (pre +:+ String newline q))
        by (rewrite append_length; cbn in *; lia).
      rewrite IH.
      * apply without_cons in Hnq as [_ Hnq]. rewrite strip_no_comment by done.
        by rewrite append_assoc.
      * rewrite append_length in Hf. cbn in Hf. rewrite append_length in Hf. cbn in Hf. lia.
    + apply find_char_None, without_cons in Hk as [_ Hk].
      by rewrite delete_comments_loop_done, strip_clean.
  - apply find_char_None in Hn. by rewrite str_take_app, strip_no_newline, append_nil_r.
Qed.

Lemma delete_comments_strip s : delete_comments s = Ok (strip_comments false s).
Proof.
  unfold delete_comments. destruct (find_char "#" s) as [n|] eqn:Hn.
  - destruct (find_char_Some _ _ _ Hn) as (a & b & -> & <- & Ha).
    rewrite delete_comments_loop_spec by (rewrite append_length; cbn; lia).
    by rewrite strip_no_comment.
  - apply find_char_None in Hn. by rewrite delete_comments_loop_done, strip_clean.
Qed.

Lemma strip_without b s : without "#" (strip_comments b s).
Proof.
  revert b. induction s as [|c s IH]; intros b; cbn; [done|].
  destruct (Ascii.eqb_spec c newline) as [->|Hc]; [by apply without_cons|].
  destruct b; cbn; [apply IH|]. destruct (Ascii.eqb_spec c "#"); [apply IH|by apply without_cons].
Qed.

Lemma count_chars_app a b c : (count_chars (a +:+ b) c = count_chars a c + count_chars b c)%Z.
Proof. induction a as [|x a IH]; [done|]. rewrite append_cons. cbn. rewrite IH. lia. Qed.

Lemma count_chars_nonneg s c : (0 <= count_chars s c)%Z.
Proof. induction s as [|x s IH]; cbn; [lia|]. destruct (Ascii.eqb x c); lia. Qed.

Lemma strip_count b s : count_chars (strip_comments b s) newline = count_chars s newline.
Proof.
  revert b. induction s as [|c s IH]; intros b; cbn [strip_comments count_chars]; [done|].
  destruct (Ascii.eqb c newline) eqn:Hc; cbn [count_chars]; [by rewrite Hc, IH|].
  destruct (b || Ascii.eqb c "#"); cbn [count_chars]; rewrite ?Hc, IH; lia.
Qed.

(** C31: Comments are removed completely and nothing else: the loop of
    [delete_comments] ends with the text in which every [#] and what follows it
    on its line is missing; no newline is lost, so the line numbers of error
    messages stay right. *)
Theorem delete_comments_correct s :
  exists t, delete_comments s = Ok t /\ t = strip_comments false s /\ without "#" t
    /\ count_chars t newline = count_chars s newline.
Proof.
  exists (strip_comments false s).
  auto using delete_comments_strip, strip_without, strip_count.
Qed.

(** ** Commands *)

Lemma getlines_cons d s item items :
  getlines d s = item :: items ->
  without d item /\
  ((s = item /\ items = [])
   \/ exists s', s = item +:+ String d s' /\ items = getlines d s').
Proof.
  revert item items. induction s as [|c s IH]; intros item items; cbn; [done|].
  destruct (Ascii.eqb_spec c d) as [->|Hc].
  - intros [= <- <-]. split; [done|]. right. by exists s.
  - destruct (getlines d s) as [|l ls] eqn:Hg.
    + intros [= <- <-]. split; [by apply without_cons|]. left. split; [|done].
      destruct s as [|c' s]; [done|]. cbn in Hg. destruct (Ascii.eqb c' d); [done|].
      by destruct (getlines d s).
    + intros [= <- <-]. destruct (IH l ls eq_refl) as [Hl [[-> ->]|(s' & -> & ->)]];
        (split; [by apply without_cons|]); [by left|right; by exists s'].
Qed.

Lemma ltrim_split s : exists sp, s = sp +:+ ltrim s /\ all_chars isspace sp = true.
Proof.
  unfold ltrim. induction s as [|c s IH]; [by exists EmptyString|]. cbn.
  destruct (isspace c) eqn:Hc.
  - destruct IH as (sp & Hs & Hsp). exists (String c sp). rewrite append_cons, <- Hs. split; [done|].
    cbn. by rewrite Hc.
  - by exists EmptyString.
Qed.

Lemma rtrim_split s : exists sp, s = rtrim s +:+ sp /\ all_chars isspace sp = true.
Proof.
  induction s as [|c s (sp & Hs & Hsp)]; [by exists EmptyString|]. cbn.
  destruct (rtrim s) as [|c' r] eqn:Hr.
  - destruct (isspace c) eqn:Hc.
    + exists (String c s). split; [done|]. cbn. rewrite Hc. rewrite Hs at 1. done.
    + exists sp. by rewrite append_cons, <- Hs.
  - exists sp. by rewrite append_cons, <- Hs.
Qed.

Lemma trim_split s :
  exists sp1 sp2, s = sp1 +:+ rtrim (ltrim s) +:+ sp2 /\ s = sp1 +:+ ltrim s
    /\ all_chars isspace sp1 = true /\ all_chars isspace sp2 = true.
Proof.
  destruct (ltrim_split s) as (sp1 & H1 & Hs1). destruct (rtrim_split (ltrim s)) as (sp2 & H2 & Hs2).
  exists sp1, sp2. split_and!; [|done..]. by rewrite <- H2.
Qed.

(** A command in its file: where it stands, and the line of its first character. *)
Definition command_of (file : string) (lc : Z * string) : Prop :=
  exists pre post, file = pre +:+ lc.2 +:+ post /\ lc.1 = (1 + count_chars pre newline)%Z
    /\ lc.2 <> EmptyString /\ without ";" lc.2.

(** What is left of a text without white space and separators. *)
Fixpoint substance (s : string) : string :=
  match s with
  | EmptyString => EmptyString
  | String c s' => if isspace c || Ascii.eqb c ";" then substance s' else String c (substance s')
  end.

Definition commands_text (l : list (Z * string)) : string :=
  fold_right (fun lc acc => lc.2 +:+ acc) EmptyString l.

Lemma substance_app a b : substance (a +:+ b) = substance a +:+ substance b.
Proof.
  induction a as [|c a IH]; [done|]. rewrite append_cons. cbn. rewrite IH.
  by destruct (isspace c || Ascii.eqb c ";").
Qed.

Lemma substance_space sp : all_chars isspace sp = true -> substance sp = EmptyString.
Proof. induction sp as [|c sp IH]; cbn; [done|]. intros [-> Hsp]%andb_true_iff. auto. Qed.

Lemma substance_trim s : substance (rtrim (ltrim s)) = substance s.
Proof.
  destruct (trim_split s) as (sp1 & sp2 & Hs & _ & H1 & H2). rewrite Hs at 2.
  rewrite !substance_app, (substance_space sp1 H1), (substance_space sp2 H2).
  by rewrite append_nil_l, append_nil_r.
Qed.

Lemma item_command file done item tail :
  file = done +:+ item +:+ tail -> without ";" item -> rtrim (ltrim item) <> EmptyString ->
  (count_chars file newline < 2 ^ 32 - 1)%Z ->
  command_of file (to_uint32 (1 + count_chars done newline
    + (count_chars item newline - count_chars (ltrim item) newline)), rtrim (ltrim item)).
Proof.
  intros Hfile Hitem Hne Hc. destruct (trim_split item) as (sp1 & sp2 & Hs & Hs' & _ & _).
  exists (done +:+ sp1), (sp2 +:+ tail). cbn [fst snd]. split_and!.
  - rewrite Hfile. rewrite Hs at 1. by rewrite !append_assoc.
  - rewrite Hs' at 1. rewrite !count_chars_app. rewrite to_uint32_small; [lia|].
    rewrite Hfile, !count_chars_app in Hc. rewrite Hs', count_chars_app in Hc.
    pose proof (count_chars_nonneg done newline). pose proof (count_chars_nonneg sp1 newline).
    pose proof (count_chars_nonneg (ltrim item) newline). pose proof (count_chars_nonneg tail newline).
    lia.
  - done.
  - rewrite Hs, !without_app in Hitem. tauto.
Qed.

Lemma separate_items_spec n done s file :
  String.length s <= n -> file = done +:+ s -> (count_chars file newline < 2 ^ 32 - 1)%Z ->
  Forall (command_of file) (separate_items (1 + count_chars done newline) (getlines ";" s))
  /\ substance (commands_text (separate_items (1 + count_chars done newline) (getlines ";" s)))
     = substance s.
Proof.
  revert done s. induction n as [|n IH]; intros done s Hn Hfile Hc.
  { destruct s; [by split; constructor|cbn in Hn; lia]. }
  destruct (getlines ";" s) as [|item items] eqn:Hg.
  { destruct s as [|c s]; [by split; constructor|]. cbn in Hg.
    destruct (Ascii.eqb c ";"); [done|]. by destruct (getlines ";" s). }
  destruct (getlines_cons _ _ _ _ Hg) as [Hitem Hs]. cbn [separate_items].
  set (l := separate_items _ items).
  assert (exists tail, file = done +:+ item +:+ tail /\ Forall (command_of file) l
    /\ substance s = substance item +:+ substance (commands_text l)) as (tail & Htail & Hl & Hsub).
  { destruct Hs as [[-> ->]|(s' & -> & ->)].
    - exists EmptyString. subst l. cbn. rewrite !append_nil_r. by split_and!; [|constructor|].
    - exists (String ";" s'). destruct (IH (done +:+ item +:+ ";") s') as [H1 H2].
      { rewrite append_length in Hn. cbn in Hn. lia. }
      { by rewrite Hfile, !append_assoc. }
      { done. }
      replace (1 + count_chars (done +:+ item +:+ ";") newline)%Z
        with (to_uint32 (1 + count_chars done newline + count_chars item newline)) in H1, H2.
      + fold l in H1, H2. split_and!; [done..|]. rewrite H2, substance_app. done.
      + rewrite !count_chars_app. cbn. rewrite to_uint32_small; [lia|].
        rewrite Hfile, !count_chars_app in Hc.
        pose proof (count_chars_nonneg done newline). pose proof (count_chars_nonneg item newline).
        pose proof (count_chars_nonneg (String ";" s') newline). lia. }
  rewrite Hsub. destruct (String.eqb_spec (rtrim (ltrim item)) EmptyString) as [He|He].
  - split; [done|]. by rewrite <- (substance_trim item), He.
  - split.
    + constructor; [by eapply item_command|done].
    + cbn. by rewrite substance_app, substance_trim.
Qed.

(** The commands of a file are found with their line numbers: every command
    stands in the file, its number is the line of its first character, and
    apart from white space and separators nothing of the file is lost. *)
Theorem separate_commands_located file :
  (count_chars file newline < 2 ^ 32 - 1)%Z ->
  Forall (command_of file) (separate_commands file)
  /\ substance (commands_text (separate_commands file)) = substance file.
Proof.
  intros Hc. by apply (separate_items_spec (String.length file) EmptyString file file).
Qed.

Definition ex_script : string := String newline (" protocol MLDv2;" +:+ String newline "pinstance a: ==> b ;;").

Lemma separate_commands_located_witness :
  Forall (command_of ex_script) (separate_commands ex_script)
  /\ separate_commands ex_script = [(2%Z, "protocol MLDv2"); (3%Z, "pinstance a: ==> b")].
Proof.
  split; [apply (separate_commands_located ex_script); reflexivity|reflexivity].
Defined.

(** ** Writing and reading a file *)

(** Tokens that can be written in a file: those of [writable] whose names have
    neither the separator of commands nor the sign of a comment. *)
Definition file_token (t : token) : Prop :=
  writable t /\ without ";" (get_string t) /\ without "#" (get_string t).

(** A file with one command on each line. *)
Definition spell_file (cmds : list (list token)) : string :=
  fold_right (fun ts acc => spell ts +:+ String ";" (String newline acc)) EmptyString cmds.

Fixpoint scan_commands (l : list (Z * string)) : result (list (list token)) :=
  match l with
  | [] => Ok []
  | (_, cmd) :: l' => ts ← scan cmd; tss ← scan_commands l'; Ok (ts :: tss)
  end.

(** The commands of a file as the parser sees them. *)
Definition scan_file (file : string) : result (list (list token)) :=
  text ← load_file (Some file); text ← delete_comments text; scan_commands (separate_commands text).

Lemma spelling_without c t :
  writable t -> without c (get_string t) -> c <> quote ->
  bool_decide (get_type t = TT_STRING) || all_chars (fun x => negb (Ascii.eqb x c)) (spelling t) = true ->
  without c (spelling t).
Proof.
  intros Ht Hs Hq Hc. destruct (decide (get_type t = TT_STRING)) as [Hty|Hty].
  - unfold spelling. rewrite Hty. apply without_cons. split; [done|]. apply without_app. split; [done|].
    by apply without_cons.
  - by rewrite bool_decide_eq_false_2 in Hc.
Qed.

Lemma file_token_without t : file_token t -> without ";" (spelling t) /\ without "#" (spelling t).
Proof.
  intros (Hw & Hs & Hc). split; apply spelling_without; try done; clear Hs Hc;
    destruct t as [[] str]; unfold writable in Hw; cbn in Hw; try done; by subst str.
Qed.

Lemma spell_without ts : Forall file_token ts -> without ";" (spell ts) /\ without "#" (spell ts).
Proof.
  induction 1 as [|t ts Ht _ [IH1 IH2]]; [done|]. cbn [spell]. destruct (file_token_without t Ht).
  rewrite !without_app, !without_cons. by split_and!.
Qed.

(** The first and the last character of a token. *)
Lemma spelling_ends t :
  writable t -> exists a c, spelling t = a +:+ String c EmptyString /\ isspace c = false.
Proof.
  destruct t as [ty str]. unfold writable. cbn. intros Hw.
  destruct ty; try done; try subst str.
  31: { exists (String quote str), quote. by rewrite append_cons. }
  all: match goal with |- exists a c, spelling ?t = _ /\ _ =>
         let s := eval vm_compute in (spelling t) in change (spelling t) with s end;
    match goal with |- exists a c, ?s = _ /\ _ =>
         let n := eval vm_compute in (pred (String.length s)) in
         let a := eval vm_compute in (str_take n s) in
         exists a; eexists; split; [reflexivity|reflexivity] end.
Qed.

Lemma spelling_starts t :
  writable t -> exists c a, spelling t = String c a /\ isspace c = false.
Proof.
  destruct t as [ty str]. unfold writable. cbn. intros Hw.
  destruct ty; try done; try subst str; eexists _, _; split; reflexivity.
Qed.

Lemma rtrim_space sp : all_chars isspace sp = true -> rtrim sp = EmptyString.
Proof. induction sp as [|c sp IH]; [done|]. cbn. intros [Hc Hsp]%andb_true_iff. by rewrite IH, Hc. Qed.

Lemma rtrim_app a c sp :
  isspace c = false -> all_chars isspace sp = true ->
  rtrim ((a +:+ String c EmptyString) +:+ sp) = a +:+ String c EmptyString.
Proof.
  intros Hc Hsp. induction a as [|x a IH].
  - change (rtrim (String c sp) = String c EmptyString). cbn [rtrim]. rewrite rtrim_space by done. by rewrite Hc.
  - rewrite !append_cons. cbn [rtrim]. rewrite IH. by destruct a.
Qed.

(** What is left of a command. *)
Lemma trim_spelled sp ts t :
  all_chars isspace sp = true -> Forall writable ts -> writable t ->
  rtrim (ltrim (sp +:+ spell (ts ++ [t]))) = spell ts +:+ spelling t.
Proof.
  intros Hsp Hts Ht.
  assert (Hs : spell (ts ++ [t]) = (spell ts +:+ spelling t) +:+ " ").
  { clear. induction ts as [|u ts IH]; [done|]. cbn [app spell]. by rewrite IH, !append_assoc, !append_cons. }
  assert (Hl : ltrim (sp +:+ spell (ts ++ [t])) = spell (ts ++ [t])).
  { assert (Hfirst : exists c a, spell (ts ++ [t]) = String c a /\ isspace c = false).
    { destruct Hts as [|u ts Hu _]; cbn [app spell];
        [destruct (spelling_starts t Ht) as (c & a & -> & Hc)|destruct (spelling_starts u Hu) as (c & a & -> & Hc)];
        rewrite append_cons; by eexists _, _. }
    destruct Hfirst as (c & a & -> & Hc). unfold ltrim. induction sp as [|x sp IH]; [by rewrite append_nil_l; cbn [drop_spaces]; rewrite Hc|].
    cbn in Hsp. apply andb_true_iff in Hsp as [Hx Hsp]. rewrite append_cons. cbn [drop_spaces]. rewrite Hx. by apply IH. }
  rewrite Hl, Hs. destruct (spelling_ends t Ht) as (a & c & -> & Hc). rewrite <- !(append_assoc (spell ts)).
  by rewrite rtrim_app.
Qed.

Lemma getlines_app d a b : without d a -> getlines d (a +:+ String d b) = a :: getlines d b.
Proof.
  induction a as [|x a IH]; [intros _; rewrite append_nil_l; cbn [getlines]; by rewrite Ascii.eqb_refl|]. intros [Hx Ha]%without_cons.
  rewrite append_cons. cbn [getlines]. rewrite (proj2 (Ascii.eqb_neq _ _) Hx), IH; done.
Qed.

Lemma scan_spelled line sp cmds :
  sp = EmptyString \/ sp = String newline EmptyString ->
  Forall (fun ts => ts <> [] /\ Forall file_token ts) cmds ->
  scan_commands (separate_items line (getlines ";" (sp +:+ spell_file cmds))) = Ok cmds.
Proof.
  intros Hsp Hc. assert (Hspace : all_chars isspace sp = true /\ without ";" sp) by (by destruct Hsp as [-> | ->]).
  destruct Hspace as [H1 H2]. clear Hsp. revert line sp H1 H2.
  induction Hc as [|ts cmds [Hne Hts] _ IH]; intros line sp H1 H2; cbn [spell_file fold_right].
  - rewrite append_nil_r.
    assert (Hg : getlines ";" sp = match sp with EmptyString => [] | _ => [sp] end).
    { destruct sp as [|c sp]; [done|]. clear H1. revert c H2. induction sp as [|c' sp IH]; intros c [Hc Hs]%without_cons.
      - cbn. by rewrite (proj2 (Ascii.eqb_neq _ _) Hc).
      - cbn [getlines] in *. rewrite (proj2 (Ascii.eqb_neq _ _) Hc). by rewrite IH. }
    rewrite Hg. destruct sp as [|c sp]; [done|]. cbn [separate_items]. set (s := String c sp) in *.
    assert (He : rtrim (ltrim s) = EmptyString); [|by rewrite He].
    destruct (trim_split s) as (sp1 & sp2 & Hs & Hl & _ & _). apply rtrim_space.
    rewrite Hl in H1. clear -H1. induction sp1 as [|x sp1 IH]; [done|].
    rewrite append_cons in H1. cbn in H1. apply andb_true_iff in H1 as [_ H1]. by apply IH.
  - fold (spell_file cmds). destruct (spell_without ts Hts) as [Hs _].
    rewrite <- append_assoc, getlines_app by (by apply without_app). cbn [separate_items].
    destruct ts as [|t ts _] using rev_ind; [done|]. apply Forall_app in Hts as [Hts [Ht _]%Forall_cons].
    assert (Hw : Forall writable ts) by (eapply Forall_impl; [exact Hts|]; by intros x []).
    rewrite (trim_spelled sp ts t H1 Hw) by apply Ht.
    destruct (String.eqb_spec (spell ts +:+ spelling t) EmptyString) as [He|He].
    { destruct (spelling_ends t) as (a & c & E & _); [apply Ht|]. rewrite E, <- append_assoc in He.
      by destruct (spell ts +:+ a). }
    cbn [scan_commands]. rewrite scan_spelled_command by (done || apply Ht). cbn [mbind result_bind].
    by rewrite (IH _ (String newline EmptyString)).
Qed.

Lemma load_lines s :
  fold_right (fun line acc => line +:+ String newline acc) EmptyString
    (getlines newline (s +:+ String newline EmptyString)) = s +:+ String newline EmptyString.
Proof.
  induction s as [|c s IH]; [done|]. rewrite append_cons. cbn [getlines].
  destruct (Ascii.eqb_spec c newline) as [->|Hc]; [cbn; by rewrite IH|].
  destruct (getlines newline (s +:+ String newline EmptyString)) as [|l ls]; [by destruct s|].
  cbn in IH |- *. by rewrite append_cons, IH.
Qed.

Lemma spell_file_lines cmds :
  cmds <> [] -> exists s, spell_file cmds = s +:+ String newline EmptyString.
Proof.
  induction cmds as [|ts cmds IH]; [done|]. intros _. cbn [spell_file fold_right]. fold (spell_file cmds).
  destruct cmds as [|ts' cmds].
  - exists (spell ts +:+ ";"). by rewrite append_assoc.
  - destruct IH as [s ->]; [done|]. exists (spell ts +:+ String ";" (String newline s)).
    by rewrite append_assoc, !append_cons.
Qed.

(** C29: Whatever commands are written to a file, the program reads them back:
    for every list of commands of at least one token each, where the tokens are
    those of [writable] (no end marker, and names without a quote) and no name
    contains a semicolon or the sign of a comment, loading the file with one
    command on each line, deleting its comments, separating its commands and
    scanning them gives exactly these commands. *)
Theorem file_spell cmds :
  Forall (fun ts => ts <> [] /\ Forall file_token ts) cmds -> scan_file (spell_file cmds) = Ok cmds.
Proof.
  intros Hc. assert (Hl : load_file (Some (spell_file cmds)) = Ok (spell_file cmds)).
  { destruct cmds as [|ts cmds]; [done|]. destruct (spell_file_lines (ts :: cmds)) as [s ->]; [done|].
    unfold load_file. by rewrite load_lines. }
  assert (Hw : without "#" (spell_file cmds)).
  { clear Hl. induction Hc as [|ts cmds [_ Hts] _ IH]; [done|]. cbn [spell_file fold_right].
    apply without_app. split; [by apply spell_without|]. by rewrite !without_cons. }
  unfold scan_file. rewrite Hl. cbn [mbind result_bind]. rewrite delete_comments_strip, strip_clean by done.
  cbn [mbind result_bind]. by apply (scan_spelled 1 EmptyString); [left|].
Qed.

Definition ex_commands : list (list token) :=
  [[tok TT_PROTOCOL; tok TT_MLDV2];
   [tok TT_PINSTANCE; Token TT_STRING "all"; tok TT_DOUBLE_DOT; Token TT_STRING "eth0.1"; tok TT_ARROW; Token TT_STRING "a b"]].

Lemma file_spell_witness : scan_file (spell_file ex_commands) = Ok ex_commands.
Proof.
  apply (file_spell ex_commands). repeat (apply Forall_cons_2; [split; [done|repeat constructor]|]). apply Forall_nil_2.
Defined.

(** A semicolon in a name separates commands, a quote or not. *)
Lemma separator_in_name :
  scan_file (spell_file [[tok TT_TABLE; Token TT_STRING "a;b"]]) <> Ok [[tok TT_TABLE; Token TT_STRING "a;b"]].
Proof. vm_compute. by intros [=]. Qed.

(** ** The configuration the parser builds *)

Section Built.
Context (inet_pton : addr_family -> string -> option (list Z)).
Implicit Types (gts : gmap string table) (ids : inst_def_set) (p : parser).

(** A filter of an interface: a list of a known kind with a table whose
    references exist. *)
Definition filter_ok gts (rb : rule_binding) : Prop :=
  m_rule_binding_type rb = RBT_FILTER /\ m_filter_type rb <> FT_UNDEFINED
  /\ exists t, m_table rb = Some t /\ table_refs_known gts t.

Definition interface_ok gts (i : interface) : Prop :=
  (forall rb, m_input_filter i = Some rb -> filter_ok gts rb)
  /\ (forall rb, m_output_filter i = Some rb -> filter_ok gts rb).

(** A global setting: a rule matching with a timeout that fits an [int]. *)
Definition setting_ok (rb : rule_binding) : Prop :=
  m_rule_binding_type rb = RBT_RULE_MATCHING /\ m_rule_matching_type rb <> RMT_UNDEFINED
  /\ (- 2 ^ 31 <= m_timeout rb < 2 ^ 31)%Z.

Definition instance_ok gts (id : instance_definition) : Prop :=
  id_downstreams id <> [] /\ Forall (interface_ok gts) (id_upstreams id)
  /\ Forall (interface_ok gts) (id_downstreams id) /\ Forall setting_ok (m_global_settings id)
  /\ (- 2 ^ 31 <= m_table_number id < 2 ^ 31)%Z.

Definition ids_ok gts ids : Prop := sl_ordered ids /\ Forall (instance_ok gts) ids.

Definition config_wf (c : configuration) : Prop :=
  gts_built (m_global_table_set c) /\ ids_ok (m_global_table_set c) (m_inst_def_set c).

(** *** The set of instances *)

Lemma ordered_map (f : instance_definition -> instance_definition) ids :
  (forall id, id_instance_name (f id) = id_instance_name id) ->
  sl_ordered ids -> sl_ordered (map f ids).
Proof.
  intros Hf. unfold sl_ordered. induction 1 as [|id ids Hs IH Hall]; cbn; constructor; [done|].
  rewrite Forall_map. eapply Forall_impl; [exact Hall|]. intros id' Hlt. cbn in *.
  unfold key, instance_definition_Keyed in *. by rewrite !Hf.
Qed.

Lemma update_instance_ok gts name f ids :
  (forall id, id_instance_name (f id) = id_instance_name id) ->
  (forall id, instance_ok gts id -> instance_ok gts (f id)) ->
  ids_ok gts ids -> ids_ok gts (update_instance name f ids).
Proof.
  intros Hname Hf [Hord Hall]. split.
  - apply ordered_map; [|done]. intros id. by destruct (String.eqb _ _).
  - unfold update_instance. rewrite Forall_map. eapply Forall_impl; [exact Hall|].
    intros id Hid. cbn. destruct (String.eqb _ _); auto.
Qed.

Lemma find_instance_ok gts name ids id :
  ids_ok gts ids -> inst_def_set_find name ids = Some id -> instance_ok gts id.
Proof.
  intros [_ Hall] Hf%sl_find_In. rewrite Forall_forall in Hall. auto.
Qed.

Lemma insert_instance_ok gts id ids :
  ids_ok gts ids -> instance_ok gts id -> ids_ok gts (inst_def_set_insert id ids).1.
Proof.
  intros [Hord Hall] Hid. unfold inst_def_set_insert.
  destruct (sl_find _ ids); [done|]. split; [by apply sl_insert_ordered|].
  apply Forall_forall. intros id' Hin. apply sl_insert_In in Hin as [->|Hin]; [done|].
  rewrite Forall_forall in Hall. auto.
Qed.

(** *** Every command keeps the invariant *)

Lemma bind_filter_ok gts dir rb name l l' :
  filter_ok gts rb -> Forall (interface_ok gts) l -> bind_filter dir rb name l = Some l' ->
  Forall (interface_ok gts) l' /\ length l' = length l.
Proof.
  intros Hrb. revert l'. induction l as [|i l IH]; intros l' Hl; cbn; [done|].
  apply Forall_cons in Hl as [[Hin Hout] Hl]. destruct (String.eqb _ _).
  - destruct dir; [destruct (m_input_filter i)|destruct (m_output_filter i)|]; try done;
      intros [= <-]; (split; [|done]); constructor; try done; split; cbn; naive_solver.
  - destruct (bind_filter dir rb name l) as [l1|]; [|done]. intros [= <-].
    destruct (IH l1 Hl eq_refl) as [H1 H2]. split; [by constructor|cbn; congruence].
Qed.

Lemma new_interfaces_ok gts names : Forall (interface_ok gts) (map new_interface names).
Proof. apply Forall_map, Forall_true. done. Qed.

Lemma parse_table_number_post p :
  post (parse_table_number p) (fun r _ => (- 2 ^ 31 <= r.1 < 2 ^ 31)%Z).
Proof. unfold parse_table_number. run; cbn; [by eapply stoi_range|lia]. Qed.

Lemma parse_if_names_post p : post (parse_if_names p) (fun _ _ => True).
Proof. unfold parse_if_names. cbn. by destruct (if_names _ _). Qed.

Lemma parse_instance_definition_post gts ids p :
  ids_ok gts ids -> post (parse_instance_definition ids p) (fun ids' _ => ids_ok gts ids').
Proof.
  intros Hids. unfold parse_instance_definition. step.
  eapply post_mono; [apply get_parser_type_post|]. intros pt p0 ->. run.
  eapply post_mono; [apply parse_table_number_post|]. intros [tn us] p1 Htn. cbn in Htn. run.
  eapply post_mono; [apply parse_if_names_post|]. intros upstreams p2 _. run.
  eapply post_mono; [apply parse_if_names_post|]. intros downstreams p3 _. do 2 step. step; [|step].
  set (id := new_instance_definition _ _ _ _ _).
  pose proof (insert_instance_ok gts id ids Hids) as Hins.
  destruct (inst_def_set_insert id ids) as [ids' [|]]; run. apply Hins.
  split_and!; cbn; [|apply new_interfaces_ok..|constructor|lia|lia].
  bool_simpl. destruct downstreams; [done|]. done.
Qed.

Lemma parse_table_binding_post gts gmp instance_name it name dir ids p :
  ids_ok gts ids ->
  post (parse_interface_table_binding inet_pton gts gmp instance_name it name dir ids p)
       (fun ids' _ => ids_ok gts ids').
Proof.
  intros Hids. unfold parse_interface_table_binding.
  assert (Hbind : forall ft t p', ft <> FT_UNDEFINED -> table_refs_known gts t ->
    post ((if is_tt (get_type (m_current_token p')) TT_NIL then
       match inst_def_set_find instance_name ids with
       | Some id =>
         let rb := filter_binding instance_name it name dir ft t in
         match it with
         | IT_UPSTREAM =>
           match bind_filter dir rb name (id_upstreams id) with
           | Some l => mret (update_instance instance_name (set_id_upstreams l) ids)
           | None => failed
           end
         | IT_DOWNSTREAM =>
           match bind_filter dir rb name (id_downstreams id) with
           | Some l => mret (update_instance instance_name (set_id_downstreams l) ids)
           | None => failed
           end
         end
       | None => failed
       end else failed) p') (fun ids' _ => ids_ok gts ids')).
  { intros ft t p' Hft Ht. step; [|step]. destruct (inst_def_set_find instance_name ids) as [id|] eqn:Hid; [|step].
    cbv zeta. set (rb := filter_binding _ _ _ _ _ _).
    assert (Hrb : filter_ok gts rb) by (split_and!; [done..|by exists t]).
    destruct (find_instance_ok _ _ _ _ Hids Hid) as (Hd & Hups & Hdowns & _).
    destruct it.
    - destruct (bind_filter dir rb name (id_upstreams id)) as [l|] eqn:Hl; run.
      destruct (bind_filter_ok _ _ _ _ _ _ Hrb Hups Hl) as [Hl1 _].
      apply update_instance_ok; [done| |done]. unfold instance_ok. cbn. tauto.
    - destruct (bind_filter dir rb name (id_downstreams id)) as [l|] eqn:Hl; run.
      destruct (bind_filter_ok _ _ _ _ _ _ Hrb Hdowns Hl) as [Hl1 Hl2].
      assert (l <> []) by (intros ->; by destruct (id_downstreams id)).
      apply update_instance_ok; [done| |done]. unfold instance_ok. cbn. tauto. }
  run; (eapply post_mono; [apply parse_table_post|]); intros t p' [_ Ht]; do 2 step; by apply Hbind.
Qed.

Lemma parse_match_binding_post gts instance_name it name dir ids p :
  ids_ok gts ids ->
  post (parse_interface_rule_match_binding instance_name it name dir ids p)
       (fun ids' _ => ids_ok gts ids').
Proof.
  intros Hids. unfold parse_interface_rule_match_binding. do 2 step. step.
  eapply post_mono; [instantiate (1 := fun r _ => r.1 <> RMT_UNDEFINED /\ (- 2 ^ 31 <= r.2 < 2 ^ 31)%Z)|].
  { run; cbn; split; try done; first [lia|by eapply stoi_range]. }
  intros [rmt timeout] p' [Hr Ht]. cbn in Hr, Ht. run. apply update_instance_ok; [done| |done].
  assert (setting_ok (matching_binding instance_name it name dir rmt timeout)) by done.
  unfold instance_ok. cbn. intros id (? & ? & ? & ? & ?). rewrite Forall_app, Forall_singleton. tauto.
Qed.

Lemma parse_rule_binding_post gts gmp ids p :
  ids_ok gts ids ->
  post (parse_interface_rule_binding inet_pton gts gmp ids p) (fun ids' _ => ids_ok gts ids').
Proof.
  intros Hids. unfold parse_interface_rule_binding. step.
  eapply post_mono; [apply get_parser_type_post|]. intros pt p0 ->.
  run; auto using parse_table_binding_post, parse_match_binding_post.
Qed.

(** More tables do no harm. *)
Lemma table_refs_known_mono gts gts' t :
  gts ⊆ gts' -> table_refs_known gts t -> table_refs_known gts' t.
Proof.
  intros Hsub Ht n Hn. destruct (Ht n Hn) as [u Hu]. exists u. by eapply lookup_weaken.
Qed.

Lemma ids_ok_mono gts gts' ids : gts ⊆ gts' -> ids_ok gts ids -> ids_ok gts' ids.
Proof.
  intros Hsub [Hord Hall]. split; [done|]. eapply Forall_impl; [exact Hall|].
  assert (Hf : forall rb, filter_ok gts rb -> filter_ok gts' rb).
  { intros rb (? & ? & t & ? & ?). split_and!; [done..|]. exists t.
    eauto using table_refs_known_mono. }
  assert (Hi : forall l, Forall (interface_ok gts) l -> Forall (interface_ok gts') l).
  { intros l Hl. eapply Forall_impl; [exact Hl|]. intros i [? ?]. split; eauto. }
  intros id (? & ? & ? & ? & ?). unfold instance_ok. auto.
Qed.

Lemma insert_table_mono t gts : gts ⊆ (global_table_set_insert t gts).1.
Proof.
  unfold global_table_set_insert. destruct (gts !! m_name t) eqn:Ht; [done|].
  by apply insert_subseteq.
Qed.

Lemma parse_group_mem_proto_post p : post (parse_group_mem_proto p) (fun _ _ => True).
Proof.
  unfold parse_group_mem_proto. step. eapply post_mono; [apply get_parser_type_post|].
  intros pt p0 ->. run; done.
Qed.

Lemma run_command_wf cmd c : config_wf c -> outcome (run_command inet_pton cmd c) config_wf.
Proof.
  intros [Hgts Hids]. unfold run_command, new_parser. apply outcome_bind, outcome_bind.
  eapply outcome_mono; [apply outcome_settled, scan_settled|]. intros ts _. cbn [outcome].
  apply outcome_bind. eapply outcome_mono; [apply outcome_post, get_parser_type_post|].
  intros [pt p] Hp. cbn in Hp. subst p. cbv beta iota. destruct pt; apply outcome_bind.
  - eapply outcome_mono; [apply outcome_post, parse_group_mem_proto_post|]. by intros [gmp p] _.
  - eapply outcome_mono; [by apply outcome_post, (parse_instance_definition_post _ _ _ Hids)|].
    intros [ids p] H. by split.
  - eapply outcome_mono; [apply outcome_post, parse_table_post|]. intros [t p] [_ Ht]. cbn in Ht.
    cbv beta iota. pose proof (gts_insert _ t Hgts Ht) as Hb.
    pose proof (insert_table_mono t (m_global_table_set c)) as Hm.
    destruct (global_table_set_insert _ _) as [gts [|]]; [|done]. split; [done|].
    by eapply ids_ok_mono.
  - eapply outcome_mono; [by apply outcome_post, (parse_rule_binding_post _ _ _ _ Hids)|].
    intros [ids p] H. by split.
Qed.

Lemma run_parser_wf cmds c : config_wf c -> outcome (run_parser inet_pton cmds c) config_wf.
Proof.
  revert c. induction cmds as [|[line cmd] cmds IH]; intros c Hc; [done|]. cbn [run_parser].
  apply outcome_bind. eapply outcome_mono; [by apply run_command_wf|]. auto.
Qed.

Lemma default_configuration_wf : config_wf default_configuration.
Proof. split; [apply gts_empty|]. split; constructor. Qed.

(** C13: Reading a configuration ends for every file, and a configuration that is
    accepted is consistent: every reference leads to a table that was defined
    before, the instances are ordered by distinct names, each has a downstream
    interface, and all filters and settings are complete. *)
Theorem run_parser_consistent cmds :
  run_parser inet_pton cmds default_configuration <> Err OutOfFuel
  /\ forall c, run_parser inet_pton cmds default_configuration = Ok c -> config_wf c.
Proof.
  pose proof (run_parser_wf cmds _ default_configuration_wf) as H.
  split; [by apply settled_outcome in H|]. intros c Hc. by rewrite Hc in H.
Qed.

End Built.

(** ** Virtual interfaces *)

Section Assigned.
Context (inet_pton : addr_family -> string -> option (list Z)).
Context (if_nametoindex : string -> Z) (if_flags : addr_family -> Z -> option Z).

(** Indexes are of type [unsigned int], and 0 is not the index of an interface. *)
Hypothesis index_range : forall name, (0 <= if_nametoindex name < 2 ^ 32)%Z.
Hypothesis no_interface_0 : forall f, if_flags f 0 = None.

(** The interface has a number of its own. *)
Definition assigned (ifs : interfaces) (i : interface) : Prop :=
  is_Some (vif_of ifs (if_nametoindex (if_name i))).

Lemma add_interfaces_ok l r :
  ifs_wf r.1 ->
  match add_interfaces if_nametoindex if_flags l r with
  | Ok r' => ifs_wf r'.1 /\ Forall (assigned r'.1) l
             /\ forall j, is_Some (vif_of r.1 j) -> is_Some (vif_of r'.1 j)
  | Err (Throw _) => True
  | Err _ => False
  end.
Proof.
  revert r. induction l as [|i l IH]; intros r Hr; [by split_and!|]. cbn [add_interfaces].
  destruct (Z.eqb_spec (if_nametoindex (if_name i)) 0) as [|_]; [done|].
  destruct (add_interface_spec if_flags no_interface_0 (if_nametoindex (if_name i)) r.1 Hr
    (index_range _)) as (b & ifs & acts & -> & Hifs & Hadd).
  destruct b; [|done]. specialize (IH (ifs, r.2 ++ acts) Hifs).
  destruct (add_interfaces _ _ l _) as [r'|[]]; try done. cbn [fst] in IH.
  destruct IH as (Hwf & Hl & Hkeep).
  assert (is_Some (vif_of ifs (if_nametoindex (if_name i)))
    /\ forall j, is_Some (vif_of r.1 j) -> is_Some (vif_of ifs j)) as [H1 H2].
  { destruct Hadd as [(_ & -> & Hi)|[(_ & _ & v & _ & _ & Hj)|[[=] _]]]; [done|].
    rewrite Hj, decide_True by done. split; [eauto|]. intros j Hs. rewrite Hj. case_decide; eauto. }
  split_and!; [done| |by intros j Hj; apply Hkeep, H2].
  constructor; [by apply Hkeep|done].
Qed.

Lemma instance_interfaces_ok c reset id :
  match instance_interfaces if_nametoindex if_flags c reset id with
  | Ok r => ifs_wf r.1 /\ Forall (assigned r.1) (id_upstreams id ++ id_downstreams id)
  | Err (Throw _) => True
  | Err _ => False
  end.
Proof.
  unfold instance_interfaces.
  pose proof (add_interfaces_ok (id_downstreams id)
    (new_interfaces (get_addr_family (m_gmp c)) reset, []) (new_interfaces_wf _ _)) as H.
  destruct (add_interfaces _ _ (id_downstreams id) _) as [r|[]]; try done.
  destruct H as (Hr & Hd & _). cbn [mbind result_bind].
  pose proof (add_interfaces_ok (id_upstreams id) r Hr) as H.
  destruct (add_interfaces _ _ (id_upstreams id) _) as [r'|[]]; try done.
  destruct H as (Hr' & Hu & Hkeep). split; [done|]. apply Forall_app. split; [done|].
  eapply Forall_impl; [exact Hd|]. intros i. apply Hkeep.
Qed.

Lemma initalize_interfaces_ok c reset ids m :
  match initalize_interfaces if_nametoindex if_flags c reset ids m with
  | Ok m' => m ⊆ m' /\ Forall (fun id => exists ifs, m' !! id_instance_name id = Some ifs
               /\ ifs_wf ifs /\ Forall (assigned ifs) (id_upstreams id ++ id_downstreams id)) ids
  | Err (Throw _) => True
  | Err _ => False
  end.
Proof.
  revert m. induction ids as [|id ids IH]; intros m; cbn [initalize_interfaces]; [by split|].
  pose proof (instance_interfaces_ok c reset id) as H.
  destruct (instance_interfaces _ _ c reset id) as [r|[]]; try done. cbn [mbind result_bind].
  destruct (m !! id_instance_name id) eqn:Hm; [done|].
  specialize (IH (<[id_instance_name id:=r.1]> m)).
  destruct (initalize_interfaces _ _ c reset ids _) as [m'|[]]; try done.
  destruct IH as [Hsub Hall]. split.
  - etransitivity; [|exact Hsub]. by apply insert_subseteq.
  - constructor; [|done]. exists r.1. split; [|done].
    eapply lookup_weaken; [|exact Hsub]. apply lookup_insert_eq.
Qed.

(** C28: A configuration that is accepted numbers all of its interfaces: each
    instance gets a table of virtual interfaces in which every interface of its
    definition has a number of its own in the range of the kernel. Otherwise
    the start ends with an exception that is reported, or in the parser. *)
Theorem interfaces_assigned file reset c m :
  new_configuration inet_pton if_nametoindex if_flags file reset = Ok (c, m) ->
  forall id, id ∈ m_inst_def_set c -> exists ifs,
    get_interfaces_for_pinstance m (id_instance_name id) = Some ifs /\
    forall i, i ∈ id_upstreams id ++ id_downstreams id ->
      let index := if_nametoindex (if_name i) in
      (0 <= get_virtual_if_index index ifs < 32)%Z
      /\ get_if_index_vif (get_virtual_if_index index ifs) ifs = index.
Proof.
  unfold new_configuration. intros (text & _ & H)%bind_Ok id Hid.
  apply bind_Ok in H as (text' & _ & H). apply bind_Ok in H as (c' & _ & H).
  apply bind_Ok in H as (m' & Hm & [= -> ->]).
  pose proof (initalize_interfaces_ok c reset (m_inst_def_set c) ∅) as H. rewrite Hm in H.
  destruct H as [_ Hall]. rewrite Forall_forall in Hall.
  destruct (Hall id Hid) as (ifs & Hifs & Hwf & Hass). exists ifs. split; [done|].
  intros i Hi. rewrite Forall_forall in Hass. destruct (Hass i Hi) as [v Hv]. cbv zeta.
  assert (Hg : get_virtual_if_index (if_nametoindex (if_name i)) ifs = v).
  { unfold get_virtual_if_index. unfold vif_of in Hv.
    destruct (sl_find _ (m_if_vif ifs)); by simplify_eq/=. }
  rewrite Hg. split; [by apply (iw_range _ Hwf) in Hv as [_ ?]|].
  apply (iw_inverse _ Hwf) in Hv. unfold get_if_index_vif. unfold if_of in Hv.
  destruct (sl_find v (m_vif_if ifs)); by simplify_eq/=.
Qed.
End Assigned.

(** A configuration with a table that a filter refers to. *)
Definition ex_file : string :=
  "protocol IGMPv3; table t {(*|*)}; pinstance p: eth0 ==> eth1; #"
  +:+ String newline "pinstance p upstream eth0 in blacklist table t;".

Definition ex_index (name : string) : Z :=
  (if String.eqb name "eth0" then 2 else if String.eqb name "eth1" then 3 else 0)%Z.

Definition ex_configuration : result configuration :=
  text ← load_file (Some ex_file); text ← delete_comments text;
  run_parser (fun _ _ => None) (separate_commands text) default_configuration.

Lemma run_parser_consistent_witness :
  exists c, ex_configuration = Ok c /\ config_wf c /\ length (m_inst_def_set c) = 1.
Proof.
  eexists. split; [vm_compute; reflexivity|]. split; [|reflexivity].
  refine (proj2 (run_parser_consistent (fun _ _ => None)
    [(1%Z, "protocol IGMPv3"); (1%Z, "table t {(*|*)}"); (1%Z, "pinstance p: eth0 ==> eth1");
     (2%Z, "pinstance p upstream eth0 in blacklist table t")]) _ _).
  vm_compute. reflexivity.
Defined.

Lemma interfaces_assigned_witness :
  exists c m, new_configuration (fun _ _ => None) ex_index ex_flags (Some ex_file) false = Ok (c, m) /\
  forall id, id ∈ m_inst_def_set c -> exists ifs,
    get_interfaces_for_pinstance m (id_instance_name id) = Some ifs /\
    forall i, i ∈ id_upstreams id ++ id_downstreams id ->
      (0 <= get_virtual_if_index (ex_index (if_name i)) ifs < 32)%Z
      /\ get_if_index_vif (get_virtual_if_index (ex_index (if_name i)) ifs) ifs = ex_index (if_name i).
Proof.
  do 2 eexists. split; [vm_compute; reflexivity|].
  refine (interfaces_assigned (fun _ _ => None) ex_index ex_flags _ (fun _ => eq_refl) (Some ex_file) false
    _ _ _); [|vm_compute; reflexivity].
  intros name. unfold ex_index. by repeat case_match.
Defined.
