(* ===== verification/ConfigErrors.v ===== *)
(** * Errors of the configuration file

    What the parser does with a configuration that is not what the user meant:
    the outcomes of a prefix length, addresses that cannot be written in a rule,
    and text that is dropped without a message. *)

From Stdlib Require Import Strings.Ascii.
From S2P Require Import Prelude Result Scanner Def AddrStorage Filter InstanceDef Parser.
From S2P Require Import ParserTheorems Grammar Interfaces Configuration.

(** ** Prefixes *)

Lemma is_wildcard_value a b :
  same_family AF_INET a -> same_family AF_INET b -> is_wildcard a (ss_family b) = (addr_value a =? 0)%Z.
Proof.
  intros Ha (_ & Hf & _). unfold is_wildcard. rewrite Hf, (operator_eq_value AF_INET); [done..|].
  split; [split; apply zeros_octets|done].
Qed.

(** A range that does not end with zero contains the addresses between its bounds. *)
Lemma range_match_value lo hi b :
  same_family AF_INET lo -> same_family AF_INET hi -> same_family AF_INET b -> (0 < addr_value hi)%Z ->
  addr_match_match (addr_range lo hi) b = true <-> (addr_value lo <= addr_value b <= addr_value hi)%Z.
Proof.
  intros Hlo Hhi Hb H0. cbn [addr_match_match]. unfold operator_ge.
  rewrite andb_true_iff, !orb_true_iff, negb_true_iff, (operator_le_value AF_INET),
    (operator_lt_value AF_INET), !is_wildcard_value by done.
  assert (0 <= addr_value b)%Z.
  { destruct Hb as ([[_ H4] _] & Hf & _). unfold addr_value. rewrite Hf. by apply be_value_bound. }
  rewrite Z.ltb_ge, !Z.eqb_eq. lia.
Qed.

Lemma same_prefix_interval v k x :
  (0 < k -> v - v mod k <= x <= v - v mod k + k - 1 <-> x / k = v / k)%Z.
Proof.
  intros Hk. pose proof (Z.div_mod v k). pose proof (Z.div_mod x k).
  pose proof (Z.mod_pos_bound v k). pose proof (Z.mod_pos_bound x k). split; nia.
Qed.

(** The outcomes of a prefix behind an IPv4 address. A length below 32 gives
    the addresses that share that many leading bits; a length from 32 to 128
    passes the check of the parser and is undefined behaviour in [mask]; every
    other number reaches [throw;] without an exception in flight and terminates
    the process. *)
Theorem prefix_outcomes addr str v :
  same_family AF_INET addr -> stoi str = Some v ->
  ((0 <= v < 32)%Z -> exists m, prefix_range addr str = Ok m /\
     forall b, same_family AF_INET b ->
       addr_match_match m b = true
       <-> (addr_value b / 2 ^ (32 - v) = addr_value addr / 2 ^ (32 - v))%Z)
  /\ ((32 <= v <= 128)%Z -> prefix_range addr str = Err Undefined)
  /\ ((v < 0 \/ 128 < v)%Z -> prefix_range addr str = Err Terminate).
Proof.
  intros Ha Hv. pose proof (stoi_range _ _ Hv) as Hr. unfold prefix_range, to_uint32. rewrite Hv.
  assert (Hm : (0 <= v <= 128 -> v mod 2 ^ 32 = v)%Z) by (intros; apply Z.mod_small; lia).
  split_and!; intros H; cbv zeta.
  - rewrite Hm, (proj2 (Z.ltb_ge _ _)) by lia.
    destruct (ipv4_prefix_bounds v addr H Ha) as (lo & hi & -> & -> & Slo & Shi & Vlo & Vhi).
    eexists. split; [reflexivity|]. intros b Hb. pose proof (Z.pow_pos_nonneg 2 (32 - v)).
    pose proof (Z.pow_le_mono_r 2 1 (32 - v)).
    assert (0 <= addr_value lo)%Z.
    { destruct Slo as ([[_ H4] _] & Hf & _). unfold addr_value. rewrite Hf. by apply be_value_bound. }
    rewrite range_match_value by (done || lia). rewrite Vhi, Vlo. apply same_prefix_interval. lia.
  - rewrite Hm, (proj2 (Z.ltb_ge _ _)) by lia. destruct Ha as (_ & Hf & _). unfold mask. rewrite Hf.
    unfold host_bits. by rewrite (proj2 (Z.ltb_ge v 32)), andb_false_r by lia.
  - rewrite (proj2 (Z.ltb_lt _ _)); [done|]. destruct H as [H|H]; [|rewrite Z.mod_small; lia].
    rewrite <- (Z.mod_add v 1 (2 ^ 32)), Z.mod_small by lia. lia.
Qed.

Lemma prefix_outcomes_witness :
  (exists m, prefix_range (ip4 10 1 2 3) "8" = Ok m /\ forall b, same_family AF_INET b ->
     addr_match_match m b = true
     <-> (addr_value b / 2 ^ (32 - 8) = addr_value (ip4 10 1 2 3) / 2 ^ (32 - 8))%Z)
  /\ prefix_range (ip4 10 1 2 3) "32" = Err Undefined
  /\ prefix_range (ip4 10 1 2 3) "129" = Err Terminate.
Proof.
  assert (H : same_family AF_INET (ip4 10 1 2 3)) by (apply ip4_same_family; unfold is_octet; lia).
  split_and!.
  - apply (prefix_outcomes (ip4 10 1 2 3) "8" 8 H eq_refl). lia.
  - apply (prefix_outcomes (ip4 10 1 2 3) "32" 32 H eq_refl). lia.
  - apply (prefix_outcomes (ip4 10 1 2 3) "129" 129 H eq_refl). lia.
Defined.

(** ** Dropped text *)

Section Dropped.
Context (inet_pton : addr_family -> string -> option (list Z)).

(** An equals sign that is not part of an arrow ends a command without a
    message: the command takes effect as if the rest of it, up to the next
    semicolon, had not been written. *)
Theorem equals_truncates ts cs c :
  Forall writable ts -> (forall r, cs <> "=>" +:+ r) ->
  run_command inet_pton (spell ts +:+ String "=" cs) c = run_command inet_pton (spell ts) c.
Proof.
  intros Hts Hcs. unfold run_command, new_parser.
  rewrite scan_spell_app, scan_equals_ends by done.
  rewrite <- (append_nil_r (spell ts)), scan_spell_app by done. done.
Qed.

(** An address that begins with a colon, such as [::1], cannot be written in a
    rule: the scanner delivers two colons and the parser expects a name. *)
Lemma colon_address_rejected gts gmp name ts :
  parse_table inet_pton gts gmp
    (advance (tok TT_TABLE :: Token TT_STRING name :: tok TT_LEFT_BRACE :: tok TT_LEFT_BRACKET
                :: tok TT_DOUBLE_DOT :: ts)) = Err (Throw parse_failed).
Proof. done. Qed.

(** The name of an interface in front of an inner table has no effect. *)
Lemma table_interface_ignored gts gmp name t :
  is_Some (gts !! t) ->
  parse_table inet_pton gts gmp
    (advance [tok TT_TABLE; Token TT_STRING "t"; tok TT_LEFT_BRACE; Token TT_STRING name;
              tok TT_LEFT_BRACKET; tok TT_TABLE; Token TT_STRING t; tok TT_RIGHT_BRACKET;
              tok TT_RIGHT_BRACE])
  = Ok ({| m_name := "t"; m_rule_box_list := [rule_table EmptyString [rule_table_ref t]] |},
        advance []).
Proof.
  intros Ht. apply parse_table_iff; [by repeat (apply Forall_cons_2; [done|])|].
  apply (g_table_def _ _ _ _ [Token TT_STRING "t"] "t" (tok TT_LEFT_BRACE)
    [Token TT_STRING name; tok TT_LEFT_BRACKET; tok TT_TABLE; Token TT_STRING t;
     tok TT_RIGHT_BRACKET]); [done|by constructor|done| |done].
  apply (g_rules_cons _ _ _ [Token TT_STRING name; tok TT_LEFT_BRACKET; tok TT_TABLE; Token TT_STRING t]);
    [|done|constructor].
  apply (g_rule_table _ _ _ [Token TT_STRING name] name (tok TT_LEFT_BRACKET)
    [tok TT_TABLE; Token TT_STRING t]
    {| m_name := EmptyString; m_rule_box_list := [rule_table_ref t] |});
    [by constructor|done|by apply (g_table_ref _ _ _ (tok TT_TABLE) (Token TT_STRING t))].
Qed.
End Dropped.

Lemma equals_truncates_witness :
  run_command (fun _ _ => None)
    (spell [tok TT_PROTOCOL; tok TT_MLDV2] +:+ String "=" " IGMPv3 or anything else") default_configuration
  = run_command (fun _ _ => None) (spell [tok TT_PROTOCOL; tok TT_MLDV2]) default_configuration.
Proof.
  apply (equals_truncates (fun _ _ => None) [tok TT_PROTOCOL; tok TT_MLDV2] " IGMPv3 or anything else"
    default_configuration); [repeat (apply Forall_cons_2; [done|]); apply Forall_nil_2|done].
Defined.
