(* ===== verification/Printing.v ===== *)
(** * Text output of the configuration (src/parser/interface.cpp, src/proxy/def.cpp,
      src/utils/addr_storage.cpp)

    The [to_string] functions of addresses, rules, tables, bindings and
    instances, and the proofs that what they print of a table, an instance or a
    setting is read back by scanner and parser. [inet_ntop] is a parameter. *)

From Stdlib Require Import Strings.Ascii.
From S2P Require Import Prelude Result Scanner Def AddrStorage Filter InstanceDef Parser.
From S2P Require Import ParserTheorems Grammar Configuration ConfigTheorems.

(** [std::endl] *)
Definition endl : string := String newline EmptyString.
Definition tab : string := String "009" EmptyString.

(** [std::ostream] on a decimal number. *)
Fixpoint print_digits (fuel : nat) (n : Z) (acc : string) : string :=
  let acc := String (ascii_of_N (Z.to_N (48 + n mod 10))) acc in
  match fuel with
  | O => acc
  | S fuel => if (n / 10 =? 0)%Z then acc else print_digits fuel (n / 10) acc
  end.

(** Twenty digits are enough for 64 bits. *)
Definition print_Z (n : Z) : string :=
  if (n <? 0)%Z then "-" +:+ print_digits 20 (- n) EmptyString else print_digits 20 n EmptyString.

(** The loop of [indention]: a tab behind every newline but one at the end. *)
Fixpoint indent_lines (s : string) : string :=
  match s with
  | EmptyString => EmptyString
  | String c s' =>
    match s' with
    | EmptyString => s
    | _ => if Ascii.eqb c newline then String c (tab +:+ indent_lines s')
           else String c (indent_lines s')
    end
  end.

Definition indention (s : string) : string := tab +:+ indent_lines s.

Section Print.
Context (inet_ntop : addr_family -> list Z -> option string).

Definition addr_to_string (a : addr_storage) : string :=
  match ss_family a with
  | AF_INET => default EmptyString (inet_ntop AF_INET (sin_addr a))
  | AF_INET6 => default EmptyString (inet_ntop AF_INET6 (sin6_addr a))
  | AF_UNSPEC => EmptyString
  end.

Definition addr_match_to_string (m : addr_match) : string :=
  match m with
  | single_addr a => addr_to_string a
  | addr_range from to => addr_to_string from +:+ " - " +:+ addr_to_string to
  end.

(** [table::to_string] over the printer of a rule box. *)
Definition table_text (rule_text : rule_box -> string) (name : string) (boxes : list rule_box)
    : string :=
  "table " +:+ name +:+ " {" +:+ endl
  +:+ fold_right (fun b acc => indention (rule_text b) +:+ endl +:+ acc) EmptyString boxes +:+ "}".

Fixpoint rule_to_string (b : rule_box) : string :=
  match b with
  | rule_addr name group source =>
    name +:+ "(" +:+ addr_match_to_string group +:+ " | " +:+ addr_match_to_string source +:+ ")"
  | rule_table name boxes => table_text rule_to_string name boxes
  | rule_table_ref name => "(table " +:+ name +:+ ")"
  end.

Definition table_to_string (t : table) : string :=
  table_text rule_to_string (m_name t) (m_rule_box_list t).

Definition to_string_table_filter (rb : rule_binding) : string :=
  match m_filter_type rb with
  | FT_BLACKLIST => "blacklist "
  | FT_WHITELIST => "whitelist "
  | FT_UNDEFINED => "* "
  end
  +:+ match m_table rb with
      | Some t => table_to_string t
      | None => "table ???"
      end.

Definition to_string_rule_matching (rb : rule_binding) : string :=
  "rulematching "
  +:+ match m_rule_matching_type rb with
      | RMT_ALL => "all "
      | RMT_FIRST => "first "
      | RMT_MUTEX => "mutex " +:+ print_Z (m_timeout rb)
      | RMT_UNDEFINED => "???"
      end.

Definition rule_binding_to_string (rb : rule_binding) : string :=
  "pinstance " +:+ m_instance_name rb +:+ " "
  +:+ match m_interface_type rb with IT_UPSTREAM => "upstream " | IT_DOWNSTREAM => "downstream " end
  +:+ rb_if_name rb +:+ " "
  +:+ match m_filter_direction rb with ID_IN => "in " | ID_OUT => "out " | ID_WILDCARD => "* " end
  +:+ match m_rule_binding_type rb with
      | RBT_FILTER => to_string_table_filter rb
      | RBT_RULE_MATCHING => to_string_rule_matching rb
      | RBT_TIMER_VALUE => "??? "
      end.

Definition interface_to_string_rule_binding (i : interface) : string :=
  match m_output_filter i, m_input_filter i with
  | Some o, Some n => rule_binding_to_string o +:+ endl +:+ rule_binding_to_string n
  | Some o, None => rule_binding_to_string o
  | None, Some n => rule_binding_to_string n
  | None, None => EmptyString
  end.

Definition to_string_interface (i : interface) : string := if_name i.

Definition names_text (l : list interface) : string :=
  fold_right (fun i acc => to_string_interface i +:+ " " +:+ acc) EmptyString l.

Definition to_string_instance (id : instance_definition) : string :=
  "pinstance " +:+ id_instance_name id +:+ ": " +:+ names_text (id_upstreams id)
  +:+ "==> " +:+ names_text (id_downstreams id).

Definition id_to_string_rule_binding (id : instance_definition) : string :=
  match id_upstreams id with
  | [] => EmptyString
  | u :: us =>
    interface_to_string_rule_binding u
    +:+ fold_right (fun i acc => endl +:+ interface_to_string_rule_binding i +:+ acc) EmptyString us
  end
  +:+ fold_right (fun i acc => endl +:+ interface_to_string_rule_binding i +:+ acc) EmptyString
        (id_downstreams id)
  +:+ fold_right (fun rb acc => endl +:+ rule_binding_to_string rb +:+ acc) EmptyString
        (m_global_settings id).

Definition inst_def_set_to_string (ids : inst_def_set) : string :=
  match ids with
  | [] => EmptyString
  | id :: ids' =>
    to_string_instance id +:+ endl +:+ id_to_string_rule_binding id
    +:+ fold_right (fun id acc => endl +:+ to_string_instance id +:+ endl
                                  +:+ id_to_string_rule_binding id +:+ acc) EmptyString ids'
  end.
End Print.

(** ** Words and numbers *)

(** A name that is printed as it is and read back as the same name: made of
    letters, digits and underscores, and not a keyword. *)
Definition plain_word (w : string) : Prop :=
  w <> EmptyString /\ all_chars is_string w = true /\ word_token w = Token TT_STRING w.

Lemma scan_plain w cs :
  plain_word w -> word_ends cs -> scan (w +:+ cs) = (ts ← scan cs; Ok (Token TT_STRING w :: ts)).
Proof. intros (Hne & Hw & Ht) Hcs. rewrite scan_word by done. by rewrite Ht. Qed.

Lemma digit_word w : w <> EmptyString -> all_chars isdigit w = true -> plain_word w.
Proof.
  intros Hne Hw. split_and!; [done| |].
  - clear Hne. induction w as [|c w IH]; [done|]. cbn in *. apply andb_true_iff in Hw as [Hc Hw].
    unfold is_string. rewrite Hc, orb_true_r. auto.
  - unfold word_token. destruct (find _ keywords) as [kw|] eqn:Hf; [|done]. exfalso.
    destruct w as [|c w]; [done|]. apply andb_true_iff in Hw as [Hc _].
    apply find_some in Hf as [Hin He]. apply String.eqb_eq in He. cbn [to_lower] in He.
    assert (Htl : tolower c = c).
    { revert Hc. destruct c as [[][][][][][][][]]; vm_compute; done. }
    rewrite Htl in He. destruct kw as [k ty]. cbn in He. subst k. revert Hc Hin. clear.
    cbn [In keywords]. intros Hc Hin.
    repeat destruct Hin as [[= <- _ _]|Hin]; done.
Qed.

Definition digit_char (d : Z) : ascii := ascii_of_N (Z.to_N (48 + d)).

Lemma digit_char_spec d :
  (0 <= d < 10)%Z -> isdigit (digit_char d) = true /\ code (digit_char d) = (48 + d)%Z.
Proof.
  intros Hd. assert (d ∈ [0; 1; 2; 3; 4; 5; 6; 7; 8; 9]%Z) as Hin by (set_unfold; lia).
  repeat (apply elem_of_cons in Hin as [->|Hin]; [done|]). by apply elem_of_nil in Hin.
Qed.

Lemma print_digits_S fuel n acc :
  print_digits (S fuel) n acc =
  if (n / 10 =? 0)%Z then String (digit_char (n mod 10)) acc
  else print_digits fuel (n / 10) (String (digit_char (n mod 10)) acc).
Proof. done. Qed.

Lemma print_digits_digits fuel n acc :
  (0 <= n)%Z -> all_chars isdigit acc = true ->
  print_digits fuel n acc <> EmptyString /\ all_chars isdigit (print_digits fuel n acc) = true.
Proof.
  revert n acc. induction fuel as [|fuel IH]; intros n acc Hn Hacc;
    assert (Hc : all_chars isdigit (String (digit_char (n mod 10)) acc) = true)
      by (cbn; rewrite Hacc, (proj1 (digit_char_spec (n mod 10) ltac:(apply Z.mod_pos_bound; lia))); done).
  - done.
  - rewrite print_digits_S. destruct (n / 10 =? 0)%Z; [done|]. apply IH; [|done].
    apply Z.div_pos; lia.
Qed.

Lemma print_digits_value fuel n acc :
  (0 <= n < 10 ^ Z.of_nat (S fuel))%Z ->
  digits_value 0 (print_digits fuel n acc) = digits_value n acc.
Proof.
  assert (Hstep : forall a n acc, (0 <= n)%Z ->
    digits_value a (String (digit_char (n mod 10)) acc) = digits_value (a * 10 + n mod 10) acc).
  { intros a m acc' Hm. destruct (digit_char_spec (m mod 10)) as [H1 H2].
    { apply Z.mod_pos_bound. lia. }
    cbn [digits_value]. rewrite H1, H2. f_equal. lia. }
  revert n acc. induction fuel as [|fuel IH]; intros n acc Hn.
  - change (print_digits 0 n acc) with (String (digit_char (n mod 10)) acc).
    rewrite Hstep, Z.mod_small by lia. done.
  - rewrite print_digits_S. destruct (Z.eqb_spec (n / 10) 0) as [Hz|Hz].
    + rewrite Hstep by lia. f_equal. pose proof (Z.div_mod n 10). lia.
    + rewrite IH, Hstep by first [lia|split; [apply Z.div_pos; lia|];
        apply Z.div_lt_upper_bound; [lia|]; rewrite Nat2Z.inj_succ, Z.pow_succ_r in Hn by lia; lia].
      f_equal. pose proof (Z.div_mod n 10). lia.
Qed.

(** A number of an [int] that is not negative is printed as a word and read
    back. *)
Lemma print_Z_word n : (0 <= n)%Z -> plain_word (print_Z n).
Proof.
  intros Hn. unfold print_Z. rewrite (proj2 (Z.ltb_ge _ _)) by lia.
  by apply digit_word; apply print_digits_digits.
Qed.

Lemma digit_no_space c : isdigit c = true ->
  isspace c = false /\ Ascii.eqb c "-" = false /\ Ascii.eqb c "+" = false.
Proof. destruct c as [[][][][][][][][]]; vm_compute; done. Qed.

Lemma stoi_print_Z n : (0 <= n < 2 ^ 31)%Z -> stoi (print_Z n) = Some n.
Proof.
  intros Hn. unfold print_Z. rewrite (proj2 (Z.ltb_ge _ _)) by lia.
  destruct (print_digits_digits 20 n EmptyString) as [Hne Hd]; [lia|done|].
  pose proof (print_digits_value 20 n EmptyString ltac:(lia)) as Hv.
  destruct (print_digits 20 n EmptyString) as [|c w] eqn:He; [done|].
  cbn [all_chars] in Hd. apply andb_true_iff in Hd as [Hc Hw].
  destruct (digit_no_space c Hc) as (H1 & H2 & H3).
  unfold stoi, signed_value. cbn [drop_spaces]. rewrite H1, H2, H3. unfold unsigned_value. rewrite Hc, Hv.
  cbn [mbind option_bind digits_value].
  by rewrite (proj2 (Z.leb_le _ _)), (proj2 (Z.ltb_lt _ _)) by lia.
Qed.

(** ** Scanning printed text *)

(** The text [s] is scanned to [ts], whatever follows; if [w] is set, [s] ends
    with a word and what follows must not continue it. *)
Definition lexes (w : bool) (s : string) (ts : list token) : Prop :=
  forall cs, (w = true -> word_ends cs) -> scan (s +:+ cs) = (us ← scan cs; Ok (ts ++ us)).

(** The text does not continue a word in front of it. *)
Definition breaks (s : string) : Prop := forall cs, word_ends (s +:+ cs).

Lemma bind_result_assoc {X Y Z} (m : result X) (f : X -> result Y) (g : Y -> result Z) :
  (m ≫= f) ≫= g = m ≫= (fun x => f x ≫= g).
Proof. by destruct m. Qed.

Lemma lexes_app v w a ta b tb :
  lexes v a ta -> lexes w b tb -> (v = true -> breaks b) -> lexes w (a +:+ b) (ta ++ tb).
Proof.
  intros Ha Hb Hbr cs Hcs. rewrite append_assoc, Ha, Hb by (try done; intros Hv; by apply Hbr).
  rewrite bind_result_assoc. destruct (scan cs); cbn; [|done]. by rewrite app_assoc.
Qed.

Lemma lexes_app_false w a ta b tb :
  lexes false a ta -> lexes w b tb -> lexes w (a +:+ b) (ta ++ tb).
Proof. intros Ha Hb. by apply (lexes_app false). Qed.

Lemma lexes_app_true w a ta b tb :
  lexes true a ta -> breaks b -> lexes w b tb -> lexes w (a +:+ b) (ta ++ tb).
Proof. intros Ha Hbr Hb. apply (lexes_app true); [done..|]. by intros _. Qed.

Lemma lexes_weaken w s ts : lexes false s ts -> lexes w s ts.
Proof. intros Hs cs _. by apply Hs. Qed.

Lemma lexes_nil w : lexes w EmptyString [].
Proof. intros cs _. rewrite append_nil_l. by destruct (scan cs). Qed.

Lemma lexes_spaces w s : all_chars isspace s = true -> lexes w s [].
Proof.
  intros Hs. induction s as [|c s IH]; [apply lexes_nil|]. cbn in Hs. apply andb_true_iff in Hs as [Hc Hs].
  intros cs Hcs. rewrite append_cons, scan_space by done. by apply IH.
Qed.

Lemma lexes_plain w : plain_word w -> lexes true w [Token TT_STRING w].
Proof. intros Hw cs Hcs. by rewrite scan_plain by auto. Qed.

Lemma lexes_keyword s ty : s <> EmptyString -> all_chars is_string s = true ->
  word_token s = tok ty -> lexes true s [tok ty].
Proof. intros Hne Hw Ht cs Hcs. rewrite scan_word by auto. by rewrite Ht. Qed.

Lemma lexes_punct w c ty :
  find (fun p => Ascii.eqb c p.1) punctuation = Some (c, ty) -> lexes w (String c EmptyString) [tok ty].
Proof. intros Hp cs Hcs. rewrite append_cons. by rewrite (scan_punct c (c, ty)). Qed.

Lemma lexes_arrow w : lexes w "==>" [tok TT_ARROW].
Proof. intros cs Hcs. by rewrite scan_arrow. Qed.

Lemma lexes_scan w s ts : lexes w s ts -> scan s = Ok ts.
Proof.
  intros Hs. rewrite <- (append_nil_r s), Hs by done. change (scan EmptyString) with (@Ok (list token) []).
  cbn [mbind result_bind]. by rewrite app_nil_r.
Qed.

Lemma breaks_cons c s : is_string c = false -> breaks (String c s).
Proof. by intros Hc cs. Qed.

Lemma breaks_lit c s b : is_string c = false -> breaks (String c s +:+ b).
Proof. by intros Hc cs. Qed.

(** White space in front of and behind a piece of text. *)
Lemma lexes_space_l w c s ts : isspace c = true -> lexes w s ts -> lexes w (String c s) ts.
Proof. intros Hc Hs cs Hcs. rewrite append_cons, scan_space by done. by apply Hs. Qed.

Lemma lexes_then_space v w s ts : lexes v s ts -> lexes w (s +:+ " ") ts.
Proof.
  intros Hs. rewrite <- (app_nil_r ts). eapply lexes_app; [done|by apply lexes_spaces|].
  intros _. by apply breaks_cons.
Qed.

Lemma lexes_keyword_space w s ty :
  s <> EmptyString -> all_chars is_string s = true -> word_token s = tok ty ->
  lexes w (s +:+ " ") [tok ty].
Proof. intros. by eapply lexes_then_space, lexes_keyword. Qed.

(** Scan a text that is written as a concatenation, with its tokens written the
    same way; pieces with other lexing lemmas are left to [tac]. *)
Ltac lex_word :=
  first [apply lexes_plain; assumption | apply lexes_keyword; [discriminate|reflexivity|reflexivity]].
Ltac lex_sep :=
  first [apply lexes_punct; reflexivity | apply lexes_arrow | apply lexes_spaces; reflexivity].
Ltac lex_break := first [apply breaks_lit | apply breaks_cons]; reflexivity.
Ltac lex :=
  first [ lex_word | lex_sep | eassumption
        | apply lexes_app_false; [lex_sep|lex]
        | apply lexes_app_true; [first [lex_word|eassumption]|lex_break|lex] ].

(** ** Tables *)

Section RoundTrip.
Context (inet_pton : addr_family -> string -> option (list Z)).
Context (inet_ntop : addr_family -> list Z -> option string).

(** The presentation of an IPv4 address in dotted decimal notation. *)
Definition dotted (s : string) : Prop :=
  exists a b c d, s = a +:+ "." +:+ b +:+ "." +:+ c +:+ "." +:+ d
    /\ Forall (fun x => x <> EmptyString /\ all_chars isdigit x = true) [a; b; c; d].

(** [inet_ntop] writes an IPv4 address in dotted decimal, and [inet_pton] reads
    back what it writes. *)
Hypothesis ntop_dotted : forall w, octets 4 w -> exists s,
  inet_ntop AF_INET w = Some s /\ dotted s /\ inet_pton AF_INET s = Some w.

(** An IPv4 address as the parser stores it. *)
Definition stored_ipv4 (a : addr_storage) : Prop :=
  exists w, octets 4 w /\ a = {| ss_family := AF_INET; port := 0; sin_addr := w; sin6_addr := zeros 16 |}.

Definition octet_tokens (a b c d : string) : list token :=
  [Token TT_STRING a; tok TT_DOT; Token TT_STRING b; tok TT_DOT; Token TT_STRING c; tok TT_DOT;
   Token TT_STRING d].

Lemma no_colon s :
  all_chars (fun c => isdigit c || Ascii.eqb c ".") s = true ->
  existsb (Ascii.eqb ":"%char) (String.list_ascii_of_string s) = false.
Proof.
  induction s as [|c s IH]; [done|]. cbn. intros [Hc Hs]%andb_true_iff. rewrite IH by done.
  rewrite orb_false_r. revert Hc. destruct c as [[][][][][][][][]]; vm_compute; done.
Qed.

Lemma all_chars_app p a b : all_chars p (a +:+ b) = all_chars p a && all_chars p b.
Proof. induction a as [|c a IH]; [done|]. rewrite append_cons. cbn. by rewrite IH, andb_assoc. Qed.

Lemma all_chars_weaken (p q : ascii -> bool) s :
  (forall c, p c = true -> q c = true) -> all_chars p s = true -> all_chars q s = true.
Proof.
  intros Hpq. induction s as [|c s IH]; [done|]. cbn. intros [Hc Hs]%andb_true_iff.
  by rewrite Hpq, IH.
Qed.

Lemma dotted_no_colon s : dotted s ->
  existsb (Ascii.eqb ":"%char) (String.list_ascii_of_string s) = false.
Proof.
  intros (a & b & c & d & -> & Hall). apply no_colon. rewrite !all_chars_app.
  assert (Hw : forall x, all_chars isdigit x = true ->
    all_chars (fun c => isdigit c || Ascii.eqb c ".") x = true).
  { intros x. apply all_chars_weaken. by intros y ->. }
  repeat match goal with H : Forall _ (_ :: _) |- _ => apply Forall_cons in H as [[_ ?] ?] end.
  by rewrite (Hw a), (Hw b), (Hw c), (Hw d).
Qed.

(** A printed address is scanned to tokens that the grammar reads as the
    address. *)
Lemma addr_text_roundtrip a gmp :
  stored_ipv4 a -> get_addr_family gmp = AF_INET ->
  exists ts, lexes true (addr_to_string inet_ntop a) ts /\ g_ip inet_pton gmp ts a.
Proof.
  intros (w & Hw & ->) Hgmp. unfold addr_to_string. cbn [ss_family sin_addr].
  destruct (ntop_dotted w Hw) as (s & -> & Hdot & Hpton). cbn [default].
  pose proof (dotted_no_colon s Hdot) as Hcolon.
  destruct Hdot as (a & b & c & d & Hs & Hall). exists (octet_tokens a b c d).
  repeat match goal with H : Forall _ (_ :: _) |- _ => apply Forall_cons in H as [[? ?] ?] end.
  assert (plain_word a /\ plain_word b /\ plain_word c /\ plain_word d) as (?&?&?&?)
    by auto using digit_word.
  assert (Haddr : addr_of_text inet_pton s
    = {| ss_family := AF_INET; port := 0; sin_addr := w; sin6_addr := zeros 16 |}).
  { unfold addr_of_text, assign_string. rewrite Hcolon. cbn [negb]. by rewrite Hpton. }
  split.
  - rewrite Hs. change (octet_tokens a b c d) with ([Token TT_STRING a] ++ [tok TT_DOT] ++ [Token TT_STRING b]
      ++ [tok TT_DOT] ++ [Token TT_STRING c] ++ [tok TT_DOT] ++ [Token TT_STRING d]).
    lex.
  - rewrite <- Haddr. apply g_address; [done| |by rewrite Haddr|by rewrite Haddr].
    cbn. rewrite append_nil_r. by rewrite Hs.
Qed.

Definition stored_match (m : addr_match) : Prop :=
  match m with
  | single_addr a => stored_ipv4 a
  | addr_range a b => stored_ipv4 a /\ stored_ipv4 b
  end.

Lemma match_roundtrip m gmp :
  stored_match m -> get_addr_family gmp = AF_INET ->
  exists ts, lexes true (addr_match_to_string inet_ntop m) ts /\ g_part inet_pton gmp ts m.
Proof.
  intros Hm Hgmp. destruct m as [a|a b]; cbn in Hm |- *.
  - destruct (addr_text_roundtrip a gmp Hm Hgmp) as (ts & Hl & Hg). exists ts. split; [done|].
    by apply g_single.
  - destruct Hm as [Ha Hb].
    destruct (addr_text_roundtrip a gmp Ha Hgmp) as (ta & Hla & Hga).
    destruct (addr_text_roundtrip b gmp Hb Hgmp) as (tb & Hlb & Hgb).
    exists (ta ++ tok TT_RANGE :: tb). split; [|by apply g_range].
    change (ta ++ tok TT_RANGE :: tb) with (ta ++ [] ++ [tok TT_RANGE] ++ [] ++ tb).
    change (" - " +:+ ?x) with (" " +:+ "-" +:+ " " +:+ x). lex.
Qed.

(** A name that is missing or a plain word. *)
Definition plain_name (w : string) : Prop := w = EmptyString \/ plain_word w.

(** Tables whose text can be read back: flat, with stored addresses and plain
    names. *)
Definition plain_rule (b : rule_box) : Prop :=
  match b with
  | rule_addr name group source => plain_name name /\ stored_match group /\ stored_match source
  | _ => False
  end.

Definition plain_table (t : table) : Prop :=
  plain_name (m_name t) /\ Forall plain_rule (m_rule_box_list t).

Lemma plain_name_lexes name :
  plain_name name ->
  exists tn, g_name tn name
    /\ forall w b tb, breaks b -> lexes w b tb -> lexes w (name +:+ b) (tn ++ tb).
Proof.
  intros [->|Hn].
  - exists []. split; [apply g_no_name|]. done.
  - exists [Token TT_STRING name]. split; [by apply (g_some_name (Token TT_STRING name))|].
    intros w b tb Hb Hl. apply lexes_app_true; [by apply lexes_plain|done..].
Qed.

(** No newline in what is printed of a rule. *)
Lemma indent_lines_plain s : without newline s -> indent_lines s = s.
Proof.
  induction s as [|c s IH]; [done|]. intros [Hc Hs]%without_cons. cbn [indent_lines].
  destruct s as [|c' s]; [done|]. rewrite IH by done. by rewrite (proj2 (Ascii.eqb_neq _ _) Hc).
Qed.

Lemma word_without_newline s : all_chars is_string s = true -> without newline s.
Proof.
  apply all_chars_weaken. intros c. destruct c as [[][][][][][][][]]; vm_compute; done.
Qed.

Lemma plain_name_newline name : plain_name name -> without newline name.
Proof. intros [->|(_ & Hw & _)]; [done|by apply word_without_newline]. Qed.

Lemma addr_newline a : stored_ipv4 a -> without newline (addr_to_string inet_ntop a).
Proof.
  intros (w & Hw & ->). unfold addr_to_string. cbn [ss_family sin_addr].
  destruct (ntop_dotted w Hw) as (s & -> & (a & b & c & d & -> & Hall) & _). cbn [default id].
  rewrite !without_app.
  assert (Hd : forall x, x <> EmptyString /\ all_chars isdigit x = true -> without newline x).
  { intros x [Hne Hx]. by apply plain_name_newline; right; apply digit_word. }
  repeat match goal with H : Forall _ (_ :: _) |- _ => apply Forall_cons in H as [? ?] end.
  by split_and!; auto.
Qed.

Lemma match_newline m : stored_match m -> without newline (addr_match_to_string inet_ntop m).
Proof.
  destruct m as [a|a b]; cbn [stored_match addr_match_to_string]; [apply addr_newline|]. intros [? ?]. rewrite !without_app.
  by split_and!; [apply addr_newline| |apply addr_newline].
Qed.

Lemma rule_roundtrip b gmp gts :
  plain_rule b -> get_addr_family gmp = AF_INET ->
  exists ts, lexes false (rule_to_string inet_ntop b) (ts ++ [tok TT_RIGHT_BRACKET])
    /\ g_rule inet_pton gts gmp ts b /\ without newline (rule_to_string inet_ntop b).
Proof.
  destruct b as [name group source| |]; [|done..]. intros (Hn & Hg & Hs) Hgmp.
  destruct (plain_name_lexes name Hn) as (tn & Hgn & Hln).
  destruct (match_roundtrip group gmp Hg Hgmp) as (tg & Hlg & Hgg).
  destruct (match_roundtrip source gmp Hs Hgmp) as (tso & Hls & Hgs).
  exists (tn ++ tok TT_LEFT_BRACKET :: tg ++ tok TT_PIPE :: tso). split_and!.
  - cbn [rule_to_string]. rewrite <- app_assoc. apply Hln; [lex_break|]. cbn [app].
    rewrite <- app_assoc. cbn [app].
    change (tok TT_LEFT_BRACKET :: ?x) with ([tok TT_LEFT_BRACKET] ++ x).
    change (tok TT_PIPE :: ?x) with ([] ++ [tok TT_PIPE] ++ [] ++ x).
    change (" | " +:+ ?x) with (" " +:+ "|" +:+ " " +:+ x). lex.
  - by apply g_rule_addr.
  - cbn [rule_to_string]. rewrite !without_app. split_and!; try done;
      auto using plain_name_newline, match_newline.
Qed.

Lemma rules_roundtrip bs gmp gts :
  Forall plain_rule bs -> get_addr_family gmp = AF_INET ->
  exists ts, g_rules inet_pton gts gmp ts bs /\
    lexes false (fold_right (fun b acc => indention (rule_to_string inet_ntop b) +:+ endl +:+ acc)
      EmptyString bs) ts.
Proof.
  intros Hbs Hgmp. induction Hbs as [|b bs Hb _ (ts & Hg & Hl)].
  - exists []. split; [apply g_rules_nil|apply lexes_nil].
  - destruct (rule_roundtrip b gmp gts Hb Hgmp) as (tr & Hlr & Hgr & Hnl).
    exists (tr ++ tok TT_RIGHT_BRACKET :: ts). split; [by apply g_rules_cons|].
    cbn [fold_right]. unfold indention. rewrite indent_lines_plain by done. rewrite !append_assoc.
    change (tr ++ tok TT_RIGHT_BRACKET :: ts) with (tr ++ [tok TT_RIGHT_BRACKET] ++ ts).
    rewrite app_assoc. change ((tr ++ ?x) ++ ts) with ([] ++ (tr ++ x) ++ [] ++ ts).
    apply lexes_app_false; [lex_sep|]. apply lexes_app_false; [done|].
    by apply lexes_app_false; [lex_sep|].
Qed.

Lemma table_roundtrip t gmp gts :
  plain_table t -> get_addr_family gmp = AF_INET ->
  exists ts, scan (table_to_string inet_ntop t) = Ok ts /\ g_table inet_pton gts gmp ts t.
Proof.
  intros [Hn Hbs] Hgmp. destruct t as [name bs]. cbn in Hn, Hbs.
  destruct (rules_roundtrip bs gmp gts Hbs Hgmp) as (trs & Hg & Hl).
  destruct (plain_name_lexes name Hn) as (tn & Hgn & Hln).
  exists (tok TT_TABLE :: tn ++ tok TT_LEFT_BRACE :: trs ++ [tok TT_RIGHT_BRACE]).
  split; [|by apply g_table_def]. apply (lexes_scan false). unfold table_to_string, table_text.
  cbn [m_name m_rule_box_list].
  change ("table " +:+ ?x) with ("table" +:+ " " +:+ x).
  change (tok TT_TABLE :: ?x) with ([tok TT_TABLE] ++ [] ++ x).
  apply lexes_app_true; [lex_word|lex_break|]. apply lexes_app_false; [lex_sep|].
  apply Hln; [lex_break|].
  change (" {" +:+ ?x) with (" " +:+ "{" +:+ x).
  change (tok TT_LEFT_BRACE :: ?x) with ([] ++ [tok TT_LEFT_BRACE] ++ [] ++ x).
  do 3 (apply lexes_app_false; [lex_sep|]). apply lexes_app_false; [done|lex_sep].
Qed.

(** C30: What is printed of a table is read back, if it is flat (no references and
    no tables inside), has stored IPv4 addresses and ranges only, and its name and
    those of the interfaces are missing or words that need no quotes and are no
    keywords: scanner and parser turn the output of [table::to_string] into the
    same table. (Names are printed without quotes, so that one like eth0.1 would
    not be read back.) *)
Theorem table_print_parse t gmp gts :
  plain_table t -> get_addr_family gmp = AF_INET ->
  exists p, new_parser (table_to_string inet_ntop t) = Ok p
    /\ parse_table inet_pton gts gmp p = Ok (t, advance []).
Proof.
  intros Ht Hgmp. destruct (table_roundtrip t gmp gts Ht Hgmp) as (ts & Hs & Hg).
  exists (advance ts). unfold new_parser. rewrite Hs. split; [done|].
  apply parse_table_iff; [|done]. rewrite scan_at in Hs. by apply fill_token_vec_shape in Hs.
Qed.
End RoundTrip.

(** ** Instances *)

Definition name_tokens (names : list string) : list token := map (Token TT_STRING) names.

Lemma names_lexes names :
  Forall plain_word names -> lexes false (names_text (map new_interface names)) (name_tokens names).
Proof.
  induction 1 as [|w ws Hw _ IH]; [apply lexes_nil|]. cbn [names_text map fold_right].
  change (name_tokens (w :: ws)) with ([Token TT_STRING w] ++ [] ++ name_tokens ws).
  apply lexes_app_true; [by apply lexes_plain|lex_break|]. apply lexes_app_false; [lex_sep|done].
Qed.

Lemma if_names_read names rest :
  is_tt (head_type rest) TT_STRING = false ->
  parse_if_names (advance (name_tokens names ++ rest)) = Ok (names, advance rest).
Proof.
  intros Hrest. unfold parse_if_names. f_equal. induction names as [|w ws IH].
  - cbn [name_tokens map app]. unfold head_type in Hrest.
    destruct rest as [|t [|t' rest]]; cbn in *; [done|by rewrite Hrest..].
  - cbn [name_tokens map app advance m_current_token m_scanner].
    destruct (map (Token TT_STRING) ws ++ rest) as [|t' ts] eqn:He.
    + cbn. destruct ws; [|done]. cbn in He. by subst rest.
    + cbn. fold (name_tokens ws) in He. rewrite He in IH. cbn in IH. by rewrite IH.
Qed.

(** An instance as [parse_instance_definition] creates it. *)
Definition plain_instance (name : string) (upstreams downstreams : list string)
    : instance_definition :=
  new_instance_definition name (map new_interface upstreams) (map new_interface downstreams) 0 false.

Definition instance_tokens (name : string) (upstreams downstreams : list string) : list token :=
  tok TT_PINSTANCE :: Token TT_STRING name :: tok TT_DOUBLE_DOT
  :: name_tokens upstreams ++ tok TT_ARROW :: name_tokens downstreams.

Lemma instance_scan name us ds :
  plain_word name -> Forall plain_word us -> Forall plain_word ds ->
  scan (to_string_instance (plain_instance name us ds)) = Ok (instance_tokens name us ds).
Proof.
  intros Hn Hu Hd. apply (lexes_scan false). unfold to_string_instance. cbn [plain_instance
    new_instance_definition id_instance_name id_upstreams id_downstreams].
  change ("pinstance " +:+ ?x) with ("pinstance" +:+ " " +:+ x).
  change (": " +:+ ?x) with (":" +:+ " " +:+ x).
  change ("==> " +:+ ?x) with ("==>" +:+ " " +:+ x).
  change (instance_tokens name us ds) with ([tok TT_PINSTANCE] ++ [] ++ [Token TT_STRING name]
    ++ [tok TT_DOUBLE_DOT] ++ [] ++ name_tokens us ++ [tok TT_ARROW] ++ [] ++ name_tokens ds).
  apply lexes_app_true; [lex_word|lex_break|]. apply lexes_app_false; [lex_sep|].
  apply lexes_app_true; [by apply lexes_plain|lex_break|].
  do 2 (apply lexes_app_false; [lex_sep|]). apply lexes_app_false; [by apply names_lexes|].
  do 2 (apply lexes_app_false; [lex_sep|]). by apply names_lexes.
Qed.

(** What is printed of an instance is read back: for plain names the output
    of [to_string_instance] defines the same instance again. *)
Theorem instance_print_parse name us ds ids :
  plain_word name -> Forall plain_word us -> Forall plain_word ds -> ds <> [] ->
  inst_def_set_find name ids = None ->
  exists p, new_parser (to_string_instance (plain_instance name us ds)) = Ok p
    /\ parse_instance_definition ids p
       = Ok (sl_insert (plain_instance name us ds) ids, advance []).
Proof.
  intros Hn Hu Hd Hne Hnew. exists (advance (instance_tokens name us ds)).
  unfold new_parser. rewrite instance_scan by done. split; [done|].
  unfold parse_instance_definition.
  eapply bind_runs; [reflexivity|]. rewrite bool_decide_eq_true_2 by done.
  do 2 (eapply bind_runs; [reflexivity|]). cbn [is_tt bool_decide decide_rel].
  change (is_tt _ TT_STRING) with true. cbv iota.
  do 2 (eapply bind_runs; [reflexivity|]). cbn [advance m_scanner m_current_token get_string].
  eapply bind_runs; [reflexivity|]. cbv beta iota. eapply bind_runs; [reflexivity|].
  change (is_tt _ TT_DOUBLE_DOT) with true. cbv iota. eapply bind_runs; [reflexivity|].
  eapply bind_runs; [by apply if_names_read|]. eapply bind_runs; [reflexivity|].
  change (is_tt _ TT_ARROW) with true. cbv iota. eapply bind_runs; [reflexivity|].
  cbn [advance m_scanner]. rewrite <- (app_nil_r (name_tokens ds)).
  eapply bind_runs; [by apply if_names_read|]. eapply bind_runs; [reflexivity|].
  change (is_tt _ TT_NIL) with true.
  rewrite (proj2 (Nat.ltb_lt _ _)) by (destruct ds; [done|cbn; lia]). cbn [andb].
  unfold inst_def_set_insert, inst_def_set_find in *. cbn [new_instance_definition id_instance_name
    get_string m_current_token m_scanner advance instance_tokens].
  by rewrite Hnew.
Qed.

(** ** Settings *)

Definition it_text (it : rb_interface_type) : token_type :=
  match it with IT_UPSTREAM => TT_UPSTREAM | IT_DOWNSTREAM => TT_DOWNSTREAM end.

Definition if_name_token (name : string) : token :=
  if String.eqb name "*" then tok TT_STAR else Token TT_STRING name.

(** The rule matching of a setting with its timeout, which only [mutex] has. *)
Definition matching_tokens (rmt : rb_rule_matching_type) (timeout : Z) : list token :=
  match rmt with
  | RMT_ALL => [tok TT_ALL]
  | RMT_FIRST => [tok TT_FIRST]
  | _ => [tok TT_MUTEX; Token TT_STRING (print_Z timeout)]
  end.

Definition plain_matching (rmt : rb_rule_matching_type) (timeout : Z) : Prop :=
  match rmt with
  | RMT_ALL | RMT_FIRST => timeout = 0%Z
  | RMT_MUTEX => (0 <= timeout < 2 ^ 31)%Z
  | RMT_UNDEFINED => False
  end.

Definition setting_tokens (name : string) (it : rb_interface_type) (ifn : string) (out : bool)
    (rmt : rb_rule_matching_type) (timeout : Z) : list token :=
  tok TT_PINSTANCE :: Token TT_STRING name :: tok (it_text it) :: if_name_token ifn
  :: tok (if out then TT_OUT else TT_IN) :: tok TT_RULE_MATCHING :: matching_tokens rmt timeout.

Definition direction (out : bool) : rb_interface_direction := if out then ID_OUT else ID_IN.

Lemma matching_scan rmt timeout :
  plain_matching rmt timeout ->
  lexes true (match rmt with
              | RMT_ALL => "all " | RMT_FIRST => "first "
              | RMT_MUTEX => "mutex " +:+ print_Z timeout | RMT_UNDEFINED => "???"
              end) (matching_tokens rmt timeout).
Proof.
  intros Hp. destruct rmt; cbn in Hp; [| | |done].
  - by apply (lexes_keyword_space _ "all").
  - by apply (lexes_keyword_space _ "first").
  - change ("mutex " +:+ ?x) with (("mutex" +:+ " ") +:+ x).
    change (matching_tokens RMT_MUTEX timeout)
      with ([tok TT_MUTEX] ++ [Token TT_STRING (print_Z timeout)]).
    apply lexes_app_false; [by apply lexes_keyword_space|]. apply lexes_plain, print_Z_word. lia.
Qed.

Lemma setting_scan inet_ntop name it ifn out rmt timeout :
  plain_word name -> ifn = "*" \/ plain_word ifn -> plain_matching rmt timeout ->
  scan (rule_binding_to_string inet_ntop
          (matching_binding name it ifn (direction out) rmt timeout))
  = Ok (setting_tokens name it ifn out rmt timeout).
Proof.
  intros Hn Hi Hp. apply (lexes_scan true). unfold rule_binding_to_string, to_string_rule_matching.
  cbn [matching_binding m_instance_name m_interface_type rb_if_name m_filter_direction
    m_rule_binding_type m_rule_matching_type m_timeout].
  change ("pinstance " +:+ ?x) with (("pinstance" +:+ " ") +:+ x).
  change (setting_tokens name it ifn out rmt timeout) with ([tok TT_PINSTANCE]
    ++ [Token TT_STRING name] ++ [] ++ [tok (it_text it)] ++ [if_name_token ifn] ++ []
    ++ [tok (if out then TT_OUT else TT_IN)] ++ [tok TT_RULE_MATCHING] ++ matching_tokens rmt timeout).
  apply lexes_app_false; [by apply lexes_keyword_space|].
  apply lexes_app_true; [by apply lexes_plain|lex_break|]. apply lexes_app_false; [lex_sep|].
  apply lexes_app_false; [by destruct it; [apply (lexes_keyword_space _ "upstream")|
    apply (lexes_keyword_space _ "downstream")]|].
  apply lexes_app_true; [|lex_break|].
  { destruct Hi as [->|Hi]; [by apply lexes_punct|]. unfold if_name_token.
    destruct (String.eqb_spec ifn "*") as [->|]; [by apply lexes_punct|by apply lexes_plain]. }
  apply lexes_app_false; [lex_sep|].
  apply lexes_app_false; [by destruct out; [apply (lexes_keyword_space _ "out")|
    apply (lexes_keyword_space _ "in")]|].
  apply lexes_app_false; [by apply (lexes_keyword_space _ "rulematching")|]. by apply matching_scan.
Qed.

(** What is printed of a global setting is read back: the output of
    [rule_binding::to_string] for a rule matching with plain names adds the same
    setting to its instance again. *)
Theorem setting_print_parse inet_pton inet_ntop gts gmp name it ifn out rmt timeout ids :
  plain_word name -> ifn = "*" \/ plain_word ifn -> plain_matching rmt timeout ->
  is_Some (inst_def_set_find name ids) ->
  let rb := matching_binding name it ifn (direction out) rmt timeout in
  exists p, new_parser (rule_binding_to_string inet_ntop rb) = Ok p
    /\ parse_interface_rule_binding inet_pton gts gmp ids p
       = Ok (update_instance name (push_global_setting rb) ids, advance []).
Proof.
  intros Hn Hi Hp [id Hid] rb. exists (advance (setting_tokens name it ifn out rmt timeout)).
  unfold new_parser, rb. rewrite (setting_scan inet_ntop) by done. split; [done|].
  unfold parse_interface_rule_binding, setting_tokens.
  assert (Hrmt : rmt = RMT_MUTEX -> stoi (print_Z timeout) = Some timeout).
  { intros ->. by apply stoi_print_Z. }
  unfold if_name_token.
  destruct it, out, rmt, (String.eqb_spec ifn "*") as [->|_]; cbn in Hp; try done; try subst timeout.
  all: eapply bind_runs; [reflexivity|]; rewrite bool_decide_eq_true_2 by done;
    do 3 (eapply bind_runs; [reflexivity|]);
    cbn [advance m_current_token m_scanner get_string]; rewrite Hid;
    do 11 (eapply bind_runs; [reflexivity|]);
    cbn [advance m_current_token m_scanner get_type tok];
    unfold parse_interface_rule_match_binding;
    (eapply bind_runs; [reflexivity|]); change (is_tt _ TT_RULE_MATCHING) with true; cbv iota;
    (eapply bind_runs; [first [reflexivity
       |unfold mbind, SM_bind; cbn -[stoi print_Z];
        change (is_tt TT_STRING TT_STRING) with true; cbn -[stoi print_Z];
        rewrite Hrmt by done; reflexivity]|]);
    do 2 (eapply bind_runs; [reflexivity|]); change (is_tt _ TT_NIL) with true; cbv iota;
    by rewrite Hid.
Qed.

(** ** Instances of the theorems

    Dotted decimal notation as concrete functions. *)

Definition ex_ntop (f : addr_family) (w : list Z) : option string :=
  match f, w with
  | AF_INET, [a; b; c; d] =>
    Some (print_Z a +:+ "." +:+ print_Z b +:+ "." +:+ print_Z c +:+ "." +:+ print_Z d)
  | _, _ => None
  end.

Definition ex_pton (f : addr_family) (s : string) : option (list Z) :=
  match f, getlines "." s with
  | AF_INET, [a; b; c; d] => mapM stoi [a; b; c; d]
  | _, _ => None
  end.

Lemma getlines_item d a s : without d a -> getlines d (a +:+ String d s) = a :: getlines d s.
Proof.
  induction a as [|c a IH]; intros Ha.
  - rewrite append_nil_l. cbn [getlines]. by rewrite Ascii.eqb_refl.
  - apply without_cons in Ha as [Hc Ha]. rewrite append_cons. cbn [getlines].
    by rewrite (proj2 (Ascii.eqb_neq _ _) Hc), IH.
Qed.

Lemma getlines_last d a : a <> EmptyString -> without d a -> getlines d a = [a].
Proof.
  induction a as [|c a IH]; intros Hne Ha; [done|]. apply without_cons in Ha as [Hc Ha]. cbn [getlines].
  rewrite (proj2 (Ascii.eqb_neq _ _) Hc). destruct a as [|c' a]; [done|]. by rewrite IH.
Qed.

Lemma ex_ntop_dotted w :
  octets 4 w -> exists s, ex_ntop AF_INET w = Some s /\ dotted s /\ ex_pton AF_INET s = Some w.
Proof.
  intros [Hlen Hoct]. destruct w as [|a [|b [|c [|d [|]]]]]; try done.
  unfold is_octet in Hoct.
  repeat match goal with H : Forall _ (_ :: _) |- _ => apply Forall_cons in H as [? ?] end.
  assert (Hd : forall n, (0 <= n < 256)%Z ->
    (print_Z n <> EmptyString /\ all_chars isdigit (print_Z n) = true)
    /\ without "." (print_Z n) /\ stoi (print_Z n) = Some n).
  { intros n Hn. assert (Hp : print_Z n <> EmptyString /\ all_chars isdigit (print_Z n) = true).
    { unfold print_Z. rewrite (proj2 (Z.ltb_ge _ _)) by lia. apply print_digits_digits; [lia|done]. }
    split_and!; [apply Hp..| |apply stoi_print_Z; lia].
    destruct Hp as [_ Hp]. revert Hp. apply all_chars_weaken.
    intros x. destruct x as [[][][][][][][][]]; vm_compute; done. }
  pose proof (Hd a) as (?&?&?); [done|]. pose proof (Hd b) as (?&?&?); [done|].
  pose proof (Hd c) as (?&?&?); [done|]. pose proof (Hd d) as (Hd4&?&?); [done|].
  eexists. split_and!; [reflexivity| |].
  - exists (print_Z a), (print_Z b), (print_Z c), (print_Z d). split; [done|].
    repeat (apply Forall_cons_2; [done|]); apply Forall_nil_2.
  - unfold ex_pton. rewrite !append_cons, !append_nil_l, !getlines_item by done. rewrite getlines_last by (done || apply Hd4).
    cbn [mapM]. repeat match goal with H : stoi _ = Some _ |- _ => rewrite H; clear H end. done.
Qed.

Definition ex_table : table :=
  {| m_name := "local"; m_rule_box_list :=
     [rule_addr "eth0" (single_addr (of_family AF_INET))
        (addr_range (ip4 192 168 5 0) (ip4 192 168 5 255))] |}.

Lemma plain_word_b w :
  bool_decide (w <> EmptyString) && all_chars is_string w && bool_decide (word_token w = Token TT_STRING w)
  = true -> plain_word w.
Proof.
  intros [[H1 H2]%andb_true_iff H3]%andb_true_iff.
  split_and!; [by apply bool_decide_eq_true in H1|done|by apply bool_decide_eq_true in H3].
Qed.

Lemma stored_ip4 w : octets 4 w -> stored_ipv4 (assign_in_addr (of_family AF_INET) w).
Proof. intros Hw. by exists w. Qed.

Lemma ex_table_plain : plain_table ex_table.
Proof.
  assert (Ho : forall a b c d, (0 <= a < 256 -> 0 <= b < 256 -> 0 <= c < 256 -> 0 <= d < 256 ->
    octets 4 [a; b; c; d])%Z) by
    (intros; split; [done|]; repeat (apply Forall_cons_2; [done|]); apply Forall_nil_2).
  split; [right; by apply plain_word_b|]. constructor; [|done]. split; [right; by apply plain_word_b|].
  split; [exists [0; 0; 0; 0]%Z; split; [apply Ho; lia|done]|].
  split; apply stored_ip4, Ho; lia.
Qed.

Lemma table_print_parse_witness :
  exists p, new_parser (table_to_string ex_ntop ex_table) = Ok p
    /\ parse_table ex_pton ∅ IGMPv3 p = Ok (ex_table, advance []).
Proof.
  apply (table_print_parse ex_pton ex_ntop ex_ntop_dotted ex_table IGMPv3 ∅);
    [apply ex_table_plain|reflexivity].
Defined.

Lemma instance_print_parse_witness :
  exists p, new_parser (to_string_instance (plain_instance "p" ["eth0"] ["eth1"; "eth2"])) = Ok p
    /\ parse_instance_definition [] p
       = Ok ([plain_instance "p" ["eth0"] ["eth1"; "eth2"]], advance []).
Proof.
  apply (instance_print_parse "p" ["eth0"] ["eth1"; "eth2"] []);
    [by apply plain_word_b|repeat constructor; by apply plain_word_b
    |repeat constructor; by apply plain_word_b|done|done].
Defined.

Lemma setting_print_parse_witness :
  exists p, new_parser (rule_binding_to_string ex_ntop
      (matching_binding "p" IT_UPSTREAM "*" ID_IN RMT_MUTEX 10000)) = Ok p
    /\ parse_interface_rule_binding ex_pton ∅ IGMPv3 [plain_instance "p" [] ["eth1"]] p
       = Ok (update_instance "p" (push_global_setting
               (matching_binding "p" IT_UPSTREAM "*" ID_IN RMT_MUTEX 10000))
               [plain_instance "p" [] ["eth1"]], advance []).
Proof.
  apply (setting_print_parse ex_pton ex_ntop ∅ IGMPv3 "p" IT_UPSTREAM "*" false RMT_MUTEX 10000
    [plain_instance "p" [] ["eth1"]]); [by apply plain_word_b|by left|split; reflexivity || done|by eexists].
Defined.
