(* ===== verification/Logging.v ===== *)
(** * Logging (include/hamcast_logging.h, src/hamcast_logging.cpp)

    In the debug build every thread writes the messages that pass the level into a
    file of its own; the traces of scopes are messages at their begin and end. In
    the release build errors go to the standard error and nothing else is logged. *)

From Stdlib Require Import Strings.Ascii.
From S2P Require Import Prelude Printing.

Local Open Scope Z_scope.

Inductive log_level := HC_LOG_TRACE_LVL | HC_LOG_DEBUG_LVL | HC_LOG_INFO_LVL | HC_LOG_WARN_LVL | HC_LOG_ERROR_LVL | HC_LOG_FATAL_LVL.

Definition level_code (l : log_level) : Z :=
  match l with
  | HC_LOG_TRACE_LVL => 0x0100 | HC_LOG_DEBUG_LVL => 0x0200 | HC_LOG_INFO_LVL => 0x0300
  | HC_LOG_WARN_LVL => 0x0400 | HC_LOG_ERROR_LVL => 0x0500 | HC_LOG_FATAL_LVL => 0x0600
  end.

(** ** Lines *)

(** [os.width(n)] with [std::left]. *)
Definition pad (n : nat) (s : string) : string := s +:+ String.string_of_list_ascii (replicate (n - String.length s) " "%char).

Definition level_text (l : log_level) : string :=
  match l with
  | HC_LOG_TRACE_LVL => "TRACE" | HC_LOG_DEBUG_LVL => "DEBUG" | HC_LOG_INFO_LVL => "INFO"
  | HC_LOG_WARN_LVL => "WARN" | HC_LOG_ERROR_LVL => "ERROR" | HC_LOG_FATAL_LVL => "FATAL"
  end.

(** The line of a message at a time in microseconds. *)
Definition log_line (time_stamp : Z) (lvl : log_level) (fun_ what : string) : string :=
  pad 28 (print_Z time_stamp) +:+ pad 7 (level_text lvl) +:+ pad 80 fun_ +:+ what +:+ endl.

(** ** Log functions *)

Inductive log_fun := log_all_fun | log_debug_fun | log_info_fun | log_warn_fun | log_error_fun | log_fatal_fun.

(** The test in the body of a log function. *)
Definition passes (f : log_fun) (lvl : log_level) : bool :=
  let from l := level_code l <=? level_code lvl in
  match f with
  | log_all_fun => true
  | log_debug_fun => from HC_LOG_DEBUG_LVL
  | log_info_fun => from HC_LOG_INFO_LVL
  | log_warn_fun => from HC_LOG_INFO_LVL
  | log_error_fun => from HC_LOG_ERROR_LVL
  | log_fatal_fun => from HC_LOG_FATAL_LVL
  end.

Definition default_log_fun (log_lvl : log_level) : log_fun :=
  match log_lvl with
  | HC_LOG_DEBUG_LVL => log_debug_fun | HC_LOG_INFO_LVL => log_info_fun | HC_LOG_WARN_LVL => log_warn_fun
  | HC_LOG_ERROR_LVL => log_error_fun | HC_LOG_FATAL_LVL => log_fatal_fun | HC_LOG_TRACE_LVL => log_all_fun
  end.

(** ** State *)

(** The log function, the next number of a logger, the loggers of the threads and
    the contents of the files, which are numbered like the loggers. *)
Record logging := {
  m_log_fun : option log_fun;
  m_next_id : Z;
  m_logger : gmap nat Z;
  m_stream : gmap Z (list string)
}.

Definition new_logging : logging := {| m_log_fun := None; m_next_id := 0; m_logger := ∅; m_stream := ∅ |}.

Definition hc_set_log_fun (f : option log_fun) (s : logging) : logging :=
  {| m_log_fun := f; m_next_id := m_next_id s; m_logger := m_logger s; m_stream := m_stream s |}.

Definition hc_set_default_log_fun (log_lvl : log_level) : logging -> logging := hc_set_log_fun (Some (default_log_fun log_lvl)).

Definition hc_logging_enabled (debug_mode : bool) : Z := if debug_mode then 1 else 0.

(** [next_session_id]. *)
Definition next_session_id (s : logging) : Z * logging :=
  (m_next_id s, {| m_log_fun := m_log_fun s; m_next_id := to_uint32 (m_next_id s + 1);
                   m_logger := m_logger s; m_stream := m_stream s |}).

(** The logger of a thread is made with its first message: its file is emptied. *)
Definition thread_logger (thread : nat) (s : logging) : Z * logging :=
  match m_logger s !! thread with
  | Some id => (id, s)
  | None =>
    let '(id, s) := next_session_id s in
    (id, {| m_log_fun := m_log_fun s; m_next_id := m_next_id s;
            m_logger := <[thread := id]> (m_logger s); m_stream := <[id := []]> (m_stream s) |})
  end.

Definition file_name (id : Z) : string := "thread" +:+ print_Z id +:+ ".log".

(** [logger::log]: the line is appended and flushed. *)
Definition logger_log (thread : nat) (time_stamp : Z) (lvl : log_level) (fun_ what : string) (s : logging) : logging :=
  let '(id, s) := thread_logger thread s in
  {| m_log_fun := m_log_fun s; m_next_id := m_next_id s; m_logger := m_logger s;
     m_stream := <[id := default [] (m_stream s !! id) ++ [log_line time_stamp lvl fun_ what]]> (m_stream s) |}.

Definition hc_log (thread : nat) (time_stamp : Z) (lvl : log_level) (fun_ msg : string) (s : logging) : logging :=
  match m_log_fun s with
  | Some f => if passes f lvl then logger_log thread time_stamp lvl fun_ msg s else s
  | None => s
  end.

(** ** Macros *)

(** What a piece of code logs: messages, and scopes ([HC_LOG_TRACE] at the begin of
    a function) around what their bodies log. *)
Inductive logged :=
  | HC_LOG (lvl : log_level) (fun_ message : string)
  | HC_LOG_SCOPE (fun_ message : string) (body : list logged).

(** The calls of [hc_log], in order; [HC_trace_helper] makes the first and the last
    one of a scope. *)
Definition enter (message : string) : string := if String.eqb message EmptyString then "ENTER" else "ENTER: " +:+ message.

Fixpoint log_calls (p : logged) : list (log_level * string * string) :=
  match p with
  | HC_LOG lvl fun_ message => [(lvl, fun_, message)]
  | HC_LOG_SCOPE fun_ message body =>
    (HC_LOG_TRACE_LVL, fun_, enter message) :: flat_map log_calls body ++ [(HC_LOG_TRACE_LVL, fun_, "LEAVE")]
  end.

(** The lines on the standard error in the release build. *)
Fixpoint error_output (p : logged) : list string :=
  match p with
  | HC_LOG HC_LOG_ERROR_LVL _ message => ["ERROR: " +:+ message]
  | HC_LOG HC_LOG_FATAL_LVL _ message => ["FATAL: " +:+ message]
  | HC_LOG _ _ _ => []
  | HC_LOG_SCOPE _ _ body => flat_map error_output body
  end.

(** ** Levels *)

(** The documentation of [hc_set_default_log_fun]: the log function discards exactly
    the messages below the level. *)
Lemma default_level_filters log_lvl lvl :
  log_lvl <> HC_LOG_WARN_LVL -> passes (default_log_fun log_lvl) lvl = (level_code log_lvl <=? level_code lvl).
Proof. by destruct log_lvl, lvl. Qed.

(** At the level of warnings the log is not quiet about informations. *)
Lemma warn_level_logs_info : passes (default_log_fun HC_LOG_WARN_LVL) HC_LOG_INFO_LVL = true.
Proof. done. Qed.

(** ** Files *)

(** The calls of several threads in the order in which they are made. *)
Record log_call := { lc_thread : nat; lc_time : Z; lc_level : log_level; lc_fun : string; lc_msg : string }.
Implicit Types (c : log_call) (s : logging) (t : nat).

Definition do_call s c : logging := hc_log (lc_thread c) (lc_time c) (lc_level c) (lc_fun c) (lc_msg c) s.
Definition call_line c : string := log_line (lc_time c) (lc_level c) (lc_fun c) (lc_msg c).

(** The calls of a thread that pass the log function. *)
Definition thread_calls (f : log_fun) t (l : list log_call) : list log_call :=
  filter (fun c => lc_thread c = t /\ passes f (lc_level c) = true) l.

(** What the file of a thread contains. *)
Definition thread_file s t : list string := default [] (id ← m_logger s !! t; m_stream s !! id).

(** Numbers are given in order and no two threads share one. *)
Definition logging_wf s : Prop :=
  m_next_id s = Z.of_nat (size (m_logger s))
  /\ (forall t id, m_logger s !! t = Some id -> 0 <= id < m_next_id s)
  /\ (forall t t' id, m_logger s !! t = Some id -> m_logger s !! t' = Some id -> t = t').

Lemma thread_logger_wf t s :
  logging_wf s -> Z.of_nat (size (m_logger s)) < 2 ^ 32 - 1 ->
  logging_wf (thread_logger t s).2 /\ m_logger (thread_logger t s).2 !! t = Some (thread_logger t s).1
  /\ m_log_fun (thread_logger t s).2 = m_log_fun s
  /\ (forall t', thread_file (thread_logger t s).2 t' = thread_file s t')
  /\ dom (m_logger (thread_logger t s).2) = {[t]} ∪ dom (m_logger s).
Proof.
  intros (Hn & Hr & Hi) Hsz. unfold thread_logger. destruct (m_logger s !! t) as [id|] eqn:E.
  { cbn. apply elem_of_dom_2 in E as Hd. split_and!; [done..|set_solver]. }
  cbn. split_and!.
  - split_and!; cbn.
    + rewrite map_size_insert_None, Hn, to_uint32_small by (done || lia). lia.
    + rewrite to_uint32_small by lia. intros t' id. destruct (decide (t' = t)) as [->|].
      * rewrite lookup_insert_eq. intros [= <-]. lia.
      * rewrite lookup_insert_ne by done. intros H%Hr. lia.
    + intros t1 t2 id. destruct (decide (t1 = t)) as [->|], (decide (t2 = t)) as [->|];
        rewrite ?lookup_insert_eq, ?lookup_insert_ne by done; try done.
      * intros [= <-] H%Hr. lia.
      * intros H%Hr [= <-]. lia.
      * apply Hi.
  - by rewrite lookup_insert_eq.
  - done.
  - intros t'. unfold thread_file. cbn. destruct (decide (t' = t)) as [->|].
    + rewrite lookup_insert_eq, E. cbn. by rewrite lookup_insert_eq.
    + rewrite lookup_insert_ne by done. destruct (m_logger s !! t') as [id'|] eqn:E'; cbn; [|done].
      apply Hr in E'. rewrite lookup_insert_ne by lia. done.
  - by rewrite dom_insert_L.
Qed.

Lemma logger_log_file t ts lvl fn msg s t' :
  logging_wf s -> Z.of_nat (size (m_logger s)) < 2 ^ 32 - 1 ->
  thread_file (logger_log t ts lvl fn msg s) t' =
    thread_file s t' ++ (if decide (t = t') then [log_line ts lvl fn msg] else []).
Proof.
  intros Hwf Hsz. pose proof (thread_logger_wf t s Hwf Hsz) as ((_ & Hr & Hi) & Hl & _ & Hf & _).
  rewrite <- Hf. unfold logger_log. destruct (thread_logger t s) as [id s1]. cbn [fst snd] in *.
  unfold thread_file. cbn. destruct (decide (t = t')) as [<-|Hne].
  - rewrite Hl. cbn. by rewrite lookup_insert_eq.
  - rewrite app_nil_r. destruct (m_logger s1 !! t') as [id'|] eqn:E; cbn; [|done].
    rewrite lookup_insert_ne; [done|]. intros ->. by specialize (Hi _ _ _ Hl E).
Qed.

Lemma logger_log_wf t ts lvl fn msg s :
  logging_wf s -> Z.of_nat (size (m_logger s)) < 2 ^ 32 - 1 ->
  logging_wf (logger_log t ts lvl fn msg s) /\ m_log_fun (logger_log t ts lvl fn msg s) = m_log_fun s
  /\ dom (m_logger (logger_log t ts lvl fn msg s)) = {[t]} ∪ dom (m_logger s).
Proof.
  intros Hwf Hsz. pose proof (thread_logger_wf t s Hwf Hsz) as (Hwf' & _ & Hfun & _ & Hd).
  unfold logger_log. destruct (thread_logger t s) as [id s1]. by cbn in *.
Qed.

(** The threads that have logged something. *)
Definition threads f (l : list log_call) : gset nat :=
  list_to_set (lc_thread <$> filter (fun c => passes f (lc_level c) = true) l).

(** However the messages of the threads are interleaved, the file of a thread
    contains exactly the messages of that thread that pass the log function, in
    their order: no line is lost and none gets into the file of another thread. The
    numbers of the loggers have 32 bits. *)
Theorem file_holds_thread f l s t :
  logging_wf s -> m_log_fun s = Some f ->
  Z.of_nat (size (dom (m_logger s) ∪ threads f l)) < 2 ^ 32 - 1 ->
  thread_file (fold_left do_call l s) t = thread_file s t ++ map call_line (thread_calls f t l).
Proof.
  revert s. induction l as [|c l IH]; intros s Hwf Hf Hsz; cbn [fold_left]; [by rewrite app_nil_r|].
  unfold do_call at 2, hc_log. rewrite Hf. unfold thread_calls, threads in *. rewrite !filter_cons in *.
  destruct (passes f (lc_level c)) eqn:Hp.
  - rewrite decide_True in Hsz by done. cbn [fmap list_fmap list_to_set] in Hsz.
    assert (Hs : Z.of_nat (size (m_logger s)) < 2 ^ 32 - 1).
    { rewrite <- size_dom. eapply Z.le_lt_trans; [|exact Hsz]. apply inj_le, subseteq_size. set_solver. }
    destruct (logger_log_wf (lc_thread c) (lc_time c) (lc_level c) (lc_fun c) (lc_msg c) s Hwf Hs) as (Hwf' & Hf' & Hd).
    rewrite IH; [|done|by rewrite Hf'|].
    + rewrite logger_log_file by done. rewrite <- app_assoc. f_equal.
      destruct (decide (lc_thread c = t)) as [Ht|Ht]; [by rewrite decide_True by done|by rewrite decide_False by tauto].
    + rewrite Hd. eapply Z.le_lt_trans; [|exact Hsz]. apply inj_le, subseteq_size. set_solver.
  - rewrite !decide_False in * by (intros [_ ?] || intros ?; done). by apply IH.
Qed.

(** ** Scopes *)

(** Reads the trace as a sequence of brackets: what is entered and not left. *)
Fixpoint open_scopes (l : list (log_level * string * string)) (stack : list string) : option (list string) :=
  match l with
  | [] => Some stack
  | (HC_LOG_TRACE_LVL, fun_, msg) :: l =>
    if String.eqb msg "LEAVE" then
      match stack with f :: stack => if String.eqb f fun_ then open_scopes l stack else None | [] => None end
    else open_scopes l (fun_ :: stack)
  | _ :: l => open_scopes l stack
  end.

(** Only scopes log traces. *)
Fixpoint scoped_traces (p : logged) : bool :=
  match p with
  | HC_LOG HC_LOG_TRACE_LVL _ _ => false
  | HC_LOG _ _ _ => true
  | HC_LOG_SCOPE _ _ body => forallb scoped_traces body
  end.

Lemma open_scopes_app l l' stack :
  open_scopes (l ++ l') stack = open_scopes l stack ≫= open_scopes l'.
Proof.
  revert stack. induction l as [|[[lvl f] msg] l IH]; intros stack; [done|].
  destruct lvl; cbn; try apply IH. destruct (String.eqb msg "LEAVE"); [|apply IH].
  destruct stack as [|f' stack]; [done|]. destruct (String.eqb f' f); [apply IH|done].
Qed.

Lemma enter_not_leave msg : String.eqb (enter msg) "LEAVE" = false.
Proof. unfold enter. by destruct (String.eqb msg EmptyString). Qed.

(** The trace is well bracketed: every scope that is entered is left, inner scopes
    before outer ones. *)
Theorem scopes_nest p stack :
  scoped_traces p = true -> open_scopes (log_calls p) stack = Some stack.
Proof.
  revert p stack. fix IH 1. intros [lvl f msg|f msg body] stack; [by destruct lvl|].
  cbn [scoped_traces log_calls open_scopes]. intros Hb. rewrite enter_not_leave, open_scopes_app.
  assert (Hbody : forall stack, open_scopes (flat_map log_calls body) stack = Some stack).
  { clear stack. induction body as [|p body IHbody]; intros stack; [done|].
    cbn in Hb |- *. apply andb_prop in Hb as [Hp Hb]. rewrite open_scopes_app, (IH p stack Hp). cbn. by apply IHbody. }
  rewrite Hbody. cbn. by rewrite String.eqb_refl.
Qed.

(** ** Examples *)

Definition ex_calls : list log_call :=
  [{| lc_thread := 7; lc_time := 1; lc_level := HC_LOG_ERROR_LVL; lc_fun := "f"; lc_msg := "a" |};
   {| lc_thread := 4; lc_time := 2; lc_level := HC_LOG_DEBUG_LVL; lc_fun := "g"; lc_msg := "b" |};
   {| lc_thread := 4; lc_time := 3; lc_level := HC_LOG_FATAL_LVL; lc_fun := "g"; lc_msg := "c" |};
   {| lc_thread := 7; lc_time := 4; lc_level := HC_LOG_INFO_LVL; lc_fun := "f"; lc_msg := "d" |}].

Lemma new_logging_wf log_lvl : logging_wf (hc_set_default_log_fun log_lvl new_logging).
Proof. by split_and!. Qed.

Lemma file_holds_thread_witness :
  thread_file (fold_left do_call ex_calls (hc_set_default_log_fun HC_LOG_INFO_LVL new_logging)) 7
  = [] ++ map call_line (thread_calls log_info_fun 7 ex_calls).
Proof.
  apply (file_holds_thread log_info_fun ex_calls (hc_set_default_log_fun HC_LOG_INFO_LVL new_logging) 7);
    [apply new_logging_wf|reflexivity|by vm_compute].
Defined.

Lemma file_holds_thread_files :
  let s := fold_left do_call ex_calls (hc_set_default_log_fun HC_LOG_INFO_LVL new_logging) in
  (length (thread_file s 7), length (thread_file s 4), file_name <$> m_logger s !! 4%nat) = (2%nat, 1%nat, Some "thread1.log").
Proof. by vm_compute. Qed.
