(* ===== verification/TesterPackets.v ===== *)
(** * Packets of the tester
      (packet_manager, the text of send_data and its reading in receive_data of
      src/tester/tester.cpp)

    A packet carries its number, the time it was sent and a message. The
    receiver recognises duplicates by a set of the packet numbers, which is kept
    below a size by forgetting the smallest number. *)

From Stdlib Require Import Strings.Ascii.
From S2P Require Import Prelude Result Scanner Def Parser Configuration Printing.

Local Open Scope Z_scope.

(** ** [packet_manager] *)

(** [m_data] is a [std::set] of numbers. *)
Record packet_manager := { m_max_count : nat; m_data : list Z }.

Definition new_packet_manager (max_count : nat) : packet_manager :=
  {| m_max_count := max_count; m_data := [] |}.

Definition is_packet_new (packet_number : Z) (pm : packet_manager) : bool * packet_manager :=
  match sl_find packet_number (m_data pm) with
  | Some _ => (false, pm)
  | None =>
    let data := sl_insert packet_number (m_data pm) in
    let data := if (m_max_count pm <? length data)%nat then tail data else data in
    (true, {| m_max_count := m_max_count pm; m_data := data |})
  end.

(** *** The window of the greatest numbers *)

Section Window.
Implicit Types (l r : list Z) (x y : Z).

(** The distinct numbers in order. *)
Definition seen_numbers (numbers : list Z) : list Z := fold_left (fun l n => sl_insert n l) numbers [].

(** The [k] greatest of them. *)
Definition greatest (k : nat) l : list Z := drop (length l - k) l.

Lemma place_cons x y l : sl_place x (y :: l) = if x <? y then x :: y :: l else y :: sl_place x l.
Proof. done. Qed.

Lemma place_behind x l r : Forall (fun y => y < x) l -> sl_place x (l ++ r) = l ++ sl_place x r.
Proof.
  intros Hl. induction Hl as [|y l Hy Hl IH]; [done|].
  rewrite <- app_comm_cons, place_cons, (proj2 (Z.ltb_ge x y)) by lia. by rewrite IH.
Qed.

Lemma place_within x l r : Exists (fun y => x < y) l -> sl_place x (l ++ r) = sl_place x l ++ r.
Proof.
  induction l as [|y l IH]; intros Hl; [by inversion Hl|].
  rewrite <- app_comm_cons, !place_cons. destruct (Z.ltb_spec x y); [done|]. simpl. rewrite IH; [done|]. inversion Hl; [lia|done].
Qed.

Lemma place_before x l : Forall (fun y => x < y) l -> sl_place x l = x :: l.
Proof. intros Hl. destruct Hl as [|y l Hy Hl]; [done|]. by rewrite place_cons, (proj2 (Z.ltb_lt x y)) by lia. Qed.

Lemma place_length x l : length (sl_place x l) = S (length l).
Proof. induction l as [|y l IH]; [done|]. rewrite place_cons. case_if; simpl; [done|by rewrite IH]. Qed.

Lemma ordered_app l r : sl_ordered (l ++ r) -> forall x y, x ∈ l -> y ∈ r -> x < y.
Proof.
  induction l as [|z l IH]; intros Ho x y Hx Hy; [set_solver|].
  inversion Ho as [|? ? Ho' Hz]; subst. apply elem_of_cons in Hx as [->|Hx]; [|by apply IH].
  rewrite Forall_forall in Hz. apply Z.ltb_lt, Hz. apply elem_of_app. by right.
Qed.

Lemma find_In x l : sl_find x l = None <-> x ∉ l.
Proof.
  induction l as [|y l IH]; simpl; [split; [intros _; apply not_elem_of_nil|done]|].
  rewrite not_elem_of_cons, <- IH. unfold key, Z_Keyed. case_bool_decide; naive_solver.
Qed.

Lemma insert_known x l : x ∈ l -> sl_insert x l = l.
Proof. intros Hx. unfold sl_insert. destruct (sl_find (key x) l) eqn:E; [done|]. by apply find_In in E. Qed.

Lemma insert_fresh x l : x ∉ l -> sl_insert x l = sl_place x l.
Proof. intros Hx. unfold sl_insert. change (key x) with x. by rewrite (proj2 (find_In x l) Hx). Qed.

Lemma tail_drop l n : tail (drop n l) = drop (S n) l.
Proof. revert n. induction l as [|x l IH]; intros [|n]; try done. simpl. apply IH. Qed.

(** Inserting a number moves the window. *)
Lemma greatest_insert k l x :
  sl_ordered l -> x ∉ greatest k l ->
  (if (k <? length (sl_insert x (greatest k l)))%nat then tail (sl_insert x (greatest k l))
   else sl_insert x (greatest k l))
  = greatest k (sl_insert x l).
Proof.
  intros Ho Hx. rewrite (insert_fresh x (greatest k l)), place_length by done. unfold greatest in *.
  set (pre := take (length l - k) l). set (d := drop (length l - k) l) in *.
  assert (Hl : l = pre ++ d) by (symmetry; apply take_drop).
  assert (Hpre : length pre = (length l - k)%nat) by (unfold pre; rewrite length_take; lia).
  assert (Hd : length d = (length l - (length l - k))%nat) by (unfold d; by rewrite length_drop).
  destruct (decide (x ∈ l)) as [Hin|Hin].
  - rewrite (insert_known x l) by done. fold d. assert (Hxp : x ∈ pre) by (rewrite Hl in Hin; set_solver).
    destruct pre as [|z pre'] eqn:Hp; [set_solver|]. simpl in Hpre.
    rewrite (proj2 (Nat.ltb_lt k _)) by lia. rewrite place_before; [done|].
    apply Forall_forall. intros y Hy. rewrite Hl in Ho. by eapply ordered_app.
  - rewrite (insert_fresh x l), place_length by done. destruct (Nat.ltb_spec k (S (length d))) as [Hk|Hk].
    + assert (Hdrop : (S (length l) - k)%nat = S (length pre)) by lia. rewrite Hdrop.
      rewrite Hl at 1. destruct (decide (Forall (fun y => y < x) pre)) as [Hall|Hex].
      * rewrite place_behind by done. rewrite <- tail_drop, drop_app_length. done.
      * assert (Hwithin : Exists (fun y => x < y) pre).
        { apply not_Forall_Exists in Hex; [|intros y; apply _]. rewrite Exists_exists in *.
          destruct Hex as (y & Hy & Hn). exists y. split; [done|].
          assert (x <> y) by (intros ->; apply Hin; rewrite Hl; set_solver). simpl in Hn. lia. }
        rewrite place_within by done. rewrite place_before.
        { simpl. symmetry. assert (Hlen : length (sl_place x pre) = S (length pre)) by apply place_length.
          by rewrite <- Hlen, drop_app_length. }
        apply Forall_forall. intros y Hy. rewrite Exists_exists in Hwithin. destruct Hwithin as (z & Hz & Hxz).
        rewrite Hl in Ho. pose proof (ordered_app _ _ Ho z y Hz Hy). lia.
    + assert (Hz : (length l - k = 0)%nat) by lia. assert (pre = []) as Hp by (apply length_zero_iff_nil; lia).
      rewrite Hp in Hl. simpl in Hl. rewrite <- Hl. replace (S (length l) - k)%nat with 0%nat; [done|].
      rewrite <- Hl in Hk. lia.
Qed.

Lemma seen_ordered numbers l : sl_ordered l -> sl_ordered (fold_left (fun l n => sl_insert n l) numbers l).
Proof. revert l. induction numbers as [|n ns IH]; intros l Hl; [done|]. simpl. auto with slist. Qed.

(** The manager after the packets of a run. *)
Definition after_packets (max_count : nat) (numbers : list Z) : packet_manager :=
  fold_left (fun pm n => (is_packet_new n pm).2) numbers (new_packet_manager max_count).

Lemma is_packet_new_window k l n :
  sl_ordered l ->
  is_packet_new n {| m_max_count := k; m_data := greatest k l |}
  = (negb (bool_decide (n ∈ greatest k l)), {| m_max_count := k; m_data := greatest k (sl_insert n l) |}).
Proof.
  intros Ho. unfold is_packet_new. cbn [m_data m_max_count].
  destruct (sl_find n (greatest k l)) as [m|] eqn:Hf.
  - assert (Hin : n ∈ greatest k l) by (apply dec_stable; intros Hn; apply find_In in Hn; congruence).
    rewrite bool_decide_eq_true_2 by done. rewrite insert_known; [done|].
    unfold greatest in Hin. rewrite <- (take_drop (length l - k) l). apply elem_of_app. by right.
  - apply find_In in Hf. rewrite bool_decide_eq_false_2 by done. by rewrite greatest_insert.
Qed.

Lemma after_packets_window k numbers :
  after_packets k numbers = {| m_max_count := k; m_data := greatest k (seen_numbers numbers) |}.
Proof.
  unfold after_packets, seen_numbers.
  assert (Hgo : forall l, sl_ordered l ->
    fold_left (fun pm n => (is_packet_new n pm).2) numbers {| m_max_count := k; m_data := greatest k l |}
    = {| m_max_count := k; m_data := greatest k (fold_left (fun l n => sl_insert n l) numbers l) |}).
  { induction numbers as [|n ns IH]; intros l Hl; [done|]. simpl.
    rewrite is_packet_new_window by done. apply IH. auto with slist. }
  rewrite <- Hgo by constructor. unfold new_packet_manager, greatest. by rewrite drop_nil.
Qed.

(** The receiver recognises duplicates in a window: whatever packets came
    before, a packet is taken for a duplicate exactly if its number is one of the
    [max_count] greatest numbers that came. *)
Theorem packet_window max_count numbers n :
  (is_packet_new n (after_packets max_count numbers)).1 = false
  <-> n ∈ greatest max_count (seen_numbers numbers).
Proof.
  rewrite after_packets_window, is_packet_new_window by (apply seen_ordered; constructor). simpl.
  rewrite negb_false_iff. apply bool_decide_eq_true.
Qed.

(** While not more than [max_count] different numbers came, these are all. *)
Lemma seen_In numbers n : n ∈ seen_numbers numbers <-> n ∈ numbers.
Proof.
  unfold seen_numbers. assert (Hgo : forall l, n ∈ fold_left (fun l n => sl_insert n l) numbers l <-> n ∈ l \/ n ∈ numbers).
  { induction numbers as [|m ns IH]; intros l; simpl; [set_solver|]. rewrite IH, elem_of_cons.
    destruct (decide (m ∈ l)) as [Hm|Hm]; [rewrite insert_known by done; naive_solver|].
    rewrite insert_fresh by done. rewrite sl_place_In. naive_solver. }
  rewrite Hgo. set_solver.
Qed.

(** A packet below the window is new every time. *)
Lemma old_duplicates_new numbers n :
  n ∉ greatest 1000 (seen_numbers numbers) -> n ∈ numbers ->
  (is_packet_new n (after_packets 1000 numbers)).1 = true
  /\ (is_packet_new n (after_packets 1000 (numbers ++ [n]))).1 = true.
Proof.
  intros Hn Hin. assert (Hins : seen_numbers (numbers ++ [n]) = seen_numbers numbers).
  { unfold seen_numbers at 1. rewrite fold_left_app. simpl. apply insert_known. by apply seen_In. }
  rewrite !after_packets_window, Hins, !is_packet_new_window by (apply seen_ordered; constructor).
  simpl. by rewrite bool_decide_eq_false_2.
Qed.
End Window.

(** ** The text of a packet *)

Fixpoint spaces (n : nat) : string := match n with O => EmptyString | S n => String " " (spaces n) end.

(** [oss.width(9)] pads the next output on the left. *)
Definition width (n : nat) (s : string) : string := spaces (n - String.length s) +:+ s.

(** The number, the time it is sent and the message. *)
Definition packet_text (packet_number send_time_stamp : Z) (msg : string) : string :=
  width 9 (print_Z packet_number) +:+ " " +:+ print_Z send_time_stamp +:+ " " +:+ msg.

(** ** Reading it: an input stream

    [operator>>] for an integer of 64 bits: white space, a sign and digits. After
    a failure nothing is read any more. *)

Record istream := { is_rest : string; is_fail : bool }.

Fixpoint span_digits (s : string) : string * string :=
  match s with
  | String c s' => if isdigit c then let '(a, b) := span_digits s' in (String c a, b) else (EmptyString, s)
  | EmptyString => (EmptyString, EmptyString)
  end.

(** [old] is the value of the variable before. *)
Definition extract (old : Z) (ist : istream) : Z * istream :=
  if is_fail ist then (old, ist)
  else
    match drop_spaces (is_rest ist) with
    | EmptyString => (old, {| is_rest := EmptyString; is_fail := true |})
    | String c s' as s =>
      let negative := Ascii.eqb c "-" in
      let '(digits, rest) := span_digits (if negative || Ascii.eqb c "+" then s' else s) in
      if String.eqb digits "" then (0, {| is_rest := rest; is_fail := true |})
      else
        let v := digits_value 0 digits in
        let v := if negative then - v else v in
        if v <? - 2 ^ 63 then (- 2 ^ 63, {| is_rest := rest; is_fail := true |})
        else if 2 ^ 63 <=? v then (2 ^ 63 - 1, {| is_rest := rest; is_fail := true |})
        else (v, {| is_rest := rest; is_fail := false |})
    end.

(** [iss >> packet_number >> send_time_stamp] and the rest of the stream. *)
Definition parse_packet (packet_number send_time_stamp : Z) (text : string) : Z * Z * string :=
  let '(n, ist) := extract packet_number {| is_rest := text; is_fail := false |} in
  let '(t, ist) := extract send_time_stamp ist in
  (n, t, is_rest ist).

(** Octets of a text, and the text up to the first zero. *)
Definition octets (s : string) : list Z := code <$> String.list_ascii_of_string s.

Fixpoint c_string (buf : list Z) : string :=
  match buf with
  | [] => EmptyString
  | b :: buf' => if b =? 0 then EmptyString else String (ascii_of_N (Z.to_N (b mod 256))) (c_string buf')
  end.

(** *** What was sent is read *)

Lemma drop_spaces_app n s : drop_spaces (spaces n +:+ s) = drop_spaces s.
Proof. by induction n. Qed.

Lemma span_digits_app s rest :
  all_chars isdigit s = true ->
  match rest with String c _ => isdigit c = false | EmptyString => True end ->
  span_digits (s +:+ rest) = (s, rest).
Proof.
  intros Hs Hr. induction s as [|c s IH]; simpl in *.
  - destruct rest as [|c rest]; [done|]. simpl. by rewrite Hr.
  - apply andb_true_iff in Hs as [-> Hs]. by rewrite IH.
Qed.

Lemma print_Z_digits n : 0 <= n -> print_Z n <> EmptyString /\ all_chars isdigit (print_Z n) = true.
Proof. intros Hn. unfold print_Z. rewrite (proj2 (Z.ltb_ge _ _)) by lia. by apply print_digits_digits. Qed.

Lemma print_Z_value n : 0 <= n < 2 ^ 63 -> digits_value 0 (print_Z n) = n.
Proof.
  intros Hn. unfold print_Z. rewrite (proj2 (Z.ltb_ge _ _)) by lia. rewrite print_digits_value; [done|].
  change (10 ^ Z.of_nat 21) with 1000000000000000000000. lia.
Qed.

(** A printed number is read back, behind white space and in front of anything
    that is not a digit. *)
Lemma extract_print k n rest old :
  0 <= n < 2 ^ 63 -> match rest with String c _ => isdigit c = false | EmptyString => True end ->
  extract old {| is_rest := spaces k +:+ print_Z n +:+ rest; is_fail := false |}
  = (n, {| is_rest := rest; is_fail := false |}).
Proof.
  intros Hn Hr. destruct (print_Z_digits n) as [Hne Hd]; [lia|]. pose proof (print_Z_value n Hn) as Hv.
  unfold extract. cbn [is_fail is_rest]. rewrite drop_spaces_app.
  pose proof (span_digits_app (print_Z n) rest Hd Hr) as Hspan.
  destruct (print_Z n) as [|c s] eqn:Hp; [done|]. cbn [all_chars] in Hd. apply andb_true_iff in Hd as [Hc _].
  destruct (digit_no_space c Hc) as (H1 & H2 & H3).
  change (String c s +:+ rest) with (String c (s +:+ rest)) in *. cbn [drop_spaces].
  rewrite H1, H2, H3. cbn [orb]. rewrite Hspan. cbn [String.eqb]. rewrite Hv.
  by rewrite (proj2 (Z.ltb_ge _ _)), (proj2 (Z.leb_gt _ _)) by lia.
Qed.

Lemma parse_packet_text n t msg old_n old_t :
  0 <= n < 2 ^ 63 -> 0 <= t < 2 ^ 63 ->
  parse_packet old_n old_t (packet_text n t msg) = (n, t, " " +:+ msg).
Proof.
  intros Hn Ht. unfold parse_packet, packet_text, width.
  rewrite append_assoc.
  rewrite (extract_print _ n (" " +:+ print_Z t +:+ " " +:+ msg)) by done.
  change (" " +:+ print_Z t +:+ " " +:+ msg) with (spaces 1 +:+ print_Z t +:+ (" " +:+ msg)).
  by rewrite (extract_print 1 t (" " +:+ msg)).
Qed.

Lemma c_string_octets s rest : all_chars (fun c => negb (Ascii.eqb c "000")) s = true ->
  c_string (octets s ++ 0 :: rest) = s.
Proof.
  induction s as [|c s IH]; [done|]. cbn [all_chars]. intros [Hc Hs]%andb_true_iff.
  assert (Hz : code c =? 0 = false /\ ascii_of_N (Z.to_N (code c mod 256)) = c).
  { revert Hc. destruct c as [[][][][][][][][]]; vm_compute; done. }
  destruct Hz as [H0 H1]. change (octets (String c s)) with (code c :: octets s).
  rewrite <- app_comm_cons. cbn [c_string]. by rewrite H0, H1, IH.
Qed.
