(* ===== verification/Timing.v ===== *)
(** * Timing (include/proxy/timing.hpp, src/proxy/timing.cpp)

    The reminder database of the timing thread: a [std::map] from the time
    point of a reminder to its owner and message, kept as a list ordered by
    time point. [W] is the type of workers (a null owner is [None]) and [M]
    the type of messages. Time points are nanoseconds of [steady_clock],
    delays are milliseconds. The [now] arguments are the readings of the
    clock that the operations take. *)

From S2P Require Import Prelude Def.

Local Open Scope Z_scope.

Definition ms_to_ns (ms : Z) : Z := ms * 1000000.

Section Timing.
Context {W M : Type} `{EqDecision W}.

Definition timing_db_value : Type := option W * M.
Definition timing_db : Type := list (Z * timing_db_value).

Implicit Types (db : timing_db) (w : option W) (m : M).

Definition add_time (now delay : Z) w m db : timing_db :=
  sl_insert (now + ms_to_ns delay, (w, m)) db.

(** One round of [worker_thread] after the wait: the entries that are due, in
    the order in which they are handed to their workers, and the rest. *)
Fixpoint fire (now : Z) db : list timing_db_value * timing_db :=
  match db with
  | [] => ([], [])
  | (until, v) :: db' =>
    if until <=? now
    then let '(fired, rest) := fire now db' in (v :: fired, rest)
    else ([], db)
  end.

Definition stop_all_time w db : timing_db :=
  List.filter (fun e => negb (bool_decide (e.2.1 = w))) db.

Definition timing_ordered db : Prop := sl_ordered db.

Lemma add_time_ordered now delay w m db :
  timing_ordered db -> timing_ordered (add_time now delay w m db).
Proof. apply sl_insert_ordered. Qed.

Lemma stop_all_time_ordered w db : timing_ordered db -> timing_ordered (stop_all_time w db).
Proof. apply filter_ordered. Qed.

(** The loop takes the due entries off the front. *)
Lemma fire_split now db :
  timing_ordered db ->
  exists due, db = due ++ (fire now db).2 /\ (fire now db).1 = due.*2
    /\ Forall (fun e => e.1 <= now) due /\ Forall (fun e => now < e.1) (fire now db).2.
Proof.
  induction 1 as [|[t v] db Hs IH Ht]; simpl; [exists []; auto|].
  destruct (Z.leb_spec t now) as [Hle|Hgt].
  - destruct IH as (due & Hdb & Hf & Hdue & Hrest). destruct (fire now db) as [f r].
    simpl in *. subst f. exists ((t, v) :: due). simpl. rewrite <- Hdb. auto.
  - exists []. simpl. split_and!; auto. constructor; [done|].
    eapply Forall_impl; [exact Ht|]. intros e He. apply Z.ltb_lt in He.
    unfold key, pair_Keyed in He. simpl in He. lia.
Qed.

Lemma fire_ordered now db : timing_ordered db -> timing_ordered (fire now db).2.
Proof.
  intros Hs. induction Hs as [|[t v] db Hs IH Ht]; simpl; [constructor|].
  destruct (t <=? now); [|by constructor]. by destruct (fire now db).
Qed.

Lemma sl_place_perm (e : Z * timing_db_value) db : sl_place e db ≡ₚ e :: db.
Proof.
  induction db as [|x db IH]; simpl; [done|]. case_if; [done|]. rewrite IH. apply perm_swap.
Qed.

Lemma add_time_perm now delay w m db :
  now + ms_to_ns delay ∉ db.*1 ->
  add_time now delay w m db ≡ₚ (now + ms_to_ns delay, (w, m)) :: db.
Proof.
  intros Hn. unfold add_time, sl_insert.
  unfold timing_db, timing_db_value in *.
  match goal with |- context [sl_find ?k db] => destruct (sl_find k db) as [e|] eqn:E end;
    [|apply sl_place_perm].
  exfalso. apply Hn. pose proof (sl_find_Some_key _ _ _ E) as Hk.
  apply sl_find_In in E. apply list_elem_of_fmap. by exists e.
Qed.

(** A reminder whose time point is taken is refused. *)
Lemma add_time_cases now delay w m db :
  match sl_find (now + ms_to_ns delay) db with
  | Some _ => add_time now delay w m db = db
  | None => add_time now delay w m db ≡ₚ (now + ms_to_ns delay, (w, m)) :: db
  end.
Proof.
  destruct (sl_find (now + ms_to_ns delay) db) eqn:E.
  - unfold add_time, sl_insert. unfold timing_db, timing_db_value in *.
    change (key (now + ms_to_ns delay, (w, m))) with (now + ms_to_ns delay). by rewrite E.
  - unfold add_time, sl_insert. unfold timing_db, timing_db_value in *.
    change (key (now + ms_to_ns delay, (w, m))) with (now + ms_to_ns delay). rewrite E.
    apply sl_place_perm.
Qed.

(** ** Histories *)

Inductive timing_op :=
  | Add (now delay : Z) (w : option W) (m : M)
  | Round (now : Z).

(** The database after a history, and what the rounds delivered. *)
Fixpoint timing_run (ops : list timing_op) db : list timing_db_value * timing_db :=
  match ops with
  | [] => ([], db)
  | Add now delay w m :: ops' => timing_run ops' (add_time now delay w m db)
  | Round now :: ops' =>
    let '(fired, db') := fire now db in
    let '(delivered, db'') := timing_run ops' db' in (fired ++ delivered, db'')
  end.

Definition op_added (o : timing_op) : list (Z * timing_db_value) :=
  match o with
  | Add now delay w m => [(now + ms_to_ns delay, (w, m))]
  | Round _ => []
  end.

Definition added (ops : list timing_op) : timing_db := flat_map op_added ops.

Lemma timing_run_perm ops db :
  timing_ordered db -> NoDup (db ++ added ops).*1 ->
  (timing_run ops db).1 ++ (timing_run ops db).2.*2 ≡ₚ (db ++ added ops).*2
  /\ timing_ordered (timing_run ops db).2.
Proof.
  revert db. induction ops as [|[now delay w m|now] ops IH]; intros db Hs Hnd; simpl in *.
  - by rewrite app_nil_r.
  - assert (Hp : add_time now delay w m db ≡ₚ (now + ms_to_ns delay, (w, m)) :: db).
    { apply add_time_perm. rewrite fmap_app, NoDup_app in Hnd.
      destruct Hnd as (_ & Hd & _). intros Hin. apply (Hd _ Hin). left. }
    assert (Hp' : add_time now delay w m db ++ added ops
      ≡ₚ db ++ (now + ms_to_ns delay, (w, m)) :: added ops)
      by (rewrite Hp; simpl; apply Permutation_middle).
    destruct (IH (add_time now delay w m db)) as [Hrun Hord];
      [by apply add_time_ordered|by rewrite Hp'|].
    by rewrite Hrun, Hp'.
  - destruct (fire_split now db Hs) as (due & Hdb & Hf & _ & _).
    pose proof (fire_ordered now db Hs) as Hrs. destruct (fire now db) as [fired rest].
    simpl in *. subst fired. rewrite Hdb, <- app_assoc in Hnd |- *.
    destruct (IH rest) as [Hrun Hord]; [done| |].
    { rewrite fmap_app, NoDup_app in Hnd. tauto. }
    destruct (timing_run ops rest) as [del db'']. simpl in *. split; [|done].
    rewrite <- app_assoc, Hrun, (fmap_app _ due). done.
Qed.
End Timing.

(** A round of the timing thread delivers exactly the reminders whose time
    point is reached, earliest first, and keeps the others: no reminder fires
    early and none that is due is held back. *)
Theorem fire_exactly_due {W M} (now : Z) (db : timing_db (W := W) (M := M)) :
  timing_ordered db ->
  fire now db = ((List.filter (fun e => e.1 <=? now) db).*2,
                 List.filter (fun e => negb (e.1 <=? now)) db).
Proof.
  induction 1 as [|[t v] db Hs IH Ht]; simpl; [done|].
  destruct (Z.leb_spec t now) as [Hle|Hgt]; simpl.
  - by rewrite IH.
  - assert (Hall : forall e, In e db -> (e.1 <=? now) = false).
    { intros e He. rewrite Forall_forall in Ht. apply list_elem_of_In, Ht, Z.ltb_lt in He.
      unfold key, pair_Keyed in He. simpl in He. apply Z.leb_gt. lia. }
    clear -Hall. f_equal.
    + induction db as [|e db IH]; simpl; [done|].
      rewrite (Hall e) by (by left). apply IH. intros; apply Hall; by right.
    + f_equal. induction db as [|e db IH]; simpl; [done|].
      rewrite (Hall e) by (by left). simpl. f_equal. apply IH. intros; apply Hall; by right.
Qed.

Lemma fire_exactly_due_witness :
  fire (W := Z) (M := Z) 7 [(5, (None, 1)); (7, (None, 2)); (9, (None, 3))]
  = ([(None, 1); (None, 2)], [(9, (None, 3))]).
Proof.
  rewrite (fire_exactly_due 7 [(5, (None, 1)); (7, (None, 2)); (9, (None, 3))]);
    [reflexivity|repeat constructor].
Defined.

(** Over any history of insertions and rounds in which the time points are
    pairwise different, every reminder is accounted for exactly once: it was
    delivered or it is still pending. *)
Theorem timing_conservation {W M} (ops : list (timing_op (W := W) (M := M))) :
  NoDup (added ops).*1 ->
  (timing_run ops []).1 ++ (timing_run ops []).2.*2 ≡ₚ (added ops).*2.
Proof. intros Hnd. by apply (timing_run_perm ops []); [constructor|]. Qed.

Lemma timing_conservation_witness :
  (timing_run (W := Z) [Add 0 5 None 1; Add 1 2 None 2; Round 3000000; Add 2 9 None 3] []).1
  ++ (timing_run (W := Z) [Add 0 5 None 1; Add 1 2 None 2; Round 3000000; Add 2 9 None 3] []).2.*2
  ≡ₚ [(None, 1); (None, 2); (None, 3)].
Proof.
  apply (timing_conservation [Add 0 5 None 1; Add 1 2 None 2; Round 3000000; Add 2 9 None 3]).
  unfold added, op_added, ms_to_ns; simpl.
  repeat (apply NoDup_cons_2; [rewrite ?not_elem_of_cons; repeat split; try lia;
    apply not_elem_of_nil|]). apply NoDup_nil_2.
Defined.

(** Two reminders for the same time point collide: the second insertion is
    silently ignored, so its message is never delivered, whatever rounds
    follow. *)
Theorem timing_collision {W M} (now now' delay delay' : Z) (w w' : option W) (m m' : M)
    (db : timing_db) :
  now + ms_to_ns delay = now' + ms_to_ns delay' ->
  add_time now' delay' w' m' (add_time now delay w m db) = add_time now delay w m db.
Proof.
  intros Heq. assert (Hin : is_Some (sl_find (key (now + ms_to_ns delay, (w, m)))
    (add_time now delay w m db))).
  { unfold add_time. rewrite sl_find_insert, bool_decide_eq_true_2 by done.
    destruct (sl_find _ db); eauto. }
  unfold add_time at 1. unfold sl_insert. unfold key, pair_Keyed in *. simpl in *.
  rewrite <- Heq. destruct Hin as [e He]. unfold timing_db_value in *. by rewrite He.
Qed.

Lemma timing_collision_witness :
  add_time (W := Z) 1000000 1 None 2 (add_time 0 2 None 1 []) = add_time 0 2 None 1 [].
Proof. apply (timing_collision 0 1000000 2 1 None None 1 2 []). reflexivity. Defined.
