(* ===== verification/TimingThread.v ===== *)
(** * The timing thread (src/proxy/timing.cpp)

    The loop of [timing::worker_thread] around the rounds of [Timing], as a step
    relation: the thread sleeps while there are no reminders and waits for the
    earliest one otherwise; other threads add reminders and stop it; time passes.
    The condition variable is used with a mutex of the loop's own, so a
    notification reaches the thread only while it waits. *)

From S2P Require Import Prelude Def Timing.

Local Open Scope Z_scope.

Section TimingThread.
Context {W M : Type} `{EqDecision W}.
Notation timing_db := (timing_db (W := W) (M := M)).
Notation entry := (Z * timing_db_value (W := W) (M := M))%type.

(** [TIMING_IDLE_POLLING_INTERVAL] in nanoseconds. *)
Definition TIMING_IDLE_POLLING_INTERVAL : Z := 1000000000.

(** At the test of [m_running]; at the test for an empty database; in [sleep];
    behind the reading of the earliest time point; in [wait_until]; before the
    round over the database; at the end. *)
Inductive timing_pc :=
  | T_test | T_choose | T_sleep (until : Z) | T_enter (until : Z) | T_wait (until : Z) | T_round | T_end.

(** [tm_log] are the messages handed to workers with the time of the round. *)
Record timing_state := {
  tm_now : Z;
  tm_db : timing_db;
  tm_running : bool;
  tm_pc : timing_pc;
  tm_log : list (Z * timing_db_value (W := W) (M := M))
}.
Implicit Types (s : timing_state) (e : entry).

(** [timing::timing] starts the thread. *)
Definition timing_start (now : Z) : timing_state :=
  {| tm_now := now; tm_db := []; tm_running := true; tm_pc := T_test; tm_log := [] |}.

Definition at_pc (pc : timing_pc) s : timing_state :=
  {| tm_now := tm_now s; tm_db := tm_db s; tm_running := tm_running s; tm_pc := pc; tm_log := tm_log s |}.

(** [notify_one]. *)
Definition notified (pc : timing_pc) : timing_pc := match pc with T_wait _ => T_round | _ => pc end.

Definition do_round s : timing_state :=
  let '(fired, rest) := fire (tm_now s) (tm_db s) in
  {| tm_now := tm_now s; tm_db := rest; tm_running := tm_running s; tm_pc := T_test;
     tm_log := tm_log s ++ map (pair (tm_now s)) fired |}.

(** The clock is read before the database is locked. *)
Definition do_add (now delay : Z) (w : option W) (m : M) s : timing_state :=
  {| tm_now := tm_now s; tm_db := add_time now delay w m (tm_db s); tm_running := tm_running s;
     tm_pc := notified (tm_pc s); tm_log := tm_log s |}.

Definition timing_stop s : timing_state :=
  {| tm_now := tm_now s; tm_db := tm_db s; tm_running := false; tm_pc := notified (tm_pc s);
     tm_log := tm_log s |}.

Definition tick (now : Z) s : timing_state :=
  {| tm_now := now; tm_db := tm_db s; tm_running := tm_running s; tm_pc := tm_pc s; tm_log := tm_log s |}.

(** A step of the thread, if it does not sleep, wait or has ended. *)
Definition thread_next s : option timing_state :=
  match tm_pc s with
  | T_test => Some (at_pc (if tm_running s then T_choose else T_end) s)
  | T_choose =>
    Some (at_pc (match tm_db s with
                 | [] => T_sleep (tm_now s + TIMING_IDLE_POLLING_INTERVAL)
                 | (until, _) :: _ => T_enter until
                 end) s)
  | T_enter until => Some (at_pc (T_wait until) s)
  | T_sleep until | T_wait until => if until <=? tm_now s then Some (at_pc T_round s) else None
  | T_round => Some (do_round s)
  | T_end => None
  end.

(** Who takes a step: the thread, other threads, or the environment: the clock,
    and wake-ups without a reason. *)
Inductive actor := THREAD | CLIENT | ENVIRONMENT.

#[export] Instance actor_eq_dec : EqDecision actor.
Proof. solve_decision. Defined.

Inductive timing_step : actor -> timing_state -> timing_state -> Prop :=
  | thread_step s s' : thread_next s = Some s' -> timing_step THREAD s s'
  | client_adds s now delay w m : now <= tm_now s -> timing_step CLIENT s (do_add now delay w m s)
  | client_stops s : timing_step CLIENT s (timing_stop s)
  | clock_ticks s now : tm_now s <= now -> timing_step ENVIRONMENT s (tick now s)
  | wakes_up s until : tm_pc s = T_wait until -> timing_step ENVIRONMENT s (at_pc T_round s).

Definition timing_steps s s' : Prop := exists a, timing_step a s s'.

(** ** Rounds and the database *)

Definition was_delivered e s : Prop := exists t, (t, e.2) ∈ tm_log s /\ e.1 <= t /\ e ∉ tm_db s.

Lemma thread_next_inv s s' :
  thread_next s = Some s' -> (exists pc, s' = at_pc pc s) \/ (tm_pc s = T_round /\ s' = do_round s).
Proof.
  unfold thread_next. intros Hn. destruct (tm_pc s) as [| |u|u|u| |]; try case_match; simplify_eq; eauto.
Qed.

Lemma step_ordered a s s' : timing_step a s s' -> timing_ordered (tm_db s) -> timing_ordered (tm_db s').
Proof.
  intros Hstep Ho. destruct Hstep as [s s' Hn|s now delay w m Hnow|s|s now Hle|s until Hpc]; cbn; try done;
    [|by apply add_time_ordered].
  destruct (thread_next_inv _ _ Hn) as [[pc ->]|[_ ->]]; [done|].
  unfold do_round. pose proof (fire_ordered (tm_now s) _ Ho). by destruct (fire _ _).
Qed.

Lemma round_keeps s e :
  timing_ordered (tm_db s) -> e ∈ tm_db s ->
  if decide (e.1 <= tm_now s) then was_delivered e (do_round s) else e ∈ tm_db (do_round s).
Proof.
  intros Ho He. destruct (fire_split (tm_now s) _ Ho) as (due & Hdb & Hf & Hdue & Hrest).
  unfold do_round. destruct (fire (tm_now s) (tm_db s)) as [fired rest] eqn:Ef. cbn in Hdb, Hf, Hrest.
  rewrite Forall_forall in Hdue, Hrest. rewrite Hdb in He. apply elem_of_app in He.
  destruct (decide (e.1 <= tm_now s)) as [Hle|Hgt]; cbn.
  - assert (Hn : e ∉ rest) by (intros Hin%Hrest; cbn in Hin; lia).
    destruct He as [He|?]; [|done]. exists (tm_now s). split; [|done]. cbn.
    apply elem_of_app. right. subst fired. apply list_elem_of_fmap. exists e.2. split; [done|].
    apply list_elem_of_fmap. by exists e.
  - destruct He as [He%Hdue|?]; [|done]. cbn in He. lia.
Qed.

Lemma add_keeps now delay w m e (db : timing_db) : e ∈ db -> e ∈ add_time now delay w m db.
Proof.
  intros He. unfold add_time, sl_insert. case_match; [done|].
  pose proof (sl_place_perm (now + ms_to_ns delay, (w, m)) db) as Hp.
  unfold timing_db, timing_db_value in *. rewrite Hp. by right.
Qed.

(** Only a round takes reminders from the database. *)
Lemma step_keeps a s s' e :
  timing_step a s s' -> timing_ordered (tm_db s) -> e ∈ tm_db s -> was_delivered e s' \/ e ∈ tm_db s'.
Proof.
  intros Hstep Ho He. destruct Hstep as [s s' Hn|s now delay w m Hnow|s|s now Hle|s until Hpc]; cbn; try (by right);
    [|right; by apply add_keeps].
  destruct (thread_next_inv _ _ Hn) as [[pc ->]|[_ ->]]; [by right|].
  pose proof (round_keeps _ _ Ho He) as Hr.
  destruct (decide (e.1 <= tm_now s)); [by left|by right].
Qed.

Lemma step_now a s s' : timing_step a s s' -> tm_now s <= tm_now s'.
Proof.
  intros Hstep. destruct Hstep as [s s' Hn|s now delay w m Hnow|s|s now Hle|s until Hpc]; cbn; try done; try lia.
  destruct (thread_next_inv _ _ Hn) as [[pc ->]|[_ ->]]; cbn; [lia|].
  unfold do_round. by destruct (fire _ _).
Qed.

(** ** The states of the thread *)

(** What a wait is for: a pending reminder, or the end of the polling interval. *)
Record timing_inv s : Prop := {
  ti_ordered : timing_ordered (tm_db s);
  ti_end : tm_running s = true -> tm_pc s <> T_end;
  ti_wait : forall until, tm_pc s = T_wait until \/ tm_pc s = T_enter until -> until ∈ (tm_db s).*1;
  ti_sleep : forall until, tm_pc s = T_sleep until -> until <= tm_now s + TIMING_IDLE_POLLING_INTERVAL
}.

Lemma thread_inv s s' : thread_next s = Some s' -> timing_inv s -> timing_inv s'.
Proof.
  intros Hn [Ho He Hw Hs].
  pose proof (step_ordered THREAD _ _ (thread_step _ _ Hn) Ho) as Ho'. unfold thread_next in Hn.
  destruct (tm_pc s) as [| |u|u|u| |] eqn:Epc; try done.
  - injection Hn as <-. split; cbn; try done; destruct (tm_running s); naive_solver.
  - injection Hn as <-. destruct (tm_db s) as [|[t v] db] eqn:Edb; split; cbn; rewrite ?Edb; try done; try naive_solver lia.
    intros u [[=]|[= <-]]. left.
  - case_match; [|done]. injection Hn as <-. split; cbn; naive_solver.
  - injection Hn as <-. split; cbn; naive_solver.
  - case_match; [|done]. injection Hn as <-. split; cbn; naive_solver.
  - injection Hn as <-. unfold do_round in *. destruct (fire _ _); split; cbn in *; naive_solver.
Qed.

Lemma notified_cases pc : notified pc = T_round \/ notified pc = pc.
Proof. destruct pc; cbn; auto. Qed.

Lemma step_inv a s s' : timing_step a s s' -> timing_inv s -> timing_inv s'.
Proof.
  intros Hstep Hi. pose proof (step_ordered _ _ _ Hstep (ti_ordered _ Hi)) as Ho'.
  destruct Hstep as [s s' Hn|s now delay w m Hnow|s|s now Hle|s until Hpc]; [by eapply thread_inv|..];
    destruct Hi as [Ho He Hw Hs]; split; cbn in *; try done;
    destruct (notified_cases (tm_pc s)) as [E|E]; rewrite ?E; try done; try (by intros u [?|?]).
  - intros u Hu. apply Hw, list_elem_of_fmap in Hu as (e & -> & Hin). apply list_elem_of_fmap. exists e. split; [done|].
    by apply add_keeps.
  - intros u Hu. specialize (Hs u Hu). lia.
  - intros u Hu. specialize (Hs u Hu). lia.
Qed.

Lemma reachable_inv now s : rtc timing_steps (timing_start now) s -> timing_inv s.
Proof.
  intros Hrun. remember (timing_start now) as s0 eqn:E.
  assert (Hi : timing_inv s0) by (subst; split; cbn; [constructor|naive_solver..]).
  clear E. induction Hrun as [s|s1 s2 s3 [a Hstep] _ IH]; [done|]. by eapply IH, step_inv.
Qed.

(** A step of anybody else leaves the thread where it is or wakes it. *)
Lemma other_pc a s s' :
  timing_step a s s' -> a <> THREAD ->
  tm_pc s' = tm_pc s \/ (exists u, tm_pc s = T_wait u) /\ tm_pc s' = T_round.
Proof.
  intros Hstep Ha. destruct Hstep as [s s' Hn|s now delay w m Hnow|s|s now Hle|s until Hpc]; cbn; [done|..]; eauto;
    destruct (tm_pc s); cbn; eauto.
Qed.

(** ** Fair runs *)

Section Fair.
Context (sched : nat -> actor) (r : nat -> timing_state).

Definition timing_runs : Prop := forall i,
  timing_step (sched i) (r i) (r (S i))
  \/ (~ (exists s', timing_step (sched i) (r i) s') /\ r (S i) = r i).

(** The thread is scheduled again and again, and the clock passes every time. *)
Definition timing_fair : Prop :=
  (forall i, exists d, sched (i + d)%nat = THREAD) /\ (forall z, exists i, z <= tm_now (r i)).

Context (Hruns : timing_runs) (Hfair : timing_fair).

Lemma run_now i d : tm_now (r i) <= tm_now (r (i + d)%nat).
Proof.
  induction d as [|d IH]; [rewrite Nat.add_0_r; lia|]. rewrite Nat.add_succ_r.
  destruct (Hruns (i + d)%nat) as [Hstep|[_ ->]]; [|done]. pose proof (step_now _ _ _ Hstep). lia.
Qed.

Lemma run_inv : timing_inv (r 0%nat) -> forall i, timing_inv (r i).
Proof.
  intros H0 i. induction i as [|i IH]; [done|].
  destruct (Hruns i) as [Hstep|[_ ->]]; [by eapply step_inv|done].
Qed.

Lemma time_comes z i : exists d, z <= tm_now (r (i + d)%nat).
Proof.
  destruct (proj2 Hfair z) as [j Hj]. exists j. pose proof (run_now j i). rewrite Nat.add_comm. lia.
Qed.

(** A way of the thread to [Q] on which a rank of its places decreases. *)
Section Way.
Context (P : nat -> Prop) (Q : Prop) (rk : timing_pc -> nat).
Context (Hother : forall i, P i -> Q \/ P (S i) /\ (rk (tm_pc (r (S i))) < rk (tm_pc (r i)) \/ tm_pc (r (S i)) = tm_pc (r i))%nat).
Context (Hthread : forall i, P i -> thread_next (r i) = Some (r (S i)) -> Q \/ (rk (tm_pc (r (S i))) < rk (tm_pc (r i)))%nat).
Context (Hlive : forall i, P i -> tm_pc (r i) <> T_end).

Definition lower_place (i : nat) : Prop := exists j, P j /\ (rk (tm_pc (r j)) < rk (tm_pc (r i)))%nat.

Lemma walk i d : P i -> Q \/ lower_place i \/ (P (i + d)%nat /\ tm_pc (r (i + d)%nat) = tm_pc (r i)).
Proof.
  intros Hi. induction d as [|d IH]; [right; right; by rewrite Nat.add_0_r|].
  destruct IH as [?|[?|[Hd Hpc]]]; [by left|by right; left|]. rewrite Nat.add_succ_r.
  destruct (Hother _ Hd) as [?|[HS [Hlt|Heq]]]; [by left|right; left|right; right; split; [done|congruence]].
  eexists. split; [exact HS|]. by rewrite <- Hpc.
Qed.

Lemma way i : P i -> Q.
Proof.
  remember (rk (tm_pc (r i))) as n eqn:En. revert i En. induction (lt_wf n) as [n _ IH]. intros i -> Hi.
  assert (Hlow : lower_place i -> Q) by (intros (j & Hj & Hlt); by eapply IH).
  destruct (time_comes (match tm_pc (r i) with T_sleep u | T_wait u => u | _ => 0 end) i) as [d Hd].
  destruct (proj1 Hfair (i + d)%nat) as [d' Hs]. rewrite <- Nat.add_assoc in Hs.
  destruct (walk i (d + d') Hi) as [?|[?|[Hp Hpc]]]; [done|by apply Hlow|].
  pose proof (run_now (i + d) d') as Hnow. rewrite <- Nat.add_assoc in Hnow.
  destruct (thread_next (r (i + (d + d'))%nat)) as [s'|] eqn:Hn.
  - assert (Hnext : thread_next (r (i + (d + d'))%nat) = Some (r (S (i + (d + d'))))).
    { destruct (Hruns (i + (d + d'))%nat) as [Hstep|[Hno _]]; rewrite Hs in *.
      - by inversion Hstep.
      - destruct Hno. exists s'. by constructor. }
    destruct (Hother _ Hp) as [?|[HS _]]; [done|].
    destruct (Hthread _ Hp Hnext) as [?|Hlt]; [done|]. apply Hlow. rewrite Hpc in Hlt. by eexists.
  - exfalso. pose proof (Hlive _ Hp) as Hl. unfold thread_next in Hn. rewrite Hpc in Hn, Hl.
    destruct (tm_pc (r i)); try done; case_match; try done;
      match goal with H : (_ <=? _) = false |- _ => apply Z.leb_gt in H; lia end.
Qed.
End Way.
End Fair.

(** ** Reminders are delivered *)

Section Delivery.
Context (sched : nat -> actor) (r : nat -> timing_state).
Context (Hruns : timing_runs sched r) (Hfair : timing_fair sched r) (H0 : timing_inv (r 0%nat)).

(** What every way of the thread has in common: others only wake it. *)
Lemma other_rank (rk : timing_pc -> nat) i :
  (forall u, rk T_round < rk (T_wait u))%nat -> sched i <> THREAD ->
  (rk (tm_pc (r (S i))) < rk (tm_pc (r i)) \/ tm_pc (r (S i)) = tm_pc (r i))%nat.
Proof.
  intros Hrk Hs. destruct (Hruns i) as [Hstep|[_ ->]]; [|by right].
  destruct (other_pc _ _ _ Hstep Hs) as [?|[[u Hu] ->]]; [by right|left]. rewrite Hu. apply Hrk.
Qed.

Lemma thread_turn i : sched i = THREAD -> thread_next (r i) = Some (r (S i)) \/ r (S i) = r i.
Proof.
  intros Hs. destruct (Hruns i) as [Hstep|[_ ?]]; [|by right]. left. rewrite Hs in Hstep. by inversion Hstep.
Qed.

Section Reminder.
Context (Hon : forall i, tm_running (r i) = true) (e : entry) (i0 : nat).

Definition delivery_rank (pc : timing_pc) : nat :=
  match pc with
  | T_round => 0 | T_wait _ | T_sleep _ => 1 | T_enter _ => 2 | T_choose => 3 | T_test => 4 | T_end => 5
  end.

Definition due_at (i : nat) : Prop := (i0 <= i)%nat /\ e ∈ tm_db (r i) /\ e.1 <= tm_now (r i).
Definition delivered_later : Prop := exists j, (i0 <= j)%nat /\ was_delivered e (r j).

Lemma due_thread i :
  due_at i -> thread_next (r i) = Some (r (S i)) ->
  delivered_later \/ (delivery_rank (tm_pc (r (S i))) < delivery_rank (tm_pc (r i)))%nat.
Proof.
  intros (Hi & He & Hk) Hn. pose proof (round_keeps _ e (ti_ordered _ (run_inv _ _ Hruns H0 i)) He) as Hr.
  rewrite decide_True in Hr by done. unfold thread_next in Hn. rewrite (Hon i) in Hn.
  assert (Hpc : forall pc, Some (at_pc pc (r i)) = Some (r (S i)) -> tm_pc (r (S i)) = pc) by (by intros pc [= <-]).
  destruct (tm_pc (r i)) as [| |u|u|u| |].
  - right. rewrite (Hpc _ Hn). cbn. lia.
  - destruct (tm_db (r i)) as [|[t v] db]; [by apply elem_of_nil in He|]. right. rewrite (Hpc _ Hn). cbn. lia.
  - case_match; [|done]. right. rewrite (Hpc _ Hn). cbn. lia.
  - right. rewrite (Hpc _ Hn). cbn. lia.
  - case_match; [|done]. right. rewrite (Hpc _ Hn). cbn. lia.
  - left. exists (S i). split; [lia|]. injection Hn as <-. exact Hr.
  - done.
Qed.

Lemma due_step i :
  due_at i ->
  delivered_later \/ due_at (S i) /\
    (delivery_rank (tm_pc (r (S i))) < delivery_rank (tm_pc (r i)) \/ tm_pc (r (S i)) = tm_pc (r i))%nat.
Proof.
  intros Hd. pose proof Hd as (Hi & He & Hk).
  pose proof (run_now _ _ Hruns i 1) as Hnow. rewrite Nat.add_1_r in Hnow.
  assert (He' : delivered_later \/ due_at (S i)).
  { destruct (Hruns i) as [Hstep|[_ Heq]].
    - destruct (step_keeps _ _ _ e Hstep (ti_ordered _ (run_inv _ _ Hruns H0 i)) He) as [?|?].
      + left. exists (S i). split; [lia|done].
      + right. split_and!; [lia|done|lia].
    - right. split_and!; [lia|by rewrite Heq|lia]. }
  destruct He' as [?|Hd']; [by left|].
  destruct (decide (sched i = THREAD)) as [Hs|Hs]; [|right; split; [done|apply other_rank; [cbn; lia|done]]].
  destruct (thread_turn i Hs) as [Hn|Heq]; [|right; split; [done|right; by rewrite Heq]].
  destruct (due_thread i Hd Hn) as [?|?]; [by left|right; auto].
Qed.

Lemma due_delivered i : due_at i -> delivered_later.
Proof.
  apply (way sched r Hruns Hfair due_at delivered_later delivery_rank due_step due_thread).
  intros j _. apply ti_end; [apply (run_inv _ _ Hruns H0)|apply Hon].
Qed.

Lemma pending_stays i d : e ∈ tm_db (r i) -> (i0 <= i)%nat -> delivered_later \/ e ∈ tm_db (r (i + d)%nat).
Proof.
  intros He Hi. induction d as [|d [?|IH]]; [right; by rewrite Nat.add_0_r|by left|]. rewrite Nat.add_succ_r.
  destruct (Hruns (i + d)%nat) as [Hstep|[_ ->]]; [|by right].
  destruct (step_keeps _ _ _ e Hstep (ti_ordered _ (run_inv _ _ Hruns H0 _)) IH) as [?|?]; [left|by right].
  exists (S (i + d)). split; [lia|done].
Qed.

Lemma pending_delivered : e ∈ tm_db (r i0) -> delivered_later.
Proof.
  intros He. destruct (time_comes _ _ Hruns Hfair e.1 i0) as [d Hd].
  destruct (pending_stays i0 d He) as [?|He']; [lia|done|].
  apply (due_delivered (i0 + d)). split_and!; [lia|done|done].
Qed.
End Reminder.

(** ** The thread ends *)

Definition stop_rank (pc : timing_pc) : nat :=
  match pc with
  | T_end | T_test => 0 | T_round => 1 | T_wait _ | T_sleep _ => 2 | T_enter _ => 3 | T_choose => 4
  end.

Definition stopped_at (i : nat) : Prop := tm_running (r i) = false /\ tm_pc (r i) <> T_end.
Definition ends : Prop := exists j, tm_pc (r j) = T_end.

Lemma step_stopped a s s' : timing_step a s s' -> tm_running s = false -> tm_running s' = false.
Proof.
  intros Hstep Hs. destruct Hstep as [s s' Hn|s now delay w m Hnow|s|s now Hle|s until Hpc]; cbn; try done.
  destruct (thread_next_inv _ _ Hn) as [[pc ->]|[_ ->]]; [done|]. unfold do_round. by destruct (fire _ _).
Qed.

Lemma stopped_thread i :
  stopped_at i -> thread_next (r i) = Some (r (S i)) ->
  ends \/ (stop_rank (tm_pc (r (S i))) < stop_rank (tm_pc (r i)))%nat.
Proof.
  intros [Hs Hl] Hn. unfold thread_next in Hn. rewrite Hs in Hn.
  assert (Hpc : forall pc, Some (at_pc pc (r i)) = Some (r (S i)) -> tm_pc (r (S i)) = pc) by (by intros pc [= <-]).
  destruct (tm_pc (r i)) as [| |u|u|u| |].
  - left. exists (S i). by apply Hpc.
  - right. rewrite (Hpc _ Hn). destruct (tm_db (r i)) as [|[]]; cbn; lia.
  - case_match; [|done]. right. rewrite (Hpc _ Hn). cbn. lia.
  - right. rewrite (Hpc _ Hn). cbn. lia.
  - case_match; [|done]. right. rewrite (Hpc _ Hn). cbn. lia.
  - right. injection Hn as <-. unfold do_round. destruct (fire _ _). cbn. lia.
  - done.
Qed.

Lemma stopped_step i :
  stopped_at i ->
  ends \/ stopped_at (S i) /\
    (stop_rank (tm_pc (r (S i))) < stop_rank (tm_pc (r i)) \/ tm_pc (r (S i)) = tm_pc (r i))%nat.
Proof.
  intros Hd. pose proof Hd as [Hs Hl].
  assert (Hd' : ends \/ stopped_at (S i)).
  { destruct (Hruns i) as [Hstep|[_ Heq]]; [|right; unfold stopped_at; by rewrite Heq].
    pose proof (step_stopped _ _ _ Hstep Hs). unfold stopped_at.
    destruct (tm_pc (r (S i))) eqn:E; try (by right). left. by exists (S i). }
  destruct Hd' as [?|Hd']; [by left|].
  destruct (decide (sched i = THREAD)) as [Ht|Ht]; [|right; split; [done|apply other_rank; [cbn; lia|done]]].
  destruct (thread_turn i Ht) as [Hn|Heq]; [|right; split; [done|right; by rewrite Heq]].
  destruct (stopped_thread i Hd Hn) as [?|?]; [by left|right; auto].
Qed.

Lemma stopped_ends i : tm_running (r i) = false -> ends.
Proof.
  intros Hs. destruct (tm_pc (r i)) eqn:E; [..|by exists i];
    (eapply (way sched r Hruns Hfair stopped_at ends stop_rank stopped_step stopped_thread);
     [by intros j [_ ?]|split; [exact Hs|by rewrite E]]).
Qed.
End Delivery.

(** ** The theorems *)

(** C7: The timing thread neglects no reminder and is never early: while it is
    not stopped, and the thread is scheduled and time passes, every reminder that
    is in the database at some time is handed to its worker at a later time, not
    before its time point, and is then gone from the database. This holds for
    every interleaving with other threads that add reminders, also for those
    added while the thread is about to wait and misses the notification. *)
Theorem reminder_delivered (sched : nat -> actor) (r : nat -> timing_state) now0 i e :
  timing_runs sched r -> timing_fair sched r -> rtc timing_steps (timing_start now0) (r 0%nat) ->
  (forall j, tm_running (r j) = true) -> e ∈ tm_db (r i) ->
  exists j t, (i <= j)%nat /\ (t, e.2) ∈ tm_log (r j) /\ e.1 <= t /\ e ∉ tm_db (r j).
Proof.
  intros Hruns Hfair H0 Hon He.
  destruct (pending_delivered _ _ Hruns Hfair (reachable_inv _ _ H0) Hon e i He) as (j & Hj & t & Ht & Hle & Hgone).
  by exists j, t.
Qed.

(** Once it is stopped the thread ends, if it is scheduled and time passes. *)
Theorem stopped_thread_ends (sched : nat -> actor) (r : nat -> timing_state) i :
  timing_runs sched r -> timing_fair sched r ->
  tm_running (r i) = false -> exists j, tm_pc (r j) = T_end.
Proof. intros Hruns Hfair Hs. by apply (stopped_ends sched r Hruns Hfair i). Qed.

(** C8: How late a reminder can be: if the thread cannot go on although a
    reminder is due, it sleeps because the database was empty, for the rest of
    one second at most, or it waits for a reminder that is still pending, so it
    goes on when that one is due. *)
Theorem reminder_delay now0 s e :
  rtc timing_steps (timing_start now0) s -> tm_running s = true -> thread_next s = None ->
  e ∈ tm_db s -> e.1 <= tm_now s ->
  exists u, tm_now s < u /\
    ((tm_pc s = T_sleep u /\ u <= tm_now s + TIMING_IDLE_POLLING_INTERVAL)
     \/ (tm_pc s = T_wait u /\ u ∈ (tm_db s).*1)).
Proof.
  intros Hrun Hon Hn He Hdue. pose proof (reachable_inv _ _ Hrun) as [_ Hend Hw Hs].
  specialize (Hend Hon). unfold thread_next in Hn.
  destruct (tm_pc s) as [| |u|u|u| |]; try done; case_match; try done;
    match goal with H : (_ <=? _) = false |- _ => apply Z.leb_gt in H end; exists u; (split; [lia|]).
  - left. auto.
  - right. auto.
Qed.
End TimingThread.

(** ** Examples *)

(** A reminder that is added between the choice of the time point and the wait
    is overlooked: at its time the thread waits for the other one. *)
Definition ex_wait : timing_state (W := nat) (M := nat) :=
  {| tm_now := 2000000000; tm_db := [(1000000000, (None, 2%nat)); (125000000000, (None, 1%nat))];
     tm_running := true; tm_pc := T_wait 125000000000; tm_log := [] |}.

Lemma ex_wait_reachable : rtc timing_steps (timing_start 0) ex_wait.
Proof.
  eapply rtc_l; [exists CLIENT; by apply (client_adds _ 0 125000 None 1%nat)|].
  eapply rtc_l; [exists THREAD; constructor; reflexivity|].
  eapply rtc_l; [exists THREAD; constructor; reflexivity|].
  eapply rtc_l; [exists CLIENT; by apply (client_adds _ 0 1000 None 2%nat)|].
  eapply rtc_l; [exists THREAD; constructor; reflexivity|].
  eapply rtc_once. exists ENVIRONMENT.
  match goal with |- timing_step _ ?s _ => change ex_wait with (tick 2000000000 s) end.
  apply clock_ticks. vm_compute. discriminate.
Qed.

(** The reminder is due since a second, and the thread waits on. *)
Lemma notification_lost :
  exists s : timing_state (W := nat) (M := nat), rtc timing_steps (timing_start 0) s
    /\ tm_pc s = T_wait 125000000000 /\ tm_now s = 2000000000 /\ (1000000000, (None, 2%nat)) ∈ tm_db s.
Proof. exists ex_wait. split_and!; [apply ex_wait_reachable|done|done|by left]. Qed.

(** The same happens to the notification of [stop]: the destructor, which joins
    the thread, waits for the next reminder. *)
Lemma stop_notification_lost :
  exists s : timing_state (W := nat) (M := nat), rtc timing_steps (timing_start 0) s
    /\ tm_running s = false /\ tm_pc s = T_wait 125000000000 /\ tm_now s = 0.
Proof.
  eexists. split.
  - eapply rtc_l; [exists CLIENT; by apply (client_adds _ 0 125000 None 1%nat)|].
    eapply rtc_l; [exists THREAD; constructor; reflexivity|].
    eapply rtc_l; [exists THREAD; constructor; reflexivity|].
    eapply rtc_l; [exists CLIENT; apply client_stops|].
    eapply rtc_once. exists THREAD. constructor. reflexivity.
  - done.
Qed.

Lemma reminder_delay_witness :
  exists u, tm_now ex_wait < u /\
    ((tm_pc ex_wait = T_sleep u /\ u <= tm_now ex_wait + TIMING_IDLE_POLLING_INTERVAL)
     \/ (tm_pc ex_wait = T_wait u /\ u ∈ (tm_db ex_wait).*1)).
Proof.
  apply (reminder_delay 0 ex_wait (1000000000, (None, 2%nat)) ex_wait_reachable); [done|done|by left|cbn; lia].
Defined.

(** The thread and the clock in turn. *)
Definition in_step (i : nat) : actor := if Nat.even i then ENVIRONMENT else THREAD.

Fixpoint ex_run (i : nat) : timing_state (W := nat) (M := nat) :=
  match i with
  | O => ex_wait
  | S i' =>
    let s := ex_run i' in
    if Nat.even i' then tick (tm_now s + 1000000000) s else default s (thread_next s)
  end.

Lemma ex_run_runs : timing_runs in_step ex_run.
Proof.
  intros i. unfold in_step. cbn. destruct (Nat.even i).
  - left. apply clock_ticks. lia.
  - destruct (thread_next (ex_run i)) as [s'|] eqn:Hn; cbn; [left; by constructor|].
    right. split; [|done]. intros [s' Hs]. inversion Hs. congruence.
Qed.

Lemma ex_run_clock i : Z.of_nat i * 1000000000 <= tm_now (ex_run (2 * i)).
Proof.
  induction i as [|i IH]; [cbn; lia|].
  pose proof (run_now _ _ ex_run_runs (2 * i + 1) 1) as Hnow.
  replace (2 * i + 1 + 1)%nat with (2 * S i)%nat in Hnow by lia.
  assert (Hstep : tm_now (ex_run (2 * i + 1)) = tm_now (ex_run (2 * i)) + 1000000000).
  { rewrite Nat.add_1_r. cbn [ex_run]. by rewrite Nat.even_mul. }
  lia.
Qed.

Lemma ex_run_fair : timing_fair in_step ex_run.
Proof.
  split.
  - intros i. unfold in_step. destruct (Nat.even i) eqn:E.
    + exists 1%nat. by rewrite Nat.add_1_r, Nat.even_succ, <- Nat.negb_even, E.
    + exists 0%nat. by rewrite Nat.add_0_r, E.
  - intros z. exists (2 * Z.to_nat z)%nat. pose proof (ex_run_clock (Z.to_nat z)).
    destruct (Z.le_gt_cases z 0); [|lia]. pose proof (run_now _ _ ex_run_runs 0 (2 * Z.to_nat z)) as Hn.
    cbn in Hn. lia.
Qed.

Lemma ex_run_on i : tm_running (ex_run i) = true.
Proof.
  induction i as [|i IH]; [done|]. cbn. destruct (Nat.even i); [done|].
  destruct (thread_next (ex_run i)) as [s'|] eqn:Hn; [|done]. cbn.
  destruct (thread_next_inv _ _ Hn) as [[pc ->]|[_ ->]]; [done|]. unfold do_round. by destruct (fire _ _).
Qed.

Lemma reminder_delivered_witness :
  exists j t, (0 <= j)%nat /\ (t, (None, 2%nat)) ∈ tm_log (ex_run j) /\ 1000000000 <= t
    /\ (1000000000, (None, 2%nat)) ∉ tm_db (ex_run j).
Proof.
  apply (reminder_delivered in_step ex_run 0 0%nat (1000000000, (None, 2%nat)) ex_run_runs ex_run_fair
    ex_wait_reachable ex_run_on). by left.
Defined.
