(* ===== verification/MessageQueue.v ===== *)
(** * Message queue and worker
      (include/proxy/message_queue.hpp, include/proxy/worker.hpp, src/proxy/worker.cpp)

    [std::priority_queue] leaves the order of equal elements unspecified, so
    the queue is an interface, [PriorityQueue], with the laws of push, top and
    pop; the theorems on [message_queue] and [worker] hold for every
    implementation. [list_priority_queue] is one. *)

From S2P Require Import Prelude.

Local Open Scope Z_scope.

(** [prio t] is the number the comparison of messages reads: the smallest one
    is served first ([comp_proxy_msg] is [*l > *r]). *)
Class PriorityQueue (T : Type) (prio : T -> Z) (Q : Type) := {
  pq_empty : Q;
  pq_push : T -> Q -> Q;
  pq_pop : Q -> option (T * Q);
  pq_elems : Q -> list T;
  pq_elems_empty : pq_elems pq_empty = [];
  pq_elems_push : forall t q, pq_elems (pq_push t q) ≡ₚ t :: pq_elems q;
  pq_pop_empty : forall q, pq_pop q = None <-> pq_elems q = [];
  pq_pop_min : forall q t q', pq_pop q = Some (t, q') ->
    pq_elems q ≡ₚ t :: pq_elems q' /\ Forall (fun x => prio t <= prio x) (pq_elems q)
}.

(** ** An implementation: insertion behind the elements of the same priority. *)

Section ListQueue.
Context {T : Type} (prio : T -> Z).

Fixpoint lq_push (t : T) (q : list T) : list T :=
  match q with
  | [] => [t]
  | x :: q' => if prio t <? prio x then t :: q else x :: lq_push t q'
  end.

Definition lq_sorted (q : list T) : Prop := StronglySorted (fun a b => prio a <= prio b) q.

Lemma lq_push_perm t q : lq_push t q ≡ₚ t :: q.
Proof.
  induction q as [|x q IH]; simpl; [done|]. case_if; [done|]. rewrite IH. apply perm_swap.
Qed.

Lemma lq_push_sorted t q : lq_sorted q -> lq_sorted (lq_push t q).
Proof.
  induction 1 as [|x q Hs IH Hx]; simpl; [repeat constructor|].
  destruct (Z.ltb_spec (prio t) (prio x)).
  - constructor; [by constructor|]. constructor; [lia|].
    eapply Forall_impl; [exact Hx|]. intros; simpl in *; lia.
  - constructor; [done|]. apply Forall_forall. intros y Hy. rewrite lq_push_perm in Hy.
    apply elem_of_cons in Hy as [->|Hy]; [lia|]. by eapply Forall_forall in Hx.
Qed.

Record list_queue := { lq_list : list T; lq_ok : lq_sorted lq_list }.

Definition list_queue_pop (q : list_queue) : option (T * list_queue) :=
  match q with
  | {| lq_list := []; |} => None
  | {| lq_list := t :: l; lq_ok := ok |} =>
    Some (t, {| lq_list := l; lq_ok := proj1 (StronglySorted_inv ok) |})
  end.

#[export] Program Instance list_priority_queue : PriorityQueue T prio list_queue := {
  pq_empty := {| lq_list := []; lq_ok := SSorted_nil _ |};
  pq_push t q := {| lq_list := lq_push t (lq_list q);
                    lq_ok := lq_push_sorted t (lq_list q) (lq_ok q) |};
  pq_pop := list_queue_pop;
  pq_elems := lq_list
}.
Next Obligation. done. Qed.
Next Obligation. intros t [l ok]. apply lq_push_perm. Qed.
Next Obligation. intros [[|x l] ok]; simpl; naive_solver. Qed.
Next Obligation.
  intros [[|x l] ok] t q'; simpl; [done|]. intros [= <- <-]. simpl. split; [done|].
  constructor; [lia|]. by destruct (StronglySorted_inv ok).
Qed.
End ListQueue.

(** ** [message_queue] and [worker] *)

Definition LOSEABLE_PRIO : Z := 100.

Section MessageQueue.
Context {T : Type} (prio : T -> Z) {Q : Type} `{PriorityQueue T prio Q}.

Record message_queue := { m_q : Q; m_size : Z }.

Definition new_message_queue (size : Z) : message_queue :=
  {| m_q := pq_empty; m_size := to_uint32 size |}.

Definition mq_elems (mq : message_queue) : list T := pq_elems (m_q mq).
Definition is_empty (mq : message_queue) : bool := bool_decide (length (mq_elems mq) = 0%nat).
Definition mq_length (mq : message_queue) : Z := Z.of_nat (length (mq_elems mq)).
Definition max_size (mq : message_queue) : Z := to_int32 (m_size mq).

Definition enqueue_loseable (t : T) (mq : message_queue) : bool * message_queue :=
  if mq_length mq <? m_size mq
  then (true, {| m_q := pq_push t (m_q mq); m_size := m_size mq |})
  else (false, mq).

Definition enqueue (t : T) (mq : message_queue) : message_queue :=
  {| m_q := pq_push t (m_q mq); m_size := m_size mq |}.

(** [None]: the caller waits. *)
Definition dequeue (mq : message_queue) : option (T * message_queue) :=
  match pq_pop (m_q mq) with
  | Some (t, q) => Some (t, {| m_q := q; m_size := m_size mq |})
  | None => None
  end.

(** [worker::add_msg]. *)
Definition add_msg (t : T) (mq : message_queue) : message_queue :=
  if prio t =? LOSEABLE_PRIO then (enqueue_loseable t mq).2 else enqueue t mq.

(** *** Histories of one queue *)

Inductive queue_op := OpAdd (t : T) | OpDequeue.

(** The messages dequeued over a history, with the queue at its end; a
    dequeue of the empty queue does not happen (its caller waits). *)
Fixpoint queue_run (ops : list queue_op) (mq : message_queue) : list T * message_queue :=
  match ops with
  | [] => ([], mq)
  | OpAdd t :: ops' => queue_run ops' (add_msg t mq)
  | OpDequeue :: ops' =>
    match dequeue mq with
    | Some (t, mq') => let '(out, mq'') := queue_run ops' mq' in (t :: out, mq'')
    | None => queue_run ops' mq
    end
  end.

Definition added_msgs (ops : list queue_op) : list T :=
  flat_map (fun o => match o with OpAdd t => [t] | OpDequeue => [] end) ops.

Definition systemic (l : list T) : list T :=
  List.filter (fun t => negb (prio t =? LOSEABLE_PRIO)) l.

Lemma systemic_perm (l l' : list T) : l ≡ₚ l' -> systemic l ≡ₚ systemic l'.
Proof.
  unfold systemic. induction 1; simpl; repeat case_if; eauto using Permutation.
Qed.

Lemma systemic_app (l l' : list T) : systemic (l ++ l') = systemic l ++ systemic l'.
Proof. apply List.filter_app. Qed.

Lemma add_msg_systemic t mq :
  systemic (mq_elems (add_msg t mq)) ≡ₚ systemic [t] ++ systemic (mq_elems mq).
Proof.
  unfold add_msg, enqueue_loseable, enqueue, mq_elems.
  destruct (prio t =? LOSEABLE_PRIO) eqn:E; [case_if|]; simpl; rewrite ?E; simpl; [|done|].
  - rewrite (systemic_perm _ _ (pq_elems_push t (m_q mq))). simpl. by rewrite E.
  - rewrite (systemic_perm _ _ (pq_elems_push t (m_q mq))). simpl. by rewrite E.
Qed.

Lemma dequeue_Some mq t mq' :
  dequeue mq = Some (t, mq') ->
  mq_elems mq ≡ₚ t :: mq_elems mq' /\ Forall (fun x => prio t <= prio x) (mq_elems mq)
  /\ m_size mq' = m_size mq.
Proof.
  unfold dequeue, mq_elems. destruct (pq_pop (m_q mq)) as [[u q]|] eqn:E; [|done].
  intros [= -> <-]. simpl. apply pq_pop_min in E as [? ?]. auto.
Qed.

Lemma queue_run_systemic ops mq :
  systemic ((queue_run ops mq).1 ++ mq_elems (queue_run ops mq).2)
  ≡ₚ systemic (mq_elems mq ++ added_msgs ops).
Proof.
  revert mq. induction ops as [|[t|] ops IH]; intros mq.
  - cbn. by rewrite app_nil_r.
  - change (added_msgs (OpAdd t :: ops)) with ([t] ++ added_msgs ops). cbn [queue_run].
    rewrite IH, !systemic_app, add_msg_systemic. simpl.
    rewrite (Permutation_app_comm (systemic [t])), <- app_assoc. done.
  - cbn [queue_run]. destruct (dequeue mq) as [[t mq']|] eqn:E; [|apply IH].
    apply dequeue_Some in E as (Hp & _). specialize (IH mq').
    destruct (queue_run ops mq') as [out mq'']. cbn [fst snd app] in *.
    change (t :: out ++ mq_elems mq'') with ([t] ++ (out ++ mq_elems mq'')).
    rewrite (systemic_app [t]), IH, <- systemic_app. apply systemic_perm. by rewrite Hp.
Qed.

Lemma add_msg_size t mq : m_size (add_msg t mq) = m_size mq.
Proof. unfold add_msg, enqueue_loseable. by repeat case_if. Qed.

Lemma add_msg_length t mq :
  mq_length (add_msg t mq) =
    if (prio t =? LOSEABLE_PRIO) && negb (mq_length mq <? m_size mq)
    then mq_length mq else mq_length mq + 1.
Proof.
  unfold add_msg, enqueue_loseable, enqueue, mq_length, mq_elems.
  destruct (prio t =? LOSEABLE_PRIO); simpl; [case_if; simpl; [|done]|];
    rewrite pq_elems_push; simpl; lia.
Qed.
End MessageQueue.

Arguments OpAdd {T}.
Arguments OpDequeue {T}.

(** No user input and no systemic message is ever lost: over any history
    of a worker's queue, the messages of these priorities that were dequeued or
    are still queued are exactly the ones that were added, however full the
    queue was. *)
Theorem worker_keeps_systemic {T} (prio : T -> Z) {Q} `{PriorityQueue T prio Q}
    (size : Z) (ops : list queue_op) :
  let '(out, mq) := queue_run prio ops (new_message_queue prio size) in
  systemic prio (out ++ mq_elems prio mq) ≡ₚ systemic prio (added_msgs ops).
Proof.
  pose proof (queue_run_systemic prio ops (new_message_queue prio size)) as Hrun.
  destruct (queue_run prio ops (new_message_queue prio size)) as [out mq].
  unfold mq_elems at 2, new_message_queue in Hrun. simpl in Hrun.
  by rewrite pq_elems_empty in Hrun.
Qed.

(** [dequeue] serves a message of the highest priority waiting, and takes
    only that one. *)
Theorem dequeue_highest_priority {T} (prio : T -> Z) {Q} `{PriorityQueue T prio Q}
    (mq : message_queue (Q := Q)) :
  match dequeue prio mq with
  | Some (t, mq') => mq_elems prio mq ≡ₚ t :: mq_elems prio mq'
                     /\ forall x, x ∈ mq_elems prio mq -> prio t <= prio x
  | None => mq_elems prio mq = []
  end.
Proof.
  destruct (dequeue prio mq) as [[t mq']|] eqn:E.
  - apply dequeue_Some in E as (Hp & Hmin & _). split; [done|].
    intros x Hx. by eapply Forall_forall in Hmin.
  - unfold dequeue in E. destruct (pq_pop (m_q mq)) as [[t q]|] eqn:E'; [done|].
    by apply pq_pop_empty.
Qed.

(** A loseable message is dropped exactly when the queue is full, so report
    and data floods cannot grow the queue beyond its size; other messages are
    always enqueued, also beyond that size. *)
Theorem add_msg_bound {T} (prio : T -> Z) {Q} `{PriorityQueue T prio Q} (t : T)
    (mq : message_queue (Q := Q)) :
  mq_length prio (add_msg prio t mq) =
    (if prio t =? LOSEABLE_PRIO
     then Z.max (mq_length prio mq) (Z.min (mq_length prio mq + 1) (m_size mq))
     else mq_length prio mq + 1)
  /\ m_size (add_msg prio t mq) = m_size mq.
Proof.
  split; [|apply add_msg_size]. rewrite add_msg_length.
  destruct (prio t =? LOSEABLE_PRIO); simpl; [|done].
  destruct (Z.ltb_spec (mq_length prio mq) (m_size mq)); simpl; lia.
Qed.
