(* ===== verification/Messages.v ===== *)
(** * Messages and effects (include/proxy/message_format.hpp)

    The messages of the worker queues, the timers as shared objects, and the
    monad the handlers run in. A [std::shared_ptr] to a timer is the identity
    [tid] of an object in the store of the environment; two pointers compare
    equal exactly when the identities do. The environment also holds the
    reminder database, the calls made to the sockets of the kernel, and the
    number of clock readings taken: the [n]th reading of the clock is
    [clk n], and the result of the [n]th socket call is [sock n]. A step
    that the language leaves undefined (a null pointer dereferenced) gives no
    result. *)

From S2P Require Import Prelude Def TimersValues AddrStorage Timing Filter.

Local Open Scope Z_scope.

Inductive message_type :=
  | INIT_MSG | TEST_MSG | EXIT_MSG | FILTER_TIMER_MSG | SOURCE_TIMER_MSG | NEW_SOURCE_MSG
  | NEW_SOURCE_TIMER_MSG | RET_GROUP_TIMER_MSG | RET_SOURCE_TIMER_MSG
  | OLDER_HOST_PRESENT_TIMER_MSG | GENERAL_QUERY_TIMER_MSG | CONFIG_MSG
  | GROUP_RECORD_MSG | DEBUG_MSG.

Inductive message_priority := USER_INPUT | SYSTEMIC | LOSEABLE.

#[export] Instance message_type_eq_dec : EqDecision message_type.
Proof. solve_decision. Defined.

Definition priority_code (p : message_priority) : Z :=
  match p with USER_INPUT => 1 | SYSTEMIC => 10 | LOSEABLE => 100 end.

Definition tid := nat.

(** [config_msg]; [cm_rule_binding] is null except for the global rules. *)
Inductive config_instruction :=
  | ADD_DOWNSTREAM | DEL_DOWNSTREAM | ADD_UPSTREAM | DEL_UPSTREAM | SET_GLOBAL_RULE_BINDING.

Record config_msg := {
  cm_instruction : config_instruction;
  cm_if_index : Z;
  cm_upstream_priority : Z;
  cm_interface : option interface;
  cm_tv : timers_values;
  cm_rule_binding : option rule_binding
}.

(** The constructor for interfaces without timers throws for other
    instructions. *)
Definition config_msg_interface (instruction : config_instruction) (if_index priority : Z)
    (interf : option interface) : option config_msg :=
  match instruction with
  | DEL_DOWNSTREAM | ADD_UPSTREAM | DEL_UPSTREAM =>
    Some {| cm_instruction := instruction; cm_if_index := if_index;
            cm_upstream_priority := priority; cm_interface := interf;
            cm_tv := new_timers_values; cm_rule_binding := None |}
  | _ => None
  end.

(** The constructors for a downstream interface and for a global setting; the
    members they leave alone are not read for these instructions. *)
Definition config_msg_timers (instruction : config_instruction) (if_index : Z)
    (interf : option interface) (tv : timers_values) : config_msg :=
  {| cm_instruction := instruction; cm_if_index := if_index; cm_upstream_priority := 0;
     cm_interface := interf; cm_tv := tv; cm_rule_binding := None |}.

Definition config_msg_rule (instruction : config_instruction) (rb : option rule_binding)
    : config_msg :=
  {| cm_instruction := instruction; cm_if_index := 0; cm_upstream_priority := 0;
     cm_interface := None; cm_tv := new_timers_values; cm_rule_binding := rb |}.

(** The calls to the sockets of the kernel. *)
Record query := {
  q_if_index : Z;
  q_dst : addr_storage;
  q_group : addr_storage;
  q_max_resp_code : Z;
  q_suppress : bool;
  q_qrv : Z;
  q_qqic : Z;
  q_num_of_srcs : Z;
  q_sources : list addr_storage
}.

Inductive action :=
  | JoinGroup (gaddr : addr_storage) (if_index : Z)
  | LeaveGroup (gaddr : addr_storage) (if_index : Z)
  | SetSourceFilter (if_index : Z) (gaddr : addr_storage) (mf : mc_filter)
      (srcs : list addr_storage)
  | ChooseIf (if_index : Z)
  | SendQuery (q : query)
  | AddMroute (input_vif : Z) (saddr gaddr : addr_storage) (output_vif : list Z)
  | DelMroute (vif : Z) (saddr gaddr : addr_storage)
  | AddVif (if_index vif : Z)
  | DelVif (if_index vif : Z)
  | RegisterInterface (if_index : Z)
  | UnregisterInterface (if_index : Z).

Section Messages.
Context {A : Type} `{Address A}.

(** ** Timers *)

(** [tm_gaddr] is absent in a general query timer, [tm_saddr] is used by the
    timers of the routing table only. *)
Record timer_msg := {
  tm_type : message_type;
  tm_if_index : Z;
  tm_gaddr : option A;
  tm_saddr : option A;
  tm_end_time : Z;
  tm_is_used_as_source_timer : bool
}.

Definition new_timer (type : message_type) (if_index : Z) (gaddr saddr : option A)
    (now duration : Z) : timer_msg :=
  {| tm_type := type; tm_if_index := if_index; tm_gaddr := gaddr; tm_saddr := saddr;
     tm_end_time := now + ms_to_ns duration; tm_is_used_as_source_timer := false |}.

Definition is_remaining_time_greater_than (now comp_time : Z) (tm : timer_msg) : bool :=
  now + ms_to_ns comp_time <=? tm_end_time tm.

Definition set_as_source_timer (tm : timer_msg) : timer_msg :=
  {| tm_type := tm_type tm; tm_if_index := tm_if_index tm; tm_gaddr := tm_gaddr tm;
     tm_saddr := tm_saddr tm; tm_end_time := tm_end_time tm;
     tm_is_used_as_source_timer := true |}.

(** ** Sources *)

Record source := {
  saddr : A;
  shared_source_timer : option tid;
  retransmission_count : Z
}.

#[export] Instance source_Keyed : Keyed source A := saddr.

Definition new_source (a : A) : source :=
  {| saddr := a; shared_source_timer := None; retransmission_count := -1 |}.

Definition set_timer (s : source) (t : option tid) (n : Z) : source :=
  {| saddr := saddr s; shared_source_timer := t; retransmission_count := n |}.

(** ** Messages *)

Record group_record_msg := {
  gr_if_index : Z;
  gr_record_type : mcast_addr_record_type;
  gr_gaddr : A;
  gr_slist : list source;
  gr_grp_mem_proto : group_mem_protocol
}.

Inductive proxy_msg :=
  | init_msg
  | test_msg (value : Z) (prio : message_priority)
  | a_timer_msg (t : tid)
  | a_group_record_msg (gr : group_record_msg)
  | new_source_msg (if_index : Z) (gaddr saddr : A)
  | a_config_msg (cm : config_msg)
  | debug_msg
  | exit_cmd.

Definition get_priority (m : proxy_msg) : message_priority :=
  match m with
  | init_msg => SYSTEMIC
  | test_msg _ prio => prio
  | a_timer_msg _ => SYSTEMIC
  | a_group_record_msg _ => LOSEABLE
  | new_source_msg _ _ _ => LOSEABLE
  | a_config_msg _ => SYSTEMIC
  | debug_msg => USER_INPUT
  | exit_cmd => USER_INPUT
  end.

Definition get_type (store : gmap tid timer_msg) (m : proxy_msg) : option message_type :=
  match m with
  | init_msg => Some INIT_MSG
  | test_msg _ _ => Some TEST_MSG
  | a_timer_msg t => tm_type <$> store !! t
  | a_group_record_msg _ => Some GROUP_RECORD_MSG
  | new_source_msg _ _ _ => Some NEW_SOURCE_MSG
  | a_config_msg _ => Some CONFIG_MSG
  | debug_msg => Some DEBUG_MSG
  | exit_cmd => Some EXIT_MSG
  end.

(** ** The environment and the monad *)

(** [e_lost] records the timers whose reminders the database refused, as their
    time points were taken. The program drops this answer of the map; no
    definition reads it. *)
Record env := {
  e_reads : nat;
  e_next : tid;
  e_store : gmap tid timer_msg;
  e_timing : timing_db (W := Z) (M := tid);
  e_lost : list tid;
  e_log : list action
}.

Definition empty_env : env :=
  {| e_reads := 0; e_next := 0%nat; e_store := ∅; e_timing := []; e_lost := []; e_log := [] |}.

Definition M (X : Type) : Type := env -> option (X * env).

#[export] Instance M_ret : MRet M := fun X x e => Some (x, e).
#[export] Instance M_bind : MBind M := fun X Y f m e =>
  match m e with Some (x, e') => f x e' | None => None end.

(** A null pointer is dereferenced. *)
Definition undefined {X} : M X := fun _ => None.

Definition deref {X} (p : option X) : M X :=
  match p with Some x => mret x | None => undefined end.

Context (clk : nat -> Z) (sock : nat -> action -> bool).

(** [std::chrono::steady_clock::now()]. *)
Definition now : M Z := fun e =>
  Some (clk (e_reads e),
        {| e_reads := S (e_reads e); e_next := e_next e; e_store := e_store e;
           e_timing := e_timing e; e_lost := e_lost e; e_log := e_log e |}).

Definition alloc (tm : timer_msg) : M tid := fun e =>
  Some (e_next e,
        {| e_reads := e_reads e; e_next := S (e_next e);
           e_store := <[e_next e := tm]> (e_store e);
           e_timing := e_timing e; e_lost := e_lost e; e_log := e_log e |}).

(** [std::make_shared] of a timer. *)
Definition make_timer (type : message_type) (if_index : Z) (gaddr saddr : option A)
    (duration : Z) : M tid :=
  t0 ← now; alloc (new_timer type if_index gaddr saddr t0 duration).

Definition get_timer (t : tid) : M timer_msg := fun e =>
  match e_store e !! t with Some tm => Some (tm, e) | None => None end.

Definition modify_timer (t : tid) (f : timer_msg -> timer_msg) : M unit := fun e =>
  match e_store e !! t with
  | Some tm => Some (tt, {| e_reads := e_reads e; e_next := e_next e;
                            e_store := <[t := f tm]> (e_store e);
                            e_timing := e_timing e; e_lost := e_lost e; e_log := e_log e |})
  | None => None
  end.

(** [m_db.insert], which does nothing if the time point is taken. *)
Definition insert_reminder (t0 delay w : Z) (t : tid) : M unit := fun e =>
  Some (tt, {| e_reads := e_reads e; e_next := e_next e; e_store := e_store e;
               e_timing := add_time t0 delay (Some w) t (e_timing e);
               e_lost := if sl_find (t0 + ms_to_ns delay) (e_timing e) then e_lost e ++ [t] else e_lost e;
               e_log := e_log e |}).

(** [timing::add_time] for the worker [w]. *)
Definition add_time_msg (delay : Z) (w : Z) (t : tid) : M unit :=
  t0 ← now; insert_reminder t0 delay w t.

(** A socket call and its result. *)
Definition call (a : action) : M bool := fun e =>
  Some (sock (length (e_log e)) a,
        {| e_reads := e_reads e; e_next := e_next e; e_store := e_store e;
           e_timing := e_timing e; e_lost := e_lost e; e_log := e_log e ++ [a] |}).

(** A loop over a list with a state. *)
Fixpoint foldM {X Y} (f : X -> Y -> M X) (x : X) (l : list Y) : M X :=
  match l with
  | [] => mret x
  | y :: l' => x' ← f x y; foldM f x' l'
  end.

Fixpoint forM {Y} (l : list Y) (f : Y -> M unit) : M unit :=
  match l with
  | [] => mret tt
  | y :: l' => f y;; forM l' f
  end.

(** ** Weakest preconditions: the computation has a result that satisfies the
       postcondition. *)

Definition wp {X} (m : M X) (Q : X -> env -> Prop) (e : env) : Prop :=
  match m e with Some (x, e') => Q x e' | None => False end.

Lemma wp_ret {X} (x : X) Q e : Q x e -> wp (mret x) Q e.
Proof. done. Qed.

Lemma wp_bind {X Y} (m : M X) (f : X -> M Y) Q e :
  wp m (fun x e' => wp (f x) Q e') e -> wp (m ≫= f) Q e.
Proof. unfold wp, mbind, M_bind. by destruct (m e) as [[x e']|]. Qed.

Lemma wp_mono {X} (m : M X) (Q Q' : X -> env -> Prop) e :
  wp m Q e -> (forall x e', Q x e' -> Q' x e') -> wp m Q' e.
Proof. unfold wp. destruct (m e) as [[x e']|]; auto. Qed.

Lemma wp_result {X} (m : M X) Q e : wp m Q e -> exists x e', m e = Some (x, e') /\ Q x e'.
Proof. unfold wp. destruct (m e) as [[x e']|]; [eauto|done]. Qed.

Lemma wp_foldM {X Y} (f : X -> Y -> M X) (I : list Y -> X -> env -> Prop) l :
  forall l0 x e, I l0 x e ->
  (forall pre y x e, pre ++ [y] `prefix_of` l0 ++ l -> I pre x e ->
    wp (f x y) (fun x' e' => I (pre ++ [y]) x' e') e) ->
  wp (foldM f x l) (fun x' e' => I (l0 ++ l) x' e') e.
Proof.
  induction l as [|y l IH]; intros l0 x e HI Hf; simpl.
  - apply wp_ret. by rewrite app_nil_r.
  - apply wp_bind. eapply wp_mono.
    { apply (Hf l0); [|done]. exists l. by rewrite <- app_assoc. }
    intros x' e' HI'. replace (l0 ++ y :: l) with ((l0 ++ [y]) ++ l)
      by (by rewrite <- app_assoc). apply IH; [done|].
    intros pre y' x'' e'' Hpre. apply Hf. by rewrite <- app_assoc in Hpre.
Qed.

(** *** Extension of the environment

    Timers are created and never change, the log only grows. *)

(** Every timer but a general query timer is for a group, a timer of the routing
    table also for a source. *)
Definition shape_ok (type : message_type) (gaddr saddr : option A) : Prop :=
  (type = GENERAL_QUERY_TIMER_MSG \/ is_Some gaddr)
  /\ (type = NEW_SOURCE_TIMER_MSG -> is_Some saddr).

(** The identities in use are those below [e_next]; no timer is used as a source
    timer by [filter_time], which has no caller. *)
Record env_wf (e : env) : Prop := {
  ew_next : forall t, (t < e_next e)%nat <-> is_Some (e_store e !! t);
  ew_shape : forall t tm, e_store e !! t = Some tm ->
    tm_is_used_as_source_timer tm = false /\ shape_ok (tm_type tm) (tm_gaddr tm) (tm_saddr tm)
}.

Record env_ext (e e' : env) : Prop := {
  ext_next : (e_next e <= e_next e')%nat;
  ext_store : e_store e ⊆ e_store e';
  ext_log : e_log e `prefix_of` e_log e';
  ext_wf : env_wf e -> env_wf e'
}.

#[export] Instance env_ext_preorder : PreOrder env_ext.
Proof.
  split.
  - intros e. split; auto.
  - intros e1 e2 e3 [] []. split; [lia|by etrans|by etrans|auto].
Qed.

(** Nothing but the clock and the log is touched. *)
Record env_io (e e' : env) : Prop := {
  io_reads : (e_reads e <= e_reads e')%nat;
  io_next : e_next e' = e_next e;
  io_store : e_store e' = e_store e;
  io_timing : e_timing e' = e_timing e;
  io_lost : e_lost e' = e_lost e;
  io_log : e_log e `prefix_of` e_log e'
}.

#[export] Instance env_io_preorder : PreOrder env_io.
Proof.
  split.
  - intros e. by split.
  - intros e1 e2 e3 [] []. split; [lia|congruence..|by etrans].
Qed.

Lemma env_io_ext e e' : env_io e e' -> env_ext e e'.
Proof.
  intros [_ Hn Hs _ _ Hl]. split; [lia|by rewrite Hs|done|].
  intros [Hw1 Hw2]. split; rewrite ?Hn, Hs; done.
Qed.

Definition timer_is (e : env) (t : tid) (type : message_type) (gaddr : option A) : Prop :=
  exists tm, e_store e !! t = Some tm /\ tm_type tm = type /\ tm_gaddr tm = gaddr.

Lemma timer_is_ext e e' t type g : env_ext e e' -> timer_is e t type g -> timer_is e' t type g.
Proof.
  intros Hext (tm & Hs & ? & ?). exists tm. split; [|done].
  by eapply lookup_weaken, ext_store.
Qed.

Lemma wp_now (Q : Z -> env -> Prop) e :
  (forall z e', env_io e e' -> Q z e') -> wp now Q e.
Proof. intros HQ. unfold wp, now. apply HQ. split; simpl; [lia|done..]. Qed.

Lemma wp_call a (Q : bool -> env -> Prop) e :
  (forall b e', env_io e e' -> e_log e' = e_log e ++ [a] -> Q b e') -> wp (call a) Q e.
Proof.
  intros HQ. unfold wp, call. apply HQ; [|done]. split; simpl; try done. by exists [a].
Qed.

Lemma wp_make_timer type i g s d (Q : tid -> env -> Prop) e :
  env_wf e -> shape_ok type g s ->
  (forall e', env_ext e e' -> env_wf e' -> e_next e' = S (e_next e) ->
    timer_is e' (e_next e) type g -> Q (e_next e) e') ->
  wp (make_timer type i g s d) Q e.
Proof.
  intros Hwf Hshape HQ. unfold wp, make_timer, mbind, M_bind, now. simpl.
  assert (Hfresh : e_store e !! e_next e = None).
  { destruct (e_store e !! e_next e) eqn:E; [|done].
    assert (e_next e < e_next e)%nat by (apply (ew_next e Hwf); eauto). lia. }
  match goal with |- Q _ ?e' => assert (Hwf' : env_wf e') end.
  { split; intros t; simpl.
    - destruct (decide (t = e_next e)) as [->|Hne].
      + rewrite lookup_insert_eq. split; [eauto|lia].
      + rewrite lookup_insert_ne by done. rewrite <- (ew_next e Hwf t). lia.
    - intros tm [[<- <-]|[_ Htm]]%lookup_insert_Some; [done|]. by apply (ew_shape e Hwf t). }
  apply HQ; [|done|done|].
  - split; simpl; [lia|by apply insert_subseteq|done|auto].
  - eexists. simpl. by rewrite lookup_insert_eq.
Qed.

Lemma wp_add_time_msg delay w t (Q : unit -> env -> Prop) e :
  (forall e', env_ext e e' -> e_next e' = e_next e -> e_log e' = e_log e -> Q tt e') ->
  wp (add_time_msg delay w t) Q e.
Proof.
  intros HQ. unfold wp, add_time_msg, mbind, M_bind, now. simpl.
  apply HQ; [|done|done]. split; simpl; [done|done|done|]. intros [Hw1 Hw2]. by split.
Qed.

Lemma wp_get_timer t type g (Q : timer_msg -> env -> Prop) e :
  timer_is e t type g -> (forall tm, tm_type tm = type -> tm_gaddr tm = g -> Q tm e) ->
  wp (get_timer t) Q e.
Proof. intros (tm & Hs & ? & ?) HQ. unfold wp, get_timer. rewrite Hs. auto. Qed.

Lemma wp_deref {X} (x : X) Q e : Q x e -> wp (deref (Some x)) Q e.
Proof. done. Qed.
End Messages.

Arguments env : clear implicits.
Arguments M : clear implicits.
Arguments timer_msg : clear implicits.
Arguments source : clear implicits.
Arguments proxy_msg : clear implicits.
Arguments group_record_msg : clear implicits.

#[export] Hint Resolve env_io_ext timer_is_ext : menv.
#[export] Hint Extern 1 (shape_ok _ _ _) =>
  split; [first [by left | right; eexists; reflexivity]
         |first [by intros [=] | intros _; eexists; reflexivity]] : menv.

(** Step through a computation. *)
Ltac wp_step :=
  match goal with
  | |- wp (mret _) _ _ => apply wp_ret
  | |- wp (mbind _ _) _ _ => apply wp_bind
  | |- wp now _ _ => apply wp_now; intros ? ? ?
  | |- wp (call _ _) _ _ => apply wp_call; intros ? ? ? ?
  | |- wp (add_time_msg _ _ _ _) _ _ => apply wp_add_time_msg; intros ? ? ? ?
  | |- wp (deref (Some _)) _ _ => apply wp_deref
  end.
