(* ===== verification/Sender.v ===== *)
(** * Senders (include/proxy/sender.hpp, src/proxy/igmp_sender.cpp, src/proxy/mld_sender.cpp)

    [Sender] is the interface the querier and the routing use: the virtual
    methods of class [sender], with the laws the querier relies on
    ([SenderLaws]). [igmp_sender] and [mld_sender] implement it. A query is
    kept as the fields of its packet; [QueryPacket] lays out its octets. *)

From S2P Require Import Prelude Def TimersValues AddrStorage Timing Messages.

Local Open Scope Z_scope.

Definition IPV4_ALL_HOST_ADDR : addr_storage := ip4 224 0 0 1.
Definition IPV6_ALL_NODES_ADDR : addr_storage := ip6 0xff02 1.

Section Sender.
Context {A : Type} `{Address A} (clk : nat -> Z) (sock : nat -> action -> bool).

(** The virtual methods; the source specific query also returns the source
    list with the retransmission counters it changed. *)
Record sender := {
  send_record : Z -> mc_filter -> addr_storage -> list (source A) -> M A bool;
  send_general_query : Z -> timers_values -> M A bool;
  send_mc_addr_specific_query : Z -> timers_values -> A -> bool -> M A bool;
  send_mc_addr_and_src_specific_query :
    Z -> timers_values -> A -> list (source A) -> M A (bool * list (source A))
}.

(** The side effect of a source specific query on a source. *)
Definition count_down (s : source A) : source A :=
  if 0 <? retransmission_count s
  then set_timer s (shared_source_timer s) (retransmission_count s - 1) else s.

Definition counting (s : source A) : bool := 0 <? retransmission_count s.

Definition sources_live (e : env A) (l : list (source A)) : Prop :=
  Forall (fun s => forall t, shared_source_timer s = Some t -> is_Some (e_store e !! t)) l.

(** What the querier relies on: a sender returns, it touches nothing but the
    sockets and the clock, and a source specific query counts down. *)
Class SenderLaws (snd : sender) : Prop := {
  send_record_law i mf g l e :
    wp (send_record snd i mf g l) (fun _ e' => env_io e e') e;
  send_general_query_law i tv e :
    wp (send_general_query snd i tv) (fun _ e' => env_io e e') e;
  send_mc_addr_specific_query_law i tv g s e :
    wp (send_mc_addr_specific_query snd i tv g s) (fun _ e' => env_io e e') e;
  send_mc_addr_and_src_specific_query_law i tv g l e :
    sources_live e l ->
    wp (send_mc_addr_and_src_specific_query snd i tv g l)
       (fun r e' => env_io e e' /\ r = (existsb counting (count_down <$> l), count_down <$> l)) e
}.

(** ** The loop over the source list, the same in both senders *)

Definition query_step (tv : timers_values)
    (acc : bool * list (source A) * list (source A) * list (source A)) (s : source A)
    : M A (bool * list (source A) * list (source A) * list (source A)) :=
  let '(rc, out, lower, higher) := acc in
  if 0 <? retransmission_count s then
    let s := set_timer s (shared_source_timer s) (retransmission_count s - 1) in
    let rc := if 0 <? retransmission_count s then true else rc in
    match shared_source_timer s with
    | Some t =>
      tm ← get_timer t;
      t0 ← now clk;
      if is_remaining_time_greater_than t0 (get_last_listener_query_time tv) tm
      then mret (rc, out ++ [s], lower, sl_insert s higher)
      else mret (rc, out ++ [s], sl_insert s lower, higher)
    | None => mret (rc, out ++ [s], lower, higher)
    end
  else mret (rc, out ++ [s], lower, higher).

Definition query_loop (tv : timers_values) (slist : list (source A))
    : M A (bool * list (source A) * list (source A) * list (source A)) :=
  foldM (query_step tv) (false, [], [], []) slist.

Definition qrv_field (tv : timers_values) : Z :=
  if get_robustness_variable tv <=? 7 then get_robustness_variable tv else 0.

(** ** [igmp_sender] *)

Definition igmp_send_record (if_index : Z) (filter_mode : mc_filter) (gaddr : addr_storage)
    (slist : list (source A)) : M A bool :=
  if bool_decide (filter_mode = INCLUDE_MODE) && bool_decide (slist = [])
  then call sock (LeaveGroup gaddr if_index);; mret true
  else if bool_decide (filter_mode = EXCLUDE_MODE) || bool_decide (filter_mode = INCLUDE_MODE)
  then call sock (JoinGroup gaddr if_index);;
       call sock (SetSourceFilter if_index gaddr filter_mode
                    ((fun s => to_storage (saddr s)) <$> slist))
  else mret false.

Definition send_igmpv3_query (if_index : Z) (tv : timers_values) (gaddr : addr_storage)
    (s_flag : bool) (slist : list (source A)) : M A bool :=
  let general := operator_eq gaddr (of_family AF_INET) in
  let q := {|
    q_if_index := if_index;
    q_dst := if general then IPV4_ALL_HOST_ADDR else gaddr;
    q_group := gaddr;
    q_max_resp_code :=
      if general then maxrespi_to_maxrespc_igmpv3 (get_query_response_interval tv)
      else maxrespi_to_maxrespc_igmpv3 (get_last_listener_query_time tv);
    q_suppress := s_flag;
    q_qrv := qrv_field tv;
    q_qqic := qqi_to_qqic (get_query_interval tv);
    q_num_of_srcs := Z.of_nat (length slist) mod 2 ^ 16;
    q_sources := (fun s => to_storage (saddr s)) <$> slist |} in
  ok ← call sock (ChooseIf if_index);
  if negb ok then mret false else call sock (SendQuery q).

Definition igmp_source_query (if_index : Z) (tv : timers_values) (gaddr : A)
    (slist : list (source A)) : M A (bool * list (source A)) :=
  r ← query_loop tv slist;
  let '(rc, out, lower, higher) := r in
  (if negb (bool_decide (higher = []))
   then send_igmpv3_query if_index tv (to_storage gaddr) true higher else mret false);;
  (if negb (bool_decide (lower = []))
   then send_igmpv3_query if_index tv (to_storage gaddr) false lower else mret false);;
  mret (rc, out).

Definition igmp_sender : sender := {|
  send_record := igmp_send_record;
  send_general_query i tv := send_igmpv3_query i tv (of_family AF_INET) false [];
  send_mc_addr_specific_query i tv g s := send_igmpv3_query i tv (to_storage g) s [];
  send_mc_addr_and_src_specific_query := igmp_source_query
|}.

(** ** [mld_sender] *)

(** The second test repeats [EXCLUDE_MODE], as in the source. *)
Definition mld_send_record (if_index : Z) (filter_mode : mc_filter) (gaddr : addr_storage)
    (slist : list (source A)) : M A bool :=
  if bool_decide (filter_mode = INCLUDE_MODE) && bool_decide (slist = [])
  then call sock (LeaveGroup gaddr if_index);; mret true
  else if bool_decide (filter_mode = EXCLUDE_MODE) || bool_decide (filter_mode = EXCLUDE_MODE)
  then call sock (JoinGroup gaddr if_index);;
       call sock (SetSourceFilter if_index gaddr filter_mode
                    ((fun s => to_storage (saddr s)) <$> slist))
  else mret false.

Definition send_mldv2_query (if_index : Z) (tv : timers_values) (gaddr : addr_storage)
    (s_flag : bool) (slist : list (source A)) : M A bool :=
  let general := operator_eq gaddr (of_family AF_INET6) in
  let q := {|
    q_if_index := if_index;
    q_dst := if general then IPV6_ALL_NODES_ADDR else gaddr;
    q_group := gaddr;
    q_max_resp_code :=
      if general then maxrespi_to_maxrespc_mldv2 (get_query_response_interval tv)
      else maxrespi_to_maxrespc_mldv2 (get_last_listener_query_time tv);
    q_suppress := s_flag;
    q_qrv := qrv_field tv;
    q_qqic := qqi_to_qqic (get_query_interval tv);
    q_num_of_srcs := Z.of_nat (length slist) mod 2 ^ 16;
    q_sources := (fun s => to_storage (saddr s)) <$> slist |} in
  ok ← call sock (ChooseIf if_index);
  if negb ok then mret false else call sock (SendQuery q).

Definition mld_source_query (if_index : Z) (tv : timers_values) (gaddr : A)
    (slist : list (source A)) : M A (bool * list (source A)) :=
  r ← query_loop tv slist;
  let '(rc, out, lower, higher) := r in
  (if negb (bool_decide (higher = []))
   then send_mldv2_query if_index tv (to_storage gaddr) true higher else mret false);;
  (if negb (bool_decide (lower = []))
   then send_mldv2_query if_index tv (to_storage gaddr) false lower else mret false);;
  mret (rc, out).

Definition mld_sender : sender := {|
  send_record := mld_send_record;
  send_general_query i tv := send_mldv2_query i tv (of_family AF_INET6) false [];
  send_mc_addr_specific_query i tv g s := send_mldv2_query i tv (to_storage g) s [];
  send_mc_addr_and_src_specific_query := mld_source_query
|}.

(** ** The loop *)

(** The sources a source specific query asks for. *)
Definition queried (s : source A) : bool :=
  counting s && bool_decide (is_Some (shared_source_timer s)).

Record loop_inv (e : env A) (pre : list (source A))
    (acc : bool * list (source A) * list (source A) * list (source A)) (e' : env A) : Prop := {
  li_io : env_io e e';
  li_out : acc.1.1.2 = count_down <$> pre;
  li_rc : acc.1.1.1 = existsb counting (count_down <$> pre);
  li_keys : sl_keys acc.1.2 ∪ sl_keys acc.2 = sl_keys (List.filter queried pre);
  li_disj : sl_ordered pre -> sl_keys acc.1.2 ## sl_keys acc.2
}.

Lemma sl_keys_insert (s : source A) l : sl_keys (sl_insert s l) = {[key s]} ∪ sl_keys l.
Proof.
  apply set_eq. intros k. rewrite elem_of_union, !elem_of_sl_keys, sl_find_insert.
  destruct (sl_find k l) eqn:E; [naive_solver|].
  case_bool_decide; rewrite elem_of_singleton; split; try naive_solver.
Qed.

Lemma sl_keys_app (l r : list (source A)) : sl_keys (l ++ r) = sl_keys l ∪ sl_keys r.
Proof. unfold sl_keys. by rewrite fmap_app, list_to_set_app_L. Qed.

Lemma sl_keys_filter_subseteq p (l : list (source A)) : sl_keys (List.filter p l) ⊆ sl_keys l.
Proof.
  intros k. rewrite !elem_of_sl_keys_In. intros (x & Hx & <-). exists x.
  rewrite list_elem_of_In, filter_In, <- list_elem_of_In in Hx. tauto.
Qed.

Lemma ordered_snoc (l : list (source A)) x :
  sl_ordered (l ++ [x]) -> sl_ordered l /\ key x ∉ sl_keys l.
Proof.
  induction l as [|y l IH]; cbn [app]; intros Hs.
  { split; [constructor|]. unfold sl_keys. set_solver. }
  inversion Hs as [|? ? Hs' Hy]; subst. destruct (IH Hs') as [Hl Hx].
  rewrite Forall_app in Hy. destruct Hy as [Hy Hyx]. inversion Hyx; subst.
  split; [by constructor|]. rewrite sl_keys_cons, not_elem_of_union, not_elem_of_singleton.
  split; [|done]. intros E. by apply (key_ltb_ne (key y) (key x)).
Qed.

Lemma wp_get_live t (Q : timer_msg A -> env A -> Prop) e :
  is_Some (e_store e !! t) -> (forall tm, Q tm e) -> wp (get_timer t) Q e.
Proof. intros [tm Ht] HQ. unfold wp, get_timer. rewrite Ht. auto. Qed.

Lemma count_down_idle s : counting s = false -> count_down s = s.
Proof. unfold counting, count_down. by intros ->. Qed.

Lemma count_down_counting s :
  counting s = true ->
  count_down s = set_timer s (shared_source_timer s) (retransmission_count s - 1).
Proof. unfold counting, count_down. by intros ->. Qed.

Lemma query_step_spec tv e pre s acc e' :
  (forall t, shared_source_timer s = Some t -> is_Some (e_store e !! t)) ->
  loop_inv e pre acc e' ->
  wp (query_step tv acc s) (fun acc' e'' => loop_inv e (pre ++ [s]) acc' e'') e'.
Proof.
  intros Hlive [Hio Hout Hrc Hkeys Hdisj]. destruct acc as [[[rc out] lower] higher].
  simpl in *. unfold query_step. fold (counting s).
  assert (Hstep : forall lower' higher' e'',
    env_io e e'' ->
    (lower' = lower /\ higher' = higher /\ queried s = false
     \/ lower' = sl_insert (count_down s) lower /\ higher' = higher /\ queried s = true
     \/ lower' = lower /\ higher' = sl_insert (count_down s) higher /\ queried s = true) ->
    loop_inv e (pre ++ [s])
      (if counting (count_down s) then true else rc, out ++ [count_down s], lower', higher') e'').
  { assert (Hk : key (count_down s) = key s) by (unfold count_down; by case_if).
    intros lower' higher' e'' Hio' Hcase. split; simpl.
    - done.
    - by rewrite Hout, fmap_app.
    - rewrite Hrc, fmap_app, existsb_app. simpl. rewrite orb_false_r.
      destruct (counting (count_down s)), (existsb counting (count_down <$> pre)); done.
    - rewrite List.filter_app, sl_keys_app, <- Hkeys. simpl.
      destruct Hcase as [(-> & -> & ->)|[(-> & -> & ->)|(-> & -> & ->)]];
        rewrite ?sl_keys_insert, ?sl_keys_cons, ?Hk; unfold sl_keys; simpl; set_solver.
    - intros [Hpre Hs]%ordered_snoc. specialize (Hdisj Hpre).
      assert (sl_keys lower ∪ sl_keys higher ⊆ sl_keys pre) as Hsub
        by (rewrite Hkeys; apply sl_keys_filter_subseteq).
      destruct Hcase as [(-> & -> & _)|[(-> & -> & _)|(-> & -> & _)]];
        rewrite ?sl_keys_insert, ?Hk; set_solver. }
  unfold queried in Hstep. destruct (counting s) eqn:Hc; simpl in Hstep.
  - cbn [set_timer shared_source_timer retransmission_count].
    rewrite (count_down_counting s Hc) in Hstep. unfold counting in Hstep.
    cbn [set_timer retransmission_count] in Hstep.
    destruct (shared_source_timer s) as [t|] eqn:Ht.
    + apply wp_bind, wp_get_live; [rewrite (io_store _ _ Hio); by apply Hlive|].
      intros tm. apply wp_bind, wp_now. intros z e'' Hio''.
      assert (env_io e e'') by (by etrans).
      case_if; apply wp_ret, Hstep; auto 10.
    + apply wp_ret, Hstep; [done|]. left. auto.
  - apply wp_ret. rewrite (count_down_idle s Hc) in Hstep. rewrite Hc in Hstep.
    apply Hstep; auto.
Qed.

Lemma query_loop_spec tv e l :
  sources_live e l -> wp (query_loop tv l) (fun acc e' => loop_inv e l acc e') e.
Proof.
  intros Hlive. apply (wp_foldM (query_step tv) (loop_inv e) l []); [by split|].
  intros pre s acc e' [k Hk] Hinv. apply query_step_spec; [|done].
  unfold sources_live in Hlive. rewrite Forall_forall in Hlive. apply Hlive.
  simpl in Hk. rewrite Hk. set_solver.
Qed.

(** ** Both senders satisfy the laws *)

Ltac io_step :=
  repeat first
    [ apply wp_ret; reflexivity || (etrans; eassumption) || eassumption
    | apply wp_bind
    | apply wp_call; intros ? ? ? ?; try (etrans; eassumption); try eassumption
    | case_if ].

Lemma igmp_query_io i tv g s l e :
  wp (send_igmpv3_query i tv g s l) (fun _ e' => env_io e e') e.
Proof. unfold send_igmpv3_query. io_step. Qed.

Lemma mld_query_io i tv g s l e :
  wp (send_mldv2_query i tv g s l) (fun _ e' => env_io e e') e.
Proof. unfold send_mldv2_query. io_step. Qed.

Lemma wp_io_trans {X} (m : M A X) (Q : X -> env A -> Prop) e0 e :
  env_io e0 e -> wp m (fun _ e' => env_io e e') e ->
  (forall x e', env_io e0 e' -> Q x e') -> wp m Q e.
Proof. intros H0 Hm HQ. eapply wp_mono; [exact Hm|]. intros x e' ?. apply HQ. by etrans. Qed.

Lemma source_query_law (send : bool -> list (source A) -> M A bool) tv l e :
  (forall s r e, wp (send s r) (fun _ e' => env_io e e') e) ->
  sources_live e l ->
  wp (r ← query_loop tv l;
      let '(rc, out, lower, higher) := r in
      (if negb (bool_decide (higher = [])) then send true higher else mret false);;
      (if negb (bool_decide (lower = [])) then send false lower else mret false);;
      mret (rc, out))
     (fun r e' => env_io e e' /\ r = (existsb counting (count_down <$> l), count_down <$> l)) e.
Proof.
  intros Hsend Hlive. apply wp_bind. eapply wp_mono; [by apply query_loop_spec|].
  intros [[[rc out] lower] higher] e1 [Hio Hout Hrc _ _]. simpl in Hout, Hrc. subst rc out.
  apply wp_bind, (wp_io_trans _ _ e); [done|case_if; [apply Hsend|by apply wp_ret]|].
  intros _ e2 Hio2. apply wp_bind, (wp_io_trans _ _ e);
    [done|case_if; [apply Hsend|by apply wp_ret]|].
  intros _ e3 Hio3. by apply wp_ret.
Qed.

#[export] Instance igmp_sender_laws : SenderLaws igmp_sender.
Proof.
  split.
  - intros. unfold igmp_sender, send_record, igmp_send_record. io_step.
  - intros. apply igmp_query_io.
  - intros. apply igmp_query_io.
  - intros i tv g l e Hl. apply (source_query_law (send_igmpv3_query i tv (to_storage g)));
      [|done]. intros; apply igmp_query_io.
Qed.

#[export] Instance mld_sender_laws : SenderLaws mld_sender.
Proof.
  split.
  - intros. unfold mld_sender, send_record, mld_send_record. io_step.
  - intros. apply mld_query_io.
  - intros. apply mld_query_io.
  - intros i tv g l e Hl. apply (source_query_law (send_mldv2_query i tv (to_storage g)));
      [|done]. intros; apply mld_query_io.
Qed.

(** A source specific query asks for exactly the sources that are in
    retransmission (a positive counter) and have a timer: each is in one of
    the two source lists (with and without the S flag), and in one only. The
    counters of all sources in retransmission go down by one, and the result
    says whether a retransmission is still due. *)
Theorem source_query_partition tv l e :
  sl_ordered l -> sources_live e l ->
  wp (query_loop tv l)
    (fun '(rc, out, lower, higher) _ =>
      sl_keys lower ∪ sl_keys higher = sl_keys (List.filter queried l)
      /\ sl_keys lower ## sl_keys higher
      /\ out = count_down <$> l /\ rc = existsb counting out) e.
Proof.
  intros Hl Hlive. eapply wp_mono; [by apply query_loop_spec|].
  intros [[[rc out] lower] higher] e' [_ Hout Hrc Hkeys Hdisj]. simpl in *. subst out.
  split_and!; auto.
Qed.

(** [igmp_sender::send_record] sets the kernel's reception state to the
    record: an empty INCLUDE leaves the group, anything else joins it and
    installs the filter mode with the addresses of the source list. *)
Theorem igmp_send_record_state i mf g l e :
  wp (igmp_send_record i mf g l)
    (fun _ e' => e_log e' = e_log e ++
      (if bool_decide (mf = INCLUDE_MODE) && bool_decide (l = []) then [LeaveGroup g i]
       else [JoinGroup g i; SetSourceFilter i g mf ((fun s => to_storage (saddr s)) <$> l)])) e.
Proof.
  unfold igmp_send_record.
  destruct (bool_decide (mf = INCLUDE_MODE) && bool_decide (l = [])).
  - apply wp_bind, wp_call. intros b e' _ He'. by apply wp_ret.
  - assert (bool_decide (mf = EXCLUDE_MODE) || bool_decide (mf = INCLUDE_MODE) = true) as ->
      by (by destruct mf).
    apply wp_bind, wp_call. intros b e' _ He'. apply wp_call. intros b' e'' _ He''.
    cbn beta. by rewrite He'', He', <- app_assoc.
Qed.

(** [mld_sender::send_record] does not: an INCLUDE record with sources is
    answered with [false] and no call to the kernel at all, so on IPv6 source
    specific requests never leave the proxy; EXCLUDE and empty INCLUDE
    records behave as with IGMP. *)
Theorem mld_send_record_state i mf g l e :
  mld_send_record i mf g l e =
    if bool_decide (mf = INCLUDE_MODE) && negb (bool_decide (l = []))
    then Some (false, e) else igmp_send_record i mf g l e.
Proof.
  unfold mld_send_record, igmp_send_record.
  destruct mf; simpl; [|done]. by destruct (bool_decide (l = [])).
Qed.
End Sender.

(** A source in retransmission and one that is not. *)
Definition two_sources : list (source ipv4) :=
  [set_timer (new_source (mk_ipv4 10 0 0 1)) None 2; new_source (mk_ipv4 10 0 0 2)].

Lemma two_sources_ordered : sl_ordered two_sources.
Proof. repeat constructor. Qed.

Lemma two_sources_live : sources_live empty_env two_sources.
Proof. repeat (apply Forall_cons_2; [intros t [=]|]). apply Forall_nil_2. Qed.

Lemma source_query_partition_witness :
  wp (query_loop (fun n => Z.of_nat n) new_timers_values two_sources)
     (fun '(rc, out, lower, higher) _ =>
        sl_keys lower ∪ sl_keys higher = sl_keys (List.filter queried two_sources)
        /\ sl_keys lower ## sl_keys higher
        /\ out = count_down <$> two_sources /\ rc = existsb counting out) empty_env.
Proof.
  exact (source_query_partition (fun n => Z.of_nat n) new_timers_values two_sources empty_env
    two_sources_ordered two_sources_live).
Defined.
