(* ===== verification/QueryPacket.v ===== *)
(** * Packets of the senders (calc_checksum of src/utils/mroute_socket.cpp,
      send_igmpv3_query of src/proxy/igmp_sender.cpp, send_mldv2_query and
      add_hbh_opt_header of src/proxy/mld_sender.cpp)

    The octets of the queries: headers, checksums and sources. The structures of
    the program are packed, and fields of several octets are in network order;
    only the checksum is computed and stored in the byte order of the machine,
    a parameter. *)

From S2P Require Import Prelude Def TimersValues AddrStorage Timing Messages Sender.

Local Open Scope Z_scope.

(** ** Checksum *)

Inductive endian := LITTLE_ENDIAN | BIG_ENDIAN.

(** The 16-bit value of two octets in memory, and back. *)
Definition host16 (e : endian) (b0 b1 : Z) : Z :=
  match e with LITTLE_ENDIAN => b0 + 256 * b1 | BIG_ENDIAN => 256 * b0 + b1 end.

Definition store16 (e : endian) (v : Z) : list Z :=
  match e with
  | LITTLE_ENDIAN => [v mod 256; v / 256 mod 256]
  | BIG_ENDIAN => [v / 256 mod 256; v mod 256]
  end.

(** The two loops over the buffer: words, then a last odd octet. *)
Fixpoint sum_words (e : endian) (buf : list Z) : Z :=
  match buf with
  | b0 :: b1 :: buf' => host16 e b0 b1 + sum_words e buf'
  | [b] => b
  | [] => 0
  end.

(** The sum is an [int]: beyond its range the behaviour is undefined, [None]. *)
Definition calc_checksum (e : endian) (buf : list Z) : option Z :=
  let sum := sum_words e buf in
  if sum <? 2 ^ 31 then
    let csum := Z.land sum 0xffff in
    let sum := Z.shiftr sum 16 in
    let sum := sum + csum in
    let sum := sum + Z.shiftr sum 16 in
    Some (Z.lnot sum mod 2 ^ 16)
  else None.

(** *** The checksum as the ones' complement of the ones' complement sum *)

(** The representative of a sum between 0 and 65535. *)
Definition fold16 (s : Z) : Z :=
  let x := s / 2 ^ 16 + s mod 2 ^ 16 in if x <? 2 ^ 16 then x else x - (2 ^ 16 - 1).

Lemma calc_checksum_fold e buf :
  0 <= sum_words e buf < 2 ^ 31 -> calc_checksum e buf = Some (2 ^ 16 - 1 - fold16 (sum_words e buf)).
Proof.
  intros Hs. unfold calc_checksum, fold16. set (s := sum_words e buf) in *.
  rewrite (proj2 (Z.ltb_lt s _)) by lia. f_equal.
  change 0xffff with (Z.ones 16). rewrite Z.land_ones, !Z.shiftr_div_pow2 by lia.
  set (x := s / 2 ^ 16 + s mod 2 ^ 16).
  assert (Hx : 0 <= x < 2 ^ 16 + 2 ^ 15).
  { unfold x. pose proof (Z.mod_pos_bound s (2 ^ 16)). pose proof (Z.div_pos s (2 ^ 16)).
    assert (s / 2 ^ 16 < 2 ^ 15) by (apply Z.div_lt_upper_bound; lia). lia. }
  unfold Z.lnot, Z.pred. destruct (Z.ltb_spec x (2 ^ 16)) as [Hl|Hl].
  - rewrite (Z.div_small x) by lia. rewrite Z.add_0_r.
    rewrite <- (Z.mod_add _ 1) by lia. rewrite Z.mod_small; lia.
  - replace (x / 2 ^ 16) with 1 by (apply (Z.div_unique x _ _ (x - 2 ^ 16)); lia).
    rewrite <- (Z.mod_add _ 2) by lia. rewrite Z.mod_small; lia.
Qed.

Lemma fold16_spec s :
  0 <= s < 2 ^ 31 ->
  0 <= fold16 s < 2 ^ 16 /\ (exists k, fold16 s = s - k * (2 ^ 16 - 1)) /\ (fold16 s = 0 -> s = 0)
  /\ fold16 s <= s.
Proof.
  intros Hs. unfold fold16. pose proof (Z.div_mod s (2 ^ 16)). pose proof (Z.mod_pos_bound s (2 ^ 16)).
  pose proof (Z.div_pos s (2 ^ 16)).
  assert (s / 2 ^ 16 < 2 ^ 15) by (apply Z.div_lt_upper_bound; lia).
  destruct (Z.ltb_spec (s / 2 ^ 16 + s mod 2 ^ 16) (2 ^ 16)).
  - split_and!; [lia|lia|exists (s / 2 ^ 16); lia|lia|lia].
  - split_and!; [lia|lia|exists (s / 2 ^ 16 + 1); lia|lia|lia].
Qed.

(** Adding the checksum makes the sum a multiple of 65535. *)
Lemma fold16_complete s :
  0 <= s < 2 ^ 31 - 2 ^ 16 -> fold16 (s + (2 ^ 16 - 1 - fold16 s)) = 2 ^ 16 - 1.
Proof.
  intros Hs. destruct (fold16_spec s) as (Hf & [k Hk] & H0 & Hle); [lia|].
  destruct (fold16_spec (s + (2 ^ 16 - 1 - fold16 s))) as (Hf' & [k' Hk'] & H0' & _); [lia|].
  assert (fold16 (s + (2 ^ 16 - 1 - fold16 s)) <> 0) by (intros E; specialize (H0' E); lia). nia.
Qed.

Lemma octets_nil : Forall is_octet [].
Proof. constructor. Qed.

Lemma host16_bound e b0 b1 : is_octet b0 -> is_octet b1 -> 0 <= host16 e b0 b1 < 2 ^ 16.
Proof. unfold is_octet, host16. destruct e; lia. Qed.

Lemma sum_words_bound e n buf :
  Forall is_octet buf -> (length buf <= 2 * n)%nat -> 0 <= sum_words e buf <= Z.of_nat n * (2 ^ 16 - 1).
Proof.
  revert buf. induction n as [|n IH]; intros buf Hb Hn.
  { destruct buf; [cbn; lia|cbn in Hn; lia]. }
  destruct buf as [|b0 [|b1 buf]]; [cbn; lia| |].
  - apply Forall_cons in Hb as [Hb _]. unfold is_octet in Hb. cbn [sum_words]. lia.
  - apply Forall_cons in Hb as [H0 Hb]. apply Forall_cons in Hb as [H1 Hb]. cbn [sum_words].
    pose proof (host16_bound e b0 b1 H0 H1). cbn in Hn. specialize (IH buf Hb ltac:(lia)). lia.
Qed.

Lemma sum_words_limit e buf :
  Forall is_octet buf -> 0 <= sum_words e buf /\ 2 * sum_words e buf <= (Z.of_nat (length buf) + 1) * (2 ^ 16 - 1).
Proof.
  intros Hb. pose proof (Nat.div_mod (length buf + 1) 2). pose proof (Nat.mod_upper_bound (length buf + 1) 2).
  pose proof (sum_words_bound e ((length buf + 1) / 2) buf Hb ltac:(lia)). lia.
Qed.

Lemma sum_words_app e l r :
  Nat.even (length l) = true -> sum_words e (l ++ r) = sum_words e l + sum_words e r.
Proof.
  revert l. fix IH 1. intros [|b0 [|b1 l]] Hl; [done|done|]. cbn [app sum_words]. rewrite IH by done. lia.
Qed.

Lemma store16_sum e v : 0 <= v < 2 ^ 16 -> sum_words e (store16 e v) = v.
Proof.
  intros Hv. pose proof (Z.div_mod v 256). assert (0 <= v / 256 < 256) by
    (split; [apply Z.div_pos; lia|apply Z.div_lt_upper_bound; lia]).
  destruct e; cbn [store16 sum_words host16]; rewrite (Z.mod_small (v / 256)) by lia; lia.
Qed.

(** A header with its checksum: computed with the field zero, then stored. *)
Definition fill_checksum (e : endian) (pre post : list Z) : option (list Z) :=
  c ← calc_checksum e (pre ++ [0; 0] ++ post);
  Some (pre ++ store16 e c ++ post).

(** ** IGMPv3 queries *)

Definition htons (v : Z) : list Z := store16 BIG_ENDIAN (v mod 2 ^ 16).

(** The octet of the bit fields [resv2], [suppress] and [qrv]. *)
Definition query_flags (q : query) : Z :=
  Z.lor (Z.shiftl (if q_suppress q then 1 else 0) 3) (q_qrv q mod 8).

Definition source_octets (get : addr_storage -> list Z) (q : query) : list Z :=
  concat (get <$> q_sources q).

(** The IP header with the router alert option; [src] is the address of the
    interface. *)
Definition igmp_ip_header (e : endian) (src : list Z) (size : Z) (dst : addr_storage)
    : option (list Z) :=
  fill_checksum e ([0x46; 0] ++ htons size ++ [0; 0; 0x40; 0; 1; 2])
    (src ++ sin_addr dst ++ [0x94; 4; 0; 0]).

Definition igmpv3_query (e : endian) (q : query) : option (list Z) :=
  fill_checksum e [0x11; q_max_resp_code q mod 256]
    (sin_addr (q_group q) ++ [query_flags q; q_qqic q mod 256] ++ htons (q_num_of_srcs q)
     ++ source_octets sin_addr q).

Definition igmp_query_packet (e : endian) (src : list Z) (q : query) : option (list Z) :=
  let size := 20 + 4 + 12 + Z.of_nat (length (source_octets sin_addr q)) in
  ip ← igmp_ip_header e src size (q_dst q);
  igmp ← igmpv3_query e q;
  Some (ip ++ igmp).

(** ** MLDv2 queries: the kernel fills the checksum. *)

Definition mldv2_query (q : query) : list Z :=
  [130; 0; 0; 0] ++ htons (q_max_resp_code q) ++ [0; 0] ++ sin6_addr (q_group q)
  ++ [query_flags q; q_qqic q mod 256] ++ htons (q_num_of_srcs q) ++ source_octets sin6_addr q.

(** The hop by hop header with the router alert option and a padding of two
    octets that is stored as a number. *)
Definition hbh_opt_header (e : endian) : list Z := [58; 0; 5; 2; 0; 0] ++ store16 e 1.

(** ** Reading a query (RFC 3376 4.1, RFC 3810 5.1) *)

Record query_fields := {
  f_type : Z;
  f_max_resp_code : Z;
  f_group : list Z;
  f_suppress : bool;
  f_qrv : Z;
  f_qqic : Z;
  f_sources : list (list Z)
}.

Fixpoint addresses (asz n : nat) (l : list Z) : list (list Z) :=
  match n with
  | O => []
  | S n => take asz l :: addresses asz n (drop asz l)
  end.

Definition decode_rest (asz : nat) (type code : Z) (l : list Z) : option query_fields :=
  match drop asz l with
  | flags :: qqic :: n1 :: n0 :: rest =>
    let n := Z.to_nat (256 * n1 + n0) in
    if (length rest =? n * asz)%nat then
      Some {| f_type := type; f_max_resp_code := code; f_group := take asz l;
              f_suppress := Z.testbit flags 3; f_qrv := Z.land flags 7; f_qqic := qqic;
              f_sources := addresses asz n rest |}
    else None
  | _ => None
  end.

Definition decode_igmpv3 (l : list Z) : option query_fields :=
  match l with
  | type :: code :: _ :: _ :: rest => decode_rest 4 type code rest
  | _ => None
  end.

Definition decode_mldv2 (l : list Z) : option query_fields :=
  match l with
  | type :: 0 :: _ :: _ :: m1 :: m0 :: _ :: _ :: rest => decode_rest 16 type (256 * m1 + m0) rest
  | _ => None
  end.

(** What a receiver is to read of a query: the fields in their widths. *)
Definition fields_of (get : addr_storage -> list Z) (type code : Z) (q : query) : query_fields :=
  {| f_type := type; f_max_resp_code := code; f_group := get (q_group q);
     f_suppress := q_suppress q; f_qrv := q_qrv q mod 8; f_qqic := q_qqic q mod 256;
     f_sources := get <$> q_sources q |}.

(** A query whose addresses have [asz] octets. *)
Record query_ok (get : addr_storage -> list Z) (asz : nat) (limit : Z) (q : query) : Prop := {
  qo_group : octets asz (get (q_group q));
  qo_sources : Forall (fun a => octets asz (get a)) (q_sources q);
  qo_num : q_num_of_srcs q = Z.of_nat (length (q_sources q));
  qo_limit : Z.of_nat (length (q_sources q)) <= limit
}.

(** *** Lemmas *)

Lemma store16_octets e v : octets 2 (store16 e v).
Proof.
  split; [by destruct e|].
  destruct e; repeat (apply Forall_cons_2; [apply Z.mod_pos_bound; lia|]); apply Forall_nil_2.
Qed.

Lemma fill_checksum_valid e pre post :
  Nat.even (length pre) = true -> Forall is_octet pre -> Forall is_octet post ->
  Z.of_nat (length pre + length post) <= 65531 ->
  exists c, fill_checksum e pre post = Some (pre ++ store16 e c ++ post)
    /\ calc_checksum e (pre ++ store16 e c ++ post) = Some 0.
Proof.
  intros Hev Hpre Hpost Hlen. unfold fill_checksum.
  set (s := sum_words e pre + sum_words e post).
  assert (Hs : forall v, 0 <= v < 2 ^ 16 -> sum_words e (pre ++ store16 e v ++ post) = s + v).
  { intros v Hv. rewrite sum_words_app, (sum_words_app e (store16 e v)), store16_sum by (done || by destruct e).
    unfold s. lia. }
  assert (Hb : 0 <= s <= 32766 * (2 ^ 16 - 1)).
  { unfold s. rewrite <- sum_words_app by done.
    pose proof (sum_words_limit e (pre ++ post)) as Hl. rewrite length_app in Hl.
    destruct Hl; [by apply Forall_app|]. lia. }
  change [0; 0] with (store16 LITTLE_ENDIAN 0).
  replace (store16 LITTLE_ENDIAN 0) with (store16 e 0) by (by destruct e).
  destruct (fold16_spec s) as (Hf & _); [lia|].
  rewrite calc_checksum_fold by (rewrite Hs; lia). rewrite Hs, Z.add_0_r by lia.
  eexists. split; [reflexivity|]. rewrite calc_checksum_fold by (rewrite Hs; lia).
  rewrite Hs, fold16_complete by lia. done.
Qed.

Lemma htons_value v : 0 <= v < 2 ^ 16 -> exists n1 n0, htons v = [n1; n0] /\ 256 * n1 + n0 = v.
Proof.
  intros Hv. unfold htons. rewrite Z.mod_small by lia. cbn [store16]. eexists _, _. split; [reflexivity|].
  assert (0 <= v / 256 < 256) by (split; [apply Z.div_pos; lia|apply Z.div_lt_upper_bound; lia]).
  rewrite (Z.mod_small (v / 256)) by lia. pose proof (Z.div_mod v 256). lia.
Qed.

Lemma concat_octets (get : addr_storage -> list Z) asz l :
  Forall (fun a => octets asz (get a)) l ->
  Forall is_octet (concat (get <$> l)) /\ length (concat (get <$> l)) = (length l * asz)%nat.
Proof.
  induction 1 as [|a l [Ha Hoct] Hl [IH1 IH2]]; [by split|]. cbn. rewrite Forall_app, length_app, Ha, IH2.
  by split.
Qed.

Lemma addresses_concat (get : addr_storage -> list Z) asz l :
  Forall (fun a => octets asz (get a)) l -> addresses asz (length l) (concat (get <$> l)) = get <$> l.
Proof.
  induction 1 as [|a l [Ha _] Hl IH]; [done|]. cbn. by rewrite take_app_length', drop_app_length', IH.
Qed.

Lemma query_flags_bits q :
  is_octet (query_flags q) /\ Z.testbit (query_flags q) 3 = q_suppress q
  /\ Z.land (query_flags q) 7 = q_qrv q mod 8.
Proof.
  unfold query_flags. pose proof (Z.mod_pos_bound (q_qrv q) 8 ltac:(lia)) as Hm.
  set (r := q_qrv q mod 8) in *. clearbody r.
  assert (r = 0 \/ r = 1 \/ r = 2 \/ r = 3 \/ r = 4 \/ r = 5 \/ r = 6 \/ r = 7) as Hr by lia.
  unfold is_octet. destruct (q_suppress q); destruct_or! Hr; subst r; vm_compute; intuition congruence.
Qed.

Lemma decode_rest_ok (get : addr_storage -> list Z) asz limit type code q :
  query_ok get asz limit q -> limit < 2 ^ 16 ->
  decode_rest asz type code (get (q_group q) ++ [query_flags q; q_qqic q mod 256]
    ++ htons (q_num_of_srcs q) ++ source_octets get q) = Some (fields_of get type code q).
Proof.
  intros [[Hg _] Hs Hn Hl] Hlim. unfold decode_rest, source_octets. rewrite drop_app_length' by done.
  destruct (htons_value (q_num_of_srcs q)) as (n1 & n0 & -> & Hv); [lia|]. cbn [app].
  rewrite Hv, Hn, Nat2Z.id. destruct (concat_octets get asz (q_sources q) Hs) as [_ ->].
  rewrite Nat.eqb_refl, take_app_length' by done. rewrite addresses_concat by done.
  destruct (query_flags_bits q) as (_ & -> & ->). done.
Qed.

(** Literal octets. *)
Ltac octs := repeat (apply Forall_cons_2; [first [apply Z.mod_pos_bound; lia|by split|idtac]|]);
  try apply Forall_nil_2.

(** C33: The IGMPv3 query the sender builds for up to 16374 sources, as many as fit
    into an IP packet, is valid: its length is the one of the IP header, both
    checksums are correct on machines of either byte order, and a receiver reads
    from it exactly the fields and sources of the query. (The code has no check for
    longer lists: the length field wraps, [igmp_query_packet_wraps].) *)
Theorem igmp_query_packet_valid e src q :
  octets 4 src -> octets 4 (sin_addr (q_dst q)) -> query_ok sin_addr 4 16374 q ->
  exists pkt, igmp_query_packet e src q = Some pkt
    /\ be_value (take 2 (drop 2 pkt)) = Z.of_nat (length pkt)
    /\ calc_checksum e (take 24 pkt) = Some 0 /\ calc_checksum e (drop 24 pkt) = Some 0
    /\ decode_igmpv3 (drop 24 pkt) = Some (fields_of sin_addr 0x11 (q_max_resp_code q mod 256) q).
Proof.
  intros [Hsl Hso] [Hdl Hdo] Hq. pose proof Hq as [[Hgl Hgo] Hss Hn Hlim].
  destruct (concat_octets sin_addr 4 (q_sources q) Hss) as [Hco Hcl].
  unfold igmp_query_packet. set (size := 20 + 4 + 12 + _).
  assert (Hsize : size = 36 + 4 * Z.of_nat (length (q_sources q)))
    by (unfold size, source_octets; rewrite Hcl; lia).
  assert (Hb : forall v, Forall is_octet (htons v)) by (intros v; apply store16_octets).
  destruct (htons_value size) as (s1 & s0 & Es & Hsv); [lia|].
  destruct (htons_value (q_num_of_srcs q)) as (n1 & n0 & En & Hnv); [lia|].
  destruct (fill_checksum_valid e ([0x46; 0] ++ htons size ++ [0; 0; 0x40; 0; 1; 2])
    (src ++ sin_addr (q_dst q) ++ [0x94; 4; 0; 0])) as (c1 & E1 & V1).
  { by rewrite Es. }
  { rewrite !Forall_app. split_and!; [by octs|done|by octs]. }
  { rewrite !Forall_app. split_and!; [done|done|by octs]. }
  { rewrite Es, !length_app, Hsl, Hdl. cbn. lia. }
  destruct (fill_checksum_valid e [0x11; q_max_resp_code q mod 256]
    (sin_addr (q_group q) ++ [query_flags q; q_qqic q mod 256] ++ htons (q_num_of_srcs q)
     ++ source_octets sin_addr q)) as (c2 & E2 & V2).
  { done. }
  { octs. }
  { rewrite !Forall_app. split_and!; [done| |done|done]. octs. apply query_flags_bits. }
  { rewrite En, !length_app, Hgl. unfold source_octets. rewrite Hcl. cbn. lia. }
  unfold igmp_ip_header, igmpv3_query. rewrite E1, E2. cbn [mbind option_bind].
  eexists. split; [reflexivity|].
  assert (Hl24 : length (([0x46; 0] ++ htons size ++ [0; 0; 0x40; 0; 1; 2]) ++ store16 e c1
    ++ src ++ sin_addr (q_dst q) ++ [0x94; 4; 0; 0]) = 24%nat).
  { rewrite Es, !length_app, Hsl, Hdl. by destruct e. }
  split_and!.
  - rewrite length_app, Hl24. unfold source_octets. rewrite !length_app, En, Hgl, Hcl, Es.
    pose proof (store16_octets e c2) as [-> _]. unfold be_value. cbn [app drop take fold_left length].
    lia.
  - by rewrite take_app_length'.
  - by rewrite drop_app_length'.
  - rewrite drop_app_length' by done.
    pose proof (decode_rest_ok sin_addr 4 16374 0x11 (q_max_resp_code q mod 256) q Hq ltac:(lia)) as Hd.
    destruct e; exact Hd.
Qed.

(** With more sources the length does not fit into its field. *)
Lemma igmp_query_packet_wraps e src q pkt :
  octets 4 src -> octets 4 (sin_addr (q_dst q)) -> octets 4 (sin_addr (q_group q)) ->
  Forall (fun a => octets 4 (sin_addr a)) (q_sources q) -> 16374 < Z.of_nat (length (q_sources q)) ->
  igmp_query_packet e src q = Some pkt -> be_value (take 2 (drop 2 pkt)) < Z.of_nat (length pkt).
Proof.
  intros [Hsl _] [Hdl _] [Hgl _] Hss Hn. destruct (concat_octets sin_addr 4 (q_sources q) Hss) as [_ Hcl].
  unfold igmp_query_packet, igmp_ip_header, igmpv3_query, fill_checksum.
  intros (ip & (c1 & _ & [= <-])%bind_Some & (igmp & (c2 & _ & [= <-])%bind_Some & [= <-])%bind_Some)%bind_Some.
  set (size := 20 + 4 + 12 + _).
  assert (Hlen : Z.of_nat (length (source_octets sin_addr q)) = 4 * Z.of_nat (length (q_sources q)))
    by (unfold source_octets; rewrite Hcl; lia).
  assert (H2 : forall e v, length (store16 e v) = 2%nat) by (intros []; done).
  unfold be_value. cbn [app drop take fold_left length].
  repeat (rewrite length_app; cbn [length]). rewrite !H2.
  pose proof (Z.mod_pos_bound (size mod 2 ^ 16 / 256) 256). pose proof (Z.mod_pos_bound (size mod 2 ^ 16) 256).
  cbn [length]. lia.
Qed.

(** The MLDv2 query is read back exactly, too. *)
Theorem mld_query_read_back q :
  query_ok sin6_addr 16 4000 q ->
  decode_mldv2 (mldv2_query q) = Some (fields_of sin6_addr 130 (q_max_resp_code q mod 2 ^ 16) q).
Proof.
  intros Hq. unfold mldv2_query.
  assert (Hm : 0 <= q_max_resp_code q mod 2 ^ 16 < 2 ^ 16) by (apply Z.mod_pos_bound; lia).
  destruct (htons_value (q_max_resp_code q mod 2 ^ 16) Hm) as (m1 & m0 & Em & Hmv).
  assert (Eh : htons (q_max_resp_code q) = [m1; m0])
    by (rewrite <- Em; unfold htons; by rewrite Z.mod_mod by lia).
  rewrite Eh. cbn [app decode_mldv2]. rewrite Hmv. by apply (decode_rest_ok _ _ 4000).
Qed.

(** The queries the IGMP sender hands to its socket are of this kind. *)
Lemma igmp_sent_query_ok sock if_index tv (gaddr : addr_storage) s_flag (slist : list (source ipv4)) e b e' q :
  same_family AF_INET gaddr -> Z.of_nat (length slist) <= 16374 ->
  send_igmpv3_query sock if_index tv gaddr s_flag slist e = Some (b, e') ->
  SendQuery q ∈ drop (length (e_log e)) (e_log e') ->
  query_ok sin_addr 4 16374 q /\ octets 4 (sin_addr (q_dst q)).
Proof.
  intros Hg Hl. unfold send_igmpv3_query, mbind, M_bind, call. cbn [e_log].
  assert (Hs : forall l : list (source ipv4),
    Forall (fun a => octets 4 (sin_addr a)) ((fun s => to_storage (saddr s)) <$> l)).
  { intros l. apply Forall_fmap, Forall_forall. intros s _. apply ipv4_storage_family. }
  destruct (sock (length (e_log e)) (ChooseIf if_index)); cbn [negb]; intros [= <- <-]; cbn [e_log].
  2: { rewrite drop_app_length. by intros [=]%list_elem_of_singleton. }
  rewrite <- app_assoc, drop_app_length. cbn [app].
  intros [[=]|[= ->]%list_elem_of_singleton]%elem_of_cons. split.
  - split; cbn; [apply Hg|apply Hs| |by rewrite length_fmap].
    rewrite length_fmap, Z.mod_small; lia.
  - cbn. destruct (operator_eq _ _); [|apply Hg]. split; [done|]. octs.
Qed.

Definition ex_query : query :=
  {| q_if_index := 3; q_dst := ip4 224 0 0 1; q_group := of_family AF_INET; q_max_resp_code := 100;
     q_suppress := true; q_qrv := 2; q_qqic := 125; q_num_of_srcs := 1;
     q_sources := [ip4 10 0 0 1] |}.

Lemma ex_query_ok : query_ok sin_addr 4 16374 ex_query.
Proof. split; [split; [done|octs]| |done|cbn; lia]. apply Forall_cons_2; [split; [done|octs]|apply Forall_nil_2]. Qed.

Lemma igmp_query_packet_valid_witness :
  exists pkt, igmp_query_packet LITTLE_ENDIAN [192; 168; 0; 1] ex_query = Some pkt
    /\ be_value (take 2 (drop 2 pkt)) = Z.of_nat (length pkt)
    /\ calc_checksum LITTLE_ENDIAN (take 24 pkt) = Some 0
    /\ calc_checksum LITTLE_ENDIAN (drop 24 pkt) = Some 0
    /\ decode_igmpv3 (drop 24 pkt) = Some (fields_of sin_addr 0x11 (100 mod 256) ex_query).
Proof.
  apply (igmp_query_packet_valid LITTLE_ENDIAN [192; 168; 0; 1] ex_query);
    [split; [done|octs]|split; [done|octs]|exact ex_query_ok].
Defined.
