(* ===== verification/IfProp.v ===== *)
(** * Properties of the network interfaces (include/utils/if_prop.hpp,
      src/utils/if_prop.cpp, include/proxy/check_if.hpp, src/proxy/check_if.cpp)

    The addresses of the interfaces as the C library lists them, grouped by the
    name of the interface, and the monitor of the running state that compares
    two such snapshots. The answer of [getifaddrs] is an argument: nothing on
    failure, else the address of the list in memory and its entries. A null
    pointer that is dereferenced gives no result. *)

From S2P Require Import Prelude Def AddrStorage.

Local Open Scope Z_scope.

(** ** [if_prop] *)

(** [ifa_addr] has the family [AF_UNSPEC] for a family that is not IP. *)
Record ifaddrs := {
  ifa_name : string;
  ifa_flags : Z;
  ifa_addr : option addr_storage;
  ifa_dstaddr : option addr_storage
}.

Record ipv4_6_pair := {
  ip4_addr : option ifaddrs;
  ip6_addr : list ifaddrs
}.

Record if_prop := {
  m_if_map : gmap string ipv4_6_pair;
  m_if_addrs : Z   (* the address of the list, 0 for null *)
}.

Implicit Types (p : if_prop) (e : ifaddrs) (name : string).

Definition new_if_prop : if_prop := {| m_if_map := ∅; m_if_addrs := 0 |}.

Definition is_getaddrs_valid p : bool := negb (m_if_addrs p =? 0).

(** The body of the loop over the list. *)
Definition add_ifaddrs (m : gmap string ipv4_6_pair) e : gmap string ipv4_6_pair :=
  match ifa_addr e with
  | None => m
  | Some a =>
    match ss_family a with
    | AF_INET =>
      match m !! ifa_name e with
      | Some q =>
        match ip4_addr q with
        | Some _ => m
        | None => <[ifa_name e := {| ip4_addr := Some e; ip6_addr := ip6_addr q |}]> m
        end
      | None => <[ifa_name e := {| ip4_addr := Some e; ip6_addr := [] |}]> m
      end
    | AF_INET6 =>
      match m !! ifa_name e with
      | Some q => <[ifa_name e := {| ip4_addr := ip4_addr q; ip6_addr := ip6_addr q ++ [e] |}]> m
      | None => <[ifa_name e := {| ip4_addr := None; ip6_addr := [e] |}]> m
      end
    | AF_UNSPEC => m
    end
  end.

(** What [freeifaddrs] is called for. *)
Definition free_if_addrs p : list Z := if is_getaddrs_valid p then [m_if_addrs p] else [].

Definition refresh_network_interfaces (answer : option (Z * list ifaddrs)) p
    : bool * if_prop * list Z :=
  match answer with
  | None => (false, {| m_if_map := ∅; m_if_addrs := m_if_addrs p |}, free_if_addrs p)
  | Some (addr, l) =>
    (true, {| m_if_map := foldl add_ifaddrs ∅ l; m_if_addrs := addr |}, free_if_addrs p)
  end.

(** A null pointer is [None]. *)
Definition get_ip4_if name p : option ifaddrs :=
  if is_getaddrs_valid p then q ← m_if_map p !! name; ip4_addr q else None.

Definition get_ip6_if name p : option (list ifaddrs) :=
  if is_getaddrs_valid p then ip6_addr <$> m_if_map p !! name else None.

(** ** [check_if] *)

Definition IFF_RUNNING : Z := 64.

(** [m_current_prop] points to one of the two snapshots; it is not set before
    [init]. *)
Inductive which := PropA | PropB.

Record check_if := {
  c_addr_family : addr_family;
  m_if_property_a : if_prop;
  m_if_property_b : if_prop;
  m_current_prop : option which;
  m_check_lst : list Z;
  m_swap_to_up : list Z;
  m_swap_to_down : list Z
}.

Definition new_check_if : check_if :=
  {| c_addr_family := AF_UNSPEC; m_if_property_a := new_if_prop; m_if_property_b := new_if_prop;
     m_current_prop := None; m_check_lst := []; m_swap_to_up := []; m_swap_to_down := [] |}.

(** The entry an interface is judged by, which must exist. *)
Definition family_if (f : addr_family) name p : option ifaddrs :=
  match f with
  | AF_INET6 => l ← get_ip6_if name p; head l
  | _ => get_ip4_if name p
  end.

Definition is_running e : bool := negb (Z.land (ifa_flags e) IFF_RUNNING =? 0).

Section Check.
Context (if_indextoname : Z -> option string).

(** The loop of [init]; the name of an unknown interface is a null pointer. *)
Fixpoint down_interfaces (f : addr_family) p (l : list Z) : option (list Z) :=
  match l with
  | [] => Some []
  | i :: l' =>
    name ← if_indextoname i;
    match f with
    | AF_UNSPEC => Some []
    | _ =>
      e ← family_if f name p;
      r ← down_interfaces f p l';
      Some (if is_running e then r else i :: r)
    end
  end.

Definition init (answer : option (Z * list ifaddrs)) (check_lst : list Z) (f : addr_family)
    (c : check_if) : option (list Z * check_if) :=
  let a := (refresh_network_interfaces answer (m_if_property_a c)).1.2 in
  result ← down_interfaces f a check_lst;
  Some (result, {| c_addr_family := f; m_if_property_a := a; m_if_property_b := m_if_property_b c;
                   m_current_prop := Some PropA; m_check_lst := check_lst;
                   m_swap_to_up := m_swap_to_up c; m_swap_to_down := m_swap_to_down c |}).

(** The loop of [check]: the interfaces that changed to up and to down. *)
Fixpoint changed_interfaces (f : addr_family) (p_new p_old : if_prop) (l : list Z)
    : option (list Z * list Z) :=
  match l with
  | [] => Some ([], [])
  | i :: l' =>
    name ← if_indextoname i;
    prop_new ← family_if f name p_new;
    prop_old ← family_if f name p_old;
    '(up, down) ← changed_interfaces f p_new p_old l';
    Some (if negb (Z.land (Z.lxor (ifa_flags prop_new) (ifa_flags prop_old)) IFF_RUNNING =? 0) then
            if is_running prop_new then (i :: up, down) else (up, i :: down)
          else (up, down))
  end.

Definition check (answer : option (Z * list ifaddrs)) (c : check_if) : option (bool * check_if) :=
  current ← m_current_prop c;
  let f := c_addr_family c in
  match current with
  | PropA =>
    let b := (refresh_network_interfaces answer (m_if_property_b c)).1.2 in
    '(up, down) ← changed_interfaces f b (m_if_property_a c) (m_check_lst c);
    Some (true, {| c_addr_family := f; m_if_property_a := m_if_property_a c; m_if_property_b := b;
                   m_current_prop := Some PropB; m_check_lst := m_check_lst c;
                   m_swap_to_up := up; m_swap_to_down := down |})
  | PropB =>
    let a := (refresh_network_interfaces answer (m_if_property_a c)).1.2 in
    '(up, down) ← changed_interfaces f a (m_if_property_b c) (m_check_lst c);
    Some (true, {| c_addr_family := f; m_if_property_a := a; m_if_property_b := m_if_property_b c;
                   m_current_prop := Some PropA; m_check_lst := m_check_lst c;
                   m_swap_to_up := up; m_swap_to_down := down |})
  end.
End Check.

(** ** The map of a snapshot *)

(** The entries of an interface in an address family. *)
Definition entries_of (f : addr_family) name (l : list ifaddrs) : list ifaddrs :=
  filter (fun e => ifa_name e = name /\ ss_family <$> ifa_addr e = Some f) l.

(** What the map says of an interface after the entries of a list. *)
Definition grouped name (l : list ifaddrs) : option ipv4_6_pair :=
  match entries_of AF_INET name l, entries_of AF_INET6 name l with
  | [], [] => None
  | l4, l6 => Some {| ip4_addr := head l4; ip6_addr := l6 |}
  end.

Lemma entries_of_snoc f name l e :
  entries_of f name (l ++ [e]) = entries_of f name l
    ++ (if bool_decide (ifa_name e = name /\ ss_family <$> ifa_addr e = Some f) then [e] else []).
Proof. unfold entries_of. rewrite filter_app. f_equal. cbn. by repeat case_decide || case_bool_decide. Qed.

Lemma add_ifaddrs_lookup name l e (m : gmap string ipv4_6_pair) :
  m !! name = grouped name l -> add_ifaddrs m e !! name = grouped name (l ++ [e]).
Proof.
  intros Hm. unfold grouped in *. rewrite !entries_of_snoc. unfold add_ifaddrs.
  destruct (ifa_addr e) as [a|]; cbn [fmap option_fmap option_map];
    [|rewrite !bool_decide_eq_false_2, !app_nil_r by naive_solver; done].
  destruct (decide (ifa_name e = name)) as [Hn|Hn].
  - rewrite Hn, Hm. destruct (ss_family a) eqn:Ef.
    all: repeat (let Hb := fresh in case_bool_decide as Hb; [try (by destruct Hb)|try (by destruct Hb)]).
    all: destruct (entries_of AF_INET name l), (entries_of AF_INET6 name l); cbn;
      rewrite ?lookup_insert_eq, ?app_nil_r, ?Hm; done.
  - rewrite !bool_decide_eq_false_2, !app_nil_r by naive_solver.
    destruct (ss_family a); repeat case_match; rewrite ?lookup_insert_ne by done; done.
Qed.

Lemma foldl_add_ifaddrs name l : foldl add_ifaddrs ∅ l !! name = grouped name l.
Proof.
  induction l as [|e l IH] using rev_ind; [done|]. rewrite foldl_app. by apply add_ifaddrs_lookup.
Qed.

(** A snapshot holds for every interface the first IPv4 entry and all IPv6
    entries of the list in their order; an interface without an IP address is
    not known. *)
Theorem refresh_groups_by_name addr l p name :
  addr <> 0 ->
  exists p', refresh_network_interfaces (Some (addr, l)) p = (true, p', free_if_addrs p)
    /\ get_ip4_if name p' = head (entries_of AF_INET name l)
    /\ get_ip6_if name p' = (if bool_decide (entries_of AF_INET name l = [] /\ entries_of AF_INET6 name l = [])
                             then None else Some (entries_of AF_INET6 name l)).
Proof.
  intros Ha. eexists. split; [reflexivity|]. unfold get_ip4_if, get_ip6_if, is_getaddrs_valid. cbn [m_if_addrs m_if_map].
  rewrite (proj2 (Z.eqb_neq _ _) Ha), foldl_add_ifaddrs. unfold grouped. cbn [negb].
  destruct (entries_of AF_INET name l), (entries_of AF_INET6 name l); by cbn.
Qed.

(** ** The memory of the snapshots *)

(** Snapshots one after the other and the destructor: what is freed. *)
Fixpoint freed_by (answers : list (option (Z * list ifaddrs))) p : list Z :=
  match answers with
  | [] => free_if_addrs p
  | a :: answers' => let '(_, p', fr) := refresh_network_interfaces a p in fr ++ freed_by answers' p'
  end.

(** As long as the lists can be read each of them is freed once. *)
Lemma snapshots_freed_once answers p :
  Forall (fun a => exists addr l, a = Some (addr, l) /\ addr <> 0) answers ->
  freed_by answers p = free_if_addrs p ++ omap (fmap fst) answers.
Proof.
  intros Ha. revert p. induction Ha as [|a answers (addr & l & -> & Hn) Ha IH]; intros p; cbn;
    [by rewrite app_nil_r|]. rewrite IH. unfold free_if_addrs at 2, is_getaddrs_valid. cbn.
  by rewrite (proj2 (Z.eqb_neq _ _) Hn).
Qed.

(** If a later one cannot be read, the list before it is freed twice. *)
Lemma failed_refresh_frees_twice addr l :
  addr <> 0 -> freed_by [Some (addr, l); None] new_if_prop = [addr; addr].
Proof.
  intros Hn. cbn. unfold free_if_addrs, is_getaddrs_valid. cbn.
  by rewrite (proj2 (Z.eqb_neq _ _) Hn).
Qed.

(** ** Tracking the running state *)

Lemma running_changed e_new e_old :
  negb (Z.land (Z.lxor (ifa_flags e_new) (ifa_flags e_old)) IFF_RUNNING =? 0)
    = xorb (is_running e_new) (is_running e_old).
Proof.
  unfold is_running, IFF_RUNNING. change 64 with (2 ^ 6).
  assert (H : forall x, negb (Z.land x (2 ^ 6) =? 0) = Z.testbit x 6).
  { intros x. destruct (Z.testbit x 6) eqn:E.
    - apply negb_true_iff, Z.eqb_neq. intros H0. apply (f_equal (fun z => Z.testbit z 6)) in H0.
      rewrite Z.land_spec, E, Z.bits_0 in H0. done.
    - apply negb_false_iff, Z.eqb_eq, Z.bits_inj'. intros n Hn. rewrite Z.land_spec, Z.bits_0.
      destruct (decide (n = 6)) as [->|Hne]; [by rewrite E|].
      rewrite (Z.pow2_bits_false 6 n) by lia. apply andb_false_r. }
  by rewrite !H, Z.lxor_spec.
Qed.

Section Tracking.
Context (if_indextoname : Z -> option string) (f : addr_family) (lst : list Z).
Hypothesis ip_family : f <> AF_UNSPEC.

(** The running state of an interface in an answer of the C library. *)
Definition state_of (l : list ifaddrs) (i : Z) : option bool :=
  name ← if_indextoname i; is_running <$> head (entries_of f name l).

(** An answer that lists all monitored interfaces. *)
Definition complete (l : list ifaddrs) : Prop := forall i, i ∈ lst -> is_Some (state_of l i).

Lemma family_if_refreshed name addr l p :
  addr <> 0 ->
  family_if f name (refresh_network_interfaces (Some (addr, l)) p).1.2 = head (entries_of f name l).
Proof.
  intros Ha. unfold family_if, get_ip4_if, get_ip6_if, is_getaddrs_valid. cbn.
  rewrite (proj2 (Z.eqb_neq _ _) Ha), foldl_add_ifaddrs. unfold grouped.
  destruct f; [done| |]; destruct (entries_of AF_INET name l), (entries_of AF_INET6 name l); done.
Qed.

(** The snapshot [p] holds the answer [l]. *)
Definition holds p (l : list ifaddrs) : Prop :=
  forall name, family_if f name p = head (entries_of f name l).

Lemma state_of_entry l i p :
  holds p l -> is_Some (state_of l i) ->
  exists name e, if_indextoname i = Some name /\ family_if f name p = Some e
    /\ state_of l i = Some (is_running e).
Proof.
  intros Hp [b Hb]. unfold state_of in *. destruct (if_indextoname i) as [name|]; [|done].
  cbn in *. pose proof (Hp name) as He. destruct (head _) as [e|]; [|done]. by exists name, e.
Qed.

Lemma down_interfaces_spec p l idx :
  holds p l -> (forall i, i ∈ idx -> is_Some (state_of l i)) ->
  exists r, down_interfaces if_indextoname f p idx = Some r
    /\ forall i, i ∈ r <-> i ∈ idx /\ state_of l i = Some false.
Proof.
  intros Hp. induction idx as [|i idx IH]; intros Hs; [exists []; set_solver|].
  destruct IH as (r & Hr & Hin); [set_solver|].
  destruct (state_of_entry l i p Hp) as (name & e & Hn & He & Hi); [set_solver|].
  cbn [down_interfaces]. rewrite Hn. cbn [mbind option_bind]. rewrite He, Hr. cbn [mbind option_bind].
  destruct f; [done| |];
    (eexists; split; [reflexivity|]; intros k; destruct (is_running e); rewrite ?elem_of_cons, Hin;
     naive_solver congruence).
Qed.

Lemma changed_interfaces_spec p_new p_old l_new l_old idx :
  holds p_new l_new -> holds p_old l_old ->
  (forall i, i ∈ idx -> is_Some (state_of l_new i) /\ is_Some (state_of l_old i)) ->
  exists up down, changed_interfaces if_indextoname f p_new p_old idx = Some (up, down)
    /\ forall i, (i ∈ up <-> i ∈ idx /\ state_of l_new i = Some true /\ state_of l_old i = Some false)
              /\ (i ∈ down <-> i ∈ idx /\ state_of l_new i = Some false /\ state_of l_old i = Some true).
Proof.
  intros Hn Ho. induction idx as [|i idx IH]; intros Hs; [exists [], []; set_solver|].
  destruct IH as (up & down & Hr & Hin); [set_solver|]. destruct (Hs i) as [Hsn Hso]; [set_solver|].
  destruct (state_of_entry l_new i p_new Hn Hsn) as (name & e & Hname & He & Hi).
  destruct (state_of_entry l_old i p_old Ho Hso) as (? & e' & Hname' & He' & Hi').
  rewrite Hname in Hname'. injection Hname' as <-.
  cbn [changed_interfaces]. rewrite Hname. cbn [mbind option_bind]. rewrite He. cbn [mbind option_bind].
  rewrite He'. cbn [mbind option_bind]. rewrite Hr. cbn [mbind option_bind]. rewrite running_changed.
  destruct (is_running e) eqn:Re, (is_running e') eqn:Re'; cbn [xorb];
    (eexists _, _; split; [reflexivity|]; intros k; rewrite ?elem_of_cons; destruct (Hin k);
     naive_solver congruence).
Qed.

(** *** A client that keeps the list of interfaces that are down *)

Fixpoint monitor (answers : list (option (Z * list ifaddrs))) (c : check_if) (down : list Z)
    : option (list Z) :=
  match answers with
  | [] => Some down
  | a :: answers' =>
    '(_, c') ← check if_indextoname a c;
    monitor answers' c' (filter (fun i => i ∉ m_swap_to_up c') down ++ m_swap_to_down c')
  end.

Definition current_if_prop (c : check_if) : option if_prop :=
  w ← m_current_prop c; Some (match w with PropA => m_if_property_a c | PropB => m_if_property_b c end).

(** The monitor at an answer of the library. *)
Definition at_answer (l : list ifaddrs) (c : check_if) : Prop :=
  c_addr_family c = f /\ m_check_lst c = lst /\ exists p, current_if_prop c = Some p /\ holds p l.

Lemma check_spec addr l_new l_old c :
  addr <> 0 -> complete l_new -> complete l_old -> at_answer l_old c ->
  exists c', check if_indextoname (Some (addr, l_new)) c = Some (true, c') /\ at_answer l_new c'
    /\ forall i, (i ∈ m_swap_to_up c' <-> i ∈ lst /\ state_of l_new i = Some true /\ state_of l_old i = Some false)
              /\ (i ∈ m_swap_to_down c' <-> i ∈ lst /\ state_of l_new i = Some false /\ state_of l_old i = Some true).
Proof.
  intros Ha Hnew Hold (Hf & Hl & p & Hp & Hh).
  assert (Hch : forall q, exists up down,
    changed_interfaces if_indextoname f (refresh_network_interfaces (Some (addr, l_new)) q).1.2 p lst = Some (up, down)
    /\ forall i, (i ∈ up <-> i ∈ lst /\ state_of l_new i = Some true /\ state_of l_old i = Some false)
              /\ (i ∈ down <-> i ∈ lst /\ state_of l_new i = Some false /\ state_of l_old i = Some true)).
  { intros q. apply changed_interfaces_spec; [intros ?; by apply family_if_refreshed|done|]. auto. }
  unfold check, current_if_prop in *. destruct (m_current_prop c) as [[]|]; [| |done];
    cbn [mbind option_bind] in *; injection Hp as ->; rewrite Hf, Hl.
  - destruct (Hch (m_if_property_b c)) as (up & down & -> & Hud). eexists. split; [reflexivity|].
    split; [|done]. split_and!; [done..|]. eexists. split; [reflexivity|].
    intros ?. by apply family_if_refreshed.
  - destruct (Hch (m_if_property_a c)) as (up & down & -> & Hud). eexists. split; [reflexivity|].
    split; [|done]. split_and!; [done..|]. eexists. split; [reflexivity|].
    intros ?. by apply family_if_refreshed.
Qed.

Lemma monitor_spec answers l c down :
  Forall (fun a => exists addr l, a = Some (addr, l) /\ addr <> 0 /\ complete l) answers ->
  complete l -> at_answer l c -> (forall i, i ∈ down <-> i ∈ lst /\ state_of l i = Some false) ->
  exists d, monitor answers c down = Some d
    /\ forall i, i ∈ d <-> i ∈ lst /\ state_of (default l (snd <$> (mjoin (last answers)))) i = Some false.
Proof.
  intros Ha. revert l c down. induction Ha as [|a answers (addr & l' & -> & Hn & Hc') Ha IH];
    intros l c down Hc Hat Hd; [by exists down|].
  destruct (check_spec addr l' l c Hn Hc' Hc Hat) as (c' & E & Hat' & Hud). cbn [monitor].
  rewrite E. cbn [mbind option_bind].
  destruct (IH l' c' (filter (fun i => i ∉ m_swap_to_up c') down ++ m_swap_to_down c')) as (d & Hm & Hin); [done..| |].
  - intros i. rewrite elem_of_app, list_elem_of_filter, Hd. destruct (Hud i) as [-> ->].
    split; [|intros [Hi Hs]; destruct (Hc i Hi) as [[] Hs0]; rewrite Hs0; naive_solver congruence].
    intros [[Hnu [Hi Hs]]|?]; [|naive_solver]. split; [done|].
    destruct (Hc' i Hi) as [[] Hs']; [|done]. destruct Hnu. done.
  - exists d. split; [done|]. intros i. rewrite Hin. destruct answers as [|a' answers]; [done|].
    rewrite last_cons_cons. destruct (last (a' :: answers)) eqn:El; [|by apply last_None in El].
    cbn. destruct o; [done|]. apply last_Some_elem_of in El. rewrite Forall_forall in Ha.
    by destruct (Ha _ El) as (? & ? & ? & _).
Qed.

(** C36: As long as every answer of getifaddrs succeeds and lists every monitored
    interface, a client that starts with the result of [init] and applies the
    changes of every [check] knows the interfaces that are down: after any number
    of checks its list holds exactly the monitored interfaces that do not run in
    the last answer of the system. *)
Theorem monitor_tracks_running addr l answers :
  addr <> 0 -> complete l ->
  Forall (fun a => exists addr l, a = Some (addr, l) /\ addr <> 0 /\ complete l) answers ->
  exists d0 c d, init if_indextoname (Some (addr, l)) lst f new_check_if = Some (d0, c)
    /\ monitor answers c d0 = Some d
    /\ forall i, i ∈ d <-> i ∈ lst /\ state_of (default l (snd <$> mjoin (last answers))) i = Some false.
Proof.
  intros Hn Hc Ha. set (p := (refresh_network_interfaces (Some (addr, l)) new_if_prop).1.2).
  assert (Hp : holds p l) by (intros ?; by apply family_if_refreshed).
  destruct (down_interfaces_spec p l lst Hp Hc) as (d0 & Hd & Hin).
  unfold init. cbn [m_if_property_a new_check_if]. fold p. rewrite Hd. cbn [mbind option_bind].
  edestruct (monitor_spec answers l) as (d & Hm & Hdown); [done|done| |exact Hin|].
  2: { eexists _, _, d. split; [reflexivity|]. split; [exact Hm|exact Hdown]. }
  split_and!; [done..|]. by exists p.
Qed.
End Tracking.

Definition ex_entry (name : string) (flags : Z) : ifaddrs :=
  {| ifa_name := name; ifa_flags := flags; ifa_addr := Some (ip4 10 0 0 1); ifa_dstaddr := None |}.

Definition ex_if_name (i : Z) : option string := if i =? 2 then Some "eth0" else Some "eth1".

Lemma monitor_tracks_running_witness : exists d0 c d,
  init ex_if_name (Some (1, [ex_entry "eth0" 64; ex_entry "eth1" 1])) [2; 3] AF_INET new_check_if = Some (d0, c)
  /\ monitor ex_if_name [Some (5, [ex_entry "eth1" 65; ex_entry "eth0" 1])] c d0 = Some d
  /\ forall i, i ∈ d <-> i ∈ [2; 3] /\ state_of ex_if_name AF_INET [ex_entry "eth1" 65; ex_entry "eth0" 1] i = Some false.
Proof.
  apply (monitor_tracks_running ex_if_name AF_INET [2; 3] ltac:(done) 1
           [ex_entry "eth0" 64; ex_entry "eth1" 1]
           [Some (5, [ex_entry "eth1" 65; ex_entry "eth0" 1])]); [done| |].
  - intros i Hi. rewrite !elem_of_cons in Hi. destruct Hi as [->|[->|Hi%elem_of_nil]]; [| |done];
      eexists; vm_compute; reflexivity.
  - repeat constructor. eexists 5, _. split; [reflexivity|]. split; [done|].
    intros i Hi. rewrite !elem_of_cons in Hi. destruct Hi as [->|[->|Hi%elem_of_nil]]; [| |done];
      eexists; vm_compute; reflexivity.
Defined.

Lemma refresh_groups_by_name_witness : exists p',
  refresh_network_interfaces (Some (7, [ex_entry "lo" 73; ex_entry "lo" 64])) new_if_prop = (true, p', [])
  /\ get_ip4_if "lo" p' = head (entries_of AF_INET "lo" [ex_entry "lo" 73; ex_entry "lo" 64])
  /\ get_ip6_if "lo" p' = (if bool_decide (entries_of AF_INET "lo" [ex_entry "lo" 73; ex_entry "lo" 64] = []
                              /\ entries_of AF_INET6 "lo" [ex_entry "lo" 73; ex_entry "lo" 64] = [])
                           then None else Some (entries_of AF_INET6 "lo" [ex_entry "lo" 73; ex_entry "lo" 64])).
Proof. apply (refresh_groups_by_name 7 [ex_entry "lo" 73; ex_entry "lo" 64] new_if_prop "lo"). lia. Defined.
