(* ===== verification/InterfaceAddr.v ===== *)
(** * The addresses of the interfaces in the table (get_saddr, is_interface and
      get_if_name of src/proxy/interfaces.cpp, the assignment of a [sockaddr] in
      src/utils/addr_storage.cpp)

    The table of [Interfaces] and the snapshot of [IfProp] are members of the same
    class. Here the flags of the table are read from the snapshot, and a sender
    asks for the source address of its queries. A null pointer that is
    dereferenced gives no result. *)

From S2P Require Import Prelude Def AddrStorage Interfaces IfProp.

Local Open Scope Z_scope.

Implicit Types (p : if_prop) (e : ifaddrs) (name : string) (a s : addr_storage) (ifs : interfaces) (i : Z).

(** [memcpy] of as many octets as the family of [s] has. The address of IPv6 lies
    behind the one of IPv4, so eight octets of it are overwritten by [sin_zero]. *)
Definition assign_sockaddr a s : addr_storage :=
  match ss_family s with
  | AF_INET =>
    {| ss_family := AF_INET; port := port s; sin_addr := sin_addr s;
       sin6_addr := take 8 (sin6_addr s) ++ drop 8 (sin6_addr a) |}
  | AF_INET6 => s
  | AF_UNSPEC => a
  end.

Section InterfaceAddr.
Context (if_indextoname : Z -> option string).

Definition interfaces_get_if_name i : string := default EmptyString (if_indextoname i).

(** The flags that [is_interface] tests. *)
Definition snapshot_flags p (f : addr_family) i : option Z :=
  match f with
  | AF_INET => ifa_flags <$> get_ip4_if (interfaces_get_if_name i) p
  | AF_INET6 => l ← get_ip6_if (interfaces_get_if_name i) p; ifa_flags <$> head l
  | AF_UNSPEC => None
  end.

(** [fresh] is the uninitialised object that the constructor gets. *)
Definition get_saddr (fresh : addr_storage) (f : addr_family) name p : option addr_storage :=
  match f with
  | AF_INET =>
    tmp ← get_ip4_if name p;
    ifa ← ifa_addr tmp;
    Some (assign_sockaddr fresh ifa)
  | AF_INET6 =>
    addr_list ← get_ip6_if name p;
    match addr_list with
    | addr :: _ => ifa ← ifa_addr addr; Some (assign_sockaddr fresh ifa)
    | [] => Some (clean fresh)
    end
  | AF_UNSPEC => Some (clean fresh)
  end.

(** ** Every interface of the table was up when it was added *)

Section Flags.
Context (flags : addr_family -> Z -> option Z).

Lemma add_interface_new i ifs b ifs' acts :
  add_interface flags i ifs = Some (b, ifs', acts) ->
  m_addr_family ifs' = m_addr_family ifs
  /\ forall j, is_Some (vif_of ifs' j) ->
       is_Some (vif_of ifs j) \/ (j = i /\ is_Some (flags (m_addr_family ifs) i)).
Proof.
  unfold add_interface. destruct (get_free_vif_number ifs) as [v|]; [|done]. cbn.
  case_match; [|intros [= <- <- <-]; auto].
  destruct (is_interface flags i IFF_UP ifs) eqn:Hup; [|intros [= <- <- <-]; auto]. cbn.
  destruct (sl_find i (m_if_vif ifs)) eqn:Hi; [intros [= <- <- <-]; auto|].
  assert (Hf : is_Some (flags (m_addr_family ifs) i)).
  { unfold is_interface in Hup. destruct (m_addr_family ifs); [done| |]; (destruct (flags _ i); [by eexists|done]). }
  case_match; intros [= <- <- <-]; (split; [done|]); intros j; unfold vif_of; cbn;
    rewrite find_insert_pair by done; case_decide; auto.
Qed.

Lemma del_interface_old i ifs :
  m_addr_family (del_interface i ifs).1.2 = m_addr_family ifs
  /\ forall j, is_Some (vif_of (del_interface i ifs).1.2 j) -> is_Some (vif_of ifs j).
Proof.
  unfold del_interface. case_match; [|auto]. split; [done|]. intros j. cbn. unfold vif_of. cbn.
  rewrite find_erase_pair. case_decide; [by intros [? ?]|done].
Qed.

Lemma run_flags ops ifs ifs' j :
  ifs_run flags ops ifs = Some ifs' ->
  (is_Some (vif_of ifs j) -> is_Some (flags (m_addr_family ifs) j)) ->
  is_Some (vif_of ifs' j) -> is_Some (flags (m_addr_family ifs) j).
Proof.
  revert ifs. induction ops as [|[i|i] ops IH]; cbn; intros ifs Hrun Hj Hin; [by simplify_eq; apply Hj|..].
  - destruct (add_interface flags i ifs) as [[[b ifs1] acts]|] eqn:Ha; [|done]. cbn in Hrun.
    destruct (add_interface_new _ _ _ _ _ Ha) as [Hf Hnew]. rewrite <- Hf in *. apply (IH ifs1); [done| |done].
    intros Hin1. destruct (Hnew _ Hin1) as [?|[-> ?]]; auto.
  - destruct (del_interface_old i ifs) as [Hf Hold]. rewrite <- Hf in *. by apply (IH _ Hrun); auto.
Qed.
End Flags.

(** ** Every interface of the table has an address *)

(** A sender finds the source address of its queries: whatever interfaces
    were added to and deleted from the table of an address family, every
    interface that has a virtual interface has an address of this family in the
    snapshot, so [get_saddr] follows no null pointer. In IPv4 it has the four
    octets that the header of a query needs. *)
Theorem table_addresses fresh f reset ops addr l ifs i :
  addr <> 0 ->
  (forall e a, e ∈ l -> ifa_addr e = Some a -> octets 4 (sin_addr a)) ->
  let p := (refresh_network_interfaces (Some (addr, l)) new_if_prop).1.2 in
  ifs_run (snapshot_flags p) ops (new_interfaces f reset) = Some ifs ->
  get_virtual_if_index i ifs <> INTERFACES_UNKOWN_VIF_INDEX ->
  exists a, get_saddr fresh f (interfaces_get_if_name i) p = Some a /\ ss_family a = f
    /\ (f = AF_INET -> octets 4 (sin_addr a)).
Proof.
  intros Haddr Hl p Hrun Hi.
  destruct (refresh_groups_by_name addr l new_if_prop (interfaces_get_if_name i) Haddr) as (p' & Hp & H4 & H6).
  assert (p' = p) as -> by (unfold p; by rewrite Hp). clear Hp.
  assert (Hin : is_Some (vif_of ifs i)).
  { unfold get_virtual_if_index, vif_of in *. destruct (sl_find i (m_if_vif ifs)); [by eexists|done]. }
  pose proof (run_flags (snapshot_flags p) ops _ _ i Hrun) as Hup.
  destruct Hup as [fl Hfl]; [by intros [? ?]|done|]. cbn [m_addr_family new_interfaces] in Hfl.
  assert (Hent : forall g e es, entries_of g (interfaces_get_if_name i) l = e :: es ->
    exists a, ifa_addr e = Some a /\ ss_family a = g /\ e ∈ l).
  { intros g e es He. assert (Hm : e ∈ entries_of g (interfaces_get_if_name i) l) by (rewrite He; left).
    unfold entries_of in Hm. apply list_elem_of_filter in Hm as [[_ Hg] Hin'].
    destruct (ifa_addr e) as [a|]; [|done]. exists a. by injection Hg. }
  unfold snapshot_flags in Hfl. unfold get_saddr. destruct f; [done| |].
  - rewrite H4 in Hfl |- *. destruct (entries_of AF_INET (interfaces_get_if_name i) l) as [|e es] eqn:He; [done|]. cbn.
    destruct (Hent _ _ _ He) as (a & Ha & Hf & Hel). rewrite Ha. cbn. eexists. split; [done|].
    unfold assign_sockaddr. rewrite Hf. split; [done|]. intros _. exact (Hl _ _ Hel Ha).
  - rewrite H6 in Hfl |- *. case_bool_decide; [done|]. cbn in Hfl |- *.
    destruct (entries_of AF_INET6 (interfaces_get_if_name i) l) as [|e es] eqn:He; [done|].
    destruct (Hent _ _ _ He) as (a & Ha & Hf & Hel). rewrite Ha. cbn. eexists. split; [done|].
    unfold assign_sockaddr. by rewrite Hf.
Qed.
End InterfaceAddr.

(** ** Examples *)

Definition ex_address : addr_storage :=
  {| ss_family := AF_INET; port := 0; sin_addr := [10; 0; 0; 1]; sin6_addr := zeros 16 |}.
Definition ex_list : list ifaddrs :=
  [{| ifa_name := "eth0"; ifa_flags := 65; ifa_addr := Some ex_address; ifa_dstaddr := None |}].
Definition ex_indextoname i : option string := if i =? 2 then Some "eth0" else None.

Definition ex_snapshot : if_prop := (refresh_network_interfaces (Some (4096, ex_list)) new_if_prop).1.2.

(** A name that is not in the snapshot: the null pointer is dereferenced. *)
Lemma unknown_name_undefined : get_saddr (of_family AF_UNSPEC) AF_INET "eth1" ex_snapshot = None.
Proof. vm_compute. reflexivity. Qed.

Lemma table_addresses_witness :
  exists a, get_saddr (of_family AF_UNSPEC) AF_INET (interfaces_get_if_name ex_indextoname 2) ex_snapshot = Some a
    /\ ss_family a = AF_INET /\ (AF_INET = AF_INET -> octets 4 (sin_addr a)).
Proof.
  refine (table_addresses ex_indextoname (of_family AF_UNSPEC) AF_INET false [AddInterface 2] 4096 ex_list _ 2 _ _ _ _);
    [done| |vm_compute; reflexivity|vm_compute; discriminate].
  intros e a He Ha. unfold ex_list in He. apply list_elem_of_singleton in He. subst e. injection Ha as <-.
  split; [done|]. repeat constructor; unfold is_octet; cbn; lia.
Defined.
