(* ===== verification/SelfTest.v ===== *)
(** * The self-test of the addresses (test_addr_storage_a and
      test_addr_storage_b of src/utils/addr_storage.cpp)

    The debug build checks the class [addr_storage] on fixed addresses and prints
    OK or FAILED. Here the checks are run on the model: [Some true] is a check
    that prints OK, [None] one whose evaluation is undefined. Texts are read and
    written by the C library ([inet_pton], [inet_addr], [inet_ntop]). *)

From Stdlib Require Import Strings.Ascii.
From S2P Require Import Prelude Def AddrStorage Printing Interfaces IfProp InterfaceAddr.

Local Open Scope Z_scope.

Section SelfTest.
Context (inet_pton : addr_family -> string -> option (list Z)) (inet_addr : string -> list Z).
Context (inet_ntop : addr_family -> list Z -> option string).

(** The object before its constructor or assignment. An assignment of a text sets
    everything that the tests read, so one object stands for all of them. *)
Context (fresh : addr_storage).
Implicit Types (a : addr_storage) (s : string).

Notation str := (addr_to_string inet_ntop).
Notation "a == b" := (operator_eq a b) (at level 70).

(** [addr_storage(const std::string&)] and the assignment of a text. *)
Definition address s : addr_storage := assign_string inet_pton fresh s.

Definition is_text a s : option bool := Some (String.eqb (str a) s).

Definition test_addr_storage_a : list (option bool) :=
  let addr4 := "251.0.0.224" in
  let addr6 := "ff02:231:abc::1" in
  let s4 := address addr4 in
  let s6 := address addr6 in
  let s4_1 := s4 in
  let s6_1 := s6 in
  let s4_tmp := address "Hallo ich bin bob" in
  let s6_tmp := address "ich: auch" in
  let in_addr4 := sin_addr s4 in
  let in_addr6 := sin6_addr s6 in
  let in_addr6tmp := default (sin6_addr fresh) (inet_pton AF_INET6 addr6) in
  [is_text s4 addr4; is_text s6 addr6; is_text s4_1 addr4; is_text s6_1 addr6;
   Some (operator_ne s4_tmp s6_tmp); Some (s6_1 == s6_1);
   Some (bool_decide (in_addr4 = inet_addr addr4)); Some (bool_decide (in_addr6 = in_addr6tmp));
   is_text (assign_in_addr fresh in_addr4) addr4; is_text (assign_in6_addr fresh in_addr6) addr6]
  ++ (let s6_tmp := address "141.22.26.0" in
      let s6 := address "255.255.254.0" in
      map (fun s => Some (mask_ipv4 (address s) s6 == s6_tmp)) ["141.22.26.249"; "141.22.27.155"; "141.22.27.142"])
  ++ flat_map (fun '(s, s') => [Some (operator_lt (address s) (address s')); Some (negb (operator_lt (address s') (address s)))])
       [("141.22.26.249", "255.255.254.0");
        ("fe80::5e26:aff:fe23:8dc0", "ffff:ffff:ffff:ffff:ffff:ffff:ffff:ffff");
        ("0:0:0:0:ffff:ffff:ffff:ffff", "ffff:ffff:ffff:ffff::0")].

(** The first part: texts, the structures of the C library and ports. *)
Definition test_structures : list (option bool) :=
  let s4 := "1.2.3.4" in
  let s6 := "1:2:3::4" in
  let a4 := address s4 in
  let a6 := address s6 in
  let iport := 123 in
  let ports a4a a6a :=
    [Some (get_port (set_port iport a4a) =? iport); Some (get_port (set_port iport a6a) =? iport);
     is_text (set_port iport a4a) s4; is_text (set_port iport a6a) s6] in
  [is_text a4 s4; is_text a6 s6; is_text a4 s4; is_text a6 s6;
   is_text (assign_sockaddr fresh a4) s4; is_text (assign_sockaddr fresh a4) s4;
   is_text (assign_sockaddr fresh a4) s4; is_text (assign_sockaddr fresh a6) s6]
  ++ ports (address s4) (address s6) ++ ports (address s4) (address s6)
  ++ [Some (get_port (assign_sockaddr fresh (set_port iport a4)) =? iport);
      Some (get_port (assign_sockaddr fresh (set_port iport a6)) =? iport);
      Some (get_port (assign_in_addr fresh (sin_addr (set_port iport a4))) =? 0);
      Some (port (set_port iport a4) =? iport); Some (port (set_port iport a6) =? iport)].

Definition incremented s s' : option bool := Some (operator_incr (address s) == address s').
Definition decremented s s' : option bool := Some (address s == operator_decr (address s')).

Definition FFFF : string := "FFFF:FFFF:FFFF:FFFF:FFFF:FFFF:FFFF:FFFF".

(** The second part: [++] and [--]. *)
Definition test_increments : list (option bool) :=
  let pairs4 := [("239.0.0.44", "239.0.0.45"); ("239.0.255.255", "239.1.0.0"); ("255.255.255.255", "0.0.0.0")] in
  let pairs6 := [("1::44", "1::45"); ("1::FFFF:FFFF", "1::1:0:0"); (FFFF, "0::0")] in
  map (fun p => incremented p.1 p.2) pairs4 ++ map (fun p => decremented p.1 p.2) pairs4
  ++ map (fun p => incremented p.1 p.2) pairs6 ++ map (fun p => decremented p.1 p.2) pairs6.

(** The third part: the comparison operators. *)
Definition test_comparisons : list (option bool) :=
  let top := address "255.255.255.255" in
  [Some (operator_ne top (address "0.0.0.0")); Some (operator_gt top (address "0.0.0.0"));
   Some (negb (operator_gt top top)); Some (operator_ge top top);
   Some (operator_ge top (address "255.255.255.254")); Some (operator_le top top);
   Some (operator_le (address "255.255.255.254") top)].

Definition masked s (suffix : Z) s' : option bool := a ← mask suffix (address s); Some (a == address s').
Definition broadcast s (suffix : Z) s' : option bool :=
  a ← broadcast_addr suffix (address s); Some (a == address s').

(** The fourth part: prefixes. *)
Definition test_prefixes : list (option bool) :=
  [masked "123.123.123.123" 24 "123.123.123.0"; masked "123.123.123.123" 25 "123.123.123.0";
   masked "123.123.123.223" 25 "123.123.123.128";
   broadcast "123.123.123.123" 24 "123.123.123.255"; broadcast "123.123.123.123" 25 "123.123.123.127";
   broadcast "123.123.123.223" 25 "123.123.123.255";
   masked FFFF 64 "FFFF:FFFF:FFFF:FFFF::";
   masked FFFF 127 "FFFF:FFFF:FFFF:FFFF:FFFF:FFFF:FFFF:FFFE";
   masked FFFF 95 "FFFF:FFFF:FFFF:FFFF:FFFF:FFFE::";
   masked FFFF 1 "8000::";
   broadcast "FFFF:FFFF:FFFF:FFFF::" 64 FFFF;
   broadcast "FFFF:FFFF:FFFF:FFFF:FFFF:FFFF:FFFF:FFF0" 127 "FFFF:FFFF:FFFF:FFFF:FFFF:FFFF:FFFF:FFF1";
   broadcast "8000::" 1 FFFF].

(** The last part: multicast addresses. *)
Definition test_multicast : list (option bool) :=
  [Some (is_multicast_addr (address "239.99.99.99")); Some (negb (is_multicast_addr (address "192.168.1.2")));
   Some (is_multicast_addr (address "FF05::99")); Some (negb (is_multicast_addr (address "2001::99")))].

Definition test_addr_storage_b : list (option bool) :=
  test_structures ++ test_increments ++ test_comparisons ++ test_prefixes ++ test_multicast.

(** ** The outcome *)

(** The octets of an IPv6 address from its eight groups. *)
Definition groups (l : list Z) : list Z := flat_map (fun g => [g / 256; g mod 256]) l.

(** What [inet_pton] makes of the texts, by the documented formats. *)
Definition known_ipv4 : list (string * list Z) :=
  [("251.0.0.224", [251; 0; 0; 224]); ("141.22.26.0", [141; 22; 26; 0]); ("141.22.26.249", [141; 22; 26; 249]);
   ("141.22.27.155", [141; 22; 27; 155]); ("141.22.27.142", [141; 22; 27; 142]);
   ("255.255.254.0", [255; 255; 254; 0]); ("1.2.3.4", [1; 2; 3; 4]);
   ("239.0.0.44", [239; 0; 0; 44]); ("239.0.0.45", [239; 0; 0; 45]); ("239.0.255.255", [239; 0; 255; 255]);
   ("239.1.0.0", [239; 1; 0; 0]); ("255.255.255.255", [255; 255; 255; 255]); ("0.0.0.0", [0; 0; 0; 0]);
   ("255.255.255.254", [255; 255; 255; 254]); ("123.123.123.123", [123; 123; 123; 123]);
   ("123.123.123.0", [123; 123; 123; 0]); ("123.123.123.223", [123; 123; 123; 223]);
   ("123.123.123.128", [123; 123; 123; 128]); ("123.123.123.255", [123; 123; 123; 255]);
   ("123.123.123.127", [123; 123; 123; 127]); ("239.99.99.99", [239; 99; 99; 99]);
   ("192.168.1.2", [192; 168; 1; 2])].

Definition known_ipv6 : list (string * list Z) :=
  [("ff02:231:abc::1", groups [0xff02; 0x231; 0xabc; 0; 0; 0; 0; 1]);
   ("fe80::5e26:aff:fe23:8dc0", groups [0xfe80; 0; 0; 0; 0x5e26; 0xaff; 0xfe23; 0x8dc0]);
   ("ffff:ffff:ffff:ffff:ffff:ffff:ffff:ffff", replicate 16 255);
   ("0:0:0:0:ffff:ffff:ffff:ffff", replicate 8 0 ++ replicate 8 255);
   ("ffff:ffff:ffff:ffff::0", replicate 8 255 ++ replicate 8 0);
   ("1:2:3::4", groups [1; 2; 3; 0; 0; 0; 0; 4]); ("1::44", groups [1; 0; 0; 0; 0; 0; 0; 0x44]);
   ("1::45", groups [1; 0; 0; 0; 0; 0; 0; 0x45]); ("1::FFFF:FFFF", groups [1; 0; 0; 0; 0; 0; 0xffff; 0xffff]);
   ("1::1:0:0", groups [1; 0; 0; 0; 0; 1; 0; 0]); (FFFF, replicate 16 255); ("0::0", replicate 16 0);
   ("FFFF:FFFF:FFFF:FFFF::", replicate 8 255 ++ replicate 8 0);
   ("FFFF:FFFF:FFFF:FFFF:FFFF:FFFF:FFFF:FFFE", replicate 15 255 ++ [254]);
   ("FFFF:FFFF:FFFF:FFFF:FFFF:FFFE::", replicate 11 255 ++ [254] ++ replicate 4 0);
   ("8000::", 128 :: replicate 15 0); ("FFFF:FFFF:FFFF:FFFF:FFFF:FFFF:FFFF:FFF0", replicate 15 255 ++ [240]);
   ("FFFF:FFFF:FFFF:FFFF:FFFF:FFFF:FFFF:FFF1", replicate 15 255 ++ [241]);
   ("FF05::99", groups [0xff05; 0; 0; 0; 0; 0; 0; 0x99]); ("2001::99", groups [0x2001; 0; 0; 0; 0; 0; 0; 0x99])].

Definition known (f : addr_family) : list (string * list Z) :=
  match f with AF_INET => known_ipv4 | AF_INET6 => known_ipv6 | AF_UNSPEC => [] end.

(** The texts that are written, in the canonical form. *)
Definition written (f : addr_family) : list (string * list Z) :=
  filter (fun x => x.1 ∈ ["251.0.0.224"; "ff02:231:abc::1"; "1.2.3.4"; "1:2:3::4"]) (known f).

Record c_library : Prop := {
  cl_pton : forall f s w, (s, w) ∈ known f -> inet_pton f s = Some w;
  cl_addr : inet_addr "251.0.0.224" = [251; 0; 0; 224];
  cl_ntop : forall f s w, (s, w) ∈ written f -> inet_ntop f w = Some s;
  cl_no_ipv4 : inet_pton AF_INET "Hallo ich bin bob" = None;
  cl_no_ipv6 : inet_pton AF_INET6 "ich: auch" = None
}.

Context (Hlib : c_library).

Definition of_octets (f : addr_family) (w : list Z) : addr_storage :=
  match f with AF_INET6 => assign_in6_addr fresh w | _ => assign_in_addr fresh w end.

Definition find_text (l : list (string * list Z)) s : option (list Z) :=
  snd <$> List.find (fun x => String.eqb x.1 s) l.

Lemma find_text_elem l s w : find_text l s = Some w -> (s, w) ∈ l.
Proof.
  unfold find_text. destruct (List.find _ l) as [[s' w']|] eqn:Hf; [|done]. intros [= <-].
  apply List.find_some in Hf as [Hin Hs]. apply String.eqb_eq in Hs. cbn in Hs. subst. by apply list_elem_of_In.
Qed.

Lemma address_known f s w :
  find_text (known f) s = Some w ->
  f = (if existsb (Ascii.eqb ":"%char) (String.list_ascii_of_string s) then AF_INET6 else AF_INET) ->
  address s = of_octets f w.
Proof.
  intros Hs Hf. unfold address, assign_string. pose proof (cl_pton Hlib f s w (find_text_elem _ _ _ Hs)) as Hw.
  destruct (existsb _ _); subst f; cbn [negb]; by rewrite Hw.
Qed.

(** Reads the literal addresses of a goal. *)
Ltac read_texts := unfold FFFF;
  repeat match goal with
  | |- context [address ?s] => first
    [ erewrite (address_known AF_INET s) by (vm_compute; reflexivity)
    | erewrite (address_known AF_INET6 s) by (vm_compute; reflexivity) ]
  end.

Lemma increments_ok : test_increments = replicate 12 (Some true).
Proof. unfold test_increments, incremented, decremented. cbn [map app fst snd]. read_texts. vm_compute. reflexivity. Qed.

Lemma comparisons_ok : test_comparisons = replicate 7 (Some true).
Proof. unfold test_comparisons. cbv zeta. read_texts. vm_compute. reflexivity. Qed.

Lemma prefixes_ok :
  test_prefixes = replicate 7 (Some true) ++ [None; None; Some true; Some true; None; Some true].
Proof. unfold test_prefixes, masked, broadcast. read_texts. vm_compute. reflexivity. Qed.

Lemma multicast_ok : test_multicast = replicate 4 (Some true).
Proof. unfold test_multicast. read_texts. vm_compute. reflexivity. Qed.

Lemma is_text_true f a s w :
  find_text (written f) s = Some w -> ss_family a = f ->
  match f with AF_INET => sin_addr a = w | AF_INET6 => sin6_addr a = w | AF_UNSPEC => False end ->
  is_text a s = Some true.
Proof.
  intros Hs Hf Hw. pose proof (cl_ntop Hlib f s w (find_text_elem _ _ _ Hs)) as Ht.
  unfold is_text, addr_to_string. rewrite Hf. destruct f; [done| |]; subst w; rewrite Ht; cbn; by rewrite String.eqb_refl.
Qed.

(** Writes the addresses of a goal. *)
Ltac write_texts :=
  repeat match goal with
  | |- context [is_text ?a ?s] => first
    [ rewrite (is_text_true AF_INET a s _) by (vm_compute; reflexivity)
    | rewrite (is_text_true AF_INET6 a s _) by (vm_compute; reflexivity) ]
  end.

Lemma structures_ok : test_structures = replicate 21 (Some true).
Proof.
  unfold test_structures. cbv beta zeta. read_texts. write_texts. vm_compute. reflexivity.
Qed.

(** Texts that are no addresses give invalid objects, which equal nothing. *)
Lemma not_addresses : operator_ne (address "Hallo ich bin bob") (address "ich: auch") = true.
Proof. unfold address, assign_string. cbn [existsb]. rewrite (cl_no_ipv4 Hlib), (cl_no_ipv6 Hlib). vm_compute. reflexivity. Qed.

Lemma test_a_ok : test_addr_storage_a = replicate 19 (Some true).
Proof.
  unfold test_addr_storage_a. cbv beta zeta. cbn [map flat_map app]. rewrite not_addresses.
  erewrite (cl_pton Hlib AF_INET6 "ff02:231:abc::1") by (apply find_text_elem; vm_compute; reflexivity).
  rewrite (cl_addr Hlib).
  read_texts. write_texts. vm_compute. reflexivity.
Qed.

(** The class passes its own test: on a C library that reads and writes the
    addresses of the test as documented, every check of both functions prints OK,
    except for three checks of prefixes (mask with 127 and with 95 bits, broadcast
    with 127 bits), whose evaluation shifts a word of 32 bits by the whole prefix
    length and is undefined. *)
Theorem self_test :
  test_addr_storage_a = replicate 19 (Some true)
  /\ test_addr_storage_b = replicate 47 (Some true) ++ [None; None; Some true; Some true; None]
                            ++ replicate 5 (Some true).
Proof.
  split; [apply test_a_ok|]. unfold test_addr_storage_b.
  by rewrite structures_ok, increments_ok, comparisons_ok, prefixes_ok, multicast_ok.
Qed.
End SelfTest.

(** ** Examples *)

(** A C library that knows the addresses of the test. *)
Definition ex_pton (f : addr_family) (s : string) : option (list Z) := find_text (known f) s.
Definition ex_ntop (f : addr_family) (w : list Z) : option string :=
  fst <$> List.find (fun x => bool_decide (x.2 = w)) (written f).

Lemma ex_c_library : c_library ex_pton (fun _ => [251; 0; 0; 224]) ex_ntop.
Proof.
  assert (Hp : forall f, Forall (fun x => ex_pton f x.1 = Some x.2) (known f)).
  { intros f. apply (bool_decide_unpack _). by destruct f; vm_compute. }
  assert (Hn : forall f, Forall (fun x => ex_ntop f x.2 = Some x.1) (written f)).
  { intros f. apply (bool_decide_unpack _). by destruct f; vm_compute. }
  split; [| | |done|done].
  - intros f s w Hs. by apply (proj1 (Forall_forall _ _) (Hp f) (s, w)).
  - done.
  - intros f s w Hs. by apply (proj1 (Forall_forall _ _) (Hn f) (s, w)).
Qed.

Lemma self_test_witness :
  test_addr_storage_a ex_pton (fun _ => [251; 0; 0; 224]) ex_ntop (of_family AF_UNSPEC) = replicate 19 (Some true)
  /\ test_addr_storage_b ex_pton ex_ntop (of_family AF_UNSPEC)
     = replicate 47 (Some true) ++ [None; None; Some true; Some true; None] ++ replicate 5 (Some true).
Proof. apply (self_test ex_pton (fun _ => [251; 0; 0; 224]) ex_ntop (of_family AF_UNSPEC) ex_c_library). Defined.
