(* ===== verification/RpFilter.v ===== *)
(** * Reverse path filter (include/utils/reverse_path_filter.hpp,
      src/utils/reverse_path_filter.cpp)

    The files of the kernel that switch the reverse path filter of an interface
    are a map from paths to octets; [can_write] says which of them can be opened
    for writing. *)

From S2P Require Import Prelude Def.

Local Open Scope Z_scope.

Definition REVERSE_PATH_FILTER_PATH : string := "/proc/sys/net/ipv4/conf/".
Definition REVERSE_PATH_FILTER_THE_ALL_INTERFACE : string := "all".

Notation files := (gmap string (list Z)).

(** [std::set] iterates in the order of the names; the order of writes to
    different files has no effect. *)
Record reverse_path_filter := {
  m_used_earlier : bool;
  m_restore_if_state : gset string
}.

Definition new_reverse_path_filter : reverse_path_filter :=
  {| m_used_earlier := false; m_restore_if_state := ∅ |}.

Definition rp_path (if_name : string) : string :=
  REVERSE_PATH_FILTER_PATH +:+ if_name +:+ "/rp_filter".

(** The first octet, or the end of the file (-1), as a truth value. *)
Definition get_rp_filter (if_name : string) (fs : files) : bool :=
  match fs !! rp_path if_name with
  | None => false
  | Some content => negb (default (-1) (head content) =? 0)
  end.

Section RpFilter.
Context (can_write : string -> bool).

(** The octets of the digits 0 and 1. *)
Definition set_rp_filter (if_name : string) (set_to : bool) (fs : files) : bool * files :=
  if can_write (rp_path if_name)
  then (true, <[rp_path if_name := [if set_to then 49 else 48]]> fs)
  else (false, fs).

Definition insert_restore (if_name : string) (r : reverse_path_filter) : reverse_path_filter :=
  {| m_used_earlier := m_used_earlier r; m_restore_if_state := {[if_name]} ∪ m_restore_if_state r |}.

(** The function calls itself at most once, for the entry of all interfaces,
    after it has set [m_used_earlier]; [depth] bounds the calls. *)
Fixpoint reset_rp_filter_calls (depth : nat) (if_name : string) (st : reverse_path_filter * files)
    : reverse_path_filter * files :=
  match depth with
  | O => st
  | S depth' =>
    let '(r, fs) := st in
    if get_rp_filter if_name fs then
      match set_rp_filter if_name false fs with
      | (true, fs) =>
        let r := insert_restore if_name r in
        if m_used_earlier r then (r, fs)
        else reset_rp_filter_calls depth' REVERSE_PATH_FILTER_THE_ALL_INTERFACE
               ({| m_used_earlier := true; m_restore_if_state := m_restore_if_state r |}, fs)
      | (false, fs) => (r, fs)
      end
    else (r, fs)
  end.

Definition reset_rp_filter (if_name : string) (st : reverse_path_filter * files)
    : reverse_path_filter * files :=
  reset_rp_filter_calls 2 if_name st.

Definition restore_rp_filter (if_name : string) (st : reverse_path_filter * files)
    : reverse_path_filter * files :=
  let '(r, fs) := st in
  if bool_decide (if_name ∈ m_restore_if_state r) then
    ({| m_used_earlier := m_used_earlier r; m_restore_if_state := m_restore_if_state r ∖ {[if_name]} |},
     (set_rp_filter if_name true fs).2)
  else (r, fs).

(** The destructor. *)
Definition restore_all (st : reverse_path_filter * files) : files :=
  foldl (fun fs e => (set_rp_filter e true fs).2) st.2 (elements (m_restore_if_state st.1)).

(** ** Properties *)

(** Two calls are enough. *)
Lemma reset_depth n if_name st :
  (2 <= n)%nat -> reset_rp_filter_calls n if_name st = reset_rp_filter if_name st.
Proof.
  intros Hn. destruct n as [|[|n]]; [lia..|]. destruct st as [r fs]. unfold reset_rp_filter.
  cbn [reset_rp_filter_calls]. destruct (get_rp_filter if_name fs); [|done].
  destruct (set_rp_filter if_name false fs) as [[] fs']; [|done]. cbn [m_used_earlier insert_restore].
  destruct (m_used_earlier r); [done|].
  destruct (get_rp_filter _ fs'); [|done]. by destruct (set_rp_filter _ false fs') as [[] ?].
Qed.

(** The state of the kernel's files with respect to the files [fs0] at the
    start: a remembered interface is writable; a file that does not belong to
    one either is untouched or holds the digit 1. *)
Definition rp_inv (fs0 : files) (st : reverse_path_filter * files) : Prop :=
  (forall i, i ∈ m_restore_if_state st.1 -> can_write (rp_path i) = true /\ is_Some (fs0 !! rp_path i))
  /\ forall path, st.2 !! path = fs0 !! path
       \/ (is_Some (fs0 !! path) /\ (st.2 !! path = Some [49]
           \/ exists i, i ∈ m_restore_if_state st.1 /\ path = rp_path i)).

Lemma rp_inv_start fs0 : rp_inv fs0 (new_reverse_path_filter, fs0).
Proof. split; [set_solver|]. by left. Qed.

Lemma rp_inv_lookup fs0 st path : rp_inv fs0 st -> is_Some (st.2 !! path) -> is_Some (fs0 !! path).
Proof. intros [_ H] Hs. destruct (H path) as [<-|[? _]]; done. Qed.

Lemma rp_inv_reset_calls fs0 n i st : rp_inv fs0 st -> rp_inv fs0 (reset_rp_filter_calls n i st).
Proof.
  revert i st. induction n as [|n IH]; intros i [r fs] H; [done|]. cbn [reset_rp_filter_calls].
  destruct (get_rp_filter i fs) eqn:Eg; [|done]. unfold set_rp_filter.
  destruct (can_write (rp_path i)) eqn:Ew; [|done].
  assert (Hs : is_Some (fs0 !! rp_path i)).
  { apply (rp_inv_lookup _ _ _ H). unfold get_rp_filter in Eg. cbn. by destruct (fs !! rp_path i). }
  assert (Hnew : forall u, rp_inv fs0 ({| m_used_earlier := u;
    m_restore_if_state := m_restore_if_state (insert_restore i r) |}, <[rp_path i:=[48]]> fs)).
  { intros u. destruct H as [H1 H2]. split; cbn in *; [set_solver|]. intros path.
    destruct (decide (path = rp_path i)) as [->|Hne]; [right; split; [done|right; exists i; set_solver]|].
    rewrite lookup_insert_ne by done. destruct (H2 path) as [?|[? [?|(k & ? & ?)]]]; [by left| |];
      right; (split; [done|]); [by left|right; exists k; set_solver]. }
  destruct (m_used_earlier (insert_restore i r)) eqn:Eu; [|by apply IH].
  specialize (Hnew (m_used_earlier (insert_restore i r))). by destruct (insert_restore i r).
Qed.

Lemma rp_inv_restore fs0 i st : rp_inv fs0 st -> rp_inv fs0 (restore_rp_filter i st).
Proof.
  destruct st as [r fs]. intros [H1 H2]. unfold restore_rp_filter, set_rp_filter.
  case_bool_decide as Hi; [|done]. cbn in *. destruct (H1 i Hi) as [-> Hs]. cbn.
  split; [set_solver|]. cbn. intros path. destruct (decide (path = rp_path i)) as [->|Hne].
  - right. split; [done|]. left. by rewrite lookup_insert_eq.
  - rewrite lookup_insert_ne by done. destruct (H2 path) as [?|[? [?|(k & ? & ->)]]]; [by left| |];
      right; (split; [done|]); [by left|right; exists k]. split; [|done]. set_solver.
Qed.

Lemma set_all_lookup l fs path :
  let fs' := foldl (fun fs e => (set_rp_filter e true fs).2) fs l in
  (fs' !! path = Some [49] /\ exists i, i ∈ l /\ path = rp_path i)
  \/ (fs' !! path = fs !! path /\ forall i, i ∈ l -> path = rp_path i -> can_write path = false).
Proof.
  cbv zeta. revert fs. induction l as [|e l IH]; intros fs; cbn [foldl]; [right; set_solver|].
  destruct (IH (set_rp_filter e true fs).2) as [(E & i & Hi & Hp)|[E Hl]]; rewrite E.
  { left. split; [done|]. exists i. set_solver. }
  unfold set_rp_filter. destruct (can_write (rp_path e)) eqn:Ew; cbn.
  - destruct (decide (path = rp_path e)) as [->|Hne].
    + left. rewrite lookup_insert_eq. split; [done|]. exists e. set_solver.
    + right. rewrite lookup_insert_ne by done. split; [done|]. set_solver.
  - right. split; [done|]. intros i [->|Hi]%elem_of_cons Hp; [by subst|by eapply Hl].
Qed.

(** ** The life of the object *)

Inductive rp_op := RpReset (if_name : string) | RpRestore (if_name : string).

Definition rp_run1 (o : rp_op) (st : reverse_path_filter * files) : reverse_path_filter * files :=
  match o with RpReset i => reset_rp_filter i st | RpRestore i => restore_rp_filter i st end.

Definition rp_life (ops : list rp_op) (fs : files) : files :=
  restore_all (foldl (fun st o => rp_run1 o st) (new_reverse_path_filter, fs) ops).

Lemma rp_inv_run fs0 ops st :
  rp_inv fs0 st -> rp_inv fs0 (foldl (fun st o => rp_run1 o st) st ops).
Proof.
  revert st. induction ops as [|o ops IH]; intros st H; [done|]. cbn [foldl]. apply IH.
  destruct o; [by apply rp_inv_reset_calls|by apply rp_inv_restore].
Qed.

(** When the object is destroyed, whatever interfaces were reset and
    restored, every file of the kernel holds what it held at the start or the
    digit 1: a filter that was on is on again. *)
Theorem filters_on_in_the_end ops fs path :
  rp_life ops fs !! path = fs !! path \/ (is_Some (fs !! path) /\ rp_life ops fs !! path = Some [49]).
Proof.
  unfold rp_life, restore_all.
  pose proof (rp_inv_run fs ops _ (rp_inv_start fs)) as [H1 H2].
  set (st := foldl _ _ ops) in *. destruct (set_all_lookup (elements (m_restore_if_state st.1)) st.2 path)
    as [(E & i & Hi & ->)|[E Hl]]; rewrite E.
  { right. split; [|done]. by apply H1, elem_of_elements. }
  destruct (H2 path) as [?|[Hs [?|(i & Hi & ->)]]]; [by left|by right|].
  exfalso. destruct (H1 i Hi) as [Hw _]. rewrite (Hl i) in Hw; [done|by apply elem_of_elements|done].
Qed.
End RpFilter.

(** The digit 0 is read as true: a filter that was off is on in the end. *)
Lemma filter_off_turned_on if_name fs :
  fs !! rp_path if_name = Some [48] ->
  rp_life (fun _ => true) [RpReset if_name] fs !! rp_path if_name = Some [49].
Proof.
  intros Hf. unfold rp_life, restore_all.
  destruct (set_all_lookup (fun _ => true)
    (elements (m_restore_if_state (reset_rp_filter (fun _ => true) if_name (new_reverse_path_filter, fs)).1))
    (reset_rp_filter (fun _ => true) if_name (new_reverse_path_filter, fs)).2 (rp_path if_name))
    as [[E _]|[_ Hl]]; [exact E|]. exfalso.
  assert (true = false); [apply (Hl if_name); [|done]|done]. apply elem_of_elements.
  assert (Hg : get_rp_filter if_name fs = true) by (unfold get_rp_filter; by rewrite Hf).
  unfold reset_rp_filter. cbn [reset_rp_filter_calls new_reverse_path_filter]. rewrite Hg.
  cbn [set_rp_filter insert_restore m_used_earlier m_restore_if_state].
  unfold new_reverse_path_filter. destruct (get_rp_filter REVERSE_PATH_FILTER_THE_ALL_INTERFACE _); cbn.
  all: clear; set_solver.
Qed.
