(* ===== verification/Sockets.v ===== *)
(** * Sockets (include/utils/mc_socket.hpp, src/utils/mc_socket.cpp,
      include/utils/mroute_socket.hpp, src/utils/mroute_socket.cpp)

    The wrappers around the sockets of the system. An operation makes system
    calls; the calls and their results are logged, and what the kernel answers
    to a call after a history of calls is a parameter. The names of levels and
    options are those of the system headers. *)

From S2P Require Import Prelude Def AddrStorage Interfaces Printing.

Local Open Scope Z_scope.

(** ** System calls *)

Inductive level := IPPROTO_IP | IPPROTO_IPV6 | IPPROTO_ICMPV6 | SOL_SOCKET | LEVEL_UNKNOWN.

Inductive socket_kind := SOCK_DGRAM | SOCK_RAW_IGMP | SOCK_RAW_ICMPV6.

(** The structures of the multicast routing interface of the kernel. *)
Record vifctl := {
  vifc_vifi : Z;
  vifc_use_ifindex : bool;
  vifc_threshold : Z;
  vifc_rate_limit : Z;
  vifc_lcl_ifindex : Z;
  vifc_rmt_addr : list Z
}.

Record mif6ctl := {
  mif6c_mifi : Z;
  mif6c_flags : Z;
  mif6c_threshold : Z;
  mif6c_rate_limit : Z;
  mif6c_pifi : Z
}.

(** Routes: the outputs are an array of hop limits in IPv4, a bit set in IPv6. *)
Record mfcctl := {
  mfcc_origin : list Z;
  mfcc_mcastgrp : list Z;
  mfcc_parent : Z;
  mfcc_outputs : list Z
}.

(** Options with their values. *)
Inductive sockopt :=
  | MRT_TABLE (table : Z) | MRT6_TABLE (table : Z)
  | IP_HDRINCL (value : Z)
  | IPV6_HOPOPTS (buf : list Z)
  | IP_ROUTER_ALERT (value : Z)
  | ICMP6_FILTER (pass : list Z)
  | IPV6_RECVPKTINFO (value : Z) | IPV6_RECVHOPOPTS (value : Z)
  | MRT_INIT | MRT6_INIT | MRT_DONE | MRT6_DONE
  | MRT_ADD_VIF (vc : vifctl) | MRT6_ADD_MIF (mc : mif6ctl)
  | MRT_DEL_VIF (vc : vifctl) | MRT6_DEL_MIF (mc : mif6ctl)
  | MRT_ADD_MFC (mc : mfcctl) | MRT6_ADD_MFC (mc : mfcctl)
  | MRT_DEL_MFC (mc : mfcctl) | MRT6_DEL_MFC (mc : mfcctl)
  | IP_MULTICAST_ALL (value : Z) | SO_REUSEADDR (value : Z)
  | IP_MULTICAST_LOOP (value : Z) | IPV6_MULTICAST_LOOP (value : Z)
  | SO_RCVTIMEO (tv_sec tv_usec : Z)
  | IP_MULTICAST_IF (addr : list Z) | IPV6_MULTICAST_IF (if_index : Z)
  | IP_MULTICAST_TTL (ttl : Z) | IPV6_MULTICAST_HOPS (ttl : Z)
  | MCAST_JOIN_GROUP (gaddr : addr_storage) (if_index : Z)
  | MCAST_LEAVE_GROUP (gaddr : addr_storage) (if_index : Z)
  | MCAST_BLOCK_SOURCE (gaddr saddr : addr_storage) (if_index : Z)
  | MCAST_UNBLOCK_SOURCE (gaddr saddr : addr_storage) (if_index : Z)
  | MCAST_JOIN_SOURCE_GROUP (gaddr saddr : addr_storage) (if_index : Z)
  | MCAST_LEAVE_SOURCE_GROUP (gaddr saddr : addr_storage) (if_index : Z).

Inductive request :=
  | SIOCGIFADDR (if_name : string)
  | SIOCGETVIFCNT (vif : Z) | SIOCGETMIFCNT_IN6 (vif : Z)
  | SIOCGETSGCNT (src grp : list Z) | SIOCGETSGCNT_IN6 (src grp : list Z).

Inductive syscall :=
  | sys_socket (f : addr_family) (kind : socket_kind)
  | sys_close (fd : Z)
  | sys_setsockopt (fd : Z) (l : level) (o : sockopt)
  | sys_bind (fd : Z) (addr : list Z) (port : Z)
  | sys_sendto (fd : Z) (data : list Z) (addr : addr_storage)
  | sys_recv (fd : Z) (size : Z)
  | sys_recvmsg (fd : Z)
  | sys_ioctl (fd : Z) (r : request)
  | sys_setsourcefilter (fd if_index : Z) (gaddr : addr_storage) (filter_mode : Z)
      (slist : list addr_storage)
  | sys_getsourcefilter (fd if_index : Z) (gaddr : addr_storage) (numsrc : Z)
  | sys_system (cmd : string).

(** The result of a call: a value, or -1 with [errno] saying whether the call
    would block. *)
Inductive kresult := KOk (rc : Z) | KErr (again : bool).

Definition rc_of (r : kresult) : Z := match r with KOk rc => rc | KErr _ => -1 end.

Definition history := list (syscall * kresult).

(** ** State *)

(** [m_addrFamily] is [None] for -1. *)
Record mc_socket := {
  m_sock : Z;
  m_addrFamily : option addr_family;
  m_own_socket : bool
}.

Definition new_mc_socket : mc_socket :=
  {| m_sock := 0; m_addrFamily := None; m_own_socket := true |}.

Definition is_udp_valid (s : mc_socket) : bool := 0 <? m_sock s.

(** A program with a socket, system calls and undefined behaviour ([None]). *)
Definition K (X : Type) : Type := mc_socket * history -> option (X * (mc_socket * history)).

#[export] Instance K_ret : MRet K := fun X x st => Some (x, st).
#[export] Instance K_bind : MBind K := fun X Y f m st =>
  match m st with Some (x, st') => f x st' | None => None end.

Definition this : K mc_socket := fun st => Some (st.1, st).
Definition assign (s : mc_socket) : K unit := fun st => Some (tt, (s, st.2)).
Definition calls : K history := fun st => Some (st.2, st).
Definition k_undefined {X} : K X := fun _ => None.

Section Sockets.
Context (kernel : history -> syscall -> kresult).
(** [if_indextoname], and the answer of the kernel to [SIOCGIFADDR]. *)
Context (if_indextoname : Z -> option string) (ifr_addr : string -> list Z).

Definition sys (c : syscall) : K kresult := fun st =>
  let r := kernel st.2 c in Some (r, (st.1, st.2 ++ [(c, r)])).

(** [rc = setsockopt(...)] and the result of most operations. *)
Definition setsockopt (l : level) (o : sockopt) : K bool :=
  s ← this; r ← sys (sys_setsockopt (m_sock s) l o); mret (negb (rc_of r =? -1)).

(** [setsockopt(...) < 0], the test of the other operations. *)
Definition setsockopt_lt (l : level) (o : sockopt) : K bool :=
  s ← this; r ← sys (sys_setsockopt (m_sock s) l o); mret (negb (rc_of r <? 0)).

(** Every operation begins with this test. *)
Definition if_valid (m : K bool) : K bool :=
  s ← this; if is_udp_valid s then m else mret false.

(** The test of the address family. *)
Definition by_family (v4 v6 : K bool) : K bool :=
  s ← this;
  match m_addrFamily s with
  | Some AF_INET => v4
  | Some AF_INET6 => v6
  | _ => mret false
  end.

(** ** [mc_socket] *)

Definition close_socket : K unit :=
  s ← this;
  if is_udp_valid s && m_own_socket s then _ ← sys (sys_close (m_sock s)); mret tt
  else mret tt.

(** The four functions that create a socket. *)
Definition create_socket (f : addr_family) (kind : socket_kind) : K bool :=
  s ← this;
  _ ← (if is_udp_valid s then close_socket else mret tt);
  r ← sys (sys_socket f kind);
  if rc_of r <? 0 then
    _ ← assign {| m_sock := rc_of r; m_addrFamily := m_addrFamily s; m_own_socket := m_own_socket s |};
    mret false
  else
    _ ← assign {| m_sock := rc_of r; m_addrFamily := Some f; m_own_socket := true |};
    mret true.

Definition create_udp_ipv4_socket : K bool := create_socket AF_INET SOCK_DGRAM.
Definition create_udp_ipv6_socket : K bool := create_socket AF_INET6 SOCK_DGRAM.

Definition set_own_socket (sck : Z) (addr_family : addr_family) : K bool :=
  s ← this;
  _ ← (if is_udp_valid s then close_socket else mret tt);
  if sck <? 0 then mret false
  else match addr_family with
       | AF_INET | AF_INET6 =>
         _ ← assign {| m_sock := sck; m_addrFamily := Some addr_family; m_own_socket := false |};
         mret true
       | AF_UNSPEC => mret false
       end.

Definition bind_udp_socket (addr : addr_storage) (port : Z) : K bool :=
  if_valid (by_family
    (s ← this; r ← sys (sys_bind (m_sock s) (sin_addr addr) port); mret (negb (rc_of r =? -1)))
    (s ← this; r ← sys (sys_bind (m_sock s) (sin6_addr addr) port); mret (negb (rc_of r =? -1)))).

Definition to_int (b : bool) : Z := if b then 1 else 0.

Definition set_multicast_all (enable : bool) : K bool :=
  if_valid (by_family (setsockopt IPPROTO_IP (IP_MULTICAST_ALL (to_int enable))) (mret true)).

Definition set_reuse_port (enable : bool) : K bool :=
  if_valid (setsockopt SOL_SOCKET (SO_REUSEADDR (to_int enable))).

Definition set_loop_back (enable : bool) : K bool :=
  if_valid (by_family (setsockopt IPPROTO_IP (IP_MULTICAST_LOOP (to_int enable)))
                      (setsockopt IPPROTO_IPV6 (IPV6_MULTICAST_LOOP (to_int enable)))).

Definition send_packet (addr : addr_storage) (data : list Z) : K bool :=
  if_valid (s ← this; r ← sys (sys_sendto (m_sock s) data addr); mret (negb (rc_of r =? -1))).

(** The result and [sizeOfInfo]; a call that would block is an empty packet. *)
Definition received (r : kresult) : bool * Z :=
  match r with
  | KOk rc => (negb (rc =? -1), rc)
  | KErr true => (true, 0)
  | KErr false => (false, -1)
  end.

Definition receive_packet (sizeOfBuf : Z) : K (bool * option Z) :=
  s ← this;
  if is_udp_valid s then
    r ← sys (sys_recv (m_sock s) sizeOfBuf); mret ((received r).1, Some (received r).2)
  else mret (false, None).

Definition receive_msg : K (bool * option Z) :=
  s ← this;
  if is_udp_valid s then
    r ← sys (sys_recvmsg (m_sock s)); mret ((received r).1, Some (received r).2)
  else mret (false, None).

Definition set_receive_timeout (msec : Z) : K bool :=
  if_valid (setsockopt SOL_SOCKET (SO_RCVTIMEO (Z.quot msec 1000) (1000 * Z.rem msec 1000))).

Definition choose_if (if_index : Z) : K bool :=
  if_valid (by_family
    (s ← this;
     if 0 <? if_index then
       match if_indextoname if_index with
       | None => mret false
       | Some if_name =>
         r ← sys (sys_ioctl (m_sock s) (SIOCGIFADDR if_name));
         if rc_of r <? 0 then mret false
         else setsockopt IPPROTO_IP (IP_MULTICAST_IF (ifr_addr if_name))
       end
     else setsockopt IPPROTO_IP (IP_MULTICAST_IF (zeros 4)))
    (setsockopt IPPROTO_IPV6 (IPV6_MULTICAST_IF if_index))).

Definition set_ttl (ttl : Z) : K bool :=
  if_valid (by_family (setsockopt IPPROTO_IP (IP_MULTICAST_TTL ttl))
                      (setsockopt IPPROTO_IPV6 (IPV6_MULTICAST_HOPS ttl))).

Definition family_to_level (f : addr_family) : level :=
  match f with AF_INET => IPPROTO_IP | AF_INET6 => IPPROTO_IPV6 | AF_UNSPEC => LEVEL_UNKNOWN end.

Definition generic_group_sockopt (gaddr : addr_storage) (if_index : Z)
    (optname : addr_storage -> Z -> sockopt) : K bool :=
  if_valid (setsockopt (family_to_level (ss_family gaddr)) (optname gaddr if_index)).

Definition generic_source_sockopt (gaddr saddr : addr_storage) (if_index : Z)
    (optname : addr_storage -> addr_storage -> Z -> sockopt) : K bool :=
  if_valid (setsockopt (family_to_level (ss_family gaddr)) (optname gaddr saddr if_index)).

Definition join_group (gaddr : addr_storage) (if_index : Z) : K bool :=
  generic_group_sockopt gaddr if_index MCAST_JOIN_GROUP.
Definition leave_group (gaddr : addr_storage) (if_index : Z) : K bool :=
  generic_group_sockopt gaddr if_index MCAST_LEAVE_GROUP.
Definition block_source (gaddr saddr : addr_storage) (if_index : Z) : K bool :=
  generic_source_sockopt gaddr saddr if_index MCAST_BLOCK_SOURCE.
Definition unblock_source (gaddr saddr : addr_storage) (if_index : Z) : K bool :=
  generic_source_sockopt gaddr saddr if_index MCAST_UNBLOCK_SOURCE.
Definition join_source_group (gaddr saddr : addr_storage) (if_index : Z) : K bool :=
  generic_source_sockopt gaddr saddr if_index MCAST_JOIN_SOURCE_GROUP.
Definition leave_source_group (gaddr saddr : addr_storage) (if_index : Z) : K bool :=
  generic_source_sockopt gaddr saddr if_index MCAST_LEAVE_SOURCE_GROUP.

Definition set_source_filter (if_index : Z) (gaddr : addr_storage) (filter_mode : Z)
    (src_list : list addr_storage) : K bool :=
  if_valid (s ← this;
            r ← sys (sys_setsourcefilter (m_sock s) if_index gaddr filter_mode src_list);
            mret (negb (rc_of r =? -1))).

(** The sources the kernel reports, added to [src_list], and the filter mode;
    [mode], [numsrc] and [sources] are what the last call wrote through its
    pointers. *)
Definition get_source_filter (if_index : Z) (gaddr : addr_storage) (filter_mode : Z)
    (src_list : list addr_storage) (mode numsrc : history -> Z)
    (sources : history -> list addr_storage) : K (bool * Z * list addr_storage) :=
  s ← this;
  if is_udp_valid s then
    r ← sys (sys_getsourcefilter (m_sock s) if_index gaddr 0);
    if rc_of r =? -1 then mret (false, filter_mode, src_list)
    else
      h1 ← calls;
      let old_numsrc := numsrc h1 in
      if old_numsrc =? 0 then mret (true, mode h1, src_list)
      else
        r ← sys (sys_getsourcefilter (m_sock s) if_index gaddr old_numsrc);
        if rc_of r =? -1 then mret (false, mode h1, src_list)
        else
          h2 ← calls;
          mret (true, mode h2,
                src_list ++ take (Z.to_nat (Z.min old_numsrc (numsrc h2))) (sources h2))
  else mret (false, filter_mode, src_list).

(** ** [mroute_socket] *)

Definition create_raw_ipv4_socket : K bool := create_socket AF_INET SOCK_RAW_IGMP.
Definition create_raw_ipv6_socket : K bool := create_socket AF_INET6 SOCK_RAW_ICMPV6.

Definition set_kernel_table (table : Z) : K bool :=
  if_valid (by_family (setsockopt_lt IPPROTO_IP (MRT_TABLE table))
                      (setsockopt_lt IPPROTO_IPV6 (MRT6_TABLE table))).

Definition set_no_ip_hdr (enable : bool) : K bool :=
  if_valid (by_family (setsockopt_lt IPPROTO_IP (IP_HDRINCL (to_int enable)))
                      (setsockopt_lt IPPROTO_IPV6 (IP_HDRINCL (to_int enable)))).

Definition set_ipv6_auto_icmp6_checksum_calc (enable : bool) : K bool :=
  if_valid (by_family (mret false)
                      (setsockopt_lt IPPROTO_IPV6 (IP_HDRINCL (if enable then 2 else -1)))).

Definition add_ipv6_extension_header (buf : list Z) : K bool :=
  if_valid (by_family (mret false) (setsockopt IPPROTO_IPV6 (IPV6_HOPOPTS buf))).

Definition set_ipv4_receive_packets_with_router_alert_header (enable : bool) : K bool :=
  if_valid (by_family (setsockopt IPPROTO_IP (IP_ROUTER_ALERT (to_int enable))) (mret false)).

(** Everything is blocked but the messages of listeners. *)
Definition set_ipv6_recv_icmpv6_msg : K bool :=
  if_valid (by_family (mret false) (setsockopt_lt IPPROTO_ICMPV6 (ICMP6_FILTER [131; 132; 143]))).

Definition set_ipv6_recv_pkt_info : K bool :=
  if_valid (by_family (mret false) (setsockopt_lt IPPROTO_IPV6 (IPV6_RECVPKTINFO 1))).

Definition set_ipv6_recv_hop_by_hop_msg : K bool :=
  if_valid (by_family (mret false) (setsockopt_lt IPPROTO_IPV6 (IPV6_RECVHOPOPTS 1))).

Definition set_mrt_flag (enable : bool) : K bool :=
  if_valid (if enable then by_family (setsockopt IPPROTO_IP MRT_INIT) (setsockopt IPPROTO_IPV6 MRT6_INIT)
            else by_family (setsockopt IPPROTO_IP MRT_DONE) (setsockopt IPPROTO_IPV6 MRT6_DONE)).

(** Numbers of virtual interfaces, and in IPv6 of interfaces, have 16 bits. *)
Definition to_uint16 (z : Z) : Z := z mod 2 ^ 16.

Definition zero_vifctl (vif : Z) : vifctl :=
  {| vifc_vifi := to_uint16 vif; vifc_use_ifindex := false; vifc_threshold := 0;
     vifc_rate_limit := 0; vifc_lcl_ifindex := 0; vifc_rmt_addr := zeros 4 |}.

Definition add_vif (vifNum if_index : Z) (ip_tunnel_remote_addr : addr_storage) : K bool :=
  if_valid (by_family
    (setsockopt IPPROTO_IP (MRT_ADD_VIF
       {| vifc_vifi := to_uint16 vifNum; vifc_use_ifindex := true; vifc_threshold := 1;
          vifc_rate_limit := 0; vifc_lcl_ifindex := to_int32 if_index;
          vifc_rmt_addr := if is_valid ip_tunnel_remote_addr
                           then sin_addr ip_tunnel_remote_addr else zeros 4 |}))
    (setsockopt IPPROTO_IPV6 (MRT6_ADD_MIF
       {| mif6c_mifi := to_uint16 vifNum; mif6c_flags := 0; mif6c_threshold := 1;
          mif6c_rate_limit := 0; mif6c_pifi := to_uint16 if_index |}))).

Definition del_vif (vif_index : Z) : K bool :=
  if_valid (by_family
    (setsockopt IPPROTO_IP (MRT_DEL_VIF (zero_vifctl vif_index)))
    (setsockopt IPPROTO_IPV6 (MRT6_DEL_MIF
       {| mif6c_mifi := to_uint16 vif_index; mif6c_flags := 0; mif6c_threshold := 0;
          mif6c_rate_limit := 0; mif6c_pifi := 0 |}))).

(** The commands of [bind_vif_to_table] and [unbind_vif_form_table]; the name of
    an unknown interface is read from an uninitialised buffer. *)
Definition mrule_commands (verb : string) (if_index table : Z) : K bool :=
  if_valid (
    let run (cmd : string) : K bool :=
      match if_indextoname if_index with
      | None => k_undefined
      | Some if_name =>
        r ← sys (sys_system (cmd +:+ " " +:+ verb +:+ " iif " +:+ if_name +:+ " lookup " +:+ print_Z table));
        if negb (rc_of r =? 0) then mret false
        else
          r ← sys (sys_system (cmd +:+ " " +:+ verb +:+ " oif " +:+ if_name +:+ " lookup " +:+ print_Z table));
          mret (rc_of r =? 0)
      end in
    by_family (run "ip mrule") (run "ip -6 mrule")).

Definition bind_vif_to_table (if_index table : Z) : K bool :=
  mrule_commands "add" if_index table.
Definition unbind_vif_form_table (if_index table : Z) : K bool :=
  mrule_commands "del" if_index table.

(** The number of bits of an [if_set]. *)
Definition IF_SETSIZE : nat := 256.

(** The loops that mark the outputs; a write outside of the array is undefined. *)
Fixpoint mark_outputs (outputs : list Z) (output_vif : list Z) : option (list Z) :=
  match output_vif with
  | [] => Some outputs
  | e :: l =>
    if (0 <=? e) && (e <? Z.of_nat (length outputs))
    then mark_outputs (<[Z.to_nat e := 1]> outputs) l
    else None
  end.

Definition add_mroute (vif_index : Z) (source_addr group_addr : addr_storage)
    (output_vif : list Z) : K bool :=
  if_valid (by_family
    (if (MAXVIFS <? length output_vif)%nat then mret false
     else match mark_outputs (zeros MAXVIFS) output_vif with
          | None => k_undefined
          | Some ttls =>
            setsockopt IPPROTO_IP (MRT_ADD_MFC
              {| mfcc_origin := sin_addr source_addr; mfcc_mcastgrp := sin_addr group_addr;
                 mfcc_parent := to_uint16 vif_index; mfcc_outputs := ttls |})
          end)
    (if (MAXMIFS <? length output_vif)%nat then mret false
     else match mark_outputs (zeros IF_SETSIZE) output_vif with
          | None => k_undefined
          | Some ifset =>
            setsockopt IPPROTO_IPV6 (MRT6_ADD_MFC
              {| mfcc_origin := sin6_addr source_addr; mfcc_mcastgrp := sin6_addr group_addr;
                 mfcc_parent := to_uint16 vif_index; mfcc_outputs := ifset |})
          end)).

Definition del_mroute (vif_index : Z) (source_addr group_addr : addr_storage) : K bool :=
  if_valid (by_family
    (setsockopt IPPROTO_IP (MRT_DEL_MFC
       {| mfcc_origin := sin_addr source_addr; mfcc_mcastgrp := sin_addr group_addr;
          mfcc_parent := to_uint16 vif_index; mfcc_outputs := zeros MAXVIFS |}))
    (setsockopt IPPROTO_IPV6 (MRT6_DEL_MFC
       {| mfcc_origin := sin6_addr source_addr; mfcc_mcastgrp := sin6_addr group_addr;
          mfcc_parent := to_uint16 vif_index; mfcc_outputs := zeros IF_SETSIZE |}))).

(** [req_v4] and [req_v6] say which of the pointers is not null. *)
Definition get_vif_stats (vif_index : Z) (req_v4 req_v6 : bool) : K bool :=
  if_valid (
    s ← this;
    let ask (r : request) : K bool := r ← sys (sys_ioctl (m_sock s) r); mret (negb (rc_of r =? -1)) in
    by_family (if req_v4 then ask (SIOCGETVIFCNT (to_uint16 vif_index)) else mret false)
              (if req_v6 then ask (SIOCGETMIFCNT_IN6 (to_uint16 vif_index)) else mret false)).

Definition get_mroute_stats (source_addr group_addr : addr_storage) (sgreq_v4 sgreq_v6 : bool)
    : K bool :=
  if_valid (
    s ← this;
    let ask (r : request) : K bool := r ← sys (sys_ioctl (m_sock s) r); mret (negb (rc_of r =? -1)) in
    by_family
      (if sgreq_v4 then ask (SIOCGETSGCNT (sin_addr source_addr) (sin_addr group_addr)) else mret false)
      (if sgreq_v6 then ask (SIOCGETSGCNT_IN6 (sin6_addr source_addr) (sin6_addr group_addr))
       else mret false)).
End Sockets.
