(* ===== verification/SocketTheorems.v ===== *)
(** * Descriptors and routes

    A socket object closes every descriptor it got exactly once and uses no
    descriptor that is closed or belongs to another object, whatever operations
    are called on it, as long as no foreign descriptor is put into it; and the routes it hands to the kernel
    name exactly the output interfaces. *)

From S2P Require Import Prelude Def AddrStorage Interfaces Sockets.

Local Open Scope Z_scope.

(** A program whose result is dropped. *)
Definition run_ {X} (m : K X) : K unit := _ ← m; mret tt.

(** ** Open descriptors *)

(** The descriptor a call uses. *)
Definition fd_of (c : syscall) : option Z :=
  match c with
  | sys_socket _ _ | sys_system _ => None
  | sys_close fd | sys_setsockopt fd _ _ | sys_bind fd _ _ | sys_sendto fd _ _ | sys_recv fd _
  | sys_recvmsg fd | sys_ioctl fd _ | sys_setsourcefilter fd _ _ _ _
  | sys_getsourcefilter fd _ _ _ => Some fd
  end.

(** The descriptors that are open after a call; no result if the call uses one
    that is not open. *)
Definition fd_step (open : gset Z) (c : syscall * kresult) : option (gset Z) :=
  match c with
  | (sys_socket _ _, KOk fd) => Some ({[fd]} ∪ open)
  | (sys_close fd, _) => if decide (fd ∈ open) then Some (open ∖ {[fd]}) else None
  | (c, _) => match fd_of c with
              | Some fd => if decide (fd ∈ open) then Some open else None
              | None => Some open
              end
  end.

Fixpoint open_after (open : gset Z) (h : history) : option (gset Z) :=
  match h with
  | [] => Some open
  | c :: h' => open ← fd_step open c; open_after open h'
  end.

Lemma open_after_app open h c :
  open_after open (h ++ [c]) = (o ← open_after open h; fd_step o c).
Proof.
  revert open. induction h as [|c' h IH]; intros open; cbn; [by destruct (fd_step open c)|].
  destruct (fd_step open c'); cbn; [apply IH|done].
Qed.

Section Tidy.
Context (kernel : history -> syscall -> kresult).

(** The descriptors of other objects. *)
Context (others : gset Z).

Definition own_fds (s : mc_socket) : gset Z := if is_udp_valid s then {[m_sock s]} else ∅.

Lemma zero_not_own s : 0 ∉ own_fds s.
Proof.
  unfold own_fds, is_udp_valid. destruct (Z.ltb_spec 0 (m_sock s)); [|set_solver].
  intros Hin%elem_of_singleton. lia.
Qed.

(** The object is the owner of its descriptor, which is open beside those of the
    others; the standard input is open too, so that descriptor 0 is not handed
    out. *)
Definition tidy (st : mc_socket * history) : Prop :=
  m_own_socket st.1 = true /\ open_after ∅ st.2 = Some (own_fds st.1 ∪ others)
  /\ own_fds st.1 ## others /\ 0 ∈ others.

(** A program that returns and keeps the descriptors tidy. *)
Definition keeps {X} (m : K X) : Prop :=
  forall st, tidy st -> exists x st', m st = Some (x, st') /\ tidy st'.

(** The same for a program on the valid object [s], which it leaves alone. *)
Definition keeps_at (s : mc_socket) {X} (m : K X) : Prop :=
  forall h, is_udp_valid s = true -> tidy (s, h) ->
    exists x h', m (s, h) = Some (x, (s, h')) /\ tidy (s, h').

Lemma keeps_at_ret s {X} (x : X) : keeps_at s (mret x).
Proof. intros h _ Ht. by eexists _, _. Qed.

Lemma keeps_at_bind s {X Y} (m : K X) (f : X -> K Y) :
  keeps_at s m -> (forall x, keeps_at s (f x)) -> keeps_at s (m ≫= f).
Proof.
  intros Hm Hf h Hv Ht. destruct (Hm h Hv Ht) as (x & h' & E & Ht').
  destruct (Hf x h' Hv Ht') as (y & h'' & E' & Ht''). exists y, h''. split; [|done].
  unfold mbind, K_bind. by rewrite E.
Qed.

Lemma keeps_at_this s {X} (f : mc_socket -> K X) : keeps_at s (f s) -> keeps_at s (this ≫= f).
Proof. intros Hf h Hv Ht. apply (Hf h Hv Ht). Qed.

Lemma keeps_at_calls s : keeps_at s calls.
Proof. intros h _ Ht. by eexists _, _. Qed.

Lemma keeps_at_sys s c :
  (match c with sys_socket _ _ | sys_close _ => False | _ => True end) ->
  fd_of c = Some (m_sock s) \/ fd_of c = None -> keeps_at s (sys kernel c).
Proof.
  intros Hc Hfd h Hv (Hown & Hopen & Hd). eexists _, _. split; [reflexivity|]. split; [done|].
  split; [|done]. cbn [snd fst] in *. rewrite open_after_app, Hopen. cbn [mbind option_bind].
  assert (Hin : m_sock s ∈ own_fds s ∪ others) by (unfold own_fds; rewrite Hv; set_solver).
  destruct c; try done; cbn in *; destruct Hfd as [[= ->]|]; try done; by rewrite decide_True.
Qed.

Lemma keeps_at_if s {X} (b : bool) (m1 m2 : K X) :
  keeps_at s m1 -> keeps_at s m2 -> keeps_at s (if b then m1 else m2).
Proof. by destruct b. Qed.

Lemma keeps_at_setsockopt s l o : keeps_at s (setsockopt kernel l o).
Proof.
  apply keeps_at_this, keeps_at_bind; [apply keeps_at_sys; [done|by left]|intros; apply keeps_at_ret].
Qed.

Lemma keeps_at_setsockopt_lt s l o : keeps_at s (setsockopt_lt kernel l o).
Proof.
  apply keeps_at_this, keeps_at_bind; [apply keeps_at_sys; [done|by left]|intros; apply keeps_at_ret].
Qed.

Lemma keeps_at_family s v4 v6 : keeps_at s v4 -> keeps_at s v6 -> keeps_at s (by_family v4 v6).
Proof.
  intros H4 H6. apply keeps_at_this.
  destruct (m_addrFamily s) as [[]|]; try done; apply keeps_at_ret.
Qed.

Lemma keeps_if_valid m : (forall s, keeps_at s m) -> keeps (if_valid m).
Proof.
  intros Hm [s h] Ht. unfold if_valid, mbind, K_bind, this. cbn [fst].
  destruct (is_udp_valid s) eqn:Hv; [|by eexists _, _].
  destruct (Hm s h Hv Ht) as (x & h' & E & Ht'). by exists x, (s, h').
Qed.

(** The same test in the functions with other results. *)
Lemma keeps_valid_else {X} (m : mc_socket -> K X) (x : X) :
  (forall s, keeps_at s (m s)) -> keeps (s ← this; if is_udp_valid s then m s else mret x).
Proof.
  intros Hm [s h] Ht. unfold mbind, K_bind, this. cbn [fst].
  destruct (is_udp_valid s) eqn:Hv; [|by eexists _, _].
  destruct (Hm s h Hv Ht) as (y & h' & E & Ht'). by exists y, (s, h').
Qed.

Lemma keeps_run {X} (m : K X) : keeps m -> keeps (run_ m).
Proof.
  intros Hm st Ht. destruct (Hm st Ht) as (x & st' & E & Ht'). exists tt, st'. split; [|done].
  unfold run_, mbind, K_bind. by rewrite E.
Qed.

(** Closing an own socket leaves the descriptors of the others. *)
Lemma close_socket_tidy st :
  tidy st ->
  exists h', close_socket kernel st = Some (tt, (st.1, h')) /\ open_after ∅ h' = Some others.
Proof.
  destruct st as [s h]. intros (Hown & Hopen & Hd). cbn [fst snd] in *.
  unfold close_socket, mbind, K_bind, this. cbn [fst]. rewrite Hown. unfold own_fds in *.
  destruct (is_udp_valid s); cbn [andb];
    [|exists h; split; [done|]; rewrite Hopen; f_equal; apply leibniz_equiv; set_solver].
  eexists. split; [reflexivity|]. cbn [snd]. rewrite open_after_app, Hopen. cbn.
  rewrite decide_True by set_solver. f_equal. apply leibniz_equiv. set_solver.
Qed.

(** A new object. *)
Lemma new_socket_tidy h : 0 ∈ others -> open_after ∅ h = Some others -> tidy (new_mc_socket, h).
Proof.
  intros H0 Ho. split; [done|]. split; [|set_solver]. cbn [snd]. rewrite Ho. f_equal. apply leibniz_equiv. set_solver.
Qed.

(** The kernel hands out descriptors that are not in use (socket(2)). *)
Hypothesis kernel_fds : forall h open f k fd,
  open_after ∅ h = Some open -> kernel h (sys_socket f k) = KOk fd -> 0 <= fd /\ fd ∉ open.

Lemma keeps_create f k : keeps (create_socket kernel f k).
Proof.
  intros [s h] Ht. assert (Hz : 0 ∈ others) by apply Ht. unfold create_socket, mbind at 1, K_bind at 1, this. cbn [fst].
  assert (Hc : exists h', (if is_udp_valid s then close_socket kernel else mret tt) (s, h) = Some (tt, (s, h'))
    /\ open_after ∅ h' = Some others).
  { destruct (is_udp_valid s) eqn:Hv; [by apply (close_socket_tidy (s, h))|].
    exists h. split; [done|]. destruct Ht as (_ & Ho & _). unfold own_fds in Ho. cbn in Ho. rewrite Hv in Ho.
    rewrite Ho. f_equal. apply leibniz_equiv. set_solver. }
  destruct Hc as (h' & Ec & Ho). unfold mbind at 1, K_bind at 1. rewrite Ec.
  unfold mbind at 1, K_bind at 1, sys. cbn [fst snd].
  destruct (kernel h' (sys_socket f k)) as [fd|again] eqn:Ek; cbn [rc_of].
  - destruct (kernel_fds _ _ _ _ _ Ho Ek) as [Hp Hn]. rewrite (proj2 (Z.ltb_ge _ _)) by lia.
    assert (fd <> 0) by (intros ->; done).
    eexists _, _. split; [reflexivity|]. unfold tidy, own_fds, is_udp_valid. cbn [fst snd m_sock m_own_socket].
    rewrite (proj2 (Z.ltb_lt _ _)) by lia. split; [done|]. split; [|set_solver].
    rewrite open_after_app, Ho. done.
  - eexists _, _. split; [reflexivity|]. unfold tidy, own_fds, is_udp_valid. cbn [fst snd m_sock m_own_socket].
    split; [apply Ht|]. split; [|set_solver]. rewrite open_after_app, Ho. cbn. f_equal.
    apply leibniz_equiv. set_solver.
Qed.

End Tidy.

(** One step of a proof that a program keeps the descriptors tidy. *)
Ltac keeps_step :=
  first
  [ apply keeps_run
  | eapply keeps_create; eassumption
  | apply keeps_if_valid; intros ?s
  | apply keeps_valid_else; intros ?s
  | apply keeps_at_ret
  | apply keeps_at_setsockopt
  | apply keeps_at_setsockopt_lt
  | apply keeps_at_family
  | apply keeps_at_this
  | apply keeps_at_calls
  | apply keeps_at_if
  | apply keeps_at_sys; [exact I|solve [by left|by right]]
  | apply keeps_at_bind; [|intros ?x]
  | match goal with |- keeps_at _ _ (match ?o with Some _ => _ | None => _ end) => destruct o end ].

(** ** Operations *)

Inductive sock_op :=
  | OpCreateUdp4 | OpCreateUdp6 | OpCreateRaw4 | OpCreateRaw6
  | OpBind (addr : addr_storage) (port : Z)
  | OpMulticastAll (b : bool) | OpReusePort (b : bool) | OpLoopBack (b : bool)
  | OpSend (addr : addr_storage) (data : list Z) | OpReceive (size : Z) | OpReceiveMsg
  | OpTimeout (msec : Z) | OpChooseIf (i : Z) | OpTtl (ttl : Z)
  | OpJoin (g : addr_storage) (i : Z) | OpLeave (g : addr_storage) (i : Z)
  | OpBlock (g a : addr_storage) (i : Z) | OpUnblock (g a : addr_storage) (i : Z)
  | OpJoinSource (g a : addr_storage) (i : Z) | OpLeaveSource (g a : addr_storage) (i : Z)
  | OpSetFilter (i : Z) (g : addr_storage) (mode : Z) (l : list addr_storage)
  | OpGetFilter (i : Z) (g : addr_storage) (mode numsrc : history -> Z)
      (sources : history -> list addr_storage)
  | OpKernelTable (n : Z) | OpNoIpHdr (b : bool) | OpAutoChecksum (b : bool)
  | OpExtensionHeader (buf : list Z) | OpRouterAlert (b : bool) | OpRecvIcmpv6 | OpRecvPktInfo
  | OpRecvHopByHop | OpMrtFlag (b : bool)
  | OpAddVif (v i : Z) (remote : addr_storage) | OpDelVif (v : Z)
  | OpBindTable (i n : Z) | OpUnbindTable (i n : Z)
  | OpAddMroute (v : Z) (a g : addr_storage) (out : list Z) | OpDelMroute (v : Z) (a g : addr_storage)
  | OpVifStats (v : Z) (r4 r6 : bool) | OpMrouteStats (a g : addr_storage) (r4 r6 : bool).

Section Descriptors.
Context (kernel : history -> syscall -> kresult).
Context (if_indextoname : Z -> option string) (ifr_addr : string -> list Z).

Definition run_op (o : sock_op) : K unit :=
  match o with
  | OpCreateUdp4 => run_ (create_udp_ipv4_socket kernel)
  | OpCreateUdp6 => run_ (create_udp_ipv6_socket kernel)
  | OpCreateRaw4 => run_ (create_raw_ipv4_socket kernel)
  | OpCreateRaw6 => run_ (create_raw_ipv6_socket kernel)
  | OpBind addr port => run_ (bind_udp_socket kernel addr port)
  | OpMulticastAll b => run_ (set_multicast_all kernel b)
  | OpReusePort b => run_ (set_reuse_port kernel b)
  | OpLoopBack b => run_ (set_loop_back kernel b)
  | OpSend addr data => run_ (send_packet kernel addr data)
  | OpReceive size => run_ (receive_packet kernel size)
  | OpReceiveMsg => run_ (receive_msg kernel)
  | OpTimeout msec => run_ (set_receive_timeout kernel msec)
  | OpChooseIf i => run_ (choose_if kernel if_indextoname ifr_addr i)
  | OpTtl ttl => run_ (set_ttl kernel ttl)
  | OpJoin g i => run_ (join_group kernel g i)
  | OpLeave g i => run_ (leave_group kernel g i)
  | OpBlock g a i => run_ (block_source kernel g a i)
  | OpUnblock g a i => run_ (unblock_source kernel g a i)
  | OpJoinSource g a i => run_ (join_source_group kernel g a i)
  | OpLeaveSource g a i => run_ (leave_source_group kernel g a i)
  | OpSetFilter i g mode l => run_ (set_source_filter kernel i g mode l)
  | OpGetFilter i g mode numsrc sources =>
    run_ (get_source_filter kernel i g 0 [] mode numsrc sources)
  | OpKernelTable n => run_ (set_kernel_table kernel n)
  | OpNoIpHdr b => run_ (set_no_ip_hdr kernel b)
  | OpAutoChecksum b => run_ (set_ipv6_auto_icmp6_checksum_calc kernel b)
  | OpExtensionHeader buf => run_ (add_ipv6_extension_header kernel buf)
  | OpRouterAlert b => run_ (set_ipv4_receive_packets_with_router_alert_header kernel b)
  | OpRecvIcmpv6 => run_ (set_ipv6_recv_icmpv6_msg kernel)
  | OpRecvPktInfo => run_ (set_ipv6_recv_pkt_info kernel)
  | OpRecvHopByHop => run_ (set_ipv6_recv_hop_by_hop_msg kernel)
  | OpMrtFlag b => run_ (set_mrt_flag kernel b)
  | OpAddVif v i remote => run_ (add_vif kernel v i remote)
  | OpDelVif v => run_ (del_vif kernel v)
  | OpBindTable i n => run_ (bind_vif_to_table kernel if_indextoname i n)
  | OpUnbindTable i n => run_ (unbind_vif_form_table kernel if_indextoname i n)
  | OpAddMroute v a g out => run_ (add_mroute kernel v a g out)
  | OpDelMroute v a g => run_ (del_mroute kernel v a g)
  | OpVifStats v r4 r6 => run_ (get_vif_stats kernel v r4 r6)
  | OpMrouteStats a g r4 r6 => run_ (get_mroute_stats kernel a g r4 r6)
  end.

Fixpoint run_ops (l : list sock_op) : K unit :=
  match l with
  | [] => mret tt
  | o :: l' => _ ← run_op o; run_ops l'
  end.

(** The operations that are defined: known interfaces, outputs in the array. *)
Definition op_defined (o : sock_op) : Prop :=
  match o with
  | OpBindTable i _ | OpUnbindTable i _ => is_Some (if_indextoname i)
  | OpAddMroute _ _ _ out => Forall (fun v => 0 <= v < 32) out
  | _ => True
  end.

Hypothesis kernel_fds : forall h open f k fd,
  open_after ∅ h = Some open -> kernel h (sys_socket f k) = KOk fd -> 0 <= fd /\ fd ∉ open.

Context (others : gset Z).

Local Notation keeps := (keeps others).
Local Notation tidy := (tidy others).

Lemma mark_outputs_some l outputs :
  Forall (fun v => 0 <= v < Z.of_nat (length outputs)) l ->
  exists r, mark_outputs outputs l = Some r /\ length r = length outputs.
Proof.
  intros Hl. revert outputs Hl. induction l as [|v l IH]; intros outputs Hl; cbn [mark_outputs]; [eauto|].
  apply Forall_cons in Hl as [Hv Hl]. rewrite (proj2 (Z.leb_le _ _)), (proj2 (Z.ltb_lt _ _)) by lia.
  cbn [andb]. destruct (IH (<[Z.to_nat v:=1]> outputs)) as (r & E & Hr); [by rewrite length_insert|].
  exists r. by rewrite Hr, length_insert.
Qed.

Lemma keeps_mrule verb i n : is_Some (if_indextoname i) -> keeps (mrule_commands kernel if_indextoname verb i n).
Proof. intros [name Hn]. unfold mrule_commands. rewrite Hn. repeat keeps_step. Qed.

Lemma keeps_add_mroute v a g out :
  Forall (fun v => 0 <= v < 32) out -> keeps (add_mroute kernel v a g out).
Proof.
  intros Hout. unfold add_mroute.
  destruct (mark_outputs_some out (zeros MAXVIFS)) as (r4 & -> & _); [done|].
  destruct (mark_outputs_some out (zeros IF_SETSIZE)) as (r6 & -> & _).
  { eapply Forall_impl; [exact Hout|]. cbn. lia. }
  repeat keeps_step.
Qed.

Lemma keeps_op o : op_defined o -> keeps (run_op o).
Proof.
  destruct o; cbn [run_op op_defined]; intros Hd;
    try (apply keeps_run; first [by apply keeps_mrule|by apply keeps_add_mroute]);
    unfold join_group, leave_group, block_source, unblock_source, join_source_group,
      leave_source_group, generic_group_sockopt, generic_source_sockopt, create_udp_ipv4_socket,
      create_udp_ipv6_socket, create_raw_ipv4_socket, create_raw_ipv6_socket, bind_udp_socket,
      set_multicast_all, set_reuse_port, set_loop_back, send_packet, receive_packet, receive_msg,
      set_receive_timeout, choose_if, set_ttl, set_source_filter, get_source_filter, set_kernel_table,
      set_no_ip_hdr, set_ipv6_auto_icmp6_checksum_calc, add_ipv6_extension_header,
      set_ipv4_receive_packets_with_router_alert_header, set_ipv6_recv_icmpv6_msg,
      set_ipv6_recv_pkt_info, set_ipv6_recv_hop_by_hop_msg, set_mrt_flag, add_vif, del_vif, del_mroute,
      get_vif_stats, get_mroute_stats; cbv zeta; repeat keeps_step.
Qed.

Lemma keeps_ops l : Forall op_defined l -> keeps (run_ops l).
Proof.
  induction 1 as [|o l Ho Hl IH]; intros st Ht; [by eexists _, _|]. cbn [run_ops].
  destruct (keeps_op o Ho st Ht) as (x & st1 & E1 & Ht1). destruct (IH st1 Ht1) as (y & st2 & E2 & Ht2).
  exists y, st2. split; [|done]. unfold mbind, K_bind. by rewrite E1.
Qed.


(** The condition on the standard input is needed: descriptor 0, which the kernel
    may hand out when it is free, passes for no socket at all, and is never
    closed. *)
Lemma descriptor_zero_leaks f k h :
  kernel h (sys_socket f k) = KOk 0 ->
  exists s h', create_socket kernel f k (new_mc_socket, h) = Some (true, (s, h'))
    /\ is_udp_valid s = false /\ h' = h ++ [(sys_socket f k, KOk 0)]
    /\ close_socket kernel (s, h') = Some (tt, (s, h')).
Proof.
  intros Hk. eexists _, _. unfold create_socket, mbind, K_bind, this, sys. cbn. rewrite Hk. cbn.
  by split_and!.
Qed.

(** A refused foreign descriptor leaves the closed one in the object: the
    destructor closes it a second time, when it may belong to another socket. *)
Lemma refused_socket_closed_twice f sck st :
  tidy st -> is_udp_valid st.1 = true -> sck < 0 ->
  exists h h', set_own_socket kernel sck f st = Some (false, (st.1, h))
    /\ close_socket kernel (st.1, h) = Some (tt, (st.1, h')) /\ open_after ∅ h' = None.
Proof.
  intros Ht Hv Hs. destruct (close_socket_tidy kernel others st Ht) as (h & Ec & Ho). destruct st as [s h0].
  cbn [fst] in *. exists h. unfold set_own_socket, mbind, K_bind, this. cbn [fst]. rewrite Hv, Ec.
  rewrite (proj2 (Z.ltb_lt _ _)) by lia. unfold close_socket, mbind, K_bind, this. cbn [fst].
  destruct Ht as (Hown & _ & Hd). cbn in Hown. rewrite Hv, Hown. cbn [andb].
  eexists. split; [done|]. split; [reflexivity|]. cbn [snd]. rewrite open_after_app, Ho. cbn.
  rewrite decide_False; [done|]. unfold own_fds in Hd. cbn in Hd. rewrite Hv in Hd. set_solver.
Qed.
End Descriptors.

(** ** Routes *)

Lemma mark_outputs_lookup l outputs r k :
  mark_outputs outputs l = Some r ->
  r !! k = if bool_decide (Z.of_nat k ∈ l) then Some 1 else outputs !! k.
Proof.
  revert outputs. induction l as [|v l IH]; intros outputs; cbn [mark_outputs]; [by intros [= <-]|].
  destruct ((0 <=? v) && (v <? Z.of_nat (length outputs))) eqn:Hv; [|done].
  apply andb_true_iff in Hv as [Hv1%Z.leb_le Hv2%Z.ltb_lt]. intros Hr. rewrite (IH _ Hr).
  destruct (decide (Z.of_nat k = v)) as [<-|Hne].
  - rewrite (bool_decide_eq_true_2 (Z.of_nat k ∈ Z.of_nat k :: l)) by set_solver.
    rewrite Nat2Z.id, list_lookup_insert_eq by lia. by case_bool_decide.
  - rewrite list_lookup_insert_ne by lia. rewrite (bool_decide_ext (Z.of_nat k ∈ v :: l) (Z.of_nat k ∈ l));
      [done|]. rewrite elem_of_cons. naive_solver.
Qed.

(** C35: A route added on a valid IPv4 socket reaches the kernel with a hop limit
    for exactly the given output interfaces; the result of the call is the
    result of the function. *)
Theorem add_mroute_outputs kernel vif src grp out s h :
  is_udp_valid s = true -> m_addrFamily s = Some AF_INET ->
  Forall (fun v => 0 <= v < 32) out -> (length out <= 32)%nat ->
  exists ttls, add_mroute kernel vif src grp out (s, h)
    = (let c := sys_setsockopt (m_sock s) IPPROTO_IP (MRT_ADD_MFC
                 {| mfcc_origin := sin_addr src; mfcc_mcastgrp := sin_addr grp;
                    mfcc_parent := to_uint16 vif; mfcc_outputs := ttls |}) in
      Some (negb (rc_of (kernel h c) =? -1), (s, h ++ [(c, kernel h c)])))
    /\ forall k, ttls !! k = if (k <? 32)%nat
                             then Some (if bool_decide (Z.of_nat k ∈ out) then 1 else 0) else None.
Proof.
  intros Hv Hf Hout Hlen. destruct (mark_outputs_some out (zeros MAXVIFS)) as (r & Hr & Hl); [done|].
  exists r. unfold add_mroute, if_valid, by_family, setsockopt, mbind, K_bind, this, sys. cbn [fst snd].
  rewrite Hv. cbn [fst snd]. rewrite Hf, (proj2 (Nat.ltb_ge _ _)), Hr by done. split; [done|]. intros k.
  rewrite (mark_outputs_lookup _ _ _ k Hr). destruct (Nat.ltb_spec k 32) as [Hk|Hk].
  - case_bool_decide; [done|]. unfold zeros, MAXVIFS. by apply lookup_replicate.
  - rewrite bool_decide_eq_false_2; [by apply lookup_ge_None_2|].
    rewrite Forall_forall in Hout. intros Hin. apply Hout in Hin. lia.
Qed.

(** ** Concrete runs *)

(** A kernel that accepts everything and hands out the descriptor above all
    that it handed out before. *)
Definition highest_fd (h : history) : Z :=
  fold_right (fun c m => match c with (sys_socket _ _, KOk fd) => Z.max fd m | _ => m end) 2 h.

Definition obliging_kernel (h : history) (c : syscall) : kresult :=
  match c with sys_socket _ _ => KOk (highest_fd h + 1) | _ => KOk 0 end.

Lemma open_after_highest h open open' :
  open_after open h = Some open' -> forall fd, fd ∈ open' -> fd ∈ open \/ fd <= highest_fd h.
Proof.
  revert open. induction h as [|[c x] h IH]; intros open; cbn [open_after]; [intros [= <-]; auto|].
  intros (o & Hs & Ho)%bind_Some fd Hfd. destruct (IH o Ho fd Hfd) as [Hin|Hle].
  - destruct c, x; cbn in *; repeat case_decide; simplify_eq; try set_solver.
    apply elem_of_union in Hin as [->%elem_of_singleton|?]; [right; unfold highest_fd; cbn [fold_right]; lia|by left].
  - right. unfold highest_fd in *. destruct c, x; cbn [fold_right]; lia.
Qed.

Lemma highest_fd_min h : 2 <= highest_fd h.
Proof. unfold highest_fd. induction h as [|[[] []] h IH]; cbn [fold_right]; lia. Qed.

Lemma obliging_kernel_fds h open f k fd :
  open_after ∅ h = Some open -> obliging_kernel h (sys_socket f k) = KOk fd -> 0 <= fd /\ fd ∉ open.
Proof.
  intros Ho [= <-]. pose proof (highest_fd_min h). split; [lia|]. intros Hin.
  destruct (open_after_highest _ _ _ Ho _ Hin); [set_solver|lia].
Qed.

Definition sample_group : addr_storage :=
  {| ss_family := AF_INET; port := 0; sin_addr := [239; 1; 2; 3]; sin6_addr := replicate 16 0 |}.

Definition sample_ops : list sock_op :=
  [OpTtl 1; OpCreateUdp4; OpJoin sample_group 2; OpCreateRaw6; OpMrtFlag true;
   OpAddMroute 0 sample_group sample_group [1; 4]].

Definition raw_ipv4 : mc_socket := {| m_sock := 3; m_addrFamily := Some AF_INET; m_own_socket := true |}.

(** The standard input is open, and another object has opened a socket before. *)
Definition sample_history : history := [(sys_socket AF_INET SOCK_DGRAM, KOk 0); (sys_socket AF_INET SOCK_DGRAM, KOk 3)].


Lemma add_mroute_outputs_witness : exists ttls,
  add_mroute obliging_kernel 0 sample_group sample_group [1; 4] (raw_ipv4, [])
    = (let c := sys_setsockopt 3 IPPROTO_IP (MRT_ADD_MFC
                 {| mfcc_origin := sin_addr sample_group; mfcc_mcastgrp := sin_addr sample_group;
                    mfcc_parent := to_uint16 0; mfcc_outputs := ttls |}) in
      Some (negb (rc_of (obliging_kernel [] c) =? -1), (raw_ipv4, [] ++ [(c, obliging_kernel [] c)])))
  /\ forall k, ttls !! k = if (k <? 32)%nat
                           then Some (if bool_decide (Z.of_nat k ∈ [1; 4]) then 1 else 0) else None.
Proof.
  apply (add_mroute_outputs obliging_kernel 0 sample_group sample_group [1; 4] raw_ipv4 []);
    [reflexivity|reflexivity|repeat constructor; lia|simpl; lia].
Defined.
