(* ===== verification/KernelRouting.v ===== *)
(** * Kernel routing (include/proxy/routing.hpp, src/proxy/routing.cpp,
      include/proxy/check_kernel.hpp, src/proxy/check_kernel.cpp)

    The object that registers the virtual interfaces with the kernel on the
    socket for multicast routing, and the test of the features of the kernel. *)

From S2P Require Import Prelude Def AddrStorage Interfaces Printing IfProp Sockets SocketTheorems.

Local Open Scope Z_scope.

(** ** [routing] *)

(** [m_added_ifs] is an ordered set. *)
Record routing := {
  m_table_number : Z;
  r_addr_family : addr_family;
  m_if_prop : if_prop;
  m_added_ifs : list Z
}.

Definition IFF_POINTOPOINT : Z := 16.

(** The constructor throws if the interfaces cannot be listed. *)
Definition new_routing (answer : option (Z * list ifaddrs)) (f : addr_family) (table_number : Z)
    : option routing :=
  match refresh_network_interfaces answer new_if_prop with
  | (true, p, _) => Some {| m_table_number := table_number; r_addr_family := f; m_if_prop := p; m_added_ifs := [] |}
  | (false, _, _) => None
  end.

Definition set_added (l : list Z) (r : routing) : routing :=
  {| m_table_number := m_table_number r; r_addr_family := r_addr_family r; m_if_prop := m_if_prop r;
     m_added_ifs := l |}.

Section Routing.
Context (kernel : history -> syscall -> kresult) (if_indextoname : Z -> option string).
Implicit Types r : routing.

(** The entry of the interface: the outer option is a null pointer that is
    dereferenced, the inner one the test of the result. *)
Definition find_item r (if_name : string) : option (option ifaddrs) :=
  match r_addr_family r with
  | AF_INET => Some (get_ip4_if if_name (m_if_prop r))
  | AF_INET6 => l ← get_ip6_if if_name (m_if_prop r); e ← head l; Some (Some e)
  | AF_UNSPEC => Some None
  end.

(** The address of a tunnel's other end. *)
Definition tunnel_remote (item : ifaddrs) : option addr_storage :=
  if negb (Z.land (ifa_flags item) IFF_POINTOPOINT =? 0) then ifa_dstaddr item else None.

Definition bind_table r (if_index : Z) : K bool :=
  if 0 <? m_table_number r then bind_vif_to_table kernel if_indextoname if_index (m_table_number r)
  else mret true.

Definition routing_add_vif (if_index vif : Z) r : K (bool * routing) :=
  match if_indextoname if_index with
  | None => k_undefined
  | Some if_name =>
    match find_item r if_name with
    | None => k_undefined
    | Some None => mret (false, r)
    | Some (Some item) =>
      match tunnel_remote item with
      | Some remote =>
        ok ← add_vif kernel vif if_index remote;
        if negb ok then mret (false, r)
        else b ← bind_table r if_index; mret (b, r)
      | None =>
        ok ← add_vif kernel vif if_index (of_family AF_UNSPEC);
        if negb ok then mret (false, r)
        else
          let r' := set_added (sl_insert (to_uint32 if_index) (m_added_ifs r)) r in
          b ← bind_table r' if_index; mret (b, r')
      end
    end
  end.

Definition routing_add_route (input_vif : Z) (g_addr src_addr : addr_storage) (output_vif : list Z) r
    : K bool :=
  match r_addr_family r with
  | AF_INET =>
    if (MAXVIFS <? length output_vif)%nat then mret false
    else add_mroute kernel input_vif src_addr g_addr output_vif
  | AF_INET6 =>
    if (MAXMIFS <? length output_vif)%nat then mret false
    else add_mroute kernel input_vif src_addr g_addr output_vif
  | AF_UNSPEC => mret false
  end.

Definition routing_del_route (vif : Z) (g_addr src_addr : addr_storage) : K bool :=
  del_mroute kernel vif src_addr g_addr.

Definition routing_del_vif (if_index vif : Z) r : K (bool * routing) :=
  ok ← del_vif kernel vif;
  if negb ok then mret (false, r)
  else
    b ← (if 0 <? m_table_number r
         then unbind_vif_form_table kernel if_indextoname if_index (m_table_number r)
         else mret true);
    if negb b then mret (false, r)
    else mret (true, set_added (sl_erase (to_uint32 if_index) (m_added_ifs r)) r).

(** The loop of the destructor. [del_vif] erases the element the loop stands on:
    the next step of the loop is then undefined. *)
Fixpoint clean_up (ifs : interfaces) (l : list Z) r : K routing :=
  match l with
  | [] => mret r
  | e :: l' =>
    '(_, r') ← routing_del_vif (to_int32 e) (get_virtual_if_index e ifs) r;
    match sl_find e (m_added_ifs r') with
    | Some _ => clean_up ifs l' r'
    | None => k_undefined
    end
  end.

Definition destroy_routing (ifs : interfaces) r : K routing := clean_up ifs (m_added_ifs r) r.

(** ** [check_kernel] *)

(** The lines that are printed. *)
Definition report (what : string) (ok : bool) : string :=
  " - " +:+ what +:+ (if ok then ": Ok!" else ": Failed!").

Definition check_routing_tables (version : string) : K (list string) :=
  t ← set_kernel_table kernel 1;
  m ← set_mrt_flag kernel true;
  mret [report (version +:+ " multiple routing tables") t; report (version +:+ " routing tables") m].

Definition secure_limit : nat := 40.
Definition MCAST_INCLUDE : Z := 1.

(** The loops; [n] is what is left to the limit. *)
Fixpoint join_loop (n : nat) (join_count : Z) (gaddr : addr_storage) : K (Z * addr_storage) :=
  match n with
  | O => mret (join_count, gaddr)
  | S n' =>
    ok ← join_group kernel gaddr 1;
    if ok : bool then join_loop n' (join_count + 1) (operator_incr gaddr)
    else mret (join_count, gaddr)
  end.

Fixpoint filter_loop (n : nat) (filter_count : Z) (gaddr saddr : addr_storage) : K Z :=
  match n with
  | O => mret filter_count
  | S n' =>
    ok ← set_source_filter kernel 1 gaddr MCAST_INCLUDE [saddr];
    if ok : bool then filter_loop n' (filter_count + 1) gaddr (operator_incr saddr)
    else mret filter_count
  end.

Definition limit_line (version what unit : string) (count : Z) : string :=
  " - " +:+ version +:+ " mcproxy was able to " +:+ what +:+ " " +:+ print_Z count
    +:+ (if Z.of_nat secure_limit <=? count
         then "+ " +:+ unit +:+ " successfully (no limit found)"
         else " " +:+ unit +:+ " successfully").

Context (inet_pton : addr_family -> string -> option (list Z)).

Definition check_kernel_limits (version : string) : K (list string) :=
  let text (s : string) : addr_storage := assign_string inet_pton (of_family AF_UNSPEC) s in
  let run (gaddr saddr : addr_storage) : K (list string) :=
    '(join_count, gaddr) ← join_loop secure_limit 0 gaddr;
    filter_count ← filter_loop secure_limit 0 (operator_decr gaddr) saddr;
    mret [limit_line version "join" "groups" join_count; limit_line version "set" "filters" filter_count] in
  if bool_decide (version = "ipv4") then run (text "225.0.0.0") (text "1.1.1.1")
  else if bool_decide (version = "ipv6") then run (text "FF05:1::0") (text "2005::1")
  else mret [].

Definition check_kernel_features (euid : Z) : K (list string) :=
  v4 ← create_raw_ipv4_socket kernel;
  t4 ← check_routing_tables "ipv4";
  l4 ← check_kernel_limits "ipv4";
  v6 ← create_raw_ipv6_socket kernel;
  t6 ← check_routing_tables "ipv6";
  l6 ← check_kernel_limits "ipv6";
  mret (["Check the currently available kernel features.";
         if euid =? 0 then " - root privileges: Ok!" else " - root privileges: Failed"; "";
         if v4 : bool then " - ipv4 multicast: Ok!" else " - ipv4 multicast: Failed"]
        ++ t4 ++ [""] ++ l4 ++ [""]
        ++ [report "ipv6 multicast" v6] ++ t6 ++ [""] ++ l6).

(** ** Properties *)

(** A tunnel is not remembered: it is not removed when the object goes. *)
Lemma tunnel_not_recorded if_index vif r name item remote st x r' st' :
  if_indextoname if_index = Some name -> find_item r name = Some (Some item) ->
  tunnel_remote item = Some remote ->
  routing_add_vif if_index vif r st = Some ((x, r'), st') -> r' = r.
Proof.
  intros Hn Hi Ht. unfold routing_add_vif. rewrite Hn, Hi, Ht. unfold mbind, K_bind.
  destruct (add_vif _ _ _ _ st) as [[[] st1]|]; [|by intros [= <- <- <-]|done]. cbn [negb].
  destruct (bind_table _ _ st1) as [[b st2]|]; [|done]. by intros [= <- <- <-].
Qed.

(** If an interface can be removed, the destructor is undefined: it steps on
    from an element that is gone. *)
Lemma destructor_undefined ifs e l r st r' st' :
  m_added_ifs r = e :: l -> to_uint32 (to_int32 e) = e ->
  routing_del_vif (to_int32 e) (get_virtual_if_index e ifs) r st = Some ((true, r'), st') ->
  destroy_routing ifs r st = None.
Proof.
  intros Hl He Hd. unfold destroy_routing. rewrite Hl. cbn [clean_up]. unfold mbind, K_bind. rewrite Hd.
  assert (Hf : sl_find e (m_added_ifs r') = None); [|by rewrite Hf].
  revert Hd. unfold routing_del_vif, mbind, K_bind.
  destruct (del_vif _ _ st) as [[[] st1]|]; [|done..]. cbn [negb].
  destruct (_ st1) as [[[] st2]|]; [|done..]. intros [= <- <-]. cbn [m_added_ifs set_added].
  rewrite sl_find_erase, He. by case_bool_decide.
Qed.

(** The groups of a loop that joins [k] groups from [gaddr] on. *)
Fixpoint addrs_from (k : nat) (a : addr_storage) : list addr_storage :=
  match k with O => [] | S k' => a :: addrs_from k' (operator_incr a) end.

(** The socket and the joins of a list of groups. *)
Definition join_call (s : mc_socket) (g : addr_storage) : syscall :=
  sys_setsockopt (m_sock s) (family_to_level (ss_family g)) (MCAST_JOIN_GROUP g 1).

(** The test of the kernel joins consecutive groups, reports the number of
    joins that succeeded and stops at the first refusal or at the limit. *)
Theorem join_loop_spec n s h gaddr count :
  is_udp_valid s = true ->
  exists k hs, (k <= n)%nat
    /\ join_loop n count gaddr (s, h)
       = Some ((count + Z.of_nat k, Nat.iter k operator_incr gaddr), (s, h ++ hs))
    /\ hs.*1 = map (join_call s) (addrs_from (if (k <? n)%nat then S k else k) gaddr)
    /\ forall j c x, hs !! j = Some (c, x) -> (rc_of x = -1 <-> j = k).
Proof.
  intros Hv. revert h gaddr count. induction n as [|n IH]; intros h gaddr count.
  { exists 0%nat, []. rewrite app_nil_r, Z.add_0_r. split_and!; done. }
  cbn [join_loop]. unfold join_group, generic_group_sockopt, if_valid, setsockopt, mbind, K_bind, this, sys.
  cbn [fst snd]. rewrite Hv. cbn [fst snd mret K_ret]. fold (join_call s gaddr).
  destruct (rc_of (kernel h (join_call s gaddr)) =? -1) eqn:Erc; cbn [negb mret K_ret].
  - apply Z.eqb_eq in Erc. exists 0%nat, [(join_call s gaddr, kernel h (join_call s gaddr))].
    rewrite Z.add_0_r. split_and!; [lia|done|done|]. intros [|j] c x; [by intros [= <- <-]|done].
  - apply Z.eqb_neq in Erc.
    destruct (IH (h ++ [(join_call s gaddr, kernel h (join_call s gaddr))]) (operator_incr gaddr) (count + 1))
      as (k & hs & Hk & E & Hc & Hr).
    exists (S k), ((join_call s gaddr, kernel h (join_call s gaddr)) :: hs). split_and!; [lia| | |].
    + etrans; [exact E|]. rewrite <- app_assoc, Nat.iter_succ_r. do 3 f_equal. lia.
    + cbn [fmap list_fmap map fst]. rewrite Hc. change (S k <? S n)%nat with (k <? n)%nat. by destruct (k <? n)%nat.
    + intros [|j] c x; cbn; [intros [= <- <-]; naive_solver|]. intros Hj. rewrite (Hr j c x Hj). naive_solver lia.
Qed.
End Routing.

(** ** Routes to the interfaces of the table *)

(** C34: A route whose outputs are the numbers the interface table gave to its
    interfaces is always defined: no number lies outside of the kernel's array,
    whatever the socket and the kernel. *)
Theorem assigned_route_defined kernel ifs r input_vif g_addr src_addr output_ifs s h :
  ifs_wf ifs -> Forall (fun i => is_Some (vif_of ifs i)) output_ifs ->
  exists b h', routing_add_route kernel input_vif g_addr src_addr
    (map (fun i => get_virtual_if_index i ifs) output_ifs) r (s, h) = Some (b, (s, h ++ h')).
Proof.
  intros Hwf Hout. set (out := map _ output_ifs).
  assert (Hr : Forall (fun v => 0 <= v < 32) out).
  { apply Forall_map. eapply Forall_impl; [exact Hout|]. intros i [v Hv]. cbn.
    destruct (iw_range _ Hwf i v Hv) as [_ Hv2]. unfold vif_of in Hv. unfold get_virtual_if_index.
    destruct (sl_find i (m_if_vif ifs)) as [e|]; [|done]. cbn in Hv. by injection Hv as ->. }
  assert (Hm : exists b h', add_mroute kernel input_vif src_addr g_addr out (s, h) = Some (b, (s, h ++ h'))).
  { destruct (mark_outputs_some out (zeros MAXVIFS)) as (r4 & E4 & _); [done|].
    destruct (mark_outputs_some out (zeros IF_SETSIZE)) as (r6 & E6 & _).
    { eapply Forall_impl; [exact Hr|]. cbn. lia. }
    unfold add_mroute, if_valid, by_family, setsockopt, mbind, K_bind, this, sys. cbn [fst snd].
    destruct (is_udp_valid s); [|exists false, []; by rewrite app_nil_r]. cbn [fst snd].
    destruct (m_addrFamily s) as [[]|]; try (exists false, []; by rewrite app_nil_r).
    - destruct (_ <? _)%nat; [exists false, []; by rewrite app_nil_r|]. rewrite E4. by eexists _, _.
    - destruct (_ <? _)%nat; [exists false, []; by rewrite app_nil_r|]. rewrite E6. by eexists _, _. }
  unfold routing_add_route. destruct (r_addr_family r); [by exists false, []; rewrite app_nil_r|..];
    (destruct (_ <? _)%nat; [exists false, []; by rewrite app_nil_r|exact Hm]).
Qed.

(** ** Concrete runs *)

(** A kernel that refuses the third call. *)
Definition third_refused (h : history) (_ : syscall) : kresult :=
  if (length h =? 2)%nat then KErr false else KOk 0.

Lemma join_loop_spec_witness : exists k hs, (k <= 40)%nat
  /\ join_loop third_refused 40 0 (ip4 225 0 0 0) (raw_ipv4, [])
     = Some ((0 + Z.of_nat k, Nat.iter k operator_incr (ip4 225 0 0 0)), (raw_ipv4, [] ++ hs))
  /\ hs.*1 = map (join_call raw_ipv4) (addrs_from (if (k <? 40)%nat then S k else k) (ip4 225 0 0 0))
  /\ forall j c x, hs !! j = Some (c, x) -> (rc_of x = -1 <-> j = k).
Proof. apply (join_loop_spec third_refused (fun _ => None) 40 raw_ipv4 [] (ip4 225 0 0 0) 0). reflexivity. Defined.

(** One interface in the table. *)
Definition one_interface : interfaces := set_maps [(0, 3)] [(3, 0)] (new_interfaces AF_INET false).

Lemma one_interface_wf : ifs_wf one_interface.
Proof. by apply (insert_wf 3 0 (new_interfaces AF_INET false) (new_interfaces_wf _ _)). Qed.

Definition ex_routing : routing :=
  {| m_table_number := 0; r_addr_family := AF_INET; m_if_prop := new_if_prop; m_added_ifs := [3] |}.

Lemma assigned_route_defined_witness : exists b h',
  routing_add_route obliging_kernel 1 sample_group sample_group
    (map (fun i => get_virtual_if_index i one_interface) [3]) ex_routing (raw_ipv4, [])
    = Some (b, (raw_ipv4, [] ++ h')).
Proof.
  apply (assigned_route_defined obliging_kernel one_interface ex_routing 1 sample_group sample_group [3]
           raw_ipv4 [] one_interface_wf).
  repeat constructor. by exists 0.
Defined.

(** The destructor of an object with one interface is undefined. *)
Lemma destructor_undefined_example :
  destroy_routing obliging_kernel (fun _ => None) one_interface ex_routing (raw_ipv4, []) = None.
Proof. reflexivity. Qed.
