(* ===== verification/InstanceSockets.v ===== *)
(** * The sockets of a proxy instance (the constructors of src/proxy/sender.cpp,
      igmp_sender.cpp, mld_sender.cpp, receiver.cpp, igmp_receiver.cpp,
      mld_receiver.cpp, and init_mrt_socket, init_sender, init_receiver and
      init_routing of src/proxy/proxy_instance.cpp)

    An instance opens two sockets: one for the multicast routing, which the
    receiver and the routing share, and the one of its sender. A constructor that
    throws destroys the members made so far. *)

From S2P Require Import Prelude Result Def AddrStorage Interfaces Printing TimersValues.
From S2P Require Import Timing Messages Sender QueryPacket IfProp Sockets SocketTheorems.
From S2P Require Import KernelRouting.

Local Open Scope Z_scope.

Definition RECEIVER_RECV_TIMEOUT : Z := 100.

Section InstanceSockets.
Context (kernel : history -> syscall -> kresult) (e : endian).

(** [if (!call) throw msg;] and what follows it. *)
Definition require (m : K bool) (f : failure) (next : K (result unit)) : K (result unit) :=
  ok ← m; if ok : bool then next else mret (Err f).

Definition constructed : K (result unit) := mret (Ok tt).

(** ** Constructors *)

Definition sender_init (gmp : group_mem_protocol) (derived : K (result unit)) : K (result unit) :=
  let loop := require (set_loop_back kernel false) (Throw "failed to set loop back") derived in
  if is_IPv4 gmp then
    require (create_raw_ipv4_socket kernel) (Throw "failed to create raw ipv4 socket") loop
  else if is_IPv6 gmp then
    require (create_raw_ipv6_socket kernel) (Throw "failed to create raw ipv6 socket") loop
  else mret (Err (Throw "wrong addr_family")).

Definition igmp_sender_init : K (result unit) :=
  sender_init IGMPv3 (require (set_no_ip_hdr kernel true) (Throw "failed to set no ip hdr") constructed).

Definition add_hbh_opt_header : K bool := add_ipv6_extension_header kernel (hbh_opt_header e).

Definition mld_sender_init : K (result unit) :=
  sender_init MLDv2
    (require (set_ipv6_auto_icmp6_checksum_calc kernel true) (Throw "failed to set default icmmpv6 checksum")
      (require add_hbh_opt_header (Throw "failed to add router alert header") constructed)).

(** The exception of the receiver is a [std::string], which nothing catches. *)
Definition receiver_init (derived : K (result unit)) : K (result unit) :=
  require (set_receive_timeout kernel RECEIVER_RECV_TIMEOUT) Terminate derived.

Definition igmp_receiver_init : K (result unit) := receiver_init constructed.

Definition mld_receiver_init : K (result unit) :=
  receiver_init
    (require (set_ipv6_recv_icmpv6_msg kernel) (Throw "failed to set receive icmpv6 message")
      (require (set_ipv6_recv_pkt_info kernel) (Throw "faield to set receive paket info") constructed)).

(** The result of creating the socket is not used. *)
Definition mrt_socket_init (gmp : group_mem_protocol) (table_number : Z) : K bool :=
  let rest : K bool :=
    t ← (if 0 <? table_number then set_kernel_table kernel table_number else mret true);
    if negb t then mret false else set_mrt_flag kernel true in
  if is_IPv4 gmp then _ ← create_raw_ipv4_socket kernel; rest
  else if is_IPv6 gmp then _ ← create_raw_ipv6_socket kernel; rest
  else mret false.

Definition by_version (gmp : group_mem_protocol) (unknown : string) (v4 v6 : K (result unit))
    : K (result unit) :=
  if is_IPv4 gmp then v4 else if is_IPv6 gmp then v6 else mret (Err (Throw unknown)).

Definition init_sender (gmp : group_mem_protocol) : K (result unit) :=
  by_version gmp "failed to initialize sender" igmp_sender_init mld_sender_init.

Definition init_receiver (gmp : group_mem_protocol) : K (result unit) :=
  by_version gmp "failed to initialise receiver" igmp_receiver_init mld_receiver_init.

(** ** The constructor of an instance *)

(** Programs that only extend the log. *)
Definition Log (X : Type) : Type := history -> option (X * history).

(** Run a program on a socket object. *)
Definition on {X} (s : mc_socket) (m : K X) : Log (X * mc_socket) := fun h =>
  match m (s, h) with Some (x, (s', h')) => Some ((x, s'), h') | None => None end.

#[export] Instance Log_ret : MRet Log := fun X x h => Some (x, h).
#[export] Instance Log_bind : MBind Log := fun X Y f m h =>
  match m h with Some (x, h') => f x h' | None => None end.

(** The destructors of the members, last one first. *)
Definition destroy (s : mc_socket) : Log unit := '(_, _) ← on s (close_socket kernel); mret tt.

(** Unwinding; without a handler the process ends at the throw. *)
Definition unwind {X} (f : failure) (members : list mc_socket) : Log (result X) :=
  match f with
  | Throw _ => _ ← foldr (fun s m => _ ← destroy s; m) (mret tt) members; mret (Err f)
  | _ => mret (Err f)
  end.

Record instance_sockets := {
  is_mrt_sock : mc_socket;
  is_sender_sock : mc_socket;
  is_routing : routing
}.

Definition new_instance_sockets (gmp : group_mem_protocol) (table_number : Z)
    (answer : option (Z * list ifaddrs)) : Log (result instance_sockets) :=
  '(ok, mrt) ← on new_mc_socket (mrt_socket_init gmp table_number);
  if negb ok then unwind (Throw "failed to initialize mroute socket") [mrt]
  else
    '(res, sender) ← on new_mc_socket (init_sender gmp);
    match res with
    | Err f => unwind f [sender; mrt]
    | Ok _ =>
      '(res, mrt) ← on mrt (init_receiver gmp);
      match res with
      | Err f => unwind f [sender; mrt]
      | Ok _ =>
        match new_routing answer (get_addr_family gmp) table_number with
        | None => unwind (Throw "failed to refresh netwok interfaces") [sender; mrt]
        | Some r => mret (Ok {| is_mrt_sock := mrt; is_sender_sock := sender; is_routing := r |})
        end
      end
    end.

(** ** Properties *)

(** A call that succeeded was made on a valid socket, and left it alone. *)
Definition same_socket {X} (m : K X) : Prop :=
  forall st x st', m st = Some (x, st') -> st'.1 = st.1.

Lemma same_setsockopt l o : same_socket (setsockopt kernel l o).
Proof. intros st x st' [= _ <-]. done. Qed.

Lemma same_setsockopt_lt l o : same_socket (setsockopt_lt kernel l o).
Proof. intros st x st' [= _ <-]. done. Qed.

Lemma same_ret {X} (x : X) : same_socket (mret x).
Proof. intros st y st' [= _ <-]. done. Qed.

Lemma same_family v4 v6 : same_socket v4 -> same_socket v6 -> same_socket (by_family v4 v6).
Proof.
  intros H4 H6 st x st'. unfold by_family, mbind, K_bind, this. destruct (m_addrFamily st.1) as [[]|];
    [apply same_ret|apply H4|apply H6|apply same_ret].
Qed.

Lemma if_valid_true m st st' :
  same_socket m -> if_valid m st = Some (true, st') -> is_udp_valid st'.1 = true.
Proof.
  intros Hm. unfold if_valid, mbind, K_bind, this. destruct (is_udp_valid st.1) eqn:Hv; [|done].
  intros E. by rewrite (Hm _ _ _ E).
Qed.

(** A program that ends without an exception only if its socket is valid. *)
Definition leaves_valid (m : K (result unit)) : Prop :=
  forall st x st', m st = Some (Ok x, st') -> is_udp_valid st'.1 = true.

Lemma require_valid m f : (forall st st', m st = Some (true, st') -> is_udp_valid st'.1 = true) ->
  leaves_valid (require m f constructed).
Proof.
  intros Hm st x st'. unfold require, mbind, K_bind. destruct (m st) as [[[] st1]|] eqn:E; try done.
  intros [= _ <-]. by apply (Hm st).
Qed.

Lemma require_then m f next : leaves_valid next -> leaves_valid (require m f next).
Proof.
  intros Hn st x st'. unfold require, mbind, K_bind. destruct (m st) as [[[] st1]|]; try done. apply Hn.
Qed.

Ltac valid_step :=
  intros ? ?; apply if_valid_true;
  repeat first [apply same_family|apply same_setsockopt|apply same_setsockopt_lt|apply same_ret].

Lemma init_sender_valid gmp : leaves_valid (init_sender gmp).
Proof.
  unfold init_sender, by_version. destruct (is_IPv4 gmp); [|destruct (is_IPv6 gmp); [|done]].
  - do 2 apply require_then. apply require_valid. unfold set_no_ip_hdr. valid_step.
  - do 3 apply require_then. apply require_valid. unfold add_hbh_opt_header, add_ipv6_extension_header.
    valid_step.
Qed.

Lemma init_receiver_valid gmp : leaves_valid (init_receiver gmp).
Proof.
  unfold init_receiver, by_version. destruct (is_IPv4 gmp); [|destruct (is_IPv6 gmp); [|done]].
  - apply require_valid. unfold set_receive_timeout. valid_step.
  - do 2 apply require_then. apply require_valid. unfold set_ipv6_recv_pkt_info. valid_step.
Qed.
End InstanceSockets.

Section Ownership.
Context (kernel : history -> syscall -> kresult) (e : endian).
Hypothesis kernel_fds : forall h open f k fd,
  open_after ∅ h = Some open -> kernel h (sys_socket f k) = KOk fd -> 0 <= fd /\ fd ∉ open.

Lemma keeps_require others m f next :
  keeps others m -> keeps others next -> keeps others (require m f next).
Proof.
  intros Hm Hn st Ht. destruct (Hm st Ht) as (ok & st1 & E & Ht1). unfold require, mbind, K_bind.
  rewrite E. destruct ok; [by apply Hn|]. by eexists _, _.
Qed.

Lemma keeps_ret others {X} (x : X) : keeps others (mret x).
Proof. intros st Ht. by eexists _, _. Qed.

Lemma keeps_bind others {X Y} (m : K X) (f : X -> K Y) :
  keeps others m -> (forall x, keeps others (f x)) -> keeps others (m ≫= f).
Proof.
  intros Hm Hf st Ht. destruct (Hm st Ht) as (x & st1 & E & Ht1). unfold mbind, K_bind. rewrite E.
  by apply Hf.
Qed.

Ltac keeps_init :=
  repeat match goal with
         | |- keeps _ (require _ _ _) => apply keeps_require
         | |- keeps _ (mret _) => apply keeps_ret
         | |- keeps _ (if ?b then _ else _) => destruct b
         | |- keeps _ (_ ≫= _) => apply keeps_bind; [|intros ?]
         | |- _ => keeps_step
         end.

Lemma keeps_mrt_socket_init others gmp n : keeps others (mrt_socket_init kernel gmp n).
Proof.
  unfold mrt_socket_init, create_raw_ipv4_socket, create_raw_ipv6_socket, set_kernel_table, set_mrt_flag.
  cbv zeta. keeps_init.
Qed.

Lemma keeps_init_sender others gmp : keeps others (init_sender kernel e gmp).
Proof.
  unfold init_sender, by_version, igmp_sender_init, mld_sender_init, sender_init, add_hbh_opt_header,
    add_ipv6_extension_header, create_raw_ipv4_socket, create_raw_ipv6_socket, set_loop_back,
    set_no_ip_hdr, set_ipv6_auto_icmp6_checksum_calc, constructed. cbv zeta. keeps_init.
Qed.

Lemma keeps_init_receiver others gmp : keeps others (init_receiver kernel gmp).
Proof.
  unfold init_receiver, by_version, igmp_receiver_init, mld_receiver_init, receiver_init,
    set_receive_timeout, set_ipv6_recv_icmpv6_msg, set_ipv6_recv_pkt_info, constructed. keeps_init.
Qed.

Lemma mrt_socket_init_valid gmp n st st' :
  mrt_socket_init kernel gmp n st = Some (true, st') -> is_udp_valid st'.1 = true.
Proof.
  unfold mrt_socket_init. cbv zeta.
  assert (Hrest : forall st, (t ← (if 0 <? n then set_kernel_table kernel n else mret true);
      if negb t then mret false else set_mrt_flag kernel true) st = Some (true, st') -> is_udp_valid st'.1 = true).
  { assert (Hflag : forall st, set_mrt_flag kernel true st = Some (true, st') -> is_udp_valid st'.1 = true).
    { intros st0. apply if_valid_true. apply same_family; apply same_setsockopt. }
    intros st0. unfold mbind, K_bind. destruct (0 <? n); [|apply Hflag].
    destruct (set_kernel_table kernel n st0) as [[[] st1]|]; try done. apply Hflag. }
  destruct (is_IPv4 gmp); [|destruct (is_IPv6 gmp); [|done]].
  - unfold mbind at 1, K_bind at 1. destruct (create_raw_ipv4_socket kernel st) as [[b st1]|]; [|done]. apply Hrest.
  - unfold mbind at 1, K_bind at 1. destruct (create_raw_ipv6_socket kernel st) as [[b st1]|]; [|done]. apply Hrest.
Qed.

(** *** Two objects on one log *)

Lemma on_keeps others s h {X} (m : K X) :
  keeps others m -> tidy others (s, h) ->
  exists x s' h', on s m h = Some ((x, s'), h') /\ m (s, h) = Some (x, (s', h')) /\ tidy others (s', h').
Proof.
  intros Hm Ht. destruct (Hm (s, h) Ht) as (x & [s' h'] & E & Ht'). exists x, s', h'.
  split; [|done]. unfold on. by rewrite E.
Qed.

(** The descriptors of one object count as others for the next one. *)
Lemma tidy_swap s1 s2 others h :
  m_own_socket s1 = true -> own_fds s1 ## others /\ 0 ∈ others ->
  tidy (own_fds s1 ∪ others) (s2, h) -> tidy (own_fds s2 ∪ others) (s1, h).
Proof.
  intros Ho1 Hd1 (_ & Hopen & Hd2). cbn in *. split; [done|]. split.
  - cbn. rewrite Hopen. f_equal. set_solver.
  - cbn. set_solver.
Qed.

(** The instance holds two descriptors of its own. *)
Definition two_descriptors (others : gset Z) (i : instance_sockets) (h : history) : Prop :=
  is_udp_valid (is_mrt_sock i) = true /\ is_udp_valid (is_sender_sock i) = true
  /\ m_sock (is_mrt_sock i) <> m_sock (is_sender_sock i)
  /\ m_sock (is_mrt_sock i) ∉ others /\ m_sock (is_sender_sock i) ∉ others
  /\ open_after ∅ h = Some ({[m_sock (is_mrt_sock i); m_sock (is_sender_sock i)]} ∪ others).

(** The descriptors after the constructor; without a handler the process ends. *)
Definition accounted (others : gset Z) (res : result instance_sockets) (h : history) : Prop :=
  match res with
  | Ok i => two_descriptors others i h
  | Err (Throw _) => open_after ∅ h = Some others
  | Err _ => True
  end.

Lemma unwind_first f others s h :
  tidy others (s, h) -> exists res h', unwind kernel f [s] h = Some (res, h') /\ accounted others res h'.
Proof.
  intros Ht. destruct f as [f| | |]; [|by eexists _, _..].
  destruct (close_socket_tidy kernel others (s, h) Ht) as (h' & E & Ho). exists (Err (Throw f)), h'.
  split; [|done]. cbn. unfold destroy, on, mbind, Log_bind. by rewrite E.
Qed.

Lemma unwind_both f others s1 s2 h :
  tidy (own_fds s2 ∪ others) (s1, h) -> tidy (own_fds s1 ∪ others) (s2, h) ->
  exists res h', unwind kernel f [s2; s1] h = Some (res, h') /\ accounted others res h'.
Proof.
  intros H1 H2. destruct f as [f| | |]; [|by eexists _, _..].
  destruct (close_socket_tidy kernel _ (s2, h) H2) as (h1 & E1 & Ho1).
  assert (H1' : tidy others (s1, h1)).
  { destruct H1 as (Hown & _ & Hd & Hz). split; [done|]. split; [done|]. cbn in *.
    pose proof (zero_not_own s2). set_solver. }
  destruct (close_socket_tidy kernel others (s1, h1) H1') as (h2 & E2 & Ho2).
  exists (Err (Throw f)), h2. split; [|done].
  cbn. unfold destroy, on, mbind, Log_bind. cbn [fst] in E1. rewrite E1.
  unfold mret at 1, Log_ret at 1. by rewrite E2.
Qed.

(** C37: Whatever the kernel answers, as long as the standard input is open (so that
    no socket gets descriptor 0, which would leak), the constructor of an instance
    ends. If it succeeds the instance holds two valid descriptors of its own and
    nothing else was opened; if it throws an exception that is handled, every
    descriptor it opened is closed again. *)
Theorem instance_sockets_owned gmp table_number answer others h :
  0 ∈ others -> open_after ∅ h = Some others ->
  exists res h', new_instance_sockets kernel e gmp table_number answer h = Some (res, h')
    /\ accounted others res h'.
Proof.
  intros Hz Ho. unfold new_instance_sockets, mbind at 1, Log_bind at 1.
  destruct (on_keeps others new_mc_socket h _ (keeps_mrt_socket_init others gmp table_number))
    as (ok & mrt & h1 & -> & E1 & T1); [by apply (new_socket_tidy kernel)|].
  destruct ok; cbn [negb]; [|by apply unwind_first].
  unfold mbind at 1, Log_bind at 1.
  destruct (on_keeps (own_fds mrt ∪ others) new_mc_socket h1 _ (keeps_init_sender _ gmp))
    as (res & sender & h2 & -> & E2 & T2); [apply (new_socket_tidy kernel); [set_solver|apply T1]|].
  destruct T1 as (Hown1 & _ & Hd1). pose proof (tidy_swap _ _ _ _ Hown1 Hd1 T2) as T1'.
  destruct res as [[]|f]; [|by apply unwind_both].
  unfold mbind at 1, Log_bind at 1.
  destruct (on_keeps (own_fds sender ∪ others) mrt h2 _ (keeps_init_receiver _ gmp) T1')
    as (res & mrt' & h3 & -> & E3 & T3).
  assert (T2' : tidy (own_fds mrt' ∪ others) (sender, h3)).
  { pose proof (zero_not_own sender). destruct T2 as (? & _ & ?). apply tidy_swap; [done|cbn in *; set_solver|done]. }
  destruct res as [[]|f]; [|by apply unwind_both].
  destruct (new_routing answer (get_addr_family gmp) table_number) as [r|]; [|by apply unwind_both].
  eexists _, _. split; [reflexivity|]. unfold accounted, two_descriptors. cbn [is_mrt_sock is_sender_sock].
  apply init_sender_valid in E2. apply init_receiver_valid in E3. cbn [fst] in *.
  destruct T2' as (_ & Hopen & Hd & _). destruct T3 as (_ & _ & Hd3 & _). unfold own_fds in *. cbn [fst snd] in *.
  rewrite E2, E3 in *. split_and!; try done; try set_solver. rewrite Hopen. f_equal. set_solver.
Qed.
End Ownership.

(** ** Concrete runs *)

Definition stdin_history : history := [(sys_socket AF_INET SOCK_DGRAM, KOk 0)].

Lemma instance_sockets_owned_witness : exists res h',
  new_instance_sockets obliging_kernel LITTLE_ENDIAN IGMPv3 1 (Some (1, [])) stdin_history = Some (res, h')
  /\ accounted {[0]} res h'.
Proof.
  apply (instance_sockets_owned obliging_kernel LITTLE_ENDIAN obliging_kernel_fds IGMPv3 1 (Some (1, [])) {[0]} stdin_history);
    [set_solver|reflexivity].
Defined.

(** A kernel that accepts everything gives an instance. *)
Lemma instance_sockets_constructed :
  exists i h', new_instance_sockets obliging_kernel LITTLE_ENDIAN MLDv2 0 (Some (1, [])) [] = Some (Ok i, h')
    /\ length h' = 9%nat.
Proof. eexists _, _. split; [reflexivity|]. reflexivity. Qed.
