(* ===== verification/Tester.v ===== *)
(** * The tester (src/tester/tester.cpp)

    A program of its own that sends and receives test packets as the groups of
    its configuration say: the reading of the settings of a group, the loops
    that receive and send, and [run], which goes from one group to the next. The
    texts on the standard output are left out, except for the summaries and the reason of
    an [exit(0)], without the address and the port it may name. *)

From Stdlib Require Import Strings.Ascii.
From S2P Require Import Prelude Def Scanner AddrStorage Parser Configuration Printing.
From S2P Require Import ConfigMap TesterPackets Sockets SocketTheorems KernelRouting.
From S2P Require Import InstanceSockets.

Local Open Scope Z_scope.

(** ** Results

    [exit(0)] ends the process behind a message, anywhere. *)

Definition E (X : Type) : Type := string + X.

#[export] Instance E_ret : MRet E := fun X x => inr x.
#[export] Instance E_bind : MBind E := fun X Y f m =>
  match m with inl msg => inl msg | inr x => f x end.

Definition exit {X} (msg : string) : E X := inl msg.

(** A program with a socket that may exit. *)
Definition T (X : Type) : Type := K (E X).

#[export] Instance T_ret : MRet T := fun X x st => Some (inr x, st).
#[export] Instance T_bind : MBind T := fun X Y f m st =>
  match m st with
  | Some (inr x, st') => f x st'
  | Some (inl msg, st') => Some (inl msg, st')
  | None => None
  end.

Definition of_K {X} (m : K X) : T X := fun st =>
  match m st with Some (x, st') => Some (inr x, st') | None => None end.
Definition of_E {X} (m : E X) : T X := fun st => Some (m, st).

(** [if (!call) { cout << msg; exit(0); }] *)
Definition demand (m : K bool) (msg : string) : T unit :=
  ok ← of_K m; of_E (if ok : bool then inr tt else exit msg).

(** ** The settings of a group *)

Section Getters.
Context (inet_pton : addr_family -> string -> option (list Z)) (if_nametoindex : string -> Z).
Context (m_config_map : config_map).

Definition addr_of_string (s : string) : addr_storage :=
  assign_string inet_pton (of_family AF_UNSPEC) s.

(** An absent value, or one that is parsed. *)
Definition value_or {X} (to_do key : string) (default_return : X) (parse : string -> E X) : E X :=
  let result := get m_config_map to_do key in
  if String.eqb result "" then inr default_return else parse result.

Definition or_exit {X} (o : option X) (msg : string) : E X :=
  match o with Some x => inr x | None => exit msg end.

Definition get_gaddr (to_do : string) : E addr_storage :=
  let tmp_gaddr := get m_config_map to_do "group" in
  if String.eqb tmp_gaddr "" then exit "no group found, in unicast mode: need to select IP version"
  else
    let gaddr := addr_of_string tmp_gaddr in
    if negb (is_valid gaddr) then exit ("group " +:+ tmp_gaddr +:+ " is not an ipaddress")
    else inr gaddr.

Definition src_key (i : nat) : string := "src_" +:+ print_Z (Z.of_nat i).

(** The loop from [src_i] on; the first absent key ends it. No result: out of
    fuel. *)
Fixpoint src_loop (fuel : nat) (to_do : string) (f : addr_family) (i : nat)
    : option (E (list addr_storage)) :=
  match fuel with
  | O => None
  | S fuel =>
    let str_saddr := get m_config_map to_do (src_key i) in
    if String.eqb str_saddr "" then Some (inr [])
    else
      let saddr := addr_of_string str_saddr in
      if negb (bool_decide (f = ss_family saddr)) then
        Some (exit (src_key i +:+ " is not an ip address or has the wrong ip version"))
      else
        match src_loop fuel to_do f (S i) with
        | Some (inr slist) => Some (inr (saddr :: slist))
        | r => r
        end
  end.

(** A group has no more sources than keys. *)
Definition get_src_list (to_do : string) (f : addr_family) : option (E (list addr_storage)) :=
  src_loop (S (size (default ∅ (m_config_map !! to_do)))) to_do f 0.

Definition get_mc_filter (to_do : string) : E mc_filter :=
  value_or to_do "filter_mode" INCLUDE_MODE (fun str_mf =>
    if String.eqb str_mf "include" then inr INCLUDE_MODE
    else if String.eqb str_mf "exclude" then inr EXCLUDE_MODE
    else exit (str_mf +:+ " is not filter_mode")).

(** A [long] becomes an [unsigned long]. *)
Definition get_max_count (to_do : string) : E Z :=
  value_or to_do "max_count" 0 (fun str_max_count =>
    or_exit ((fun v => v mod 2 ^ 64) <$> stol str_max_count) "failed to parse max_count").

Definition get_if_name (to_do : string) : E string :=
  let if_name := get m_config_map to_do "interface" in
  if String.eqb if_name "" then exit "no interface found"
  else if if_nametoindex if_name =? 0 then exit ("interface " +:+ if_name +:+ " not found")
  else inr if_name.

Definition get_action (to_do : string) : E string :=
  let action := get m_config_map to_do "action" in
  if String.eqb action "" then exit "no action found" else inr action.

Definition get_msg (to_do proposal : string) : string :=
  if negb (String.eqb proposal "") then proposal
  else
    let msg := get m_config_map to_do "msg" in
    if String.eqb msg "" then "this is a test message" else msg.

Definition get_send_interval (to_do : string) : E Z :=
  value_or to_do "send_interval" 1000 (fun s => or_exit (stoi s) "failed to parse interval").

Definition get_lifetime (to_do : string) : E Z :=
  value_or to_do "lifetime" 0 (fun s => or_exit (stoi s) "failed to parse lifetime").

Definition get_int (to_do compare : string) (default_return : Z) : E Z :=
  value_or to_do compare default_return (fun s => or_exit (stoi s) ("failed to parse " +:+ compare)).

Definition get_boolean (to_do compare : string) (default_return : bool) : E bool :=
  value_or to_do compare default_return (fun result =>
    if String.eqb result "true" then inr true
    else if String.eqb result "false" then inr false
    else exit ("failed to parse " +:+ compare)).

Definition get_file_name (to_do proposal : string) : string :=
  if negb (String.eqb proposal "") then proposal
  else
    let result := get m_config_map to_do "file_name" in
    if String.eqb result "" then "delay_measurment_file" else result.

Definition get_file_operation_mode (to_do : string) : E string :=
  value_or to_do "file_operation_mode" "override" (fun result =>
    if negb (String.eqb result "override") && negb (String.eqb result "append")
    then exit "failed to file_operation_mode" else inr result).

Definition get_to_do_next (to_do : string) : E string :=
  let to_do_next := get m_config_map to_do "to_do_next" in
  let to_do_next := if String.eqb to_do_next "" then "null" else to_do_next in
  if negb (String.eqb to_do_next "null") && negb (has_group m_config_map to_do_next)
  then exit ("to_do_next " +:+ to_do_next +:+ " not found") else inr to_do_next.

(** The locals of [run], in the order of their calls. *)
Record options := {
  if_name : string;
  gaddr : addr_storage;
  max_count : Z;
  slist : list addr_storage;
  action : string;
  mfilter : mc_filter;
  ttl : Z;
  udp_port : Z;
  busy_waiting_counter : Z;
  message : string;
  interval : Z;
  print_status_msg : bool;
  save_to_file : bool;
  file_name : string;
  include_file_header : bool;
  include_data : bool;
  include_summary : bool;
  ignore_duplicated_packets : bool;
  parse_time_stamp : bool;
  include_time_stamp : bool;
  file_operation_mode : string;
  lifetime : Z;
  to_do_next : string
}.
End Getters.

(** ** Sockets and packets *)

(** The log file: its first line, the lines of packets, and the summary. The
    rate of the data is a quotient of bytes and milliseconds, before it is
    rounded. *)
Record summary := {
  su_packet_count : Z;
  su_data_total_size : Z;
  su_receive_duration : Z;
  su_packets_per_sec : Z;
  su_goodput : Z * Z
}.

Inductive file_line := Text_line (s : string) | Summary_line (s : summary).

Notation disk := (gmap string (list file_line)).

(** A call of [recv] and the reads of the clock and of [m_running] behind it. *)
Record round := {
  r_data : list Z;
  r_running : bool;
  r_first : Z;
  r_now : Z
}.

(** The locals of [receive_data] that its loop changes. *)
Record receiving := {
  buf : list Z;
  info_size : Z;
  packet_count : Z;
  data_total_size : Z;
  receive_start_time_stamp : Z;
  send_time_stamp : Z;
  packet_number : Z;
  delay : Z;
  receive_time_stamp : Z;
  msg : string;
  pmanager : packet_manager;
  file : list file_line
}.

Definition buf_size : Z := 1472.

Definition in_long (z : Z) : bool := (- 2 ^ 63 <=? z) && (z <? 2 ^ 63).

(** [recv] writes the front of the buffer. *)
Definition overwrite (data buf : list Z) : list Z := data ++ drop (length data) buf.

Definition header (parse_time_stamp : bool) : file_line :=
  Text_line (if parse_time_stamp
             then "packet_number(#) time_stamp_sender(ms) time_stamp_receiver(ms) delay(ms) message(str)"
             else "packet_number(#)").

Definition packet_line (s : receiving) : file_line :=
  Text_line (print_Z (packet_number s) +:+ " " +:+ print_Z (send_time_stamp s) +:+ " "
             +:+ print_Z (receive_time_stamp s) +:+ " " +:+ print_Z (delay s) +:+ msg s).

(** The quotient of a count and a duration, in packets per second. The division
    is one of unsigned numbers; by zero it is undefined, as is a result that is
    not an [int]. *)
Definition per_second (count receive_duration : Z) : option Z :=
  if receive_duration =? 0 then None
  else
    let n := count / (receive_duration mod 2 ^ 64) * 1000 in
    if n <? 2 ^ 31 then Some n else None.

(** The other quotient is one of signed numbers. *)
Definition per_second_signed (count receive_duration : Z) : option Z :=
  if receive_duration =? 0 then None
  else
    let n := Z.quot count receive_duration * 1000 in
    if (- 2 ^ 31 <=? n) && (n <? 2 ^ 31) then Some n else None.

(** The summary of [count] packets since [start]. *)
Definition summarize (rate : Z -> Z -> option Z) (start now count total : Z) : option summary :=
  if start =? 0 then
    Some {| su_packet_count := count; su_data_total_size := total; su_receive_duration := 0;
            su_packets_per_sec := 0; su_goodput := (0, 1) |}
  else
    packets_per_sec ← rate count (now - start);
    Some {| su_packet_count := count; su_data_total_size := total; su_receive_duration := now - start;
            su_packets_per_sec := packets_per_sec;
            su_goodput := (Z.quot (Z.quot total 1024) 1024 * 1000, now - start) |}.

(** The signal handler ends a loop: the rounds of an environment are those
    before it. [e_start] and [e_end] are the other reads of the clock. *)
Record environment := {
  e_rounds : list round;
  e_sends : list Z;
  e_start : Z;
  e_end : Z
}.

Section Run.
Context (kernel : history -> syscall -> kresult).
Context (if_indextoname : Z -> option string) (ifr_addr : string -> list Z).
Context (inet_pton : addr_family -> string -> option (list Z)) (if_nametoindex : string -> Z).
(** The files that can be opened for writing. *)
Context (can_open : string -> bool).
Context (m_config_map : config_map).

Definition t_undefined {X} : T X := of_K k_undefined.
Definition defined {X} (o : option X) : T X :=
  match o with Some x => mret x | None => t_undefined end.

(** The result of creating the socket is not used. *)
Definition get_mc_socket (f : addr_family) : T unit :=
  match f with
  | AF_INET => _ ← of_K (create_udp_ipv4_socket kernel); mret tt
  | AF_INET6 => _ ← of_K (create_udp_ipv6_socket kernel); mret tt
  | AF_UNSPEC => of_E (exit "unknown address family")
  end.

(** ** Receiving *)

Definition fresh_receiving (pm : packet_manager) (file : list file_line) : receiving :=
  {| buf := zeros (Z.to_nat buf_size); info_size := 0; packet_count := 0; data_total_size := 0;
     receive_start_time_stamp := 0; send_time_stamp := 0; packet_number := 0; delay := 0;
     receive_time_stamp := 0; msg := ""; pmanager := pm; file := file |}.

(** What [receive_packet] left in the buffer and in [info_size]. *)
Definition receive (r : round) (s : receiving) : K receiving :=
  '(_, size) ← receive_packet kernel (buf_size - 1);
  let info := default (info_size s) size in
  let data := take (Z.to_nat (default 0 size)) (r_data r) in
  mret {| buf := overwrite data (buf s); info_size := info; packet_count := packet_count s;
          data_total_size := data_total_size s;
          receive_start_time_stamp := receive_start_time_stamp s; send_time_stamp := send_time_stamp s;
          packet_number := packet_number s; delay := delay s; receive_time_stamp := receive_time_stamp s;
          msg := msg s; pmanager := pmanager s; file := file s |}.

(** A packet came: its size, the time of the first one, and its text. *)
Definition note_packet (o : options) (r : round) (s : receiving) : option receiving :=
  let start := if packet_count s =? 0 then r_first r else receive_start_time_stamp s in
  let total := data_total_size s + info_size s in
  if parse_time_stamp o && (include_data o || print_status_msg o) then
    let '(n, t, rest) := parse_packet (packet_number s) (send_time_stamp s) (c_string (buf s)) in
    if in_long (r_now r - t) then
      Some {| buf := buf s; info_size := info_size s; packet_count := packet_count s;
              data_total_size := total; receive_start_time_stamp := start; send_time_stamp := t;
              packet_number := n; delay := r_now r - t; receive_time_stamp := r_now r;
              msg := rest; pmanager := pmanager s; file := file s |}
    else None
  else
    Some {| buf := buf s; info_size := info_size s; packet_count := packet_count s;
            data_total_size := total; receive_start_time_stamp := start;
            send_time_stamp := send_time_stamp s; packet_number := packet_number s; delay := delay s;
            receive_time_stamp := receive_time_stamp s; msg := msg s; pmanager := pmanager s;
            file := file s |}.

(** It is left out as a duplicate, or written to the file and counted. *)
Definition take_packet (o : options) (s : receiving) : receiving :=
  let '(is_new, pm) :=
    if ignore_duplicated_packets o then is_packet_new (packet_number s) (pmanager s)
    else (true, pmanager s) in
  let line := if is_new && (save_to_file o && include_data o && parse_time_stamp o)
              then [packet_line s] else [] in
  {| buf := buf s; info_size := info_size s;
     packet_count := if is_new then packet_count s + 1 else packet_count s;
     data_total_size := data_total_size s; receive_start_time_stamp := receive_start_time_stamp s;
     send_time_stamp := send_time_stamp s; packet_number := packet_number s; delay := delay s;
     receive_time_stamp := receive_time_stamp s; msg := msg s; pmanager := pm; file := file s ++ line |}.

Fixpoint receive_loop (o : options) (rounds : list round) (s : receiving) : K receiving :=
  match rounds with
  | [] => mret s
  | r :: rounds' =>
    if (max_count o =? 0) || (packet_count s <? max_count o) then
      s ← receive r s;
      if negb (r_running r) then mret s
      else if info_size s =? 0 then receive_loop o rounds' s
      else match note_packet o r s with
           | Some s => receive_loop o rounds' (take_packet o s)
           | None => k_undefined
           end
    else mret s
  end.

(** The file as it is opened, with its header. *)
Definition open_file (o : options) (d : disk) : E (list file_line) :=
  if save_to_file o then
    let is_open := (String.eqb (file_operation_mode o) "override"
                    || String.eqb (file_operation_mode o) "append") && can_open (file_name o) in
    let old := if String.eqb (file_operation_mode o) "override" then []
               else default [] (d !! file_name o) in
    if negb is_open then exit ("failed to open file: " +:+ file_name o)
    else inr (old ++ (if include_file_header o then [header (parse_time_stamp o)] else []))
  else inr [].

Definition receive_data (o : options) (env : environment) (pm : packet_manager) (d : disk)
    : T (packet_manager * disk * summary) :=
  file0 ← of_E (open_file o d);
  _ ← demand (set_reuse_port kernel true) "failed to set socket option reuse port";
  _ ← demand (set_multicast_all kernel false) "failed to set socket option multicast all";
  _ ← demand (bind_udp_socket kernel (of_family (ss_family (gaddr o))) (udp_port o))
        "failed to bind port";
  _ ← demand (set_receive_timeout kernel 100) "failed to set receive timeout";
  s ← of_K (receive_loop o (e_rounds env) (fresh_receiving pm file0));
  su ← defined (summarize per_second (receive_start_time_stamp s) (e_end env) (packet_count s)
                  (data_total_size s));
  let lines := file s ++ (if include_summary o then [Summary_line su] else []) in
  mret (pmanager s, if save_to_file o then <[file_name o := lines]> d else d, su).

(** ** Sending *)

(** The loop from packet [i] on; the last number and the size of the data. *)
Fixpoint send_loop (o : options) (start_packet_number : Z) (sends : list Z) (i : Z)
    (current_packet_number total : Z) : T (Z * Z) :=
  match sends with
  | [] => mret (current_packet_number, total)
  | now :: sends' =>
    if (i <? max_count o) || (max_count o =? 0) then
      let current_packet_number := (start_packet_number + i + 1) mod 2 ^ 32 in
      let send_msg := if include_time_stamp o then packet_text current_packet_number now (message o)
                      else message o in
      _ ← demand (send_packet kernel (set_port (udp_port o) (gaddr o)) (octets send_msg))
            "failed to send packet";
      send_loop o start_packet_number sends' (i + 1) current_packet_number
        (total + Z.of_nat (String.length send_msg))
    else mret (current_packet_number, total)
  end.

Definition send_data (o : options) (env : environment) (current_packet_number : Z)
    : T (Z * summary) :=
  _ ← demand (set_ttl kernel (ttl o)) "failed to set ttl";
  '(last, total) ← send_loop o current_packet_number (e_sends env) 0 current_packet_number 0;
  su ← defined (summarize per_second_signed (e_start env) (e_end env)
                  ((last - current_packet_number) mod 2 ^ 32) total);
  mret (last, su).

(** ** [run] *)

Definition get_options (to_do output_file send_msg : string) : T options :=
  if_name ← of_E (get_if_name if_nametoindex m_config_map to_do);
  gaddr ← of_E (get_gaddr inet_pton m_config_map to_do);
  _ ← get_mc_socket (ss_family gaddr);
  max_count ← of_E (get_max_count m_config_map to_do);
  slist ← defined (get_src_list inet_pton m_config_map to_do (ss_family gaddr));
  slist ← of_E slist;
  action ← of_E (get_action m_config_map to_do);
  mfilter ← of_E (get_mc_filter m_config_map to_do);
  ttl ← of_E (get_int m_config_map to_do "ttl" 10);
  udp_port ← of_E (get_int m_config_map to_do "port" 1234);
  busy_waiting_counter ← of_E (get_int m_config_map to_do "busy_waiting_counter" 0);
  let message := get_msg m_config_map to_do send_msg in
  interval ← of_E (get_send_interval m_config_map to_do);
  print_status_msg ← of_E (get_boolean m_config_map to_do "print_status_msg" false);
  save_to_file ← of_E (get_boolean m_config_map to_do "save_to_file" false);
  let file_name := get_file_name m_config_map to_do output_file in
  include_file_header ← of_E (get_boolean m_config_map to_do "include_file_header" true);
  include_data ← of_E (get_boolean m_config_map to_do "include_data" true);
  include_summary ← of_E (get_boolean m_config_map to_do "include_summary" true);
  ignore_duplicated_packets ← of_E (get_boolean m_config_map to_do "ignore_duplicated_packets" false);
  parse_time_stamp ← of_E (get_boolean m_config_map to_do "parse_time_stamp" true);
  include_time_stamp ← of_E (get_boolean m_config_map to_do "include_time_stamp" true);
  file_operation_mode ← of_E (get_file_operation_mode m_config_map to_do);
  lifetime ← of_E (get_lifetime m_config_map to_do);
  to_do_next ← of_E (get_to_do_next m_config_map to_do);
  mret (Build_options if_name gaddr max_count slist action mfilter ttl udp_port busy_waiting_counter
          message interval print_status_msg save_to_file file_name include_file_header include_data
          include_summary ignore_duplicated_packets parse_time_stamp include_time_stamp
          file_operation_mode lifetime to_do_next).

Definition filter_value (mf : mc_filter) : Z :=
  match mf with INCLUDE_MODE => MCAST_INCLUDE | EXCLUDE_MODE => 0 end.

(** What a run changes: the number of the last packet sent, the packets seen,
    the files, and the summaries. *)
Record progress := {
  p_packet_number : Z;
  p_manager : packet_manager;
  p_disk : disk;
  p_summaries : list summary
}.

(** Joining the group, with a filter of its sources. *)
Definition join (o : options) : T unit :=
  if is_multicast_addr (gaddr o) then
    _ ← demand (join_group kernel (gaddr o) (if_nametoindex (if_name o))) "failed to join group";
    match slist o with
    | [] => mret tt
    | _ => demand (set_source_filter kernel (if_nametoindex (if_name o)) (gaddr o)
                     (filter_value (mfilter o)) (slist o)) "failed to set source filter"
    end
  else mret tt.

(** One group, up to [close_socket]; the group that is next. *)
Definition run_group (to_do output_file send_msg : string) (env : environment) (p : progress)
    : T (progress * string) :=
  if negb (has_group m_config_map to_do) then of_E (exit ("to_do " +:+ to_do +:+ " not found"))
  else
    o ← get_options to_do output_file send_msg;
    if String.eqb (action o) "receive" then
      _ ← join o;
      '(pm, d, su) ← receive_data o env (p_manager p) (p_disk p);
      _ ← of_K (close_socket kernel);
      mret ({| p_packet_number := p_packet_number p; p_manager := pm; p_disk := d;
               p_summaries := p_summaries p ++ [su] |}, to_do_next o)
    else if String.eqb (action o) "send" then
      _ ← demand (choose_if kernel if_indextoname ifr_addr (if_nametoindex (if_name o)))
            ("failed to choose interface " +:+ if_name o);
      '(last, su) ← send_data o env (p_packet_number p);
      _ ← of_K (close_socket kernel);
      mret ({| p_packet_number := last; p_manager := p_manager p; p_disk := p_disk p;
               p_summaries := p_summaries p ++ [su] |}, to_do_next o)
    else of_E (exit ("action " +:+ action o +:+ " not available")).

(** The chain of groups, as far as there are environments; the group that has
    not begun, if any. A socket is destroyed when the runs behind it are over. *)
Fixpoint run (to_do output_file send_msg : string) (envs : list environment) (p : progress)
    : Log (E (progress * option string)) :=
  match envs with
  | [] => mret (inr (p, Some to_do))
  | env :: envs' =>
    '(res, ms) ← on new_mc_socket (run_group to_do output_file send_msg env p);
    match res with
    | inl text => mret (inl text)
    | inr (p, next) =>
      res ← (if String.eqb next "null" then mret (inr (p, None))
             else run next output_file send_msg envs' p);
      match res with
      | inr (p, None) => _ ← destroy kernel ms; mret (inr (p, None))
      | _ => mret res
      end
    end
  end.

(** ** The constructor

    [getopt] is the C library's: the options it returned with their arguments,
    and its final [optind]. *)

Fixpoint scan_options (opts : list (ascii * string)) (config_file output_file msg : string)
    : E (string * string * string) :=
  match opts with
  | [] => inr (config_file, output_file, msg)
  | (c, optarg) :: opts' =>
    if Ascii.eqb c "i" then scan_options opts' optarg output_file msg
    else if Ascii.eqb c "o" then scan_options opts' config_file optarg msg
    else if Ascii.eqb c "m" then scan_options opts' config_file output_file optarg
    else exit "Unknown argument"
  end.

Definition TESTER_DEFAULT_CONIG_PATH : string := "tester.ini".
Definition is_help (to_do : string) : bool :=
  String.eqb to_do "-h" || String.eqb to_do "--help" || String.eqb to_do "help".
End Run.

Section Constructor.
Context (kernel : history -> syscall -> kresult).
Context (if_indextoname : Z -> option string) (ifr_addr : string -> list Z).
Context (inet_pton : addr_family -> string -> option (list Z)) (if_nametoindex : string -> Z).
Context (can_open : string -> bool) (regex_match : regex -> chars -> option (list chars)).
Context (config_files : gmap string string).

(** Without an argument the second one is the null pointer. The exception of
    [read_ini] is not caught and ends the process as well. *)
Definition new_tester (args : list string) (opts : list (ascii * string)) (optind : nat)
    (d : disk) (envs : list environment) : Log (E (progress * option string)) :=
  match scan_options opts "" "" "" with
  | inl text => mret (inl text)
  | inr (config_file, output_file, msg) =>
    match args !! optind with
    | Some arg => mret (exit ("Unknown option argument: " +:+ arg))
    | None =>
      match args with
      | [] => mret (exit "to do not defined")
      | [_] => fun _ => None
      | _ :: to_do :: _ =>
        if is_help to_do then mret (exit "")
        else
          let config_file := if String.eqb config_file "" then TESTER_DEFAULT_CONIG_PATH else config_file in
          match read_ini regex_match config_file (config_files !! config_file) ∅ with
          | inl err => mret (inl err)
          | inr (m_config_map, _) =>
            run kernel if_indextoname ifr_addr inet_pton if_nametoindex can_open m_config_map
              to_do output_file msg envs
              {| p_packet_number := 0; p_manager := new_packet_manager 1000; p_disk := d;
                 p_summaries := [] |}
          end
      end
    end
  end.
End Constructor.

(** ** The sources of a group *)

Lemma print_Z_inj a b : 0 <= a < 2 ^ 63 -> 0 <= b < 2 ^ 63 -> print_Z a = print_Z b -> a = b.
Proof. intros Ha Hb E. rewrite <- (print_Z_value a), <- (print_Z_value b) by done. by rewrite E. Qed.

Lemma src_key_inj i j : Z.of_nat i < 2 ^ 63 -> Z.of_nat j < 2 ^ 63 -> src_key i = src_key j -> i = j.
Proof.
  intros Hi Hj E. unfold src_key in E. injection E as E. apply print_Z_inj in E; lia.
Qed.

Section SourceList.
Context (inet_pton : addr_family -> string -> option (list Z)) (m_config_map : config_map).
Context (to_do : string) (f : addr_family).

(** The value of the key of a source, and its address. *)
Definition src_value (i : nat) : string := get m_config_map to_do (src_key i).
Definition src_addr (i : nat) : addr_storage := addr_of_string inet_pton (src_value i).

(** A source of the family of the group. *)
Definition good_source (i : nat) : Prop := src_value i <> "" /\ ss_family (src_addr i) = f.

(** What the loop from [i] on finds. *)
Definition found (i : nat) (r : E (list addr_storage)) : Prop :=
  match r with
  | inr l => l = (src_addr <$> seq i (length l)) /\ (forall j, (i <= j < i + length l)%nat -> good_source j)
             /\ src_value (i + length l) = ""
  | inl text => exists n, (i <= n)%nat /\ (forall j, (i <= j < n)%nat -> good_source j)
                /\ src_value n <> "" /\ ss_family (src_addr n) <> f
                /\ text = src_key n +:+ " is not an ip address or has the wrong ip version"
  end.

Lemma src_loop_found fuel i :
  match src_loop inet_pton m_config_map fuel to_do f i with
  | Some r => found i r
  | None => forall j, (i <= j < i + fuel)%nat -> src_value j <> ""
  end.
Proof.
  revert i. induction fuel as [|fuel IH]; intros i; [intros j Hj; lia|].
  cbn [src_loop]. cbv zeta. fold (src_value i). fold (src_addr i).
  destruct (String.eqb_spec (src_value i) "") as [He|Hne].
  { cbn. rewrite Nat.add_0_r. split_and!; [done| |done]. lia. }
  case_bool_decide as Hf; cbn [negb].
  2:{ exists i. split_and!; try done; try congruence. intros j Hj; lia. }
  specialize (IH (S i)). destruct (src_loop _ _ fuel to_do f (S i)) as [[text|l]|].
  - destruct IH as (n & Hn & Hg & Hrest). exists n. split_and!; [lia| |apply Hrest..].
    intros j Hj. destruct (decide (j = i)) as [->|]; [split; congruence|apply Hg; lia].
  - destruct IH as (Hl & Hg & He). cbn. split_and!; [by rewrite Hl at 1| |by rewrite Nat.add_succ_r].
    intros j Hj. destruct (decide (j = i)) as [->|]; [split; congruence|apply Hg; lia].
  - intros j Hj. destruct (decide (j = i)) as [->|]; [done|apply IH; lia].
Qed.

(** Reading the sources of a group ends: it takes the keys [src_0],
    [src_1], ... up to the first one that is absent, and gives their addresses in
    order, or it exits at the first one that is not an address of the family of
    the group. *)
Theorem get_src_list_spec :
  Z.of_nat (size (default ∅ (m_config_map !! to_do))) < 2 ^ 31 ->
  exists r, get_src_list inet_pton m_config_map to_do f = Some r /\ found 0 r.
Proof.
  intros Hsize. unfold get_src_list. set (kv := default ∅ (m_config_map !! to_do)) in *.
  pose proof (src_loop_found (S (size kv)) 0) as Hr.
  destruct (src_loop _ _ _ to_do f 0) as [r|]; [by exists r|exfalso].
  assert (Hsub : src_key <$> seq 0 (S (size kv)) ⊆+ (map_to_list kv).*1).
  { apply NoDup_submseteq.
    - apply NoDup_fmap_2_strong; [|apply NoDup_seq]. intros i j Hi%elem_of_seq Hj%elem_of_seq.
      apply src_key_inj; lia.
    - intros k (i & -> & Hi%elem_of_seq)%list_elem_of_fmap.
      specialize (Hr i ltac:(lia)). unfold src_value, get in Hr.
      destruct (m_config_map !! to_do) as [kv'|] eqn:Hkv; [|done]. cbn in kv. subst kv.
      destruct (kv' !! src_key i) as [v|] eqn:Hv; [|done].
      apply list_elem_of_fmap. exists (src_key i, v). split; [done|]. by apply elem_of_map_to_list. }
  apply submseteq_length in Hsub. rewrite !length_fmap, length_seq in Hsub.
  rewrite length_map_to_list in Hsub. lia.
Qed.
End SourceList.

(** ** What is sent and what is logged *)

(** The packets a receiver has asked for. *)
Definition is_recv (c : syscall) : bool := match c with sys_recv _ _ => true | _ => false end.
Definition recvs (h : list (syscall * kresult)) : nat := length (filter (fun c : syscall * kresult => is_recv c.1 = true) h).

(** A kernel that accepts every call, and delivers one text after the other. *)
Record serves (kernel : history -> syscall -> kresult) (texts : list string) : Prop := {
  serves_recv h fd n :
    kernel h (sys_recv fd n)
    = match texts !! recvs h with Some t => KOk (Z.of_nat (String.length t)) | None => KErr true end;
  serves_other h c : (forall fd n, c <> sys_recv fd n) -> exists rc, kernel h c = KOk rc /\ 0 <= rc
}.

Section Serving.
Context (kernel : history -> syscall -> kresult) (texts : list string).
Hypothesis kernel_serves : serves kernel texts.

(** The socket of a group. *)
Context (s : mc_socket).
Hypothesis s_valid : is_udp_valid s = true.
Hypothesis s_family : m_addrFamily s = Some AF_INET \/ m_addrFamily s = Some AF_INET6.

(** An operation that makes the call [c], if any, and succeeds. *)
Definition makes_call (c : list syscall) (m : K bool) : Prop :=
  forall h, exists h', m (s, h) = Some (true, (s, h')) /\ h'.*1 = h.*1 ++ c /\ recvs h' = recvs h.

Lemma recvs_app h c : recvs (h ++ [c]) = (recvs h + recvs [c])%nat.
Proof. unfold recvs. by rewrite filter_app, length_app. Qed.

Lemma makes_sys (c : mc_socket -> syscall) (test : kresult -> bool) :
  (forall fd n, c s <> sys_recv fd n) -> (forall rc, 0 <= rc -> test (KOk rc) = true) ->
  makes_call [c s] (s ← this; r ← sys kernel (c s); mret (test r)).
Proof.
  intros Hc Ht h. destruct (serves_other _ _ kernel_serves h (c s) Hc) as (rc & E & Hrc).
  eexists. unfold mbind, K_bind, this, sys. cbn [fst snd]. rewrite E. split; [by rewrite Ht|].
  rewrite fmap_app, recvs_app. split; [done|]. destruct (c s); try apply Nat.add_0_r. by destruct (Hc fd size).
Qed.

Lemma makes_setsockopt l o : makes_call [sys_setsockopt (m_sock s) l o] (setsockopt kernel l o).
Proof. apply (makes_sys (fun s => sys_setsockopt (m_sock s) l o) (fun r => negb (rc_of r =? -1))); [done|]. intros rc Hrc. cbn. lia. Qed.

Lemma makes_valid c m : makes_call c m -> makes_call c (if_valid m).
Proof. intros Hm h. unfold if_valid, mbind, K_bind, this. cbn [fst]. rewrite s_valid. apply Hm. Qed.

Lemma makes_family c4 c6 v4 v6 :
  makes_call c4 v4 -> makes_call c6 v6 ->
  makes_call (if bool_decide (m_addrFamily s = Some AF_INET) then c4 else c6) (by_family v4 v6).
Proof.
  intros H4 H6 h. unfold by_family, mbind, K_bind, this. cbn [fst].
  destruct s_family as [-> | ->]; [apply H4|apply H6].
Qed.

Lemma makes_send addr data :
  makes_call [sys_sendto (m_sock s) data addr] (send_packet kernel addr data).
Proof.
  apply makes_valid, (makes_sys (fun s => sys_sendto (m_sock s) data addr) (fun r => negb (rc_of r =? -1))); [done|].
  intros rc Hrc. cbn. lia.
Qed.

Lemma demand_bind {X} c m text (next : unit -> T X) h :
  makes_call c m ->
  exists h', (demand m text ≫= next) (s, h) = next tt (s, h') /\ h'.*1 = h.*1 ++ c /\ recvs h' = recvs h.
Proof.
  intros Hm. destruct (Hm h) as (h' & E & Hh). exists h'. split; [|done].
  unfold demand, mbind, T_bind, of_K. by rewrite E.
Qed.

(** *** Sending *)

(** The text with number [n]. *)
Definition sent_text (o : options) (n now : Z) : string :=
  if include_time_stamp o then packet_text n now (message o) else message o.

(** The texts from packet [i] on behind [start]. *)
Fixpoint sent_texts (o : options) (start i : Z) (sends : list Z) : list string :=
  match sends with
  | [] => []
  | now :: sends' => sent_text o ((start + i + 1) mod 2 ^ 32) now :: sent_texts o start (i + 1) sends'
  end.

Definition sendto (o : options) (text : string) : syscall :=
  sys_sendto (m_sock s) (octets text) (set_port (udp_port o) (gaddr o)).

Definition text_size (text : string) : Z := Z.of_nat (String.length text).

Definition data_size (texts : list string) : Z := foldr (fun t acc => text_size t + acc) 0 texts.

(** As many as [max_count] says, zero being no limit. *)
Definition up_to (max_count i : Z) (sends : list Z) : list Z :=
  if max_count =? 0 then sends else take (Z.to_nat (max_count - i)) sends.

Lemma send_loop_texts o start sends i current total h :
  0 <= i -> current = (start + i) mod 2 ^ 32 ->
  let ts := sent_texts o start i (up_to (max_count o) i sends) in
  exists h',
    send_loop kernel o start sends i current total (s, h)
    = Some (inr ((start + i + Z.of_nat (length ts)) mod 2 ^ 32,
                 total + data_size ts), (s, h'))
    /\ h'.*1 = h.*1 ++ (sendto o <$> ts).
Proof.
  revert i current total h. induction sends as [|now sends IH]; intros i current total h Hi Hc ts.
  { exists h. unfold ts, up_to. case_if; rewrite ?take_nil; cbn; rewrite !Z.add_0_r, app_nil_r, Hc; done. }
  cbn [send_loop]. cbv zeta. unfold ts, up_to. clear ts.
  destruct ((i <? max_count o) || (max_count o =? 0)) eqn:Hgo.
  - assert (Hup : (if max_count o =? 0 then now :: sends else take (Z.to_nat (max_count o - i)) (now :: sends))
                  = now :: up_to (max_count o) (i + 1) sends).
    { unfold up_to. case_if; [done|]. replace (Z.to_nat (max_count o - i)) with (S (Z.to_nat (max_count o - (i + 1)))) by lia.
      done. }
    rewrite Hup. cbn [sent_texts]. fold (sent_text o ((start + i + 1) mod 2 ^ 32) now).
    edestruct @demand_bind as (h1 & -> & Hh1 & _); [apply makes_send|].
    destruct (IH (i + 1) ((start + i + 1) mod 2 ^ 32)
                (total + text_size (sent_text o ((start + i + 1) mod 2 ^ 32) now)) h1) as (h' & E & Hh'); [lia|f_equal; lia|].
    exists h'. split; [etransitivity; [exact E|]|by rewrite Hh', Hh1, <- app_assoc].
    cbn [length]. change (data_size (?t :: ?ts)) with (text_size t + data_size ts).
    do 4 f_equal; [f_equal|]; lia.
  - rewrite (proj2 (Z.eqb_neq _ _)) by lia. replace (Z.to_nat (max_count o - i)) with 0%nat by lia.
    exists h. cbn. by rewrite !Z.add_0_r, app_nil_r, Hc.
Qed.

(** On a kernel that accepts its calls the sender sets the limit of hops and
    sends, in order and to the port of the group, the texts of the packets behind
    the last number, one per read of the clock and not more than [max_count]; it
    counts them and their octets. *)
Theorem send_data_sends o env current rate h :
  0 <= current < 2 ^ 32 -> e_start env <> 0 ->
  let ts := sent_texts o current 0 (up_to (max_count o) 0 (e_sends env)) in
  Z.of_nat (length ts) < 2 ^ 32 ->
  per_second_signed (Z.of_nat (length ts)) (e_end env - e_start env) = Some rate ->
  exists su h',
    send_data kernel o env current (s, h)
    = Some (inr ((current + Z.of_nat (length ts)) mod 2 ^ 32, su), (s, h'))
    /\ su_packet_count su = Z.of_nat (length ts) /\ su_data_total_size su = data_size ts
    /\ exists hops, h'.*1 = h.*1 ++ hops :: (sendto o <$> ts).
Proof.
  intros Hc Hstart ts Hlen Hrate. unfold send_data.
  edestruct @demand_bind as (h1 & -> & Hh1 & _).
  { apply makes_valid, makes_family; apply makes_setsockopt. }
  destruct (send_loop_texts o current (e_sends env) 0 current 0 h1) as (h' & E & Hh').
  { done. } { rewrite Z.add_0_r, Z.mod_small; done. }
  rewrite Z.add_0_r in E. fold ts in E, Hh'. unfold mbind at 1, T_bind at 1. rewrite E.
  assert (Hcount : ((current + Z.of_nat (length ts)) mod 2 ^ 32 - current) mod 2 ^ 32 = Z.of_nat (length ts)).
  { rewrite Zminus_mod_idemp_l. replace (current + Z.of_nat (length ts) - current) with (Z.of_nat (length ts)) by lia.
    apply Z.mod_small. lia. }
  rewrite Hcount. unfold summarize. rewrite (proj2 (Z.eqb_neq _ _)), Hrate by done.
  eexists _, h'. split; [reflexivity|]. split; [done|]. split; [done|].
  case_bool_decide; eexists; rewrite Hh', Hh1, <- app_assoc; reflexivity.
Qed.

(** *** Receiving *)

(** A number, the time it was sent and the time it came. *)
Notation packet := (Z * Z * Z)%type.

Definition text_of (m : string) (p : packet) : string := packet_text p.1.1 p.1.2 m.

Definition log_line (m : string) (p : packet) : file_line :=
  Text_line (print_Z p.1.1 +:+ " " +:+ print_Z p.1.2 +:+ " " +:+ print_Z p.2 +:+ " "
             +:+ print_Z (p.2 - p.1.2) +:+ " " +:+ m).

(** The packets that are not left out as duplicates. *)
Fixpoint fresh (ignore : bool) (pm : packet_manager) (ps : list packet) : list packet :=
  match ps with
  | [] => []
  | p :: ps' =>
    if ignore then
      let '(is_new, pm') := is_packet_new p.1.1 pm in
      if is_new then p :: fresh ignore pm' ps' else fresh ignore pm' ps'
    else p :: fresh ignore pm ps'
  end.

(** The texts do not get shorter, so that nothing of an earlier one is left
    behind a text in the buffer. *)
Fixpoint growing (k : nat) (ts : list string) : Prop :=
  match ts with
  | [] => True
  | t :: ts' => (k <= String.length t < Z.to_nat buf_size)%nat /\ growing (String.length t) ts'
  end.

Definition in_range (p : packet) : Prop :=
  0 <= p.1.1 < 2 ^ 63 /\ 0 <= p.1.2 < 2 ^ 63 /\ 0 <= p.2 < 2 ^ 63.

(** The rounds in which the packets come. *)
Definition brings (m : string) (p : packet) (r : round) : Prop :=
  r_data r = octets (text_of m p) /\ r_running r = true /\ r_now r = p.2.

(** The receiver writes the packets to its file. *)
Definition logs (o : options) : Prop :=
  parse_time_stamp o = true /\ include_data o = true /\ save_to_file o = true.

(** Everything behind the first [k] octets of the buffer is zero. *)
Definition zero_behind (k : nat) (b : list Z) : Prop := drop k b = zeros (Z.to_nat buf_size - k).

Lemma octets_length t : length (octets t) = String.length t.
Proof. unfold octets. rewrite length_fmap. induction t as [|c t IH]; [done|]. simpl. by rewrite IH. Qed.

Lemma overwrite_zeros k t b :
  zero_behind k b -> (k <= String.length t < Z.to_nat buf_size)%nat ->
  overwrite (octets t) b = octets t ++ zeros (Z.to_nat buf_size - String.length t).
Proof.
  intros Hz Hk. unfold overwrite. f_equal. rewrite octets_length.
  replace (String.length t) with (k + (String.length t - k))%nat at 1 by lia.
  rewrite <- drop_drop, Hz. unfold zeros. rewrite drop_replicate. f_equal. lia.
Qed.

Lemma zero_behind_text t : zero_behind (String.length t) (octets t ++ zeros (Z.to_nat buf_size - String.length t)).
Proof. unfold zero_behind. by rewrite <- octets_length, drop_app_length. Qed.

Definition no_zero (t : string) : bool := all_chars (fun c => negb (Ascii.eqb c "000"%char)) t.

Lemma c_string_text t :
  no_zero t = true -> (String.length t < Z.to_nat buf_size)%nat ->
  c_string (octets t ++ zeros (Z.to_nat buf_size - String.length t)) = t.
Proof.
  intros Ht Hl. replace (Z.to_nat buf_size - String.length t)%nat with (S (Z.to_nat buf_size - String.length t - 1)) by lia.
  by apply c_string_octets.
Qed.

Lemma no_zero_digits t : all_chars isdigit t = true -> no_zero t = true.
Proof.
  intros Ht. induction t as [|c t IH]; [done|]. cbn in *. apply andb_true_iff in Ht as [Hc Ht].
  unfold no_zero in IH. rewrite IH by done. destruct c as [[][][][][][][][]]; by vm_compute in Hc |- *.
Qed.

Lemma no_zero_text m p : in_range p -> no_zero m = true -> no_zero (text_of m p) = true.
Proof.
  intros (Hn & Ht & _) Hm. unfold text_of, packet_text, width, no_zero. rewrite !all_chars_app.
  fold (no_zero (print_Z p.1.1)) (no_zero (print_Z p.1.2)) (no_zero m).
  rewrite Hm, !(no_zero_digits (print_Z _)) by (apply print_Z_digits; lia).
  rewrite !andb_true_r. generalize (9 - String.length (print_Z p.1.1))%nat. intros k. by induction k.
Qed.


Lemma text_size_pos m p : text_size (text_of m p) =? 0 = false.
Proof.
  apply Z.eqb_neq. unfold text_size, text_of, packet_text.
  assert (Hlen : forall a c b, String.length (a +:+ String c b) <> 0%nat) by (intros [|x a] c b; done).
  pose proof (Hlen (width 9 (print_Z p.1.1)) " "%char (print_Z p.1.2 +:+ " " +:+ m)) as H.
  intros E. apply H, Nat2Z.inj, E.
Qed.

(** One call of [recv]. *)
Lemma receive_text r st h t k :
  texts !! recvs h = Some t -> r_data r = octets t -> zero_behind k (buf st) ->
  (k <= String.length t < Z.to_nat buf_size)%nat ->
  exists h', receive kernel r st (s, h)
    = Some ({| buf := octets t ++ zeros (Z.to_nat buf_size - String.length t); info_size := text_size t;
               packet_count := packet_count st; data_total_size := data_total_size st;
               receive_start_time_stamp := receive_start_time_stamp st;
               send_time_stamp := send_time_stamp st; packet_number := packet_number st;
               delay := delay st; receive_time_stamp := receive_time_stamp st; msg := msg st;
               pmanager := pmanager st; file := file st |}, (s, h'))
    /\ recvs h' = S (recvs h).
Proof.
  intros Ht Hd Hz Hk.
  assert (Hrecv : kernel h (sys_recv (m_sock s) (buf_size - 1)) = KOk (text_size t))
    by (rewrite (serves_recv _ _ kernel_serves); by rewrite Ht).
  exists (h ++ [(sys_recv (m_sock s) (buf_size - 1), KOk (text_size t))]).
  unfold receive, receive_packet, mbind, K_bind, this, sys. cbn [fst snd].
  rewrite s_valid. unfold mret, K_ret. cbn [fst snd]. rewrite Hrecv.
  cbn [received fst snd default from_option id]. unfold text_size.
  rewrite Nat2Z.id, Hd, firstn_all2 by (rewrite octets_length; lia).
  rewrite (overwrite_zeros k) by done. split; [reflexivity|].
  rewrite recvs_app. apply Nat.add_1_r.
Qed.

(** The state behind the packets [ps]. *)
Definition logged (o : options) (m : string) (ps : list packet) (st st' : receiving) : Prop :=
  let taken := fresh (ignore_duplicated_packets o) (pmanager st) ps in
  file st' = file st ++ (log_line m <$> taken)
  /\ packet_count st' = packet_count st + Z.of_nat (length taken)
  /\ data_total_size st' = data_total_size st + data_size (text_of m <$> ps).

(** One packet more. *)
Lemma logged_cons o m p ps st st1 st' is_new pm' :
  (if ignore_duplicated_packets o then is_packet_new p.1.1 (pmanager st) else (true, pmanager st)) = (is_new, pm') ->
  pmanager st1 = pm' ->
  file st1 = file st ++ (if is_new : bool then [log_line m p] else []) ->
  packet_count st1 = (if is_new then packet_count st + 1 else packet_count st) ->
  data_total_size st1 = data_total_size st + text_size (text_of m p) ->
  logged o m ps st1 st' -> logged o m (p :: ps) st st'.
Proof.
  unfold logged. cbn [fresh]. intros Hnew -> -> -> -> (-> & -> & ->).
  rewrite fmap_cons. change (data_size (?t :: ?ts)) with (text_size t + data_size ts).
  destruct (ignore_duplicated_packets o); rewrite ?Hnew; [destruct is_new|injection Hnew as <- <-];
    rewrite <- app_assoc; (split; [done|]); cbn [length]; lia.
Qed.

Lemma receive_loop_logs o m ps rounds pre st h k :
  logs o -> (max_count o = 0 \/ packet_count st + Z.of_nat (length ps) <= max_count o) ->
  no_zero m = true -> Forall in_range ps -> Forall2 (brings m) ps rounds ->
  texts = pre ++ (text_of m <$> ps) -> recvs h = length pre ->
  growing k (text_of m <$> ps) -> zero_behind k (buf st) ->
  exists st' h', receive_loop kernel o rounds st (s, h) = Some (st', (s, h')) /\ logged o m ps st st'.
Proof.
  intros (Hparse & Hincl & Hsave) Hmax Hm Hr Hb. revert pre st h k Hmax.
  induction Hb as [|p r ps rounds (Hd & Hrun & Hnow) Hb IH]; intros pre st h k Hmax Htexts Hrecvs Hg Hz.
  { exists st, h. split; [done|]. unfold logged. cbn. by rewrite app_nil_r, !Z.add_0_r. }
  apply Forall_cons in Hr as [Hp Hr']. specialize (IH Hr'). destruct Hg as [Hk Hg].
  cbn [receive_loop]. cbn [length] in Hmax.
  destruct ((max_count o =? 0) || (packet_count st <? max_count o)) eqn:Hgo; [|lia].
  destruct (receive_text r st h (text_of m p) k) as (h1 & E & Hh1); [|done..|].
  { rewrite Htexts, Hrecvs. by rewrite lookup_app_r, Nat.sub_diag by lia. }
  unfold mbind at 1, K_bind at 1. rewrite E, Hrun. cbn [negb info_size].
  rewrite text_size_pos. unfold note_packet. cbn [packet_count receive_start_time_stamp data_total_size info_size
    packet_number send_time_stamp buf pmanager file]. rewrite Hparse, Hincl. cbn [andb orb].
  destruct Hp as (Hn & Ht & Ha). rewrite c_string_text by (try apply no_zero_text; repeat split; done || lia).
  unfold text_of at 1. rewrite parse_packet_text by done. rewrite Hnow.
  assert (Hlong : in_long (p.2 - p.1.2) = true) by (unfold in_long; lia). rewrite Hlong.
  destruct (if ignore_duplicated_packets o then is_packet_new p.1.1 (pmanager st) else (true, pmanager st))
    as [is_new pm'] eqn:Hnew.
  unfold take_packet. cbn [packet_count receive_start_time_stamp data_total_size info_size
    packet_number send_time_stamp buf pmanager file].
  rewrite Hnew, Hsave, Hincl, Hparse, andb_true_r.
  match goal with |- context [receive_loop kernel o rounds ?st1 _] => set (st1' := st1) end.
  destruct (IH (pre ++ [text_of m p]) st1' h1 (String.length (text_of m p))) as (st' & h' & E' & L).
  - cbn. destruct is_new; lia.
  - by rewrite <- app_assoc.
  - rewrite Hh1, Hrecvs, length_app, Nat.add_1_r. done.
  - done.
  - apply zero_behind_text.
  - exists st', h'. split; [exact E'|]. by apply (logged_cons o m p ps st st1' st' is_new pm' Hnew).
Qed.

(** C40: What was sent is logged: if the texts of packets arrive, none of them
    shorter than the one before, the receiver writes a line with the number, both
    times, the delay and the message of every packet that is not left out as a
    duplicate, in order, and it counts them and the octets of all packets. *)
Theorem receiver_logs o m ps rounds pm file0 h :
  logs o -> (max_count o = 0 \/ Z.of_nat (length ps) <= max_count o) ->
  no_zero m = true -> Forall in_range ps -> Forall2 (brings m) ps rounds ->
  texts = text_of m <$> ps -> growing 0 texts -> recvs h = 0%nat ->
  exists st h',
    receive_loop kernel o rounds (fresh_receiving pm file0) (s, h) = Some (st, (s, h'))
    /\ file st = file0 ++ (log_line m <$> fresh (ignore_duplicated_packets o) pm ps)
    /\ packet_count st = Z.of_nat (length (fresh (ignore_duplicated_packets o) pm ps))
    /\ data_total_size st = data_size texts.
Proof.
  intros Hl Hmax Hm Hr Hb Ht Hg Hh.
  destruct (receive_loop_logs o m ps rounds [] (fresh_receiving pm file0) h 0) as (st & h' & E & L);
    try done; [by rewrite <- Ht|].
  exists st, h'. rewrite Ht. done.
Qed.
End Serving.

(** ** Concrete runs *)

(** A kernel that delivers [texts]. *)
Definition serving_kernel (texts : list string) (h : history) (c : syscall) : kresult :=
  match c with
  | sys_recv _ _ => match texts !! recvs h with Some t => KOk (text_size t) | None => KErr true end
  | _ => obliging_kernel h c
  end.

Lemma serving_kernel_serves texts : serves (serving_kernel texts) texts.
Proof.
  split; [done|]. intros h c Hc.
  assert (H0 : exists rc, obliging_kernel h c = KOk rc /\ 0 <= rc).
  { destruct c; try by exists 0. cbn. pose proof (highest_fd_min h). eexists. split; [done|]. lia. }
  destruct c; try done. by destruct (Hc fd size).
Qed.

Definition ex_config_map : config_map :=
  {[ "send" := {[ "action" := "send"; "group" := "239.1.2.3"; "interface" := "eth0"; "msg" := "hello";
                  "max_count" := "2"; "to_do_next" := "recv" ]};
     "recv" := {[ "action" := "receive"; "group" := "239.1.2.3"; "interface" := "eth0";
                  "save_to_file" := "true"; "file_name" := "log"; "include_summary" := "false";
                  "src_0" := "10.0.0.1"; "src_1" := "10.0.0.2" ]} ]}.

Definition ex_pton (f : addr_family) (s : string) : option (list Z) :=
  if String.eqb s "239.1.2.3" then Some [239; 1; 2; 3]
  else if String.eqb s "10.0.0.1" then Some [10; 0; 0; 1]
  else if String.eqb s "10.0.0.2" then Some [10; 0; 0; 2]
  else None.

Definition ex_texts : list string := [packet_text 1 5000 "hello"; packet_text 2 6000 "hello"].

Definition ex_round (t : string) (now : Z) : round :=
  {| r_data := octets t; r_running := true; r_first := now; r_now := now |}.

Definition ex_sending : environment :=
  {| e_rounds := []; e_sends := [5000; 6000; 7000]; e_start := 4999; e_end := 7001 |}.
Definition ex_receiving : environment :=
  {| e_rounds := [ex_round (packet_text 1 5000 "hello") 5003; ex_round (packet_text 2 6000 "hello") 6004];
     e_sends := []; e_start := 0; e_end := 9000 |}.

Definition ex_progress : progress :=
  {| p_packet_number := 0; p_manager := new_packet_manager 1000; p_disk := ∅; p_summaries := [] |}.

Definition ex_run : option (E (progress * option string) * history) :=
  run (serving_kernel ex_texts) (fun _ => Some "eth0") (fun _ => [10; 0; 0; 1]) ex_pton (fun _ => 2)
    (fun _ => true) ex_config_map "send" "" "" [ex_sending; ex_receiving] ex_progress [].

Definition run_file (name : string) (r : option (E (progress * option string) * history))
    : option (list file_line) :=
  match r with Some (inr (p, None), _) => p_disk p !! name | _ => None end.

(** A group that sends, and the next one that receives and logs. *)
Lemma ex_run_logs :
  run_file "log" ex_run
  = Some [header true; log_line "hello" (1, 5000, 5003); log_line "hello" (2, 6000, 6004)].
Proof. vm_compute. reflexivity. Qed.

(** The socket is closed by [run] and once more by its destructor. *)
Lemma socket_closed_twice :
  exists x h, ex_run = Some (x, h) /\ open_after ∅ h = None
  /\ length (List.filter (fun c : syscall * kresult => match c.1 with sys_close 3 => true | _ => false end) h) = 2%nat.
Proof.
  destruct ex_run as [[x h]|] eqn:E; [|by vm_compute in E].
  exists x, h. split; [done|]. vm_compute in E. injection E as <- <-. split; vm_compute; reflexivity.
Qed.

Definition ex_socket : mc_socket := {| m_sock := 3; m_addrFamily := Some AF_INET; m_own_socket := true |}.

(** The settings of a group of [ex_config_map]. *)
Definition ex_options (to_do : string) : options :=
  match get_options obliging_kernel ex_pton (fun _ => 2) ex_config_map to_do "" "" (new_mc_socket, []) with
  | Some (inr o, _) => o
  | _ => Build_options "" sample_group 0 [] "" INCLUDE_MODE 0 0 0 "" 0 false false "" false false false
           false false false "" 0 ""
  end.

(** A shorter packet is read with the end of the one before. *)
Definition stale_kernel : history -> syscall -> kresult :=
  serving_kernel [packet_text 1 5000 "hello"; packet_text 2 6000 "hi"].

Lemma shorter_packet_stale :
  match receive_loop stale_kernel (ex_options "recv")
          [ex_round (packet_text 1 5000 "hello") 5003; ex_round (packet_text 2 6000 "hi") 6004]
          (fresh_receiving (new_packet_manager 1000) []) (ex_socket, []) with
  | Some (st, _) => file st = [log_line "hello" (1, 5000, 5003); log_line "hillo" (2, 6000, 6004)]
  | None => False
  end.
Proof. vm_compute. reflexivity. Qed.

(** A call of [recv] that fails counts as a packet of size -1. *)
Lemma failure_counted :
  match receive_loop (fun _ _ => KErr false) (ex_options "recv") [ex_round "" 5003]
          (fresh_receiving (new_packet_manager 1000) []) (ex_socket, []) with
  | Some (st, _) => packet_count st = 1 /\ data_total_size st = -1
  | None => False
  end.
Proof. vm_compute. done. Qed.

(** *** Witnesses *)

Lemma get_src_list_spec_witness : exists r,
  get_src_list ex_pton ex_config_map "recv" AF_INET = Some r /\ found ex_pton ex_config_map "recv" AF_INET 0 r.
Proof. apply (get_src_list_spec ex_pton ex_config_map "recv" AF_INET). vm_compute. reflexivity. Defined.

Lemma send_data_sends_witness : exists su h',
  send_data (serving_kernel ex_texts) (ex_options "send") ex_sending 0 (ex_socket, []) = Some (inr (2, su), (ex_socket, h'))
  /\ su_packet_count su = 2 /\ su_data_total_size su = data_size ex_texts
  /\ exists hops, h'.*1 = hops :: (sendto ex_socket (ex_options "send") <$> ex_texts).
Proof.
  apply (send_data_sends (serving_kernel ex_texts) ex_texts (serving_kernel_serves _) ex_socket eq_refl
           (or_introl eq_refl) (ex_options "send") ex_sending 0 0 []); vm_compute; try split; done.
Defined.

Definition ex_packets : list (Z * Z * Z) := [(1, 5000, 5003); (2, 6000, 6004)].

Lemma receiver_logs_witness : exists st h',
  receive_loop (serving_kernel ex_texts) (ex_options "recv") (e_rounds ex_receiving)
    (fresh_receiving (new_packet_manager 1000) []) (ex_socket, []) = Some (st, (ex_socket, h'))
  /\ file st = [] ++ (log_line "hello" <$> fresh (ignore_duplicated_packets (ex_options "recv"))
                        (new_packet_manager 1000) ex_packets)
  /\ packet_count st = Z.of_nat (length (fresh (ignore_duplicated_packets (ex_options "recv"))
                        (new_packet_manager 1000) ex_packets))
  /\ data_total_size st = data_size ex_texts.
Proof.
  apply (receiver_logs (serving_kernel ex_texts) ex_texts (serving_kernel_serves _) ex_socket eq_refl
           (ex_options "recv") "hello" ex_packets (e_rounds ex_receiving) (new_packet_manager 1000) [] []).
  - vm_compute. done.
  - left. vm_compute. reflexivity.
  - vm_compute. reflexivity.
  - repeat constructor; cbn; lia.
  - repeat constructor.
  - reflexivity.
  - vm_compute. repeat split; lia.
  - reflexivity.
Defined.
