(* ===== verification/SocketTests.v ===== *)
(** * The tests of the sockets (the functions print_... and test_... of
      src/utils/mc_socket.cpp and src/utils/mroute_socket.cpp)

    The debug build exercises the sockets on a live system and prints what
    happens. Here the functions are programs over the operations of [Sockets] that
    return the printed lines; the answers of the kernel, among them what it writes
    through pointers, are parameters. *)

From S2P Require Import Prelude Def AddrStorage Printing Interfaces SelfTest Sockets SocketTheorems.
From S2P Require Import KernelRouting InstanceSockets TesterPackets Tester.

Local Open Scope Z_scope.

(** ** Printing *)

(** A program that prints, then another one. *)
Definition then_print {A} (m1 m2 : A -> option (list string * A)) : A -> option (list string * A) := fun st =>
  match m1 st with
  | Some (l1, st1) => match m2 st1 with Some (l2, st2) => Some (l1 ++ l2, st2) | None => None end
  | None => None
  end.

Infix "+++" := then_print (at level 60, right associativity).

Definition print_line {A} (s : string) : A -> option (list string * A) := fun st => Some ([s], st).

(** [if (call) cout << yes; else cout << no;]. *)
Definition print_either {A} (yes no : list string) (m : A -> option (bool * A)) : A -> option (list string * A) := fun st =>
  match m st with Some (ok, st') => Some (if ok : bool then yes else no, st') | None => None end.

(** ** [mc_socket] *)

Section SocketTests.
Context (kernel : history -> syscall -> kresult).
Context (if_indextoname : Z -> option string) (if_nametoindex : string -> Z) (ifr_addr : string -> list Z).
(** What the last call wrote: the source filter, and the counters of interfaces
    (input packets and bytes, output packets and bytes) and routes (packets, bytes,
    packets from the wrong interface). *)
Context (filter_written numsrc_written : history -> Z) (sources_written : history -> list addr_storage).
Context (vif_counters : history -> Z * Z * Z * Z) (route_counters : history -> Z * Z * Z).
Context (inet_pton : addr_family -> string -> option (list Z)) (inet_ntop : addr_family -> list Z -> option string).

Notation text := (address inet_pton (of_family AF_UNSPEC)).
Notation str := (addr_to_string inet_ntop).
Implicit Types (gaddr saddr interface ipversion : string) (n : Z).

Definition MCAST_EXCLUDE : Z := 0.

(** The list of sources, five to a line. *)
Fixpoint source_lines (i : nat) (l : list addr_storage) : string :=
  match l with
  | [] => endl
  | a :: l => (if decide (i mod 5 = 0)%nat then endl +:+ "  " else EmptyString) +:+ str a +:+ " " +:+ source_lines (S i) l
  end.

(** The name of an unknown interface is an uninitialised buffer. *)
Definition print_source_filter (if_index : Z) (gaddr : addr_storage) : K (list string) :=
  match if_indextoname if_index with
  | None => k_undefined
  | Some if_name =>
    '(ok, filter_mode, src_list) ←
      get_source_filter kernel if_index gaddr MCAST_EXCLUDE [] filter_written numsrc_written sources_written;
    mret (["##-- source filter status --##"; " -if_name: " +:+ if_name; " -if_index: " +:+ print_Z if_index;
           " -gaddr: " +:+ str gaddr]
          ++ if ok : bool then
               [" -filter_mode: " +:+ print_Z filter_mode +:+
                  (if filter_mode =? MCAST_INCLUDE then " (MCAST_INCLUDE)"
                   else if filter_mode =? MCAST_EXCLUDE then " (MCAST_EXCLUDE)" else " (unknown filter mode)");
                " -source-list: " +:+ source_lines 0 src_list]
             else ["failed to get source filter list"])
  end.

Definition heading n (s : string) : K (list string) := print_line ("--<" +:+ print_Z n +:+ "> " +:+ s +:+ " --").

Definition try (what : string) (m : K bool) : K (list string) :=
  print_either [what +:+ " OK!"] [what +:+ " FAILED!"] m.

(** The test creates its socket and goes on if it knows the version. *)
Definition test_with_socket ipversion (rest : K (list string)) : K (list string) :=
  let tried m := print_either ["create socket OK!"] ["cerate socket FAILED!"] m in
  heading 0 ("Create an udp " +:+ ipversion +:+ " socket")
  +++ if String.eqb ipversion "AF_INET" then tried (create_udp_ipv4_socket kernel) +++ rest
      else if String.eqb ipversion "AF_INET6" then tried (create_udp_ipv6_socket kernel) +++ rest
      else print_line ("Unknown ip version: " +:+ ipversion).

Definition test_mc_group_functions ipversion (msg : string) interface gaddr (udp_port : Z) : K (list string) :=
  print_line "##-- Test multicast group managment functions --##"
  +++ test_with_socket ipversion
       (heading 1 "Join and leave"
        +++ try "join" (join_group kernel (text gaddr) (if_nametoindex interface))
        +++ try "leave" (leave_group kernel (text gaddr) (if_nametoindex interface))
        +++ heading 2 "Send Data"
        +++ print_either ["choose if (" +:+ interface +:+ ") OK! "] ["choose if (" +:+ interface +:+ ") FAILED! "]
             (choose_if kernel if_indextoname ifr_addr (if_nametoindex interface))
        +++ print_either ["send OK! " +:+ msg +:+ " at addr:" +:+ gaddr +:+ " with port " +:+ print_Z udp_port]
             ["send FAILED!"] (send_packet kernel (set_port udp_port (text gaddr)) (octets msg))).

Definition test_mc_source_delta_based_api ipversion interface gaddr saddr : K (list string) :=
  let i := if_nametoindex interface in
  print_line "##-- Test multicast source delta based api --##"
  +++ test_with_socket ipversion
       (heading 1 ("Join group " +:+ gaddr)
        +++ try "join" (join_group kernel (text gaddr) i)
        +++ heading 2 ("Block source " +:+ saddr)
        +++ try "block" (block_source kernel (text gaddr) (text saddr) i)
        +++ try "unblock" (unblock_source kernel (text gaddr) (text saddr) i)
        +++ heading 3 ("Leave group " +:+ gaddr)
        +++ try "leave" (leave_group kernel (text gaddr) i)
        +++ heading 4 ("Join group " +:+ gaddr +:+ " with source " +:+ saddr)
        +++ try "join" (join_source_group kernel (text gaddr) (text saddr) i)
        +++ heading 5 ("Leave group " +:+ gaddr +:+ " with source " +:+ saddr)
        +++ try "leave" (leave_source_group kernel (text gaddr) (text saddr) i)).

(** Setting a filter and printing it. *)
Definition test_filter n (mode : Z) (mode_text : string) interface gaddr (l : list string) : K (list string) :=
  let i := if_nametoindex interface in
  heading n ("Set source filter " +:+ mode_text +:+ " on interface " +:+ interface +:+ " with group addr " +:+ gaddr)
  +++ try "set source filter" (set_source_filter kernel i (text gaddr) mode (map text l))
  +++ heading (n + 1) "Print source filter list"
  +++ print_source_filter i (text gaddr).

Definition test_mc_source_advanced_api ipversion interface gaddr saddr_a saddr_b : K (list string) :=
  let i := if_nametoindex interface in
  print_line "##-- Test multicast source advanced api --##"
  +++ test_with_socket ipversion
       (heading 1 ("Join group " +:+ gaddr)
        +++ try "join" (join_group kernel (text gaddr) i)
        +++ heading 2 ("Join group " +:+ gaddr)
        +++ try "join" (join_group kernel (text gaddr) i)
        +++ test_filter 3 MCAST_INCLUDE "MCAST_INCLUDE" interface gaddr [saddr_a; saddr_b]
        +++ test_filter 5 MCAST_EXCLUDE "MCAST_EXCLUDE" interface gaddr [saddr_b]
        +++ test_filter 7 MCAST_INCLUDE "MCAST_INCLUDE" interface gaddr [saddr_b]
        +++ heading 9 ("Leave group " +:+ gaddr)
        +++ try "leave" (leave_group kernel (text gaddr) i)).

Definition test_all : K (list string) :=
  test_mc_source_advanced_api "AF_INET" "dummy0" (str (text "239.99.99.99")) (str (text "141.22.0.1"))
    (str (text "141.22.0.2")).

(** ** [mroute_socket] *)

Definition family_number (f : option addr_family) : string :=
  match f with None => "-1" | Some AF_UNSPEC => "0" | Some AF_INET => "2" | Some AF_INET6 => "10" end.

Definition print_vif_stats (vif_index : Z) : K (list string) :=
  let stats (v4 : bool) : K (list string) :=
    ok ← get_vif_stats kernel vif_index v4 (negb v4);
    h ← calls;
    let '(icount, ibytes, ocount, obytes) := vif_counters h in
    mret (if ok : bool then
            [" -In packets[" +:+ print_Z ibytes +:+ " bytes]:" +:+ print_Z icount;
             " -Out packets[" +:+ print_Z obytes +:+ " bytes]:" +:+ print_Z ocount]
          else ["failed to get vif stats"]) in
  print_line "##-- vif stats --##" +++ print_line (" -vif_index:" +:+ print_Z vif_index)
  +++ (s ← this;
       match m_addrFamily s with
       | Some AF_INET => stats true
       | Some AF_INET6 => stats false
       | _ => print_line "wrong address family"
       end).

Definition print_mroute_stats (source_addr group_addr : addr_storage) : K (list string) :=
  let stats (v4 : bool) : K (list string) :=
    ok ← get_mroute_stats kernel source_addr group_addr v4 (negb v4);
    h ← calls;
    let '(pktcnt, bytecnt, wrong_if) := route_counters h in
    mret (if ok : bool then
            [" -packets[" +:+ print_Z bytecnt +:+ " bytes]:" +:+ print_Z pktcnt; " -wrong packets:" +:+ print_Z wrong_if]
          else ["failed to get mroute stats"]) in
  print_line "##-- mroute states --##"
  +++ print_line (" -src: " +:+ str source_addr +:+ " to grp: " +:+ str group_addr)
  +++ (s ← this;
       match m_addrFamily s with
       | Some AF_INET => stats true
       | Some AF_INET6 => stats false
       | _ => print_line "wrong address family"
       end).

(** A route of IPv6; printing a null pointer is undefined. *)
Definition MAXMIFS : nat := 32.

Definition print_struct_mf6cctl (mc : mfcctl) : option (list string) :=
  grp ← inet_ntop AF_INET6 (mfcc_mcastgrp mc);
  origin ← inet_ntop AF_INET6 (mfcc_origin mc);
  Some ["##-- mf6cctl --##"; " -mf6cc_parent: " +:+ print_Z (mfcc_parent mc); " -mcastgrp: " +:+ grp;
        " -mcastorigin: " +:+ origin;
        " -mf6cc_ifset: " +:+ String.concat EmptyString
          (map (fun i => if nth i (mfcc_outputs mc) 0 =? 1 then print_Z (Z.of_nat i) +:+ "; " else EmptyString)
             (seq 0 MAXMIFS))].

(** Two objects on one kernel. *)
Definition K2 (X : Type) : Type := mc_socket * mc_socket * history -> option (X * (mc_socket * mc_socket * history)).

Definition on_m {X} (p : K X) : K2 X := fun '(m, m1, h) =>
  match p (m, h) with Some (x, (m, h)) => Some (x, (m, m1, h)) | None => None end.

Definition on_m1 {X} (p : K X) : K2 X := fun '(m, m1, h) =>
  match p (m1, h) with Some (x, (m1, h)) => Some (x, (m, m1, h)) | None => None end.

(** The result of creating a socket is not used. *)
Definition silent {A} (m : A -> option (bool * A)) : A -> option (list string * A) := print_either [] [] m.

Section MrtFlag.
Let v4 := create_raw_ipv4_socket kernel.
Let v6 := create_raw_ipv6_socket kernel.
Let flag := set_mrt_flag kernel.
Let set_reset (s : string) (m : K2 bool) : K2 (list string) := print_either [s +:+ " OK!"] [s +:+ " FAILED!"] m.
(** The call that has to fail. *)
Let refused (s : string) (m : K2 bool) : K2 (list string) :=
  print_either [s +:+ " OK! ==> FAILED!"] [s +:+ " FAILED! ==> OK!"] m.

Definition set_reset_test : K2 (list string) :=
  print_line "--<1> set MRT flag ipv4 --" +++ silent (on_m v4) +++ set_reset "set" (on_m (flag true))
  +++ print_line "-- reset MRT flag ipv4 --" +++ set_reset "reset" (on_m (flag false))
  +++ print_line "-- set MRT flag ipv4 again --" +++ silent (on_m v4) +++ set_reset "set" (on_m (flag true))
  +++ print_line "--<2> set MRT flag ipv6 --" +++ silent (on_m v6) +++ set_reset "set" (on_m (flag true))
  +++ print_line "-- reset MRT flag ipv6 --" +++ set_reset "reset" (on_m (flag false)).

Definition error_test_ipv4 : K2 (list string) :=
  print_line "--<3> error test set 2x MRT flag ipv4 --" +++ silent (on_m v4) +++ silent (on_m1 v4)
  +++ set_reset "set 1" (on_m (flag true)) +++ refused "set 2" (on_m1 (flag true))
  +++ set_reset "reset 1" (on_m (flag false)) +++ refused "reset 2" (on_m1 (flag false)).

(** One of the texts lacks the last exclamation mark. *)
Definition error_test_ipv6 : K2 (list string) :=
  print_line "--<4> error test set 2x MRT flag ipv6 --" +++ silent (on_m v6) +++ silent (on_m1 v6)
  +++ set_reset "set 1" (on_m (flag true))
  +++ print_either ["set 2 OK! ==> FAILED"] ["set 2 FAILED! ==> OK!"] (on_m1 (flag true))
  +++ set_reset "reset 1" (on_m (flag false)) +++ refused "reset 2" (on_m1 (flag false)).

Definition both_versions_test : K2 (list string) :=
  print_line "--<5> error test set 2x MRT flag ipv4&ipv6 --" +++ silent (on_m v4) +++ silent (on_m1 v6)
  +++ set_reset "set 1" (on_m (flag true)) +++ set_reset "set 2" (on_m1 (flag true))
  +++ set_reset "reset 1" (on_m (flag false)) +++ set_reset "reset 2" (on_m1 (flag false)).
End MrtFlag.

Definition test_mcrouter_mrt_flag : K2 (list string) :=
  set_reset_test +++ error_test_ipv4 +++ error_test_ipv6 +++ both_versions_test.

Definition MROUTE_SOCKET_SRC_ADDR_V4 : string := "141.22.27.157".
Definition MROUTE_SOCKET_G_ADDR_V4 : string := "238.99.99.99".
Definition MROUTE_SOCKET_SRC_ADDR_V6 : string := "fe80::5e26:aff:fe23:8dc1".
Definition MROUTE_SOCKET_G_ADDR_V6 : string := "FF02:0:0:0:99:99:99:99".
Definition MROUTE_SOCKET_IF_NUM_ONE : Z := 0.
Definition MROUTE_SOCKET_IF_NUM_TWO : Z := 1.
Definition MROUTE_SOCKET_IF_STR_ONE : string := "eth0".
Definition MROUTE_SOCKET_IF_STR_TWO : string := "wlan0".

Definition test_add_vifs : K (list string) :=
  let add num s := add_vif kernel num (if_nametoindex s) (of_family AF_UNSPEC) in
  print_line "-- addVIFs test --"
  +++ try ("addVIF " +:+ MROUTE_SOCKET_IF_STR_ONE) (add MROUTE_SOCKET_IF_NUM_ONE MROUTE_SOCKET_IF_STR_ONE)
  +++ print_either ["addVIF " +:+ MROUTE_SOCKET_IF_STR_TWO +:+ " OK!"] []
       (add MROUTE_SOCKET_IF_NUM_TWO MROUTE_SOCKET_IF_STR_TWO).

Definition test_del_vifs : K (list string) :=
  print_line "-- delVIFs test--" +++ try "delVIF" (del_vif kernel MROUTE_SOCKET_IF_NUM_ONE)
  +++ try "delVIF" (del_vif kernel MROUTE_SOCKET_IF_NUM_TWO).

(** The addresses of the family of the socket. *)
Definition with_test_addresses (p : addr_storage -> addr_storage -> K (list string)) : K (list string) :=
  s ← this;
  match m_addrFamily s with
  | Some AF_INET => p (text MROUTE_SOCKET_SRC_ADDR_V4) (text MROUTE_SOCKET_G_ADDR_V4)
  | Some AF_INET6 => p (text MROUTE_SOCKET_SRC_ADDR_V6) (text MROUTE_SOCKET_G_ADDR_V6)
  | f => print_line ("FAILED to start test wrong addrFamily: " +:+ family_number f)
  end.

Definition one_to_two : string := "(" +:+ MROUTE_SOCKET_IF_STR_ONE +:+ " ==> " +:+ MROUTE_SOCKET_IF_STR_TWO +:+ ")".

Definition test_add_route : K (list string) :=
  with_test_addresses (fun src_addr g_addr =>
    print_line "-- addRoute test --"
    +++ try ("addRoute " +:+ one_to_two)
         (add_mroute kernel MROUTE_SOCKET_IF_NUM_ONE src_addr g_addr [MROUTE_SOCKET_IF_NUM_TWO])).

Definition test_del_route : K (list string) :=
  with_test_addresses (fun src_addr g_addr =>
    print_line "-- delRoute test --"
    +++ try ("delMRoute " +:+ one_to_two) (del_mroute kernel MROUTE_SOCKET_IF_NUM_ONE src_addr g_addr)).

Definition test_mcrouter_vifs_routes (addrFamily : addr_family) : K (list string) :=
  let rest : K (list string) :=
    print_line "-- set mrt flag --" +++ try "set MRT flag" (set_mrt_flag kernel true)
    +++ test_add_vifs +++ test_add_route +++ test_del_route +++ test_del_vifs
    +++ print_line "-- reset mrt flag --" +++ try "reset MRT flag" (set_mrt_flag kernel false) in
  match addrFamily with
  | AF_INET => silent (create_raw_ipv4_socket kernel) +++ rest
  | AF_INET6 => silent (create_raw_ipv6_socket kernel) +++ rest
  | AF_UNSPEC => print_line ("FAILED to start test wrong addrFamily: " +:+ family_number (Some addrFamily))
  end.

(** [quick_test]: the first step that fails ends the process. *)
Fixpoint quick_steps (l : list (K2 bool * string)) (next : K2 (list string)) : K2 (list string) :=
  match l with
  | [] => next
  | (p, s) :: l => fun st =>
    match p st with
    | Some (true, st) => (print_line ("process: " +:+ s) +++ quick_steps l next) st
    | Some (false, st) => print_line ("error by: " +:+ s) st
    | None => None
    end
  end.

Definition mroute_quick_steps : list (K2 bool * string) :=
  let dummy1 := if_nametoindex "dummy1" in
  let eth0 := if_nametoindex "eth0" in
  let eth4 := if_nametoindex "eth4" in
  let vif n i := add_vif kernel n i (of_family AF_UNSPEC) in
  let table i n := bind_vif_to_table kernel if_indextoname i n in
  let route n out := add_mroute kernel n (text "fd00::38") (text "ff05::99:99") out in
  [(on_m (create_raw_ipv6_socket kernel), "ma.create_raw_ipv6_socket()");
   (on_m1 (create_raw_ipv6_socket kernel), "mb.create_raw_ipv6_socket()");
   (on_m (set_kernel_table kernel 1), "ma.set_kernel_table(1)");
   (on_m1 (set_kernel_table kernel 2), "mb.set_kernel_table(2)");
   (on_m (set_mrt_flag kernel true), "ma.set_mrt_flag(true)");
   (on_m1 (set_mrt_flag kernel true), "mb.set_mrt_flag(true)");
   (on_m (vif 1 dummy1), "mb.add_vif(1, if_nametoindex(dummy1), addr_storage())");
   (on_m (vif 2 eth0), "mb.add_vif(2, if_nametoindex(eth0), addr_storage())");
   (on_m (table dummy1 1), "ma.bind_vif_to_table(if_nametoindex(dummy1), 1)");
   (on_m (table eth0 1), "ma.bind_vif_to_table(if_nametoindex(eth0), 1)");
   (on_m1 (vif 1 eth4), "ma.add_vif(1, if_nametoindex(eth4), addr_storage())");
   (on_m1 (vif 2 eth0), "ma.add_vif(2, if_nametoindex(eth0), addr_storage())");
   (on_m (table eth4 2), "ma.bind_vif_to_table(if_nametoindex(eth4), 2)");
   (on_m (table eth0 2), "ma.bind_vif_to_table(if_nametoindex(eth0), 2)");
   (on_m (route 2 [1]), "mb.add_mroute(2, addr_storage(fd00::38), addr_storage(ff05::99:99), {1})");
   (on_m1 (route 1 [2]), "ma.add_mroute(1, addr_storage(fd00::38), addr_storage(ff05::99:99), {2})")].

(** Some rounds of the endless loop at its end. *)
Fixpoint stats_rounds (rounds : nat) : K2 (list string) :=
  match rounds with
  | O => fun st => Some ([], st)
  | S rounds =>
    on_m (print_mroute_stats (text "fd00::38") (text "ff05::99:99"))
    +++ on_m1 (print_mroute_stats (text "fd00::38") (text "ff05::99:99")) +++ stats_rounds rounds
  end.

Definition mroute_quick_test (rounds : nat) : K2 (list string) :=
  quick_steps mroute_quick_steps
    (print_line "eth4(t1,v1) ==> eth0(t1,v2) ==> eth0(t2,v2) ==> dummy1(t2,v1)" +++ stats_rounds rounds).
End SocketTests.

(** ** No descriptor is left open *)

(** A program that has a result and keeps an invariant of its state. [keeps] is the
    instance for one socket object. *)
Definition safe {A X} (I : A -> Prop) (p : A -> option (X * A)) : Prop :=
  forall st, I st -> exists x st', p st = Some (x, st') /\ I st'.

Lemma safe_then {A} (I : A -> Prop) p1 p2 : safe I p1 -> safe I p2 -> safe I (then_print p1 p2).
Proof.
  intros H1 H2 st Hst. unfold then_print. destruct (H1 st Hst) as (l1 & st1 & -> & Hst1).
  destruct (H2 st1 Hst1) as (l2 & st2 & -> & Hst2). by eexists _, _.
Qed.

Lemma safe_line {A} (I : A -> Prop) s : safe I (print_line s).
Proof. intros st Hst. by eexists _, _. Qed.

Lemma safe_either {A} (I : A -> Prop) yes no p : safe I p -> safe I (print_either yes no p).
Proof. intros Hp st Hst. unfold print_either. destruct (Hp st Hst) as (ok & st' & -> & Hst'). by eexists _, _. Qed.

(** The descriptors of two objects. *)
Definition tidy2 (others : gset Z) (st : mc_socket * mc_socket * history) : Prop :=
  let '(m, m1, h) := st in
  tidy (own_fds m1 ∪ others) (m, h) /\ m_own_socket m1 = true /\ own_fds m1 ## others /\ 0 ∈ others.

Lemma tidy2_swap others m m1 h : tidy2 others (m, m1, h) <-> tidy2 others (m1, m, h).
Proof.
  unfold tidy2, tidy. cbn [fst snd]. replace (own_fds m1 ∪ (own_fds m ∪ others)) with (own_fds m ∪ (own_fds m1 ∪ others)).
  - split; intros ((? & ? & ? & ?) & ? & ? & ?); split_and!; (done || set_solver).
  - apply leibniz_equiv. set_solver.
Qed.

Lemma safe_on_m others {X} (p : K X) : (forall o, keeps o p) -> safe (tidy2 others) (on_m p).
Proof.
  intros Hp [[m m1] h] (Ht & Ho & Hd & Hz). destruct (Hp _ _ Ht) as (x & [m' h'] & E & Ht'). cbn in *. rewrite E.
  eexists _, _. split; [done|]. by split_and!.
Qed.

Lemma safe_on_m1 others {X} (p : K X) : (forall o, keeps o p) -> safe (tidy2 others) (on_m1 p).
Proof.
  intros Hp [[m m1] h] Ht. apply tidy2_swap in Ht.
  destruct (safe_on_m others p Hp _ Ht) as (x & [[m1' m'] h'] & E & Ht'). cbn in *.
  destruct (p (m1, h)) as [[y [? ?]]|]; [|done]. injection E as <- <- <- <-. eexists _, _. split; [done|]. by apply tidy2_swap.
Qed.

Section Closed.
Context (kernel : history -> syscall -> kresult).
Context (if_indextoname : Z -> option string) (if_nametoindex : string -> Z) (ifr_addr : string -> list Z).
Context (filter_written numsrc_written : history -> Z) (sources_written : history -> list addr_storage).
Context (vif_counters : history -> Z * Z * Z * Z) (route_counters : history -> Z * Z * Z).
Context (inet_pton : addr_family -> string -> option (list Z)) (inet_ntop : addr_family -> list Z -> option string).
Hypothesis kernel_fds : forall h open f k fd,
  open_after ∅ h = Some open -> kernel h (sys_socket f k) = KOk fd -> 0 <= fd /\ fd ∉ open.

(** The operations of [SocketTheorems] with their results. *)
Lemma keeps_result others {X} (p : K X) : keeps others (run_ p) -> keeps others p.
Proof.
  intros Hp st Ht. destruct (Hp st Ht) as ([] & st' & E & Ht'). unfold run_, mbind, K_bind in E.
  destruct (p st) as [[x st1]|]; [|done]. injection E as ->. by eexists _, _.
Qed.

Definition defined := op_defined if_indextoname.

Lemma keeps_operation o others : defined o -> keeps others (run_op kernel if_indextoname ifr_addr o).
Proof. apply keeps_op, kernel_fds. Qed.

Ltac operation o := apply keeps_result; apply (keeps_operation o); (exact I || done).

(** A program that goes on with what is known of the object. *)
Lemma keeps_this others {X} (p : mc_socket -> K X) : (forall s, keeps others (p s)) -> keeps others (this ≫= p).
Proof. intros Hp st Ht. exact (Hp st.1 st Ht). Qed.

Notation print_filter := (print_source_filter kernel if_indextoname filter_written numsrc_written sources_written inet_ntop).

Lemma keeps_source_filter others i g :
  is_Some (if_indextoname i) -> keeps others (print_filter i g).
Proof.
  intros [name Hn]. unfold print_source_filter. rewrite Hn.
  apply (keeps_bind others (get_source_filter _ _ _ _ _ _ _ _)); [|intros [[ok mode] l] st Ht; by eexists _, _].
  unfold get_source_filter. apply keeps_valid_else. intros s. repeat keeps_step.
Qed.

Lemma keeps_mroute_stats others a g : keeps others (print_mroute_stats kernel route_counters inet_ntop a g).
Proof.
  unfold print_mroute_stats. do 2 (apply (safe_then (tidy others)); [apply safe_line|]).
  assert (Hstats : forall b, keeps others (ok ← get_mroute_stats kernel a g b (negb b); h ← calls;
    let '(pktcnt, bytecnt, wrong_if) := route_counters h in
    mret (if ok : bool then
            [" -packets[" +:+ print_Z bytecnt +:+ " bytes]:" +:+ print_Z pktcnt; " -wrong packets:" +:+ print_Z wrong_if]
          else ["failed to get mroute stats"]))).
  { intros b. apply keeps_bind; [operation (OpMrouteStats a g b (negb b))|]. intros ok.
    apply keeps_bind; [intros st Ht; by eexists _, _|]. intros h. destruct (route_counters h) as [[? ?] ?].
    apply keeps_ret. }
  apply keeps_this. intros s. destruct (m_addrFamily s) as [[]|]; [apply safe_line|apply (Hstats true)|apply (Hstats false)|apply safe_line].
Qed.

(** The operations that the tests print the result of. *)
Ltac known_operation :=
  try match goal with |- safe (tidy ?o) ?p => change (keeps o p) end;
  match goal with
  | |- keeps _ (join_group _ ?g ?i) => operation (OpJoin g i)
  | |- keeps _ (leave_group _ ?g ?i) => operation (OpLeave g i)
  | |- keeps _ (block_source _ ?g ?a ?i) => operation (OpBlock g a i)
  | |- keeps _ (unblock_source _ ?g ?a ?i) => operation (OpUnblock g a i)
  | |- keeps _ (join_source_group _ ?g ?a ?i) => operation (OpJoinSource g a i)
  | |- keeps _ (leave_source_group _ ?g ?a ?i) => operation (OpLeaveSource g a i)
  | |- keeps _ (set_source_filter _ ?i ?g ?m ?l) => operation (OpSetFilter i g m l)
  | |- keeps _ (choose_if _ _ _ ?i) => operation (OpChooseIf i)
  | |- keeps _ (send_packet _ ?a ?d) => operation (OpSend a d)
  | |- keeps _ (create_udp_ipv4_socket _) => operation OpCreateUdp4
  | |- keeps _ (create_udp_ipv6_socket _) => operation OpCreateUdp6
  | |- keeps _ (create_raw_ipv4_socket _) => operation OpCreateRaw4
  | |- keeps _ (create_raw_ipv6_socket _) => operation OpCreateRaw6
  | |- keeps _ (set_mrt_flag _ ?b) => operation (OpMrtFlag b)
  | |- keeps _ (set_kernel_table _ ?n) => operation (OpKernelTable n)
  | |- keeps _ (add_vif _ ?n ?i ?a) => operation (OpAddVif n i a)
  | |- keeps _ (del_vif _ ?n) => operation (OpDelVif n)
  | |- keeps _ (del_mroute _ ?n ?a ?g) => operation (OpDelMroute n a g)
  | |- keeps _ (add_mroute _ ?n ?a ?g ?l) =>
    apply keeps_result; apply (keeps_operation (OpAddMroute n a g l)); repeat constructor; by vm_compute
  end.

Ltac test_step :=
  first
  [ apply safe_line | apply safe_then | apply safe_either | known_operation
  | apply (keeps_source_filter _ _ _); assumption | apply (keeps_mroute_stats _ _ _)
  | apply safe_on_m; intros ? | apply safe_on_m1; intros ?
  | match goal with |- context [if String.eqb ?a ?b then _ else _] => destruct (String.eqb a b) end ].

Lemma mrt_flag_safe others : safe (tidy2 others) (test_mcrouter_mrt_flag kernel).
Proof.
  unfold test_mcrouter_mrt_flag, set_reset_test, error_test_ipv4, error_test_ipv6, both_versions_test, silent.
  repeat test_step.
Qed.

Lemma group_functions_safe others v msg i g udp_port :
  safe (tidy others) (test_mc_group_functions kernel if_indextoname if_nametoindex ifr_addr inet_pton v msg i g udp_port).
Proof. unfold test_mc_group_functions, test_with_socket, heading, try. repeat test_step. Qed.

Lemma delta_based_safe others v i g a :
  safe (tidy others) (test_mc_source_delta_based_api kernel if_nametoindex inet_pton v i g a).
Proof. unfold test_mc_source_delta_based_api, test_with_socket, heading, try. repeat test_step. Qed.

Lemma advanced_safe others v i g a b :
  is_Some (if_indextoname (if_nametoindex i)) ->
  safe (tidy others) (test_mc_source_advanced_api kernel if_indextoname if_nametoindex filter_written
    numsrc_written sources_written inet_pton inet_ntop v i g a b).
Proof. intros Hi. unfold test_mc_source_advanced_api, test_filter, test_with_socket, heading, try. repeat test_step. Qed.

Lemma vifs_routes_safe others f :
  safe (tidy others) (test_mcrouter_vifs_routes kernel if_nametoindex inet_pton f).
Proof.
  assert (Haddr : forall p, (forall a g, safe (tidy others) (p a g)) -> safe (tidy others) (with_test_addresses inet_pton p)).
  { intros p Hp. unfold with_test_addresses. apply keeps_this. intros s.
    destruct (m_addrFamily s) as [[]|]; first [apply Hp|apply safe_line]. }
  unfold test_mcrouter_vifs_routes, test_add_vifs, test_del_vifs, test_add_route, test_del_route, silent, try.
  destruct f; repeat first [test_step|apply Haddr; intros ? ?].
Qed.

(** The object of a test is destroyed at its end. *)
Definition closed_after others (p : K (list string)) : Prop :=
  forall h, 0 ∈ others -> open_after ∅ h = Some others ->
    exists lines s h', p (new_mc_socket, h) = Some (lines, (s, h'))
      /\ exists h'', close_socket kernel (s, h') = Some (tt, (s, h'')) /\ open_after ∅ h'' = Some others.

Lemma safe_closed others p : safe (tidy others) p -> closed_after others p.
Proof.
  intros Hp h Hz Ho. destruct (Hp (new_mc_socket, h)) as (lines & [s h'] & E & Ht); [by apply new_socket_tidy|].
  exists lines, s, h'. split; [done|]. by apply (close_socket_tidy kernel others (s, h')).
Qed.

(** Whatever the kernel answers, the tests of the sockets end and, if the standard
    input is open, leave no descriptor open. The one that prints source filters needs a known interface. *)
Theorem tests_close_sockets others v msg i g a b udp_port f :
  closed_after others (test_mc_group_functions kernel if_indextoname if_nametoindex ifr_addr inet_pton v msg i g udp_port)
  /\ closed_after others (test_mc_source_delta_based_api kernel if_nametoindex inet_pton v i g a)
  /\ (is_Some (if_indextoname (if_nametoindex i)) ->
      closed_after others (test_mc_source_advanced_api kernel if_indextoname if_nametoindex filter_written
        numsrc_written sources_written inet_pton inet_ntop v i g a b))
  /\ closed_after others (test_mcrouter_vifs_routes kernel if_nametoindex inet_pton f).
Proof.
  split_and!; [| |intros Hi|]; apply safe_closed;
    [apply group_functions_safe|apply delta_based_safe|by apply advanced_safe|apply vifs_routes_safe].
Qed.

(** The two objects of the test of the routing flag are destroyed in the opposite
    order of their construction. *)
Theorem flag_test_closes_sockets others h :
  0 ∈ others -> open_after ∅ h = Some others ->
  exists lines m m1 h0 h1 h2, test_mcrouter_mrt_flag kernel (new_mc_socket, new_mc_socket, h) = Some (lines, (m, m1, h0))
    /\ close_socket kernel (m1, h0) = Some (tt, (m1, h1)) /\ close_socket kernel (m, h1) = Some (tt, (m, h2))
    /\ open_after ∅ h2 = Some others.
Proof.
  intros Hz Ho. destruct (mrt_flag_safe others (new_mc_socket, new_mc_socket, h)) as (lines & [[m m1] h0] & E & Ht).
  { split; [|split_and!; [done|set_solver|done]]. apply (new_socket_tidy kernel); [set_solver|]. rewrite Ho. f_equal. apply leibniz_equiv. set_solver. }
  pose proof (proj1 (tidy2_swap _ _ _ _) Ht) as (Ht1 & Hown & Hd & _).
  destruct (close_socket_tidy kernel _ (m1, h0) Ht1) as (h1 & E1 & Ho1).
  destruct (close_socket_tidy kernel others (m, h1)) as (h2 & E2 & Ho2); [by split_and!|].
  by exists lines, m, m1, h0, h1, h2.
Qed.
End Closed.

(** Without the interface dummy0 the test of the source filters prints an
    uninitialised buffer. *)
Lemma unknown_interface_printed kernel if_indextoname if_nametoindex w n l inet_pton inet_ntop h :
  if_indextoname (if_nametoindex "dummy0") = None ->
  test_all kernel if_indextoname if_nametoindex w n l inet_pton inet_ntop (new_mc_socket, h) = None.
Proof.
  intros Hi.
  assert (Hnone : forall st, print_source_filter kernel if_indextoname w n l inet_ntop (if_nametoindex "dummy0")
      (address inet_pton (of_family AF_UNSPEC) (addr_to_string inet_ntop (address inet_pton (of_family AF_UNSPEC) "239.99.99.99"))) st = None).
  { intros st. unfold print_source_filter. by rewrite Hi. }
  assert (Hl : forall A (p1 p2 : A -> option (list string * A)), (forall st, p1 st = None) -> forall st, (p1 +++ p2) st = None).
  { intros A p1 p2 H1 st. unfold then_print. by rewrite H1. }
  assert (Hr : forall A (p1 p2 : A -> option (list string * A)), (forall st, p2 st = None) -> forall st, (p1 +++ p2) st = None).
  { intros A p1 p2 H2 st. unfold then_print. destruct (p1 st) as [[l1 st1]|]; [|done]. by rewrite H2. }
  unfold test_all, test_mc_source_advanced_api, test_with_socket, test_filter. cbv zeta.
  generalize (new_mc_socket, h). do 3 (apply Hr). do 4 (apply Hr). apply Hl. do 3 (apply Hr). exact Hnone.
Qed.

(** ** The test of the routing flag on a kernel *)

(** The documented behaviour: per address family at most one socket holds the flag;
    another one is refused, only the holder can reset it, and closing resets it. *)
Definition flag_holder (f : addr_family) (h : history) : option Z :=
  fold_left (fun holder '(c, r) =>
    match c, r, f with
    | sys_setsockopt fd IPPROTO_IP MRT_INIT, KOk _, AF_INET
    | sys_setsockopt fd IPPROTO_IPV6 MRT6_INIT, KOk _, AF_INET6 => Some fd
    | sys_setsockopt _ IPPROTO_IP MRT_DONE, KOk _, AF_INET
    | sys_setsockopt _ IPPROTO_IPV6 MRT6_DONE, KOk _, AF_INET6 => None
    | sys_close fd, _, _ => if decide (holder = Some fd) then None else holder
    | _, _, _ => holder
    end) h None.

Definition flag_kernel (h : history) (c : syscall) : kresult :=
  let init f := match flag_holder f h with None => KOk 0 | Some _ => KErr false end in
  let done_ f fd := if decide (flag_holder f h = Some fd) then KOk 0 else KErr false in
  match c with
  | sys_socket _ _ => KOk (highest_fd h + 1)
  | sys_setsockopt _ IPPROTO_IP MRT_INIT => init AF_INET
  | sys_setsockopt _ IPPROTO_IPV6 MRT6_INIT => init AF_INET6
  | sys_setsockopt fd IPPROTO_IP MRT_DONE => done_ AF_INET fd
  | sys_setsockopt fd IPPROTO_IPV6 MRT6_DONE => done_ AF_INET6 fd
  | _ => KOk 0
  end.

(** On this kernel every call does what the test expects; creating a new socket
    resets the flag of the old one. *)
Lemma flag_test_outcome :
  fst <$> test_mcrouter_mrt_flag flag_kernel (new_mc_socket, new_mc_socket, []) =
  Some ["--<1> set MRT flag ipv4 --"; "set OK!"; "-- reset MRT flag ipv4 --"; "reset OK!";
        "-- set MRT flag ipv4 again --"; "set OK!";
        "--<2> set MRT flag ipv6 --"; "set OK!"; "-- reset MRT flag ipv6 --"; "reset OK!";
        "--<3> error test set 2x MRT flag ipv4 --"; "set 1 OK!"; "set 2 FAILED! ==> OK!"; "reset 1 OK!";
        "reset 2 FAILED! ==> OK!";
        "--<4> error test set 2x MRT flag ipv6 --"; "set 1 OK!"; "set 2 FAILED! ==> OK!"; "reset 1 OK!";
        "reset 2 FAILED! ==> OK!";
        "--<5> error test set 2x MRT flag ipv4&ipv6 --"; "set 1 OK!"; "set 2 OK!"; "reset 1 OK!"; "reset 2 OK!"].
Proof. vm_compute. reflexivity. Qed.
