(* ===== verification/MembershipDb.v ===== *)
(** * Membership database (include/proxy/membership_db.hpp, src/proxy/membership_db.cpp)

    The state a querier keeps for one interface: a record per multicast group
    ([gaddr_info]) and the state of the general queries. A timer that a record
    points to is a [tid]; a null pointer is [None]. *)

From S2P Require Import Prelude Def AddrStorage Messages.

Local Open Scope Z_scope.

Section MembershipDb.
Context {A : Type} `{Address A}.

Record gaddr_info := {
  filter_mode : mc_filter;
  shared_filter_timer : option tid;
  compatibility_mode_variable : group_mem_protocol;
  older_host_present_timer : option tid;
  group_retransmission_timer : option tid;
  group_retransmission_count : Z;
  source_retransmission_timer : option tid;
  include_requested_list : list (source A);
  exclude_list : list (source A)
}.

Definition new_gaddr_info (version : group_mem_protocol) : gaddr_info := {|
  filter_mode := INCLUDE_MODE;
  shared_filter_timer := None;
  compatibility_mode_variable := version;
  older_host_present_timer := None;
  group_retransmission_timer := None;
  group_retransmission_count := -1;
  source_retransmission_timer := None;
  include_requested_list := [];
  exclude_list := []
|}.

Definition is_in_backward_compatibility_mode (g : gaddr_info) : bool :=
  negb (is_newest_version (compatibility_mode_variable g)).

Definition is_under_bakcward_compatibility_effects (g : gaddr_info) : bool :=
  bool_decide (is_Some (older_host_present_timer g)).

(** Assignments to the members of a record. *)
Definition set_lists (fm : mc_filter) (irl el : list (source A)) (g : gaddr_info) : gaddr_info :=
  {| filter_mode := fm; shared_filter_timer := shared_filter_timer g;
     compatibility_mode_variable := compatibility_mode_variable g;
     older_host_present_timer := older_host_present_timer g;
     group_retransmission_timer := group_retransmission_timer g;
     group_retransmission_count := group_retransmission_count g;
     source_retransmission_timer := source_retransmission_timer g;
     include_requested_list := irl; exclude_list := el |}.

Definition set_irl (irl : list (source A)) (g : gaddr_info) : gaddr_info :=
  set_lists (filter_mode g) irl (exclude_list g) g.

Definition set_filter_timer (t : option tid) (g : gaddr_info) : gaddr_info :=
  {| filter_mode := filter_mode g; shared_filter_timer := t;
     compatibility_mode_variable := compatibility_mode_variable g;
     older_host_present_timer := older_host_present_timer g;
     group_retransmission_timer := group_retransmission_timer g;
     group_retransmission_count := group_retransmission_count g;
     source_retransmission_timer := source_retransmission_timer g;
     include_requested_list := include_requested_list g; exclude_list := exclude_list g |}.

Definition set_compatibility (v : group_mem_protocol) (t : option tid) (g : gaddr_info)
    : gaddr_info :=
  {| filter_mode := filter_mode g; shared_filter_timer := shared_filter_timer g;
     compatibility_mode_variable := v; older_host_present_timer := t;
     group_retransmission_timer := group_retransmission_timer g;
     group_retransmission_count := group_retransmission_count g;
     source_retransmission_timer := source_retransmission_timer g;
     include_requested_list := include_requested_list g; exclude_list := exclude_list g |}.

Definition set_group_retransmission (t : option tid) (n : Z) (g : gaddr_info) : gaddr_info :=
  {| filter_mode := filter_mode g; shared_filter_timer := shared_filter_timer g;
     compatibility_mode_variable := compatibility_mode_variable g;
     older_host_present_timer := older_host_present_timer g;
     group_retransmission_timer := t; group_retransmission_count := n;
     source_retransmission_timer := source_retransmission_timer g;
     include_requested_list := include_requested_list g; exclude_list := exclude_list g |}.

Definition set_source_retransmission (t : option tid) (g : gaddr_info) : gaddr_info :=
  {| filter_mode := filter_mode g; shared_filter_timer := shared_filter_timer g;
     compatibility_mode_variable := compatibility_mode_variable g;
     older_host_present_timer := older_host_present_timer g;
     group_retransmission_timer := group_retransmission_timer g;
     group_retransmission_count := group_retransmission_count g;
     source_retransmission_timer := t;
     include_requested_list := include_requested_list g; exclude_list := exclude_list g |}.

(** ** The database *)

Record membership_db := {
  general_query_timer : option tid;
  db_startup_query_count : Z;
  querier_version_mode : group_mem_protocol;
  is_querier : bool;
  group_info : gmap A gaddr_info
}.

Definition new_membership_db (version : group_mem_protocol) : membership_db := {|
  general_query_timer := None;
  db_startup_query_count := 0;
  querier_version_mode := version;
  is_querier := true;
  group_info := ∅
|}.

Definition set_groups (m : gmap A gaddr_info) (db : membership_db) : membership_db :=
  {| general_query_timer := general_query_timer db;
     db_startup_query_count := db_startup_query_count db;
     querier_version_mode := querier_version_mode db; is_querier := is_querier db;
     group_info := m |}.

Definition set_group (gaddr : A) (g : gaddr_info) (db : membership_db) : membership_db :=
  set_groups (<[gaddr := g]> (group_info db)) db.

Definition del_group (gaddr : A) (db : membership_db) : membership_db :=
  set_groups (delete gaddr (group_info db)) db.

Definition set_general_query (t : option tid) (n : Z) (db : membership_db) : membership_db :=
  {| general_query_timer := t; db_startup_query_count := n;
     querier_version_mode := querier_version_mode db; is_querier := is_querier db;
     group_info := group_info db |}.

(** The timers a record, and a database, keep alive. *)
Definition ginfo_timers (g : gaddr_info) : list tid :=
  option_list (shared_filter_timer g) ++ option_list (older_host_present_timer g)
  ++ option_list (group_retransmission_timer g) ++ option_list (source_retransmission_timer g)
  ++ omap shared_source_timer (include_requested_list g)
  ++ omap shared_source_timer (exclude_list g).

Definition db_timers (db : membership_db) : list tid :=
  option_list (general_query_timer db)
  ++ flat_map (fun p => ginfo_timers p.2) (map_to_list (group_info db)).
End MembershipDb.

Arguments gaddr_info : clear implicits.
Arguments membership_db A {_}.
