(* ===== verification/Querier.v ===== *)
(** * The querier (include/proxy/querier.hpp, src/proxy/querier.cpp)

    One definition per method of class [querier]. The database is passed and
    returned; [ginfo] arguments are the record of the group, which the caller
    holds at [gaddr] in the database. The callback [cb] is called with the
    database at that moment, since it reads the querier back through
    [get_group_membership_infos]. *)

From S2P Require Import Prelude Def TimersValues AddrStorage Timing Messages Sender.
From S2P Require Import MembershipDb.

Local Open Scope Z_scope.

Definition IPV4_ALL_IGMP_ROUTERS_ADDR : addr_storage := ip4 224 0 0 2.
Definition IPV4_IGMPV3_ADDR : addr_storage := ip4 224 0 0 22.
Definition IPV6_ALL_NODE_LOCAL_ROUTER : addr_storage := ip6 0xff01 2.
Definition IPV6_ALL_SITE_LOCAL_ROUTER : addr_storage := ip6 0xff05 2.
Definition IPV6_ALL_MLDv2_CAPABLE_ROUTERS : addr_storage := ip6 0xff02 0x16.

(** An update of the element a [find] returned. *)
Definition sl_update {T K} `{KeyOrder K, Keyed T K} (k : K) (f : T -> T) (l : list T) : list T :=
  (fun x => if bool_decide (key x = k) then f x else x) <$> l.

Section Querier.
Context {A : Type} `{Address A} (clk : nat -> Z).
Context (snd : sender (A := A)) (m_msg_worker : Z) (m_if_index : Z)
  (m_timers_values : timers_values) (cb : membership_db A -> A -> M A unit).

Implicit Types (db : membership_db A) (ginfo : gaddr_info A) (gaddr : A)
  (slist : list (source A)).

Definition state_change_notification db gaddr : M A unit := cb db gaddr.

Definition router_groups_function (version : group_mem_protocol) (subscribe : bool) : M A bool :=
  let mf := if subscribe then EXCLUDE_MODE else INCLUDE_MODE in
  if is_IPv4 version then
    rc ← send_record snd m_if_index mf IPV4_ALL_IGMP_ROUTERS_ADDR [];
    if rc : bool then send_record snd m_if_index mf IPV4_IGMPV3_ADDR [] else mret false
  else if is_IPv6 version then
    rc ← send_record snd m_if_index mf IPV6_ALL_NODE_LOCAL_ROUTER [];
    rc ← (if rc : bool then send_record snd m_if_index mf IPV6_ALL_SITE_LOCAL_ROUTER []
          else mret false);
    if rc : bool then send_record snd m_if_index mf IPV6_ALL_MLDv2_CAPABLE_ROUTERS [] else mret false
  else mret false.

Definition querier_send_general_query db : M A (bool * membership_db A) :=
  let count := match general_query_timer db with
               | None => to_int32 (get_startup_query_count m_timers_values - 1)
               | Some _ => db_startup_query_count db
               end in
  let '(count, t) := if 0 <? count then (count - 1, get_startup_query_interval m_timers_values)
                     else (count, get_query_interval m_timers_values) in
  gqt ← make_timer clk GENERAL_QUERY_TIMER_MSG m_if_index None None (t * 1000);
  add_time_msg clk (t * 1000) m_msg_worker gqt;;
  ok ← send_general_query snd m_if_index m_timers_values;
  mret (ok, set_general_query (Some gqt) count db).

(** The constructor; [None] is the exception it throws. *)
Definition new_querier (version : group_mem_protocol) : M A (option (membership_db A)) :=
  let db := new_membership_db version in
  ok ← router_groups_function version true;
  if negb ok then mret None
  else r ← querier_send_general_query db;
       let '(ok, db) := r in
       if negb ok then mret None else mret (Some db).

Definition destroy_querier db : M A unit :=
  router_groups_function (querier_version_mode db) false;; mret tt.

(** ** Timers of sources and groups *)

Definition mali_filter gaddr ginfo : M A (gaddr_info A) :=
  let mali := get_multicast_address_listening_interval m_timers_values in
  ft ← make_timer clk FILTER_TIMER_MSG m_if_index (Some gaddr) None mali;
  add_time_msg clk mali m_msg_worker ft;;
  mret (set_filter_timer (Some ft) ginfo).

Definition mali_list gaddr slist : M A (list (source A)) :=
  let mali := get_multicast_address_listening_interval m_timers_values in
  st ← make_timer clk SOURCE_TIMER_MSG m_if_index (Some gaddr) None mali;
  let slist := (fun e => set_timer e (Some st) (-1)) <$> slist in
  (if negb (bool_decide (slist = [])) then add_time_msg clk mali m_msg_worker st
   else mret tt);;
  mret slist.

Definition mali_sources gaddr slist (tmp_slist : list (source A)) : M A (list (source A)) :=
  tmp_slist ← mali_list gaddr tmp_slist;
  mret (fold_left
    (fun sl e => match sl_find (key e) sl with
                 | Some _ => sl_update (key e)
                     (fun it => set_timer it (shared_source_timer e) (-1)) sl
                 | None => sl
                 end) tmp_slist slist).

Definition filter_time ginfo slist (tmp_slist : list (source A)) : M A (list (source A)) :=
  foldM (fun sl e =>
    match sl_find (key e) sl with
    | Some _ =>
      ft ← deref (shared_filter_timer ginfo);
      modify_timer ft set_as_source_timer;;
      mret (sl_update (key e) (fun it => set_timer it (Some ft) (retransmission_count it)) sl)
    | None => mret sl
    end) slist tmp_slist.

(** [send_Q(gaddr, ginfo)]: the multicast address specific query. *)
Definition send_Q_group gaddr ginfo : M A (gaddr_info A) :=
  ginfo ← (match group_retransmission_timer ginfo with
           | None =>
             let llqt := get_last_listener_query_time m_timers_values in
             ftimer ← make_timer clk FILTER_TIMER_MSG m_if_index (Some gaddr) None llqt;
             add_time_msg clk llqt m_msg_worker ftimer;;
             mret (set_filter_timer (Some ftimer)
               (set_group_retransmission None
                  (to_int32 (get_last_listener_query_count m_timers_values)) ginfo))
           | Some _ => mret ginfo
           end);
  if 0 <? group_retransmission_count ginfo then
    let ginfo := set_group_retransmission (group_retransmission_timer ginfo)
                   (group_retransmission_count ginfo - 1) ginfo in
    ginfo ← (if 0 <? group_retransmission_count ginfo then
               let llqi := get_last_listener_query_interval m_timers_values in
               rtimer ← make_timer clk RET_GROUP_TIMER_MSG m_if_index (Some gaddr) None llqi;
               add_time_msg clk llqi m_msg_worker rtimer;;
               mret (set_group_retransmission (Some rtimer) (group_retransmission_count ginfo) ginfo)
             else mret ginfo);
    ft ← deref (shared_filter_timer ginfo);
    tm ← get_timer ft;
    t0 ← now clk;
    send_mc_addr_specific_query snd m_if_index m_timers_values gaddr
      (is_remaining_time_greater_than t0 (get_last_listener_query_time m_timers_values) tm);;
    mret ginfo
  else mret (set_group_retransmission None (-1) ginfo).

(** The loop of [send_Q] over [tmp_list]. *)
Definition send_Q_mark (st : tid) slist (tmp_list : list (source A)) : bool * list (source A) :=
  fold_left (fun '(is_used, sl) e =>
    match sl_find (key e) sl with
    | Some it =>
      if retransmission_count it <? 1
      then (true, sl_update (key e)
              (fun it => set_timer it (Some st) (get_last_listener_query_count m_timers_values)) sl)
      else (is_used, sl)
    | None => (is_used, sl)
    end) tmp_list (false, slist).

(** [send_Q(gaddr, ginfo, slist, tmp_list, in_retransmission_state)]. *)
Definition send_Q_sources gaddr ginfo slist (tmp_list : list (source A))
    (in_retransmission_state : bool) : M A (gaddr_info A * list (source A)) :=
  let llqt := get_last_listener_query_time m_timers_values in
  st ← make_timer clk SOURCE_TIMER_MSG m_if_index (Some gaddr) None llqt;
  let '(is_used, slist) := send_Q_mark st slist tmp_list in
  (if is_used : bool then add_time_msg clk llqt m_msg_worker st else mret tt);;
  if is_used || in_retransmission_state then
    r ← send_mc_addr_and_src_specific_query snd m_if_index m_timers_values gaddr slist;
    let '(again, slist) := r in
    if again : bool then
      let llqi := get_last_listener_query_interval m_timers_values in
      rst ← make_timer clk RET_SOURCE_TIMER_MSG m_if_index (Some gaddr) None llqi;
      add_time_msg clk llqi m_msg_worker rst;;
      mret (set_source_retransmission (Some rst) ginfo, slist)
    else mret (ginfo, slist)
  else mret (ginfo, slist).

(** [send_Q] on the list of the record itself: the call of every handler. *)
Definition send_Q_own gaddr ginfo (tmp_list : list (source A)) (in_retransmission_state : bool)
    : M A (gaddr_info A) :=
  r ← send_Q_sources gaddr ginfo (include_requested_list ginfo) tmp_list in_retransmission_state;
  mret (set_irl r.2 r.1).

Definition mali_own gaddr ginfo (tmp_slist : list (source A)) : M A (gaddr_info A) :=
  irl ← mali_sources gaddr (include_requested_list ginfo) tmp_slist;
  mret (set_irl irl ginfo).

(** ** Reports *)

Definition receive_record_in_include_mode (record_type : mcast_addr_record_type) gaddr slist
    ginfo db : M A (gaddr_info A) :=
  let A0 := include_requested_list ginfo in
  let B := slist in
  match record_type with
  | ALLOW_NEW_SOURCES =>
    ginfo ← mali_own gaddr (set_irl (sl_add_assign A0 B) ginfo) B;
    state_change_notification (set_group gaddr ginfo db) gaddr;;
    mret ginfo
  | BLOCK_OLD_SOURCES =>
    send_Q_own gaddr ginfo (sl_mul A0 B) false
  | CHANGE_TO_EXCLUDE_MODE =>
    let AB := sl_mul_assign A0 B in
    let ginfo := set_lists EXCLUDE_MODE AB (sl_sub B AB) ginfo in
    ginfo ← send_Q_own gaddr ginfo (sl_mul AB B) false;
    ginfo ← mali_filter gaddr ginfo;
    state_change_notification (set_group gaddr ginfo db) gaddr;;
    mret ginfo
  | CHANGE_TO_INCLUDE_MODE =>
    let A1 := sl_add_assign A0 B in
    ginfo ← send_Q_own gaddr (set_irl A1 ginfo) (sl_sub A1 B) false;
    ginfo ← mali_own gaddr ginfo B;
    state_change_notification (set_group gaddr ginfo db) gaddr;;
    mret ginfo
  | MODE_IS_EXCLUDE =>
    let AB := sl_mul_assign A0 B in
    let ginfo := set_lists EXCLUDE_MODE AB (sl_sub B AB) ginfo in
    ginfo ← mali_filter gaddr ginfo;
    state_change_notification (set_group gaddr ginfo db) gaddr;;
    mret ginfo
  | MODE_IS_INCLUDE =>
    ginfo ← mali_own gaddr (set_irl (sl_add_assign A0 B) ginfo) B;
    state_change_notification (set_group gaddr ginfo db) gaddr;;
    mret ginfo
  | UNKNOWN_RECORD _ => mret ginfo
  end.

Definition receive_record_in_exclude_mode (record_type : mcast_addr_record_type) gaddr slist
    ginfo db : M A (gaddr_info A) :=
  let X := include_requested_list ginfo in
  let Y := exclude_list ginfo in
  let A0 := slist in
  match record_type with
  | ALLOW_NEW_SOURCES =>
    ginfo ← mali_own gaddr
      (set_lists (filter_mode ginfo) (sl_add_assign X A0) (sl_sub_assign Y A0) ginfo) A0;
    state_change_notification (set_group gaddr ginfo db) gaddr;;
    mret ginfo
  | BLOCK_OLD_SOURCES =>
    send_Q_own gaddr (set_irl (sl_add_assign X (sl_sub A0 Y)) ginfo) (sl_sub A0 Y) false
  | CHANGE_TO_EXCLUDE_MODE =>
    let X1 := sl_add_assign (sl_mul_assign X A0) (sl_sub A0 Y) in
    let Y1 := sl_mul_assign Y A0 in
    ginfo ← send_Q_own gaddr (set_lists (filter_mode ginfo) X1 Y1 ginfo) X1 false;
    ginfo ← mali_filter gaddr ginfo;
    state_change_notification (set_group gaddr ginfo db) gaddr;;
    mret ginfo
  | CHANGE_TO_INCLUDE_MODE =>
    let X1 := sl_add_assign X A0 in
    ginfo ← send_Q_own gaddr (set_lists (filter_mode ginfo) X1 (sl_sub_assign Y A0) ginfo)
      (sl_sub X1 A0) false;
    ginfo ← send_Q_group gaddr ginfo;
    ginfo ← mali_own gaddr ginfo A0;
    state_change_notification (set_group gaddr ginfo db) gaddr;;
    mret ginfo
  | MODE_IS_EXCLUDE =>
    A1 ← mali_sources gaddr A0 (sl_sub (sl_sub A0 X) Y);
    let X1 := sl_add_assign (sl_mul_assign X A1) (sl_sub A1 Y) in
    ginfo ← mali_filter gaddr (set_lists (filter_mode ginfo) X1 (sl_mul_assign Y A1) ginfo);
    state_change_notification (set_group gaddr ginfo db) gaddr;;
    mret ginfo
  | MODE_IS_INCLUDE =>
    ginfo ← mali_own gaddr
      (set_lists (filter_mode ginfo) (sl_add_assign X A0) (sl_sub_assign Y A0) ginfo) A0;
    state_change_notification (set_group gaddr ginfo db) gaddr;;
    mret ginfo
  | UNKNOWN_RECORD _ => mret ginfo
  end.

(** The older host present timer of a report of an older version. *)
Definition compatibility_coordination (gr : group_record_msg A) ginfo db : M A (gaddr_info A) :=
  if negb (is_newest_version (gr_grp_mem_proto gr))
     && is_older_or_equal_version (gr_grp_mem_proto gr) (querier_version_mode db) then
    let ohpi := get_older_host_present_interval m_timers_values in
    ohpt ← make_timer clk OLDER_HOST_PRESENT_TIMER_MSG m_if_index (Some (gr_gaddr gr)) None ohpi;
    add_time_msg clk ohpi m_msg_worker ohpt;;
    mret (set_compatibility (gr_grp_mem_proto gr) (Some ohpt) ginfo)
  else mret ginfo.

Definition receive_record (gr : group_record_msg A) db : M A (membership_db A) :=
  let gaddr := gr_gaddr gr in
  let ginfo := default (new_gaddr_info (querier_version_mode db)) (group_info db !! gaddr) in
  ginfo ← compatibility_coordination gr ginfo db;
  let slist := if is_in_backward_compatibility_mode ginfo
                  && bool_decide (gr_record_type gr = CHANGE_TO_EXCLUDE_MODE)
               then [] else gr_slist gr in
  if is_in_backward_compatibility_mode ginfo
     && bool_decide (gr_record_type gr = BLOCK_OLD_SOURCES)
  then mret (set_group gaddr ginfo db)
  else
    match filter_mode ginfo with
    | INCLUDE_MODE =>
      ginfo ← receive_record_in_include_mode (gr_record_type gr) gaddr slist ginfo db;
      if bool_decide (filter_mode ginfo = INCLUDE_MODE)
         && bool_decide (include_requested_list ginfo = [])
      then mret (del_group gaddr db)
      else mret (set_group gaddr ginfo db)
    | EXCLUDE_MODE =>
      ginfo ← receive_record_in_exclude_mode (gr_record_type gr) gaddr slist ginfo db;
      mret (set_group gaddr ginfo db)
    end.

(** ** Timer events *)

Definition timed_by (t : tid) (s : source A) : bool :=
  bool_decide (shared_source_timer s = Some t).

Definition timer_triggerd_source_timer gaddr (t : tid) db : M A (membership_db A) :=
  ginfo ← deref (group_info db !! gaddr);
  match filter_mode ginfo with
  | INCLUDE_MODE =>
    let irl := List.filter (fun s => negb (timed_by t s)) (include_requested_list ginfo) in
    let db := if bool_decide (irl = []) then del_group gaddr db
              else set_group gaddr (set_irl irl ginfo) db in
    state_change_notification db gaddr;;
    mret db
  | EXCLUDE_MODE =>
    let expired := List.filter (timed_by t) (include_requested_list ginfo) in
    let irl := List.filter (fun s => negb (timed_by t s)) (include_requested_list ginfo) in
    let el := sl_add_assign (exclude_list ginfo)
                ((fun s => set_timer s None (retransmission_count s)) <$> expired) in
    let db := set_group gaddr (set_lists EXCLUDE_MODE irl el ginfo) db in
    state_change_notification db gaddr;;
    mret db
  end.

Definition timer_triggerd_filter_timer gaddr (t : tid) db : M A (membership_db A) :=
  ftimer ← get_timer t;
  db ← (if tm_is_used_as_source_timer ftimer then timer_triggerd_source_timer gaddr t db
        else mret db);
  ginfo ← deref (group_info db !! gaddr);
  if negb (bool_decide (shared_filter_timer ginfo = Some t)) then mret db
  else match filter_mode ginfo with
       | EXCLUDE_MODE =>
         if bool_decide (include_requested_list ginfo = []) then
           let db := del_group gaddr db in
           state_change_notification db gaddr;; mret db
         else
           let db := set_group gaddr (set_lists INCLUDE_MODE (include_requested_list ginfo) []
                       (set_filter_timer None ginfo)) db in
           state_change_notification db gaddr;; mret db
       | INCLUDE_MODE => mret db
       end.

Definition timer_triggerd_ret_group_timer gaddr (t : tid) db : M A (membership_db A) :=
  ginfo ← deref (group_info db !! gaddr);
  if bool_decide (group_retransmission_timer ginfo = Some t)
  then ginfo ← send_Q_group gaddr ginfo; mret (set_group gaddr ginfo db)
  else mret db.

Definition timer_triggerd_ret_source_timer gaddr (t : tid) db : M A (membership_db A) :=
  ginfo ← deref (group_info db !! gaddr);
  if bool_decide (source_retransmission_timer ginfo = Some t)
  then ginfo ← send_Q_own gaddr ginfo [] true; mret (set_group gaddr ginfo db)
  else mret db.

Definition timer_triggerd_general_query_timer (t : tid) db : M A (membership_db A) :=
  if bool_decide (general_query_timer db = Some t)
  then r ← querier_send_general_query db; mret r.2
  else mret db.

Definition timer_triggerd_older_host_present_timer gaddr (t : tid) db : M A (membership_db A) :=
  ginfo ← deref (group_info db !! gaddr);
  if bool_decide (older_host_present_timer ginfo = Some t) then
    if is_newest_version (compatibility_mode_variable ginfo) then
      let db := set_group gaddr
                  (set_compatibility (compatibility_mode_variable ginfo) None ginfo) db in
      state_change_notification db gaddr;; mret db
    else
      let v := get_next_newer_version (compatibility_mode_variable ginfo) in
      let delay := if is_newest_version v
                   then get_multicast_address_listening_interval m_timers_values
                   else get_older_host_present_interval m_timers_values in
      ohpt ← make_timer clk OLDER_HOST_PRESENT_TIMER_MSG m_if_index (Some gaddr) None delay;
      add_time_msg clk delay m_msg_worker ohpt;;
      mret (set_group gaddr (set_compatibility v (Some ohpt) ginfo) db)
  else mret db.

(** [held]: an owner other than this database and the caller still refers to
    the message (the timing thread, between handing it over and erasing it). *)
Definition timer_triggerd (held : bool) (t : tid) db : M A (membership_db A) :=
  tm ← get_timer t;
  if negb (held || bool_decide (t ∈ db_timers db)) then mret db
  else match tm_type tm with
       | FILTER_TIMER_MSG | SOURCE_TIMER_MSG | RET_GROUP_TIMER_MSG | RET_SOURCE_TIMER_MSG
       | OLDER_HOST_PRESENT_TIMER_MSG =>
         gaddr ← deref (tm_gaddr tm);
         match group_info db !! gaddr with
         | None => mret db
         | Some _ =>
           match tm_type tm with
           | FILTER_TIMER_MSG => timer_triggerd_filter_timer gaddr t db
           | SOURCE_TIMER_MSG => timer_triggerd_source_timer gaddr t db
           | RET_GROUP_TIMER_MSG => timer_triggerd_ret_group_timer gaddr t db
           | RET_SOURCE_TIMER_MSG => timer_triggerd_ret_source_timer gaddr t db
           | OLDER_HOST_PRESENT_TIMER_MSG => timer_triggerd_older_host_present_timer gaddr t db
           | _ => mret db
           end
         end
       | GENERAL_QUERY_TIMER_MSG => timer_triggerd_general_query_timer t db
       | _ => mret db
       end.

(** ** Questions of the routing *)

Definition suggest_to_forward_traffic db gaddr (rt_slist : list (source A * list Z))
    (interface_filter_fun : A -> bool) : list (source A * list Z) :=
  if is_querier db then
    match group_info db !! gaddr with
    | Some ginfo =>
      let suggested (s : source A) : bool :=
        if is_under_bakcward_compatibility_effects ginfo then true
        else match filter_mode ginfo with
             | INCLUDE_MODE =>
               bool_decide (is_Some (sl_find (key s) (include_requested_list ginfo)))
             | EXCLUDE_MODE => bool_decide (sl_find (key s) (exclude_list ginfo) = None)
             end in
      (fun e => if suggested e.1 && interface_filter_fun (saddr e.1)
                then (e.1, e.2 ++ [m_if_index]) else e) <$> rt_slist
    | None => rt_slist
    end
  else rt_slist.

Definition get_group_membership_infos db gaddr : mc_filter * list (source A) :=
  match group_info db !! gaddr with
  | Some ginfo =>
    if is_under_bakcward_compatibility_effects ginfo then (EXCLUDE_MODE, [])
    else match filter_mode ginfo with
         | INCLUDE_MODE => (INCLUDE_MODE, include_requested_list ginfo)
         | EXCLUDE_MODE => (EXCLUDE_MODE, exclude_list ginfo)
         end
  | None => (INCLUDE_MODE, [])
  end.
End Querier.
