(* ===== verification/QuerierSpec.v ===== *)
(** * Specification of the querier

    The abstract state of a group (RFC 3810 section 7.2: INCLUDE (A) or
    EXCLUDE (X,Y)), the transition tables of sections 7.4.1, 7.4.2 and 7.2, the
    well-formedness of a membership database, and what each helper of
    querier.cpp does to a record. *)

From S2P Require Import Prelude Def TimersValues AddrStorage Timing Messages Sender.
From S2P Require Import MembershipDb Querier.

Local Open Scope Z_scope.

Section Spec.
Context {A : Type} `{Address A}.

(** ** The router state of a group *)

Inductive router_state :=
  | INCLUDE (A0 : gset A)
  | EXCLUDE (X Y : gset A).

Definition ginfo_state (g : gaddr_info A) : router_state :=
  match filter_mode g with
  | INCLUDE_MODE => INCLUDE (sl_keys (include_requested_list g))
  | EXCLUDE_MODE => EXCLUDE (sl_keys (include_requested_list g)) (sl_keys (exclude_list g))
  end.

(** A group without a record has no listeners. *)
Definition group_state (db : membership_db A) (gaddr : A) : router_state :=
  match group_info db !! gaddr with
  | Some g => ginfo_state g
  | None => INCLUDE ∅
  end.

(** RFC 3810, 7.4.1 and 7.4.2: the new router state. *)
Definition rfc_report (st : router_state) (rt : mcast_addr_record_type) (B : gset A)
    : router_state :=
  match st, rt with
  | INCLUDE A0, (ALLOW_NEW_SOURCES | MODE_IS_INCLUDE | CHANGE_TO_INCLUDE_MODE) =>
    INCLUDE (A0 ∪ B)
  | INCLUDE A0, BLOCK_OLD_SOURCES => INCLUDE A0
  | INCLUDE A0, (MODE_IS_EXCLUDE | CHANGE_TO_EXCLUDE_MODE) => EXCLUDE (A0 ∩ B) (B ∖ A0)
  | EXCLUDE X Y, (ALLOW_NEW_SOURCES | MODE_IS_INCLUDE | CHANGE_TO_INCLUDE_MODE) =>
    EXCLUDE (X ∪ B) (Y ∖ B)
  | EXCLUDE X Y, BLOCK_OLD_SOURCES => EXCLUDE (X ∪ (B ∖ Y)) Y
  | EXCLUDE X Y, (MODE_IS_EXCLUDE | CHANGE_TO_EXCLUDE_MODE) => EXCLUDE (B ∖ Y) (Y ∩ B)
  | _, UNKNOWN_RECORD _ => st
  end.

(** RFC 3810, 7.2.3: the sources [E] expire. *)
Definition rfc_sources_expire (st : router_state) (E : gset A) : router_state :=
  match st with
  | INCLUDE A0 => INCLUDE (A0 ∖ E)
  | EXCLUDE X Y => EXCLUDE (X ∖ E) (Y ∪ E)
  end.

(** RFC 3810, 7.2.2: the filter timer expires. *)
Definition rfc_filter_expires (st : router_state) : router_state :=
  match st with
  | INCLUDE A0 => INCLUDE A0
  | EXCLUDE X Y => INCLUDE X
  end.

(** RFC 3810, 7.3: is traffic of a source forwarded? *)
Definition rfc_forwards (st : router_state) (s : A) : Prop :=
  match st with
  | INCLUDE A0 => s ∈ A0
  | EXCLUDE X Y => s ∉ Y
  end.

(** ** Well-formed records *)

(** The sources of a report, as the receivers build them. *)
Definition fresh_sources (l : list (source A)) : Prop :=
  sl_ordered l /\ Forall (fun s => s = new_source (saddr s)) l.

Definition timed (e : env A) (gaddr : A) (s : source A) : Prop :=
  exists t, shared_source_timer s = Some t /\ timer_is e t SOURCE_TIMER_MSG (Some gaddr).

Definition points_to (e : env A) (p : option tid) (type : message_type) (gaddr : option A)
    : Prop :=
  forall t, p = Some t -> timer_is e t type gaddr.

(** INCLUDE mode has no filter timer and no exclude list, EXCLUDE mode has a
    filter timer; the two lists are ordered and disjoint; a listed source has a
    running source timer, an excluded one has none; every timer is of its kind
    and for this group. *)
Record ginfo_wf (e : env A) (gaddr : A) (g : gaddr_info A) : Prop := {
  gw_irl : sl_ordered (include_requested_list g);
  gw_el : sl_ordered (exclude_list g);
  gw_disj : sl_keys (include_requested_list g) ## sl_keys (exclude_list g);
  gw_mode : match filter_mode g with
            | INCLUDE_MODE => exclude_list g = [] /\ shared_filter_timer g = None
            | EXCLUDE_MODE => is_Some (shared_filter_timer g)
            end;
  gw_timed : Forall (timed e gaddr) (include_requested_list g);
  gw_untimed : Forall (fun s => shared_source_timer s = None) (exclude_list g);
  gw_filter : points_to e (shared_filter_timer g) FILTER_TIMER_MSG (Some gaddr);
  gw_ohpt : points_to e (older_host_present_timer g) OLDER_HOST_PRESENT_TIMER_MSG (Some gaddr);
  gw_grt : points_to e (group_retransmission_timer g) RET_GROUP_TIMER_MSG (Some gaddr);
  gw_srt : points_to e (source_retransmission_timer g) RET_SOURCE_TIMER_MSG (Some gaddr)
}.

Record db_wf (e : env A) (db : membership_db A) : Prop := {
  dw_env : env_wf e;
  dw_groups : map_Forall (ginfo_wf e) (group_info db);
  dw_gqt : points_to e (general_query_timer db) GENERAL_QUERY_TIMER_MSG None
}.

(** ** Extension *)

Lemma timed_ext e e' gaddr s : env_ext e e' -> timed e gaddr s -> timed e' gaddr s.
Proof. intros Hext (t & Ht & Htm). exists t. eauto with menv. Qed.

Lemma points_to_ext e e' p type g : env_ext e e' -> points_to e p type g -> points_to e' p type g.
Proof. intros Hext Hp t Ht. eauto with menv. Qed.

Lemma points_to_None e type g : points_to e None type g.
Proof. by intros t. Qed.

Lemma points_to_Some e t type g : timer_is e t type g -> points_to e (Some t) type g.
Proof. by intros Ht t' [= <-]. Qed.

Lemma ginfo_wf_ext e e' gaddr g : env_ext e e' -> ginfo_wf e gaddr g -> ginfo_wf e' gaddr g.
Proof.
  intros Hext []. split; eauto using points_to_ext.
  eapply Forall_impl; [eassumption|]. intros s. by apply timed_ext.
Qed.

Lemma timed_live e gaddr l : Forall (timed e gaddr) l -> sources_live e l.
Proof.
  intros Hl. eapply Forall_impl; [exact Hl|]. intros s (t & Ht & tm & Hs & _) t' Ht'.
  simplify_eq. eauto.
Qed.

Lemma fresh_untimed l : fresh_sources l -> Forall (fun s => shared_source_timer s = None) l.
Proof. intros [_ Hl]. eapply Forall_impl; [exact Hl|]. by intros s ->. Qed.

(** ** The source lists after the timer updates of the helpers *)

(** [mali]: the sources of [tmp] get a new timer and leave retransmission. *)
Definition mali_on (st : tid) (tmp l : list (source A)) : list (source A) :=
  (fun s => if bool_decide (key s ∈ sl_keys tmp) then set_timer s (Some st) (-1) else s) <$> l.

(** [send_Q]: the sources of [tmp] not in retransmission start it. *)
Definition marks (tmp : list (source A)) (s : source A) : bool :=
  bool_decide (key s ∈ sl_keys tmp) && (retransmission_count s <? 1).

Definition mark_on (n : Z) (st : tid) (tmp l : list (source A)) : list (source A) :=
  (fun s => if marks tmp s then set_timer s (Some st) n else s) <$> l.

Definition same_addrs (l l' : list (source A)) : Prop := saddr <$> l' = saddr <$> l.

Lemma same_addrs_map (f : source A -> source A) l :
  (forall s, saddr (f s) = saddr s) -> same_addrs l (f <$> l).
Proof.
  intros Hf. unfold same_addrs. rewrite <- list_fmap_compose. apply list_fmap_ext.
  intros _ s _. apply Hf.
Qed.

Lemma same_addrs_keys l l' : same_addrs l l' -> sl_keys l' = sl_keys l.
Proof. unfold same_addrs, sl_keys, key, source_Keyed. by intros ->. Qed.

Lemma same_addrs_ordered l l' : same_addrs l l' -> sl_ordered l -> sl_ordered l'.
Proof.
  unfold same_addrs. revert l'. induction l as [|x l IH]; intros [|y l'] Hs Ho; simplify_eq/=;
    [constructor|].
  inversion Ho as [|? ? Hl Hx]; subst. constructor; [by apply IH|].
  apply Forall_forall. intros z Hz. unfold key, source_Keyed in *.
  assert (saddr z ∈ saddr <$> l) as Hin.
  { match goal with E : saddr <$> l' = _ |- _ => rewrite <- E end. apply list_elem_of_fmap. eauto. }
  apply list_elem_of_fmap in Hin as (w & Hw & Hwl).
  rewrite Forall_forall in Hx. specialize (Hx w Hwl). congruence.
Qed.

Lemma same_addrs_trans l1 l2 l3 : same_addrs l1 l2 -> same_addrs l2 l3 -> same_addrs l1 l3.
Proof. unfold same_addrs. congruence. Qed.

Lemma mali_on_addrs st tmp l : same_addrs l (mali_on st tmp l).
Proof. apply same_addrs_map. intros s. by case_bool_decide. Qed.

Lemma mark_on_addrs n st tmp l : same_addrs l (mark_on n st tmp l).
Proof. apply same_addrs_map. intros s. by destruct (marks tmp s). Qed.

Lemma count_down_addrs l : same_addrs l (count_down <$> l).
Proof. apply same_addrs_map. intros s. unfold count_down. by case_if. Qed.

Lemma count_down_timer (s : source A) : shared_source_timer (count_down s) = shared_source_timer s.
Proof. unfold count_down. by case_if. Qed.

Lemma Forall_timed_count_down e gaddr l :
  Forall (timed e gaddr) l -> Forall (timed e gaddr) (count_down <$> l).
Proof.
  intros Hl. apply Forall_fmap. eapply Forall_impl; [exact Hl|].
  intros s. unfold timed, compose. by rewrite count_down_timer.
Qed.

Lemma Forall_timed_mali e gaddr st tmp l :
  timer_is e st SOURCE_TIMER_MSG (Some gaddr) ->
  Forall (fun s => key s ∈ sl_keys tmp \/ timed e gaddr s) l ->
  Forall (timed e gaddr) (mali_on st tmp l).
Proof.
  intros Hst Hl. apply Forall_fmap. eapply Forall_impl; [exact Hl|].
  intros s Hs. unfold compose. case_bool_decide; [by exists st|by destruct Hs].
Qed.

Lemma Forall_timed_mark e gaddr n st tmp l :
  timer_is e st SOURCE_TIMER_MSG (Some gaddr) ->
  Forall (fun s => marks tmp s = true \/ timed e gaddr s) l ->
  Forall (timed e gaddr) (mark_on n st tmp l).
Proof.
  intros Hst Hl. apply Forall_fmap. eapply Forall_impl; [exact Hl|].
  intros s Hs. unfold compose. destruct (marks tmp s) eqn:?; [by exists st|destruct Hs; congruence || done].
Qed.
End Spec.

#[export] Hint Resolve timed_ext points_to_ext points_to_None points_to_Some ginfo_wf_ext : menv.
