(* ===== verification/QuerierHelpers.v ===== *)
(** * The helpers of the querier

    What [mali], [send_Q] and the startup queries do: the loops of the source
    are shown equal to maps over the source list, and each helper gets a weakest
    precondition rule that the handlers' proofs apply. *)

From S2P Require Import Prelude Def TimersValues AddrStorage Timing Messages Sender.
From S2P Require Import MembershipDb Querier QuerierSpec.

Local Open Scope Z_scope.

Section Loops.
Context {A : Type} `{Address A}.
Implicit Types (l tmp : list (source A)) (s : source A).

Lemma fmap_id_In (f : source A -> source A) l : (forall s, s ∈ l -> f s = s) -> f <$> l = l.
Proof.
  induction l as [|x l IH]; intros Hf; [done|]. rewrite fmap_cons, Hf, IH; [done| |left].
  intros s Hs. apply Hf. by right.
Qed.

Lemma absent_key k l s : sl_find k l = None -> s ∈ l -> key s <> k.
Proof.
  intros Hk Hs <-. apply sl_find_None in Hk. apply Hk. rewrite elem_of_sl_keys_In. eauto.
Qed.

Lemma mali_fold (st : tid) tmp l :
  fold_left
    (fun sl e => match sl_find (key e) sl with
                 | Some _ => sl_update (key e)
                     (fun it => set_timer it (shared_source_timer e) (-1)) sl
                 | None => sl
                 end) ((fun e => set_timer e (Some st) (-1)) <$> tmp) l
  = mali_on st tmp l.
Proof.
  revert l. induction tmp as [|e tmp IH]; intros l; simpl.
  { symmetry. apply fmap_id_In. intros s _. by rewrite bool_decide_eq_false_2. }
  assert (Hstep : (match sl_find (key (set_timer e (Some st) (-1))) l with
                   | Some _ => sl_update (key (set_timer e (Some st) (-1)))
                                 (fun it => set_timer it (Some st) (-1)) l
                   | None => l end)
    = mali_on st [e] l).
  { unfold mali_on, sl_update. change (key (set_timer e (Some st) (-1))) with (key e).
    destruct (sl_find (key e) l) as [it|] eqn:E.
    - apply list_fmap_ext. intros _ s _. unfold sl_keys. simpl.
      apply (f_equal (fun b : bool => if b then _ else _)), bool_decide_ext. set_solver.
    - symmetry. apply fmap_id_In. intros s Hs. rewrite bool_decide_eq_false_2; [done|].
      unfold sl_keys. simpl. pose proof (absent_key _ _ _ E Hs). set_solver. }
  cbn [shared_source_timer set_timer] in *. rewrite Hstep, IH.
  unfold mali_on. rewrite <- list_fmap_compose. apply list_fmap_ext. intros _ s _.
  unfold compose. rewrite (sl_keys_cons e tmp).
  destruct (decide (key s = key e)) as [Hk|Hk].
  - rewrite (bool_decide_eq_true_2 (key s ∈ sl_keys [e])) by (unfold sl_keys; set_solver).
    rewrite (bool_decide_eq_true_2 (key s ∈ {[key e]} ∪ _)) by set_solver. by case_bool_decide.
  - rewrite (bool_decide_eq_false_2 (key s ∈ sl_keys [e])) by (unfold sl_keys; set_solver).
    apply (f_equal (fun b : bool => if b then _ else _)), bool_decide_ext. set_solver.
Qed.

(** One round of the loop of [send_Q]. *)
Definition mark1 (e : source A) s : bool :=
  bool_decide (key s = key e) && (retransmission_count s <? 1).

Lemma marks_cons e tmp s : marks (e :: tmp) s = mark1 e s || marks tmp s.
Proof.
  unfold marks, mark1. rewrite sl_keys_cons.
  assert (bool_decide (key s ∈ {[key e]} ∪ sl_keys tmp)
    = bool_decide (key s = key e) || bool_decide (key s ∈ sl_keys tmp)) as ->.
  { repeat case_bool_decide; set_solver. }
  by destruct (bool_decide (key s = key e)), (bool_decide (key s ∈ sl_keys tmp)),
    (retransmission_count s <? 1).
Qed.

Lemma existsb_false_iff {X} (f : X -> bool) (l : list X) :
  existsb f l = false <-> forall x, x ∈ l -> f x = false.
Proof.
  induction l as [|y l IH]; simpl; [split; [set_solver|done]|].
  rewrite orb_false_iff, IH. set_solver.
Qed.

Lemma existsb_ext_In {X} (f g : X -> bool) (l : list X) :
  (forall x, x ∈ l -> f x = g x) -> existsb f l = existsb g l.
Proof.
  induction l as [|y l IH]; simpl; [done|]. intros Hfg.
  rewrite Hfg by left. rewrite IH; [done|]. intros x Hx. apply Hfg. by right.
Qed.

Lemma mark_step n (st : tid) (u : bool) e l :
  sl_ordered l ->
  (match sl_find (key e) l with
   | Some it => if retransmission_count it <? 1
                then (true, sl_update (key e) (fun it => set_timer it (Some st) n) l)
                else (u, l)
   | None => (u, l)
   end) = (u || existsb (mark1 e) l,
           (fun s => if mark1 e s then set_timer s (Some st) n else s) <$> l).
Proof.
  intros Ho. destruct (sl_find (key e) l) as [it|] eqn:E.
  - pose proof (sl_find_Some_key _ _ _ E) as Hk. pose proof (sl_find_In _ _ _ E) as Hit.
    assert (Huniq : forall s, s ∈ l -> key s = key e -> s = it).
    { intros s Hs Hse. pose proof (sl_ordered_find l s Ho Hs) as Hf. congruence. }
    destruct (retransmission_count it <? 1) eqn:Hc.
    + f_equal.
      * assert (existsb (mark1 e) l = true) as ->; [|by destruct u].
        apply existsb_exists. exists it. split; [by apply list_elem_of_In|].
        unfold mark1. by rewrite bool_decide_eq_true_2, Hc.
      * unfold sl_update. apply list_fmap_ext. intros i s Hs. unfold mark1.
        case_bool_decide as Hse; [|done]. apply list_elem_of_lookup_2 in Hs.
        by rewrite (Huniq s Hs Hse), Hc.
    + assert (Hno : forall s, s ∈ l -> mark1 e s = false).
      { intros s Hs. unfold mark1. case_bool_decide as Hse; [|done].
        by rewrite (Huniq s Hs Hse), Hc. }
      rewrite (proj2 (existsb_false_iff _ _) Hno), orb_false_r. f_equal. symmetry.
      apply fmap_id_In. intros s Hs. by rewrite Hno.
  - assert (Hno : forall s, s ∈ l -> mark1 e s = false).
    { intros s Hs. unfold mark1. by rewrite bool_decide_eq_false_2
        by (by apply (absent_key _ l)). }
    rewrite (proj2 (existsb_false_iff _ _) Hno), orb_false_r. f_equal. symmetry.
    apply fmap_id_In. intros s Hs. by rewrite Hno.
Qed.

Lemma mark1_addrs n (st : tid) e l :
  same_addrs l ((fun s => if mark1 e s then set_timer s (Some st) n else s) <$> l).
Proof. apply same_addrs_map. intros s. by destruct (mark1 e s). Qed.

Lemma mark_fold tv (st : tid) tmp l :
  sl_ordered l ->
  send_Q_mark tv st l tmp
  = (existsb (marks tmp) l, mark_on (get_last_listener_query_count tv) st tmp l).
Proof.
  unfold send_Q_mark. generalize (get_last_listener_query_count tv) as n. intros n.
  intros Ho. change (existsb (marks tmp) l) with (false || existsb (marks tmp) l).
  generalize false as u. revert l Ho.
  induction tmp as [|e tmp IH]; intros l Ho u; simpl.
  { rewrite (proj2 (existsb_false_iff _ _)), orb_false_r by done. f_equal. symmetry.
    by apply fmap_id_In. }
  rewrite mark_step by done.
  rewrite IH by (eapply same_addrs_ordered; [apply mark1_addrs|done]). f_equal.
  - destruct (existsb (mark1 e) l) eqn:Hb.
    + rewrite orb_true_r. simpl. symmetry. destruct u; [done|]. simpl.
      apply existsb_exists in Hb as (s & Hs & Hm). apply existsb_exists. exists s.
      split; [done|]. by rewrite marks_cons, Hm.
    + rewrite existsb_false_iff in Hb. rewrite orb_false_r. f_equal.
      rewrite fmap_id_In by (intros s Hs; by rewrite Hb). apply existsb_ext_In.
      intros s Hs. by rewrite marks_cons, Hb.
  - unfold mark_on. rewrite <- list_fmap_compose. apply list_fmap_ext. intros _ s _.
    unfold compose. rewrite marks_cons. destruct (mark1 e s); [|done].
    simpl. by destruct (marks tmp _).
Qed.
End Loops.

(** ** Weakest precondition rules *)

Section Helpers.
Context {A : Type} `{Address A} (clk : nat -> Z).
Context (snd : sender (A := A)) `{!SenderLaws snd} (w i : Z) (tv : timers_values).

Lemma wp_bind_timer {X} type g d (k : tid -> M A X) (Q : X -> env A -> Prop) e :
  env_wf e -> shape_ok type g None ->
  (forall e', env_ext e e' -> env_wf e' -> timer_is e' (e_next e) type g ->
    wp (k (e_next e)) Q e') ->
  wp (t ← make_timer clk type i g None d; add_time_msg clk d w t;; k t) Q e.
Proof.
  intros Hwf Hshape HQ. apply wp_bind, wp_make_timer; [done|done|]. intros e1 Hext1 Hwf1 _ Htm.
  apply wp_bind, wp_add_time_msg. intros e2 Hext2 _ _. apply HQ.
  - by etrans.
  - by eapply ext_wf.
  - eauto with menv.
Qed.

Lemma wp_mali_filter gaddr g (Q : gaddr_info A -> env A -> Prop) e :
  env_wf e ->
  (forall e', env_ext e e' -> env_wf e' ->
    timer_is e' (e_next e) FILTER_TIMER_MSG (Some gaddr) ->
    Q (set_filter_timer (Some (e_next e)) g) e') ->
  wp (mali_filter clk w i tv gaddr g) Q e.
Proof.
  intros Hwf HQ. unfold mali_filter. apply wp_bind_timer; [done|auto with menv|].
  intros e' Hext Hwf' Htm. by apply wp_ret, HQ.
Qed.

Lemma wp_mali_sources gaddr l tmp (Q : list (source A) -> env A -> Prop) e :
  env_wf e ->
  (forall e', env_ext e e' -> env_wf e' ->
    timer_is e' (e_next e) SOURCE_TIMER_MSG (Some gaddr) ->
    Q (mali_on (e_next e) tmp l) e') ->
  wp (mali_sources clk w i tv gaddr l tmp) Q e.
Proof.
  intros Hwf HQ. unfold mali_sources, mali_list. do 2 apply wp_bind.
  apply wp_make_timer; [done|auto with menv|]. intros e1 Hext1 Hwf1 _ Htm. apply wp_bind. case_if.
  - apply wp_add_time_msg. intros e2 Hext2 _ _. do 2 apply wp_ret.
    rewrite mali_fold. apply HQ; [by etrans|by eapply ext_wf|eauto with menv].
  - do 3 apply wp_ret. rewrite mali_fold. by apply HQ.
Qed.

Lemma wp_mali_own gaddr g tmp (Q : gaddr_info A -> env A -> Prop) e :
  env_wf e ->
  (forall e', env_ext e e' -> env_wf e' ->
    timer_is e' (e_next e) SOURCE_TIMER_MSG (Some gaddr) ->
    Q (set_irl (mali_on (e_next e) tmp (include_requested_list g)) g) e') ->
  wp (mali_own clk w i tv gaddr g tmp) Q e.
Proof.
  intros Hwf HQ. apply wp_bind, wp_mali_sources; [done|]. intros e' Hext Hwf' Htm.
  by apply wp_ret, HQ.
Qed.

(** The source list after [send_Q] with the new source timer [st]. *)
Definition queried_on (st : tid) (tmp l : list (source A)) (in_ret : bool) : list (source A) :=
  let l' := mark_on (get_last_listener_query_count tv) st tmp l in
  if existsb (marks tmp) l || in_ret then count_down <$> l' else l'.

Lemma queried_on_addrs st tmp l r : same_addrs l (queried_on st tmp l r).
Proof.
  unfold queried_on. case_if.
  - eapply same_addrs_trans; [apply mark_on_addrs|apply count_down_addrs].
  - apply mark_on_addrs.
Qed.

Lemma Forall_timed_queried e gaddr st tmp l r :
  timer_is e st SOURCE_TIMER_MSG (Some gaddr) ->
  Forall (fun s => marks tmp s = true \/ timed e gaddr s) l ->
  Forall (timed e gaddr) (queried_on st tmp l r).
Proof.
  intros Hst Hl. unfold queried_on. case_if.
  - by apply Forall_timed_count_down, Forall_timed_mark.
  - by apply Forall_timed_mark.
Qed.

Lemma sources_live_mark e gaddr n st tmp l :
  timer_is e st SOURCE_TIMER_MSG (Some gaddr) -> sources_live e l ->
  sources_live e (mark_on n st tmp l).
Proof.
  intros (tm & Hst & _) Hl. apply Forall_fmap. eapply Forall_impl; [exact Hl|].
  intros s Hs t. unfold compose. destruct (marks tmp s); [|apply Hs].
  simpl. intros [= <-]. eauto.
Qed.

Lemma sources_live_ext e e' (l : list (source A)) :
  env_ext e e' -> sources_live e l -> sources_live e' l.
Proof.
  intros Hext Hl. eapply Forall_impl; [exact Hl|]. intros s Hs t Ht.
  destruct (Hs t Ht) as [tm Htm]. exists tm. by eapply lookup_weaken, ext_store.
Qed.

Lemma wp_send_Q_own gaddr g tmp r (Q : gaddr_info A -> env A -> Prop) e :
  env_wf e -> sl_ordered (include_requested_list g) ->
  sources_live e (include_requested_list g) ->
  (forall e' srt, env_ext e e' -> env_wf e' ->
    timer_is e' (e_next e) SOURCE_TIMER_MSG (Some gaddr) ->
    srt = source_retransmission_timer g
    \/ points_to e' srt RET_SOURCE_TIMER_MSG (Some gaddr) ->
    Q (set_irl (queried_on (e_next e) tmp (include_requested_list g) r)
         (set_source_retransmission srt g)) e') ->
  wp (send_Q_own clk snd w i tv gaddr g tmp r) Q e.
Proof.
  intros Hwf Ho Hlive HQ. unfold send_Q_own, send_Q_sources. do 2 apply wp_bind.
  apply wp_make_timer; [done|auto with menv|]. intros e1 Hext1 Hwf1 _ Htm. rewrite mark_fold by done.
  set (st := e_next e) in *. set (l := include_requested_list g) in *.
  assert (Hsame : g = set_source_retransmission (source_retransmission_timer g) g)
    by (by destruct g).
  apply wp_bind. eapply (wp_mono _ (fun _ e' => env_ext e1 e')).
  { case_if; [apply wp_add_time_msg; auto|by apply wp_ret]. }
  intros _ e2 Hext2. assert (env_ext e e2) by (by etrans).
  unfold queried_on in HQ. case_if.
  - apply wp_bind. eapply wp_mono.
    { apply send_mc_addr_and_src_specific_query_law. apply (sources_live_mark e2 gaddr).
      - eauto with menv.
      - by apply (sources_live_ext e). }
    intros [again l'] e3 [Hio [= -> ->]]. apply env_io_ext in Hio.
    assert (env_ext e e3) by (by etrans).
    assert (Hwf3 : env_wf e3) by (by eapply ext_wf). case_if.
    + apply wp_bind_timer; [done|auto with menv|]. intros e4 Hext4 Hwf4 Htm4. do 2 apply wp_ret. simpl.
      apply HQ; [by etrans|done|eauto with menv|]. right. by apply points_to_Some.
    + do 2 apply wp_ret. simpl. rewrite Hsame. apply HQ; eauto with menv.
  - do 2 apply wp_ret. simpl. rewrite Hsame. apply HQ; eauto with menv.
    by eapply ext_wf.
Qed.

(** [send_Q(gaddr, ginfo)] in EXCLUDE mode keeps the lists and leaves a filter
    timer running. *)
Lemma wp_send_Q_group gaddr g (Q : gaddr_info A -> env A -> Prop) e :
  env_wf e ->
  (group_retransmission_timer g <> None -> 0 < group_retransmission_count g ->
    is_Some (shared_filter_timer g)) ->
  points_to e (shared_filter_timer g) FILTER_TIMER_MSG (Some gaddr) ->
  points_to e (group_retransmission_timer g) RET_GROUP_TIMER_MSG (Some gaddr) ->
  (forall e' ft grt n, env_ext e e' -> env_wf e' ->
    points_to e' ft FILTER_TIMER_MSG (Some gaddr) ->
    (ft = shared_filter_timer g \/ group_retransmission_timer g = None /\ is_Some ft) ->
    points_to e' grt RET_GROUP_TIMER_MSG (Some gaddr) ->
    Q (set_filter_timer ft (set_group_retransmission grt n g)) e') ->
  wp (send_Q_group clk snd w i tv gaddr g) Q e.
Proof.
  intros Hwf Hsome Hft Hgrt HQ. unfold send_Q_group.
  apply wp_bind. eapply (wp_mono _ (fun g1 e1 => env_ext e e1 /\ env_wf e1 /\
    exists ft n, g1 = set_filter_timer ft (set_group_retransmission
                         (group_retransmission_timer g) n g)
      /\ points_to e1 ft FILTER_TIMER_MSG (Some gaddr)
      /\ (ft = shared_filter_timer g \/ group_retransmission_timer g = None /\ is_Some ft)
      /\ (0 < n -> is_Some ft))).
  { destruct (group_retransmission_timer g) as [t|] eqn:E.
    - apply wp_ret. split_and!; [done|done|].
      exists (shared_filter_timer g), (group_retransmission_count g).
      split_and!; [by rewrite <- E; destruct g|done|auto|]. intros Hn. by apply Hsome.
    - apply wp_bind_timer; [done|auto with menv|]. intros e1 Hext1 Hwf1 Htm. apply wp_ret.
      split_and!; [done|done|].
      exists (Some (e_next e)), (to_int32 (get_last_listener_query_count tv)).
      split_and!; eauto with menv. }
  intros g1 e1 (Hext1 & Hwf1 & ft & n & -> & Hft1 & Hor & Hn). simpl.
  assert (Hgrt1 : points_to e1 (group_retransmission_timer g) RET_GROUP_TIMER_MSG (Some gaddr))
    by eauto with menv.
  destruct (Z.ltb_spec 0 n) as [Hpos|]; [|by apply wp_ret, (HQ e1 ft None (-1)); auto with menv].
  apply wp_bind. eapply (wp_mono _ (fun g2 e2 => env_ext e1 e2 /\ env_wf e2 /\
    exists grt m, g2 = set_filter_timer ft (set_group_retransmission grt m g)
      /\ points_to e2 grt RET_GROUP_TIMER_MSG (Some gaddr))).
  { case_if.
    - apply wp_bind_timer; [done|auto with menv|]. intros e2 Hext2 Hwf2 Htm. apply wp_ret.
      split_and!; [done|done|]. eexists _, _. split; [reflexivity|]. auto with menv.
    - apply wp_ret. split_and!; [done|done|]. eexists _, _. split; [reflexivity|]. done. }
  intros g2 e2 (Hext2 & Hwf2 & grt & m & -> & Hgrt2). simpl.
  destruct (Hn Hpos) as [t ->]. apply wp_bind, wp_deref, wp_bind.
  eapply wp_get_timer; [by eapply (points_to_ext e1 e2 (Some t))|]. intros tm _ _.
  apply wp_bind, wp_now. intros z e3 Hio3. apply wp_bind.
  eapply wp_mono; [apply send_mc_addr_specific_query_law|]. intros b e4 Hio4.
  apply wp_ret. assert (env_ext e2 e4) by (etrans; by apply env_io_ext).
  apply HQ; eauto with menv.
  - by etrans; [|etrans].
  - by eapply ext_wf.
Qed.
End Helpers.
