(* ===== verification/QuerierReports.v ===== *)
(** * Reception of reports

    [receive_record] refines the tables of RFC 3810, 7.4.1 and 7.4.2, keeps the
    database well formed and always returns. *)

From S2P Require Import Prelude Def TimersValues AddrStorage Timing Messages Sender.
From S2P Require Import MembershipDb Querier QuerierSpec QuerierHelpers.

Local Open Scope Z_scope.

Section Lists.
Context {A : Type} `{Address A}.
Implicit Types (l r irl el base B : list (source A)).

(** The part of [ginfo_wf] that concerns the two source lists. *)
Record lists_wf (e : env A) (gaddr : A) irl el : Prop := {
  lw_irl : sl_ordered irl;
  lw_el : sl_ordered el;
  lw_disj : sl_keys irl ## sl_keys el;
  lw_timed : Forall (timed e gaddr) irl;
  lw_untimed : Forall (fun s => shared_source_timer s = None) el
}.

Lemma ginfo_wf_lists e gaddr g :
  ginfo_wf e gaddr g -> lists_wf e gaddr (include_requested_list g) (exclude_list g).
Proof. intros []. by split. Qed.

Lemma lists_wf_base e gaddr base irl el :
  same_addrs base irl -> sl_ordered base -> sl_ordered el -> sl_keys base ## sl_keys el ->
  Forall (timed e gaddr) irl -> Forall (fun s => shared_source_timer s = None) el ->
  lists_wf e gaddr irl el.
Proof.
  intros Hs Hb He Hd Ht Hu. split; [by eapply same_addrs_ordered|done| |done|done].
  by rewrite (same_addrs_keys base irl).
Qed.

Lemma ginfo_wf_intro e e' gaddr g g' :
  ginfo_wf e gaddr g -> env_ext e e' ->
  lists_wf e' gaddr (include_requested_list g') (exclude_list g') ->
  match filter_mode g' with
  | INCLUDE_MODE => exclude_list g' = [] /\ shared_filter_timer g' = None
  | EXCLUDE_MODE => is_Some (shared_filter_timer g')
  end ->
  points_to e' (shared_filter_timer g') FILTER_TIMER_MSG (Some gaddr) ->
  older_host_present_timer g' = older_host_present_timer g ->
  group_retransmission_timer g' = group_retransmission_timer g
  \/ points_to e' (group_retransmission_timer g') RET_GROUP_TIMER_MSG (Some gaddr) ->
  source_retransmission_timer g' = source_retransmission_timer g
  \/ points_to e' (source_retransmission_timer g') RET_SOURCE_TIMER_MSG (Some gaddr) ->
  ginfo_wf e' gaddr g'.
Proof.
  intros Hg Hext [] Hm Hf Ho Hgr Hsr. split; auto.
  - rewrite Ho. eapply points_to_ext, gw_ohpt; eauto.
  - destruct Hgr as [->|]; [|done]. eapply points_to_ext, gw_grt; eauto.
  - destruct Hsr as [->|]; [|done]. eapply points_to_ext, gw_srt; eauto.
Qed.

Lemma Forall_timed_ext e e' gaddr l :
  env_ext e e' -> Forall (timed e gaddr) l -> Forall (timed e' gaddr) l.
Proof. intros Hext Hl. eapply Forall_impl; [exact Hl|]. intros s. by apply timed_ext. Qed.

(** Sources of a list or of the report, after [+=]. *)
Lemma Forall_add (P : source A -> Prop) l r :
  Forall P l -> Forall P r -> Forall P (sl_add_assign l r).
Proof.
  rewrite !Forall_forall. intros Hl Hr s [Hs|Hs]%sl_add_In; auto.
Qed.

Lemma Forall_sub (P : source A -> Prop) l r : Forall P l -> Forall P (sl_sub_assign l r).
Proof. rewrite !Forall_forall. intros Hl s Hs%sl_sub_In. auto. Qed.

Lemma Forall_mul (P : source A -> Prop) l r : Forall P l -> Forall P (sl_mul_assign l r).
Proof. rewrite !Forall_forall. intros Hl s Hs%sl_mul_In. auto. Qed.

Lemma Forall_own_keys l : Forall (fun s => key s ∈ sl_keys l) l.
Proof. apply Forall_forall. intros s Hs. rewrite elem_of_sl_keys_In. eauto. Qed.

(** A fresh source named by the query is marked. *)
Lemma fresh_marks B tmp s :
  fresh_sources B -> s ∈ B -> key s ∈ sl_keys tmp -> marks tmp s = true.
Proof.
  intros [_ Hf] Hs Hk. rewrite Forall_forall in Hf. unfold marks.
  rewrite bool_decide_eq_true_2 by done. by rewrite (Hf s Hs).
Qed.
End Lists.

#[export] Hint Resolve Forall_add Forall_sub Forall_mul Forall_own_keys fresh_untimed : slist.

Section Reports.
Context {A : Type} `{Address A} (clk : nat -> Z).
Context (snd : sender (A := A)) `{!SenderLaws snd} (w i : Z) (tv : timers_values).
Context (cb : membership_db A -> A -> M A unit).
Hypothesis cb_io : forall db gaddr e, wp (cb db gaddr) (fun _ e' => env_io e e') e.

Implicit Types (gaddr : A) (g : gaddr_info A) (B : list (source A)) (e : env A).

(** The result of a handler on the record of a group. *)
Definition report_post (e : env A) (gaddr : A) (g : gaddr_info A) (rt : mcast_addr_record_type)
    (B : list (source A)) (g' : gaddr_info A) (e' : env A) : Prop :=
  env_ext e e' /\ env_wf e' /\ ginfo_wf e' gaddr g'
  /\ ginfo_state g' = rfc_report (ginfo_state g) rt (sl_keys B).

Lemma wp_notify {X} db gaddr (x : X) (Q : X -> env A -> Prop) e :
  (forall e', env_ext e e' -> Q x e') ->
  wp (state_change_notification cb db gaddr;; mret x) Q e.
Proof.
  intros HQ. apply wp_bind. eapply wp_mono; [apply cb_io|]. intros [] e' Hio.
  by apply wp_ret, HQ, env_io_ext.
Qed.

Lemma report_post_ext e0 gaddr g rt B g' e e' :
  env_ext e e' -> report_post e0 gaddr g rt B g' e -> report_post e0 gaddr g rt B g' e'.
Proof.
  intros Hext (Hext0 & Hwf & Hg & Hs).
  split_and!; [by etrans|by eapply ext_wf|by eapply ginfo_wf_ext|done].
Qed.

Ltac keys_simpl :=
  unfold sl_mul, sl_sub, sl_add in *;
  rewrite ?sl_keys_add, ?sl_keys_sub; rewrite ?sl_keys_mul by auto with slist.

(** ALLOW, IS_IN and TO_IN add the sources of the report, with new timers; TO_IN
    runs this after its queries. *)
Lemma wp_mali_report db gaddr g g1 rt B base e e0 :
  ginfo_wf e0 gaddr g -> env_ext e0 e -> env_wf e ->
  same_addrs base (include_requested_list g1) ->
  sl_ordered base -> sl_ordered (exclude_list g1) -> sl_keys base ## sl_keys (exclude_list g1) ->
  Forall (fun s => key s ∈ sl_keys B \/ timed e gaddr s) (include_requested_list g1) ->
  Forall (fun s => shared_source_timer s = None) (exclude_list g1) ->
  filter_mode g1 = filter_mode g -> older_host_present_timer g1 = older_host_present_timer g ->
  match filter_mode g with
  | INCLUDE_MODE => exclude_list g1 = [] /\ shared_filter_timer g1 = None
  | EXCLUDE_MODE => is_Some (shared_filter_timer g1)
  end ->
  points_to e (shared_filter_timer g1) FILTER_TIMER_MSG (Some gaddr) ->
  points_to e (group_retransmission_timer g1) RET_GROUP_TIMER_MSG (Some gaddr) ->
  points_to e (source_retransmission_timer g1) RET_SOURCE_TIMER_MSG (Some gaddr) ->
  (match filter_mode g with
   | INCLUDE_MODE => INCLUDE (sl_keys base)
   | EXCLUDE_MODE => EXCLUDE (sl_keys base) (sl_keys (exclude_list g1))
   end) = rfc_report (ginfo_state g) rt (sl_keys B) ->
  wp (g2 ← mali_own clk w i tv gaddr g1 B;
      state_change_notification cb (set_group gaddr g2 db) gaddr;; mret g2)
     (report_post e0 gaddr g rt B) e.
Proof.
  intros Hg Hext Hwf Hsame Hob Hoe Hd Ht Hu Hfm Hoh Hm Hf Hgr Hsr Hst.
  apply wp_bind, wp_mali_own; [done|]. intros e1 Hext1 Hwf1 Htm. apply wp_notify.
  intros e2 Hext2. apply (report_post_ext _ _ _ _ _ _ e1); [done|].
  assert (Hsame' : same_addrs base (mali_on (e_next e) B (include_requested_list g1)))
    by (eapply same_addrs_trans; [exact Hsame|apply mali_on_addrs]).
  split_and!; [by etrans|done| |].
  - apply (ginfo_wf_intro e0 e1 gaddr g); [done|by etrans|..]; simpl; rewrite ?Hfm, ?Hoh;
      eauto with menv.
    apply (lists_wf_base _ _ base); [done..|  |done].
    apply Forall_timed_mali; [done|]. eapply Forall_impl; [exact Ht|].
    intros s [?|?]; [by left|right; by eapply timed_ext].
  - rewrite <- Hst. unfold ginfo_state. simpl. rewrite Hfm.
    by destruct (filter_mode g); rewrite (same_addrs_keys base) by done.
Qed.

Lemma irl_add_timed e gaddr g B :
  Forall (timed e gaddr) (include_requested_list g) ->
  Forall (fun s => key s ∈ sl_keys B \/ timed e gaddr s)
    (sl_add_assign (include_requested_list g) B).
Proof.
  intros Ht. apply Forall_add.
  - eapply Forall_impl; [exact Ht|]. by right.
  - eapply Forall_impl; [apply Forall_own_keys|]. by left.
Qed.

(** ALLOW and IS_IN, in both modes. *)
Lemma wp_allow db gaddr g rt B e :
  rt = ALLOW_NEW_SOURCES \/ rt = MODE_IS_INCLUDE ->
  env_wf e -> ginfo_wf e gaddr g -> fresh_sources B ->
  wp (g2 ← mali_own clk w i tv gaddr
        (set_lists (filter_mode g) (sl_add_assign (include_requested_list g) B)
           (sl_sub_assign (exclude_list g) B) g) B;
      state_change_notification cb (set_group gaddr g2 db) gaddr;; mret g2)
     (report_post e gaddr g rt B) e.
Proof.
  intros Hrt Hwf Hg HB. pose proof Hg as [Ho He Hd Hm Ht Hu Hf _ Hgr Hsr].
  apply (wp_mali_report _ _ _ _ _ _ (sl_add_assign (include_requested_list g) B) _ e);
    simpl; auto with slist.
  - done.
  - done.
  - keys_simpl. set_solver.
  - by apply irl_add_timed.
  - destruct (filter_mode g); [|done]. destruct Hm as [-> ->].
    split; [|done]. apply sl_keys_empty. keys_simpl. unfold sl_keys at 1. set_solver.
  - unfold ginfo_state. keys_simpl. by destruct (filter_mode g), Hrt as [->| ->].
Qed.

(** A query on the list of the record keeps every source timed or named by the
    report. *)
Lemma Forall_queried e gaddr st tmp l r (K : gset A) :
  timer_is e st SOURCE_TIMER_MSG (Some gaddr) ->
  Forall (fun s => key s ∈ K \/ timed e gaddr s) l ->
  Forall (fun s => key s ∈ K \/ timed e gaddr s) (queried_on tv st tmp l r).
Proof.
  intros Hst Hl. assert (Hmark : forall n, Forall (fun s => key s ∈ K \/ timed e gaddr s)
    (mark_on n st tmp l)).
  { intros n. apply Forall_fmap. eapply Forall_impl; [exact Hl|]. intros s Hs.
    unfold compose. destruct (marks tmp s); [right; by exists st|done]. }
  unfold queried_on. case_if; [|done]. apply Forall_fmap.
  eapply Forall_impl; [apply Hmark|]. intros s Hs. unfold compose, timed.
  rewrite count_down_timer. unfold count_down. by destruct (0 <? _).
Qed.

Lemma add_live e gaddr l B :
  Forall (timed e gaddr) l -> fresh_sources B -> sources_live e (sl_add_assign l B).
Proof.
  intros Hl HB. apply Forall_add; [by eapply timed_live|].
  eapply Forall_impl; [by apply fresh_untimed|]. intros s Hs t Ht. cbn in *. congruence.
Qed.

(** TO_IN in INCLUDE mode. *)
Lemma wp_to_in_include db gaddr g B e :
  env_wf e -> ginfo_wf e gaddr g -> fresh_sources B -> filter_mode g = INCLUDE_MODE ->
  wp (receive_record_in_include_mode clk snd w i tv cb CHANGE_TO_INCLUDE_MODE gaddr B g db)
     (report_post e gaddr g CHANGE_TO_INCLUDE_MODE B) e.
Proof.
  intros Hwf Hg HB Hfm. pose proof Hg as [Ho He Hd Hm Ht Hu Hf _ Hgr Hsr].
  unfold receive_record_in_include_mode. apply wp_bind, wp_send_Q_own; simpl;
    [done|done|auto with slist|by eapply add_live|].
  intros e1 srt Hext1 Hwf1 Htm Hsrt. rewrite Hfm in Hm. destruct Hm as [Hel Hft].
  apply (wp_mali_report _ _ _ _ _ _ (sl_add_assign (include_requested_list g) B) _ e);
    simpl; rewrite ?Hfm, ?Hel; auto with slist menv.
  - apply queried_on_addrs.
  - unfold sl_keys at 2. set_solver.
  - apply Forall_queried; [done|]. apply irl_add_timed. by eapply Forall_timed_ext.
  - eapply points_to_ext; eauto.
  - eapply points_to_ext; eauto.
  - destruct Hsrt as [->|]; [|done]. eapply points_to_ext; eauto.
  - unfold ginfo_state. rewrite Hfm. by keys_simpl.
Qed.

(** TO_IN in EXCLUDE mode. *)
Lemma wp_to_in_exclude db gaddr g B e :
  env_wf e -> ginfo_wf e gaddr g -> fresh_sources B -> filter_mode g = EXCLUDE_MODE ->
  wp (receive_record_in_exclude_mode clk snd w i tv cb CHANGE_TO_INCLUDE_MODE gaddr B g db)
     (report_post e gaddr g CHANGE_TO_INCLUDE_MODE B) e.
Proof.
  intros Hwf Hg HB Hfm. pose proof Hg as [Ho He Hd Hm Ht Hu Hf _ Hgr Hsr].
  rewrite Hfm in Hm. unfold receive_record_in_exclude_mode.
  apply wp_bind, wp_send_Q_own; simpl; [done|done|auto with slist|by eapply add_live|].
  intros e1 srt Hext1 Hwf1 Htm Hsrt.
  apply wp_bind, wp_send_Q_group; simpl; [done|done|auto|by eapply points_to_ext|
    by eapply points_to_ext|].
  intros e2 ft grt n Hext2 Hwf2 Hft Hor Hgrt.
  apply (wp_mali_report _ _ _ _ _ _ (sl_add_assign (include_requested_list g) B) _ e);
    simpl; rewrite ?Hfm; auto with slist menv.
  - by etrans.
  - apply queried_on_addrs.
  - keys_simpl. set_solver.
  - apply Forall_queried; [eauto with menv|]. apply irl_add_timed.
    eapply Forall_timed_ext; [|done]. by etrans.
  - destruct Hor as [->|[_ ?]]; done.
  - apply (points_to_ext e1); [done|]. destruct Hsrt as [->|]; [|done].
    eapply points_to_ext; eauto.
  - unfold ginfo_state. rewrite Hfm. by keys_simpl.
Qed.

(** The last steps of IS_EX and TO_EX: the filter timer is set and the change is
    announced. *)
Lemma wp_filter_report db gaddr g g1 rt B base e e0 :
  ginfo_wf e0 gaddr g -> env_ext e0 e -> env_wf e ->
  same_addrs base (include_requested_list g1) ->
  sl_ordered base -> sl_ordered (exclude_list g1) -> sl_keys base ## sl_keys (exclude_list g1) ->
  Forall (timed e gaddr) (include_requested_list g1) ->
  Forall (fun s => shared_source_timer s = None) (exclude_list g1) ->
  filter_mode g1 = EXCLUDE_MODE -> older_host_present_timer g1 = older_host_present_timer g ->
  group_retransmission_timer g1 = group_retransmission_timer g ->
  source_retransmission_timer g1 = source_retransmission_timer g
  \/ points_to e (source_retransmission_timer g1) RET_SOURCE_TIMER_MSG (Some gaddr) ->
  EXCLUDE (sl_keys base) (sl_keys (exclude_list g1)) = rfc_report (ginfo_state g) rt (sl_keys B) ->
  wp (g2 ← mali_filter clk w i tv gaddr g1;
      state_change_notification cb (set_group gaddr g2 db) gaddr;; mret g2)
     (report_post e0 gaddr g rt B) e.
Proof.
  intros Hg Hext Hwf Hsame Hob Hoe Hd Ht Hu Hfm Hoh Hgr Hsr Hst.
  apply wp_bind, wp_mali_filter; [done|]. intros e1 Hext1 Hwf1 Htm. apply wp_notify.
  intros e2 Hext2. apply (report_post_ext _ _ _ _ _ _ e1); [done|]. split_and!; [by etrans|done| |].
  - apply (ginfo_wf_intro e0 e1 gaddr g); [done|by etrans|..]; simpl; rewrite ?Hfm, ?Hoh;
      eauto with menv.
    + apply (lists_wf_base _ _ base); [done..|by eapply Forall_timed_ext|done].
    + destruct Hsr; eauto with menv.
  - rewrite <- Hst. unfold ginfo_state. simpl. rewrite Hfm.
    by rewrite (same_addrs_keys base) by done.
Qed.

(** IS_EX in INCLUDE mode. *)
Lemma wp_is_ex_include db gaddr g B e :
  env_wf e -> ginfo_wf e gaddr g -> fresh_sources B -> filter_mode g = INCLUDE_MODE ->
  wp (receive_record_in_include_mode clk snd w i tv cb MODE_IS_EXCLUDE gaddr B g db)
     (report_post e gaddr g MODE_IS_EXCLUDE B) e.
Proof.
  intros Hwf Hg HB Hfm. pose proof Hg as [Ho He Hd Hm Ht Hu Hf _ Hgr Hsr].
  pose proof HB as [HoB _]. unfold receive_record_in_include_mode.
  apply (wp_filter_report _ _ _ _ _ _ (sl_mul_assign (include_requested_list g) B) _ e);
    simpl; unfold sl_sub; auto with slist.
  - done.
  - done.
  - keys_simpl. set_solver.
  - by apply Forall_sub, fresh_untimed.
  - unfold ginfo_state. rewrite Hfm. keys_simpl. simpl. f_equal. set_solver.
Qed.

(** TO_EX in INCLUDE mode. *)
Lemma wp_to_ex_include db gaddr g B e :
  env_wf e -> ginfo_wf e gaddr g -> fresh_sources B -> filter_mode g = INCLUDE_MODE ->
  wp (receive_record_in_include_mode clk snd w i tv cb CHANGE_TO_EXCLUDE_MODE gaddr B g db)
     (report_post e gaddr g CHANGE_TO_EXCLUDE_MODE B) e.
Proof.
  intros Hwf Hg HB Hfm. pose proof Hg as [Ho He Hd Hm Ht Hu Hf _ Hgr Hsr].
  pose proof HB as [HoB _]. unfold receive_record_in_include_mode.
  assert (Htm0 : Forall (timed e gaddr) (sl_mul_assign (include_requested_list g) B))
    by auto with slist.
  apply wp_bind, wp_send_Q_own; simpl; [done|done|auto with slist|by eapply timed_live|].
  intros e1 srt Hext1 Hwf1 Htm Hsrt.
  apply (wp_filter_report _ _ _ _ _ _ (sl_mul_assign (include_requested_list g) B) _ e);
    simpl; unfold sl_sub; auto with slist.
  - apply queried_on_addrs.
  - keys_simpl. set_solver.
  - apply Forall_timed_queried; [done|]. eapply Forall_impl; [exact Htm0|].
    intros s Hs. right. by eapply timed_ext.
  - by apply Forall_sub, fresh_untimed.
  - unfold ginfo_state. rewrite Hfm. keys_simpl. simpl. f_equal. set_solver.
Qed.

(** TO_EX in EXCLUDE mode. *)
Lemma wp_to_ex_exclude db gaddr g B e :
  env_wf e -> ginfo_wf e gaddr g -> fresh_sources B -> filter_mode g = EXCLUDE_MODE ->
  wp (receive_record_in_exclude_mode clk snd w i tv cb CHANGE_TO_EXCLUDE_MODE gaddr B g db)
     (report_post e gaddr g CHANGE_TO_EXCLUDE_MODE B) e.
Proof.
  intros Hwf Hg HB Hfm. pose proof Hg as [Ho He Hd Hm Ht Hu Hf _ Hgr Hsr].
  pose proof HB as [HoB _]. unfold receive_record_in_exclude_mode.
  set (X1 := sl_add_assign (sl_mul_assign (include_requested_list g) B)
               (sl_sub B (exclude_list g))).
  assert (HX1 : sl_ordered X1) by (apply sl_add_ordered; auto with slist).
  apply wp_bind, wp_send_Q_own; simpl; [done|done|done| |].
  { apply (add_live e gaddr); [auto with slist|]. destruct HB as [_ HB].
    split; unfold sl_sub; auto with slist. }
  intros e1 srt Hext1 Hwf1 Htm Hsrt.
  apply (wp_filter_report _ _ _ _ _ _ X1 _ e); simpl; auto with slist.
  - apply queried_on_addrs.
  - unfold X1. keys_simpl. set_solver.
  - apply Forall_timed_queried; [done|]. apply Forall_forall. intros s Hs.
    assert (key s ∈ sl_keys X1) as Hk by (rewrite elem_of_sl_keys_In; eauto).
    apply sl_add_In in Hs as [Hs|Hs].
    + right. apply sl_mul_In in Hs. rewrite Forall_forall in Ht. eapply timed_ext; eauto.
    + left. apply sl_sub_In in Hs. by apply (fresh_marks B).
  - unfold X1, ginfo_state. rewrite Hfm. keys_simpl. simpl. f_equal. set_solver.
Qed.

(** The requested list of IS_EX in EXCLUDE mode: a source is an old one, or it
    is new and [mali] gave it a timer. *)
Lemma is_ex_timed e gaddr st X Y B :
  sl_ordered X -> fresh_sources B -> Forall (timed e gaddr) X ->
  timer_is e st SOURCE_TIMER_MSG (Some gaddr) ->
  let A1 := mali_on st (sl_sub (sl_sub B X) Y) B in
  Forall (timed e gaddr) (sl_add_assign (sl_mul_assign X A1) (sl_sub A1 Y)).
Proof.
  intros HoX [HoB _] Ht Hst A1. unfold sl_sub in *.
  pose proof (mali_on_addrs st (sl_sub_assign (sl_sub_assign B X) Y) B) as Hsame.
  fold A1 in Hsame. assert (HoA : sl_ordered A1) by (by eapply same_addrs_ordered).
  apply Forall_forall. intros s Hs.
  pose proof (sl_ordered_find _ s (sl_add_ordered _ (sl_sub_assign A1 Y)
    (sl_mul_ordered X A1 HoX)) Hs) as Hf.
  rewrite sl_find_add, sl_find_sub, sl_find_mul in Hf by done.
  destruct (sl_find (key s) A1) as [s1|] eqn:E1; [|by destruct (sl_find (key s) Y)].
  destruct (sl_find (key s) X) as [s2|] eqn:E2.
  { simplify_eq. apply sl_find_In in E2. rewrite Forall_forall in Ht. auto. }
  destruct (sl_find (key s) Y) eqn:E3; simplify_eq.
  assert (Hin : s ∈ A1) by (by apply sl_find_In in E1).
  apply list_elem_of_fmap in Hin as (s0 & -> & Hs0).
  case_bool_decide as Hk; [by exists st|]. exfalso. apply Hk.
  rewrite !sl_keys_sub, !elem_of_difference, !elem_of_sl_keys, E2, E3.
  split; [split|]; [|by intros []..]. rewrite sl_ordered_find by done. eauto.
Qed.

(** IS_EX in EXCLUDE mode. *)
Lemma wp_is_ex_exclude db gaddr g B e :
  env_wf e -> ginfo_wf e gaddr g -> fresh_sources B -> filter_mode g = EXCLUDE_MODE ->
  wp (receive_record_in_exclude_mode clk snd w i tv cb MODE_IS_EXCLUDE gaddr B g db)
     (report_post e gaddr g MODE_IS_EXCLUDE B) e.
Proof.
  intros Hwf Hg HB Hfm. pose proof Hg as [Ho He Hd Hm Ht Hu Hf _ Hgr Hsr].
  pose proof HB as [HoB _]. unfold receive_record_in_exclude_mode.
  apply wp_bind, wp_mali_sources; [done|]. intros e1 Hext1 Hwf1 Htm.
  pose proof (is_ex_timed e1 gaddr (e_next e) (include_requested_list g) (exclude_list g) B Ho HB
    ltac:(by eapply Forall_timed_ext) Htm) as Hts. cbv zeta in Hts.
  set (A1 := mali_on _ _ B) in *.
  assert (Hsame : same_addrs B A1) by apply mali_on_addrs.
  assert (HoA : sl_ordered A1) by (by eapply same_addrs_ordered).
  assert (HkA : sl_keys A1 = sl_keys B) by (by apply same_addrs_keys).
  eapply (wp_filter_report _ _ _ _ _ _ _ _ e); simpl; [done|done|done|done|..];
    auto with slist.
  - keys_simpl. set_solver.
  - unfold ginfo_state. rewrite Hfm. keys_simpl. rewrite HkA. simpl. f_equal. set_solver.
Qed.

(** BLOCK, in both modes: only a query. *)
Lemma wp_block gaddr g base tmp B e :
  env_wf e -> ginfo_wf e gaddr g -> sl_ordered base -> sl_keys base ## sl_keys (exclude_list g) ->
  sources_live e base -> Forall (fun s => marks tmp s = true \/ timed e gaddr s) base ->
  (match filter_mode g with
   | INCLUDE_MODE => INCLUDE (sl_keys base)
   | EXCLUDE_MODE => EXCLUDE (sl_keys base) (sl_keys (exclude_list g))
   end) = rfc_report (ginfo_state g) BLOCK_OLD_SOURCES (sl_keys B) ->
  wp (send_Q_own clk snd w i tv gaddr (set_irl base g) tmp false)
     (report_post e gaddr g BLOCK_OLD_SOURCES B) e.
Proof.
  intros Hwf Hg Hob Hdb Hlive Hmk Hst. pose proof Hg as [Ho He Hd Hm Ht Hu Hf _ Hgr Hsr].
  apply wp_send_Q_own; simpl; [done|done|done|done|].
  intros e1 srt Hext1 Hwf1 Htm Hsrt. split_and!; [done|done| |].
  - apply (ginfo_wf_intro e e1 gaddr g); simpl; eauto with menv.
    apply (lists_wf_base _ _ base); [apply queried_on_addrs|done..| |done].
    apply Forall_timed_queried; [done|]. eapply Forall_impl; [exact Hmk|].
    intros s [?|?]; [by left|right; by eapply timed_ext].
  - rewrite <- Hst. unfold ginfo_state. simpl.
    by rewrite (same_addrs_keys base) by apply queried_on_addrs.
Qed.

Lemma sl_sub_nil B : sl_sub_assign [] B = [].
Proof.
  apply sl_keys_empty. rewrite sl_keys_sub. unfold sl_keys at 1. set_solver.
Qed.

Lemma wp_unknown gaddr g B n e :
  env_wf e -> ginfo_wf e gaddr g -> wp (mret g) (report_post e gaddr g (UNKNOWN_RECORD n) B) e.
Proof. intros Hwf Hg. apply wp_ret. split_and!; [done..|]. by destruct (ginfo_state g). Qed.

Lemma wp_include db gaddr g rt B e :
  env_wf e -> ginfo_wf e gaddr g -> fresh_sources B -> filter_mode g = INCLUDE_MODE ->
  wp (receive_record_in_include_mode clk snd w i tv cb rt gaddr B g db)
     (report_post e gaddr g rt B) e.
Proof.
  intros Hwf Hg HB Hfm. pose proof Hg as [Ho He Hd Hm Ht _ _ _ _ _].
  rewrite Hfm in Hm. destruct Hm as [Hel _].
  assert (Hset : forall irl, set_irl irl g
    = set_lists (filter_mode g) irl (sl_sub_assign (exclude_list g) B) g).
  { intros irl. unfold set_irl. by rewrite Hel, sl_sub_nil. }
  destruct rt.
  - unfold receive_record_in_include_mode. rewrite Hset. apply wp_allow; auto.
  - by apply wp_is_ex_include.
  - by apply wp_to_in_include.
  - by apply wp_to_ex_include.
  - unfold receive_record_in_include_mode. rewrite Hset. apply wp_allow; auto.
  - assert (Hown : g = set_irl (include_requested_list g) g) by (by destruct g).
    unfold receive_record_in_include_mode. rewrite Hown at 1. apply wp_block; auto.
    + by eapply timed_live.
    + eapply Forall_impl; [exact Ht|]. by right.
    + unfold ginfo_state. by rewrite Hfm.
  - by apply wp_unknown.
Qed.

Lemma wp_exclude db gaddr g rt B e :
  env_wf e -> ginfo_wf e gaddr g -> fresh_sources B -> filter_mode g = EXCLUDE_MODE ->
  wp (receive_record_in_exclude_mode clk snd w i tv cb rt gaddr B g db)
     (report_post e gaddr g rt B) e.
Proof.
  intros Hwf Hg HB Hfm. pose proof Hg as [Ho He Hd _ Ht _ _ _ _ _].
  destruct rt.
  - apply wp_allow; auto.
  - by apply wp_is_ex_exclude.
  - by apply wp_to_in_exclude.
  - by apply wp_to_ex_exclude.
  - apply wp_allow; auto.
  - pose proof HB as [HoB Hfr]. unfold receive_record_in_exclude_mode.
    assert (HBY : fresh_sources (sl_sub B (exclude_list g)))
      by (split; unfold sl_sub; auto with slist).
    apply wp_block; auto with slist.
    + keys_simpl. set_solver.
    + by eapply add_live.
    + apply Forall_add.
      * eapply Forall_impl; [exact Ht|]. by right.
      * apply Forall_forall. intros s Hs. left.
        apply (fresh_marks (sl_sub B (exclude_list g))); [done|done|].
        rewrite elem_of_sl_keys_In. eauto.
    + unfold ginfo_state. rewrite Hfm. by keys_simpl.
  - by apply wp_unknown.
Qed.

(** ** The whole reception *)

(** The compatibility mode of the group once the report is taken into account. *)
Definition version_after (gr : group_record_msg A) (db : membership_db A) : group_mem_protocol :=
  if negb (is_newest_version (gr_grp_mem_proto gr))
     && is_older_or_equal_version (gr_grp_mem_proto gr) (querier_version_mode db)
  then gr_grp_mem_proto gr
  else match group_info db !! gr_gaddr gr with
       | Some g => compatibility_mode_variable g
       | None => querier_version_mode db
       end.

(** RFC 3810, 8.3.2: with older listeners present BLOCK is ignored and TO_EX
    loses its source list. *)
Definition rfc_reception (st : router_state) (v : group_mem_protocol)
    (rt : mcast_addr_record_type) (B : gset A) : router_state :=
  if is_newest_version v then rfc_report st rt B
  else match rt with
       | BLOCK_OLD_SOURCES => st
       | CHANGE_TO_EXCLUDE_MODE => rfc_report st CHANGE_TO_EXCLUDE_MODE ∅
       | _ => rfc_report st rt B
       end.

Lemma new_gaddr_info_wf e gaddr v : ginfo_wf e gaddr (new_gaddr_info v).
Proof. split; simpl; try apply points_to_None; try constructor; done. Qed.

Lemma wp_compatibility gr g db (Q : gaddr_info A -> env A -> Prop) e :
  env_wf e -> ginfo_wf e (gr_gaddr gr) g ->
  (forall e' g', env_ext e e' -> env_wf e' -> ginfo_wf e' (gr_gaddr gr) g' ->
    ginfo_state g' = ginfo_state g -> filter_mode g' = filter_mode g ->
    compatibility_mode_variable g' =
      (if negb (is_newest_version (gr_grp_mem_proto gr))
          && is_older_or_equal_version (gr_grp_mem_proto gr) (querier_version_mode db)
       then gr_grp_mem_proto gr else compatibility_mode_variable g) ->
    Q g' e') ->
  wp (compatibility_coordination clk w i tv gr g db) Q e.
Proof.
  intros Hwf Hg HQ. unfold compatibility_coordination. case_if.
  - apply wp_bind_timer; [done|auto with menv|]. intros e1 Hext1 Hwf1 Htm. apply wp_ret, HQ; try done.
    destruct (ginfo_wf_ext _ _ _ _ Hext1 Hg). split; simpl; auto with menv.
  - apply wp_ret, HQ; done.
Qed.

Lemma db_wf_set e e' db gaddr g :
  db_wf e db -> env_ext e e' -> env_wf e' -> ginfo_wf e' gaddr g -> db_wf e' (set_group gaddr g db).
Proof.
  intros [Hw Hgs Hq] Hext Hwf' Hg. split; [done| |by eapply points_to_ext].
  apply map_Forall_insert_2; [done|]. intros k x Hk. eapply ginfo_wf_ext, Hgs; eauto.
Qed.

Lemma db_wf_del e e' db gaddr :
  db_wf e db -> env_ext e e' -> env_wf e' -> db_wf e' (del_group gaddr db).
Proof.
  intros [Hw Hgs Hq] Hext Hwf'. split; [done| |by eapply points_to_ext].
  apply map_Forall_delete. intros k x Hk. eapply ginfo_wf_ext, Hgs; eauto.
Qed.

(** From [e] the database became [db'] in [e']. *)
Definition evolves e (e' : env A) (db' : membership_db A) : Prop := env_ext e e' /\ db_wf e' db'.

Lemma evolves_set e e' db gaddr g :
  db_wf e db -> env_ext e e' -> env_wf e' -> ginfo_wf e' gaddr g ->
  evolves e e' (set_group gaddr g db).
Proof. intros. split; [done|by eapply db_wf_set]. Qed.

Lemma evolves_del e e' db gaddr :
  db_wf e db -> env_ext e e' -> env_wf e' -> evolves e e' (del_group gaddr db).
Proof. intros. split; [done|by eapply db_wf_del]. Qed.

Lemma group_state_set db gaddr g : group_state (set_group gaddr g db) gaddr = ginfo_state g.
Proof. unfold group_state. simpl. by rewrite lookup_insert_eq. Qed.

Lemma group_state_del db gaddr : group_state (del_group gaddr db) gaddr = INCLUDE ∅.
Proof. unfold group_state. simpl. by rewrite lookup_delete_eq. Qed.

(** Only the record of one group changed. *)
Definition others_kept (gaddr : A) (db db' : membership_db A) : Prop :=
  forall h, h <> gaddr -> group_info db' !! h = group_info db !! h.

Lemma others_kept_set gaddr g db : others_kept gaddr db (set_group gaddr g db).
Proof. intros h Hh. simpl. by rewrite lookup_insert_ne. Qed.

Lemma others_kept_del gaddr db : others_kept gaddr db (del_group gaddr db).
Proof. intros h Hh. simpl. by rewrite lookup_delete_ne. Qed.

(** The dispatch on the filter mode, with the deletion of an unused record. *)
Lemma wp_dispatch db gaddr g rt B e0 e :
  db_wf e0 db -> env_ext e0 e -> env_wf e -> ginfo_wf e gaddr g -> fresh_sources B ->
  wp (match filter_mode g with
      | INCLUDE_MODE =>
        g ← receive_record_in_include_mode clk snd w i tv cb rt gaddr B g db;
        if bool_decide (filter_mode g = INCLUDE_MODE)
           && bool_decide (include_requested_list g = [])
        then mret (del_group gaddr db) else mret (set_group gaddr g db)
      | EXCLUDE_MODE =>
        g ← receive_record_in_exclude_mode clk snd w i tv cb rt gaddr B g db;
        mret (set_group gaddr g db)
      end)
     (fun db' e' => evolves e0 e' db' /\ others_kept gaddr db db'
        /\ group_state db' gaddr = rfc_report (ginfo_state g) rt (sl_keys B)) e.
Proof.
  intros Hdb Hext Hwf Hg HB.
  assert (Hset : forall g' e', report_post e gaddr g rt B g' e' ->
    evolves e0 e' (set_group gaddr g' db) /\ others_kept gaddr db (set_group gaddr g' db)
    /\ group_state (set_group gaddr g' db) gaddr = rfc_report (ginfo_state g) rt (sl_keys B)).
  { intros g' e' (Hext' & Hwf' & Hg' & Hs'). rewrite group_state_set.
    split_and!; [|apply others_kept_set|done]. apply evolves_set; [done|by etrans|done|done]. }
  destruct (filter_mode g) eqn:Hfm; apply wp_bind.
  - eapply wp_mono; [by apply wp_include|]. intros g' e' Hpost. case_if.
    + apply wp_ret. destruct Hpost as (Hext' & Hwf' & Hg' & Hs').
      bool_simpl. rewrite <- Hs', group_state_del. unfold ginfo_state.
      split_and!; [|apply others_kept_del|].
      * apply evolves_del; [done|by etrans|done].
      * by match goal with H1 : filter_mode g' = _, H2 : include_requested_list g' = _ |- _ =>
          rewrite H1, H2 end.
    + by apply wp_ret, Hset.
  - eapply wp_mono; [by apply wp_exclude|]. intros g' e' Hpost.
    by apply wp_ret, Hset.
Qed.

Lemma wp_receive_record gr db e :
  db_wf e db -> fresh_sources (gr_slist gr) ->
  wp (receive_record clk snd w i tv cb gr db)
     (fun db' e' => evolves e e' db' /\ others_kept (gr_gaddr gr) db db'
        /\ group_state db' (gr_gaddr gr)
           = rfc_reception (group_state db (gr_gaddr gr)) (version_after gr db)
               (gr_record_type gr) (sl_keys (gr_slist gr))) e.
Proof.
  intros Hdb HB. pose proof (dw_env _ _ Hdb) as Hwf. unfold receive_record.
  set (gaddr := gr_gaddr gr). set (g := default _ (group_info db !! gaddr)).
  assert (Hg : ginfo_wf e gaddr g).
  { unfold g. destruct (group_info db !! gaddr) as [g0|] eqn:E; [|apply new_gaddr_info_wf].
    by apply (dw_groups _ _ Hdb gaddr). }
  assert (Hst : group_state db gaddr = ginfo_state g)
    by (unfold group_state, g; by destruct (group_info db !! gaddr)).
  apply wp_bind, wp_compatibility; [done|done|].
  intros e1 g1 Hext1 Hwf1 Hg1 Hs1 Hfm1 Hv1.
  assert (Hv : version_after gr db = compatibility_mode_variable g1).
  { rewrite Hv1. unfold version_after, g. fold gaddr. case_if; [done|].
    by destruct (group_info db !! gaddr). }
  rewrite Hst, <- Hs1, Hv. unfold rfc_reception, is_in_backward_compatibility_mode.
  destruct (is_newest_version (compatibility_mode_variable g1)); cbn [negb andb].
  { by apply (wp_dispatch db gaddr g1 (gr_record_type gr) (gr_slist gr) e). }
  case_bool_decide as Hbl.
  { apply wp_ret. rewrite Hbl, group_state_set.
    split_and!; [|apply others_kept_set|done]. by apply evolves_set. }
  case_bool_decide as Hex.
  - rewrite Hex. apply (wp_dispatch db gaddr g1 _ [] e); try done. by split; constructor.
  - eapply wp_mono; [by apply (wp_dispatch db gaddr g1 (gr_record_type gr) (gr_slist gr) e)|].
    intros db' e' (? & ? & ->). split_and!; [done|done|]. by destruct (gr_record_type gr).
Qed.

(** C1: Reception of a report refines RFC 3810. For every report of fresh
    sources and every well-formed database, [receive_record] returns (no null
    pointer is dereferenced), leaves a well-formed database without changing
    any timer created before, changes no other group, and takes the group to the state of the tables in 7.4.1 and 7.4.2,
    with the restrictions of 8.3.2 while older listeners are present; deleting
    or not creating a record is the state INCLUDE ({}). *)
Theorem receive_record_refines gr db e :
  db_wf e db -> fresh_sources (gr_slist gr) ->
  wp (receive_record clk snd w i tv cb gr db)
     (fun db' e' => evolves e e' db' /\ others_kept (gr_gaddr gr) db db'
        /\ group_state db' (gr_gaddr gr)
           = rfc_reception (group_state db (gr_gaddr gr)) (version_after gr db)
               (gr_record_type gr) (sl_keys (gr_slist gr))) e.
Proof. apply wp_receive_record. Qed.
End Reports.
