(* ===== verification/QuerierTimers.v ===== *)
(** * Timer events of the querier

    [timer_triggerd] refines the expiry rules of RFC 3810, 7.2.2 and 7.2.3,
    ignores outdated timers and keeps the database well formed. The answers
    given to the routing agree with the forwarding rules of 7.3. *)

From S2P Require Import Prelude Def TimersValues AddrStorage Timing Messages Sender.
From S2P Require Import MembershipDb Querier QuerierSpec QuerierHelpers QuerierReports.

Local Open Scope Z_scope.

Section Timers.
Context {A : Type} `{Address A} (clk : nat -> Z).
Context (snd : sender (A := A)) `{!SenderLaws snd} (w i : Z) (tv : timers_values).
Context (cb : membership_db A -> A -> M A unit).
Hypothesis cb_io : forall db gaddr e, wp (cb db gaddr) (fun _ e' => env_io e e') e.

Implicit Types (gaddr : A) (g : gaddr_info A) (e : env A) (db : membership_db A) (t : tid).

(** The sources of a record that a timer stands for. *)
Definition expired_by t g : gset A :=
  sl_keys (List.filter (timed_by t) (include_requested_list g)).

(** The effect of a timer event on the state of a group. *)
Definition rfc_timer (tm : timer_msg A) t db gaddr : router_state :=
  match group_info db !! gaddr with
  | None => group_state db gaddr
  | Some g =>
    match tm_type tm with
    | SOURCE_TIMER_MSG => rfc_sources_expire (ginfo_state g) (expired_by t g)
    | FILTER_TIMER_MSG =>
      if bool_decide (shared_filter_timer g = Some t) then rfc_filter_expires (ginfo_state g)
      else ginfo_state g
    | _ => ginfo_state g
    end
  end.

(** The retransmission of a group query is over when the group is in INCLUDE
    mode. *)
Definition retransmission_over t db : Prop :=
  forall gaddr g, group_info db !! gaddr = Some g -> group_retransmission_timer g = Some t ->
    filter_mode g = INCLUDE_MODE -> group_retransmission_count g <= 0.

(** ** References *)

Lemma db_timers_In t db gaddr g :
  group_info db !! gaddr = Some g -> t ∈ ginfo_timers g -> t ∈ db_timers db.
Proof.
  intros Hg Ht. unfold db_timers. apply elem_of_app. right.
  rewrite list_elem_of_In in Ht |- *. apply in_flat_map. exists (gaddr, g).
  split; [|done]. apply list_elem_of_In. by apply elem_of_map_to_list.
Qed.

Lemma expired_by_empty t g :
  (forall s, s ∈ include_requested_list g -> shared_source_timer s <> Some t) ->
  expired_by t g = ∅.
Proof.
  intros Hn. apply sl_keys_empty. induction (include_requested_list g) as [|s l IH]; [done|].
  simpl. unfold timed_by at 1. rewrite bool_decide_eq_false_2 by (apply Hn; left).
  apply IH. intros s' Hs'. apply Hn. by right.
Qed.

Lemma rfc_sources_expire_empty (st : router_state (A := A)) : rfc_sources_expire st ∅ = st.
Proof. destruct st; simpl; f_equal; set_solver. Qed.

Lemma timer_is_unique e t ty o tm : timer_is e t ty o -> e_store e !! t = Some tm ->
  tm_type tm = ty /\ tm_gaddr tm = o.
Proof. intros (tm' & Hs & ? & ?) Hs'. simplify_eq. done. Qed.

(** A timer that the record does not refer to has no effect. *)
Lemma rfc_timer_none tm t db gaddr :
  (forall g, group_info db !! gaddr = Some g -> t ∉ ginfo_timers g) ->
  rfc_timer tm t db gaddr = group_state db gaddr.
Proof.
  intros Hn. unfold rfc_timer, group_state. destruct (group_info db !! gaddr) as [g|]; [|done].
  specialize (Hn g eq_refl). unfold ginfo_timers in Hn. rewrite !not_elem_of_app in Hn.
  destruct Hn as (Hf & _ & _ & _ & Hs & _).
  destruct (tm_type tm); try done.
  - rewrite bool_decide_eq_false_2; [done|]. intros E. apply Hf. rewrite E. by left.
  - rewrite expired_by_empty; [apply rfc_sources_expire_empty|]. intros s Hin E. apply Hs.
    apply list_elem_of_omap. eauto.
Qed.

(** A timer of a group concerns that group only. *)
Lemma rfc_timer_other tm t db gaddr e :
  db_wf e db -> e_store e !! t = Some tm -> tm_gaddr tm <> Some gaddr ->
  rfc_timer tm t db gaddr = group_state db gaddr.
Proof.
  intros Hdb Htm Hne. unfold rfc_timer, group_state.
  destruct (group_info db !! gaddr) as [g|] eqn:E; [|done].
  apply (dw_groups _ _ Hdb) in E as [Ho He Hd Hm Ht Hu Hf _ _ _].
  destruct (tm_type tm); try done.
  - case_bool_decide as Hft; [|done]. apply Hf in Hft.
    by destruct (timer_is_unique _ _ _ _ _ Hft Htm).
  - rewrite expired_by_empty; [apply rfc_sources_expire_empty|]. intros s Hs E.
    rewrite Forall_forall in Ht. destruct (Ht s Hs) as (t' & Ht' & His). simplify_eq.
    by destruct (timer_is_unique _ _ _ _ _ His Htm).
Qed.

(** ** The result of a handler *)

Definition timer_post e gaddr (st : router_state) db (db' : membership_db A) (e' : env A) : Prop :=
  env_ext e e' /\ db_wf e' db' /\ others_kept gaddr db db' /\ group_state db' gaddr = st.

Lemma timer_post_same e gaddr db :
  db_wf e db -> timer_post e gaddr (group_state db gaddr) db db e.
Proof. intros Hdb. split_and!; done. Qed.

Lemma timer_post_set e e' gaddr g db :
  db_wf e db -> env_ext e e' -> env_wf e' -> ginfo_wf e' gaddr g ->
  timer_post e gaddr (ginfo_state g) db (set_group gaddr g db) e'.
Proof.
  intros Hdb Hext Hwf Hg. split_and!; [done|by eapply db_wf_set|apply others_kept_set|].
  apply group_state_set.
Qed.

Lemma timer_post_del e e' gaddr db :
  db_wf e db -> env_ext e e' -> env_wf e' ->
  timer_post e gaddr (INCLUDE ∅) db (del_group gaddr db) e'.
Proof.
  intros Hdb Hext Hwf. split_and!; [done|by eapply db_wf_del|apply others_kept_del|].
  apply group_state_del.
Qed.

Lemma wp_notify_post e0 gaddr st db db' e :
  timer_post e0 gaddr st db db' e ->
  wp (state_change_notification cb db' gaddr;; mret db') (timer_post e0 gaddr st db) e.
Proof.
  intros (Hext & [Hwf Hgs Hq] & Ho & Hst). apply wp_notify; [done|]. intros e' Hext'.
  split_and!; [by etrans| |done|done]. split; [by eapply ext_wf| |eauto with menv].
  intros k g Hg. eapply ginfo_wf_ext, Hgs; eauto.
Qed.

(** *** Source timers *)

Lemma keys_filter_split (p : source A -> bool) l :
  sl_ordered l ->
  sl_keys (List.filter (fun s => negb (p s)) l) = sl_keys l ∖ sl_keys (List.filter p l).
Proof.
  intros Ho. apply set_eq. intros k. rewrite elem_of_difference, !elem_of_sl_keys_In.
  setoid_rewrite list_elem_of_In. setoid_rewrite filter_In. setoid_rewrite negb_true_iff.
  setoid_rewrite <- list_elem_of_In. split.
  - intros (s & [Hs Hp] & <-). split; [eauto|]. intros (s' & [Hs' Hp'] & Hk).
    pose proof (sl_ordered_find l s Ho Hs). pose proof (sl_ordered_find l s' Ho Hs').
    congruence.
  - intros [(s & Hs & <-) Hn]. exists s. split; [|done]. split; [done|].
    destruct (p s) eqn:Hp; [|done]. destruct Hn. eauto.
Qed.

Lemma Forall_filter_sub (P : source A -> Prop) p l : Forall P l -> Forall P (List.filter p l).
Proof.
  rewrite !Forall_forall. intros Hl s. rewrite list_elem_of_In, filter_In, <- list_elem_of_In.
  naive_solver.
Qed.

(** The timed out sources, as they are moved to the exclude list. *)
Definition untimed_sources l : list (source A) :=
  (fun s => set_timer s None (retransmission_count s)) <$> l.

Lemma untimed_sources_addrs l : same_addrs l (untimed_sources l).
Proof. by apply same_addrs_map. Qed.

Lemma wp_source_timer gaddr g t db e :
  db_wf e db -> group_info db !! gaddr = Some g ->
  wp (timer_triggerd_source_timer cb gaddr t db)
     (timer_post e gaddr (rfc_sources_expire (ginfo_state g) (expired_by t g)) db) e.
Proof.
  intros Hdb Hg. pose proof (dw_env _ _ Hdb) as Hwf.
  pose proof (dw_groups _ _ Hdb gaddr g Hg) as Hgw.
  pose proof Hgw as [Ho He Hd Hm Ht Hu Hf _ Hgr Hsr].
  unfold timer_triggerd_source_timer. rewrite Hg. apply wp_bind, wp_deref.
  pose proof (keys_filter_split (timed_by t) _ Ho) as Hk. fold (expired_by t g) in Hk.
  unfold ginfo_state. destruct (filter_mode g) eqn:Hfm; apply wp_notify_post; simpl.
  - rewrite <- Hk. case_bool_decide as Hnil.
    + rewrite Hnil. by apply timer_post_del.
    + replace (INCLUDE _) with (ginfo_state
        (set_irl (List.filter (fun s => negb (timed_by t s)) (include_requested_list g)) g))
        by (unfold ginfo_state; simpl; by rewrite Hfm).
      apply timer_post_set; [done..|]. destruct Hm as [Hel Hft].
      apply (ginfo_wf_intro e e gaddr g); [done|done|..]; simpl; auto.
      * split; [by apply filter_ordered|done| |by apply Forall_filter_sub|done].
        rewrite Hel. unfold sl_keys at 2. set_solver.
      * by rewrite Hfm.
  - set (exp := List.filter (timed_by t) (include_requested_list g)).
    fold (untimed_sources exp).
    assert (Hke : sl_keys (untimed_sources exp) = expired_by t g)
      by (apply same_addrs_keys, untimed_sources_addrs).
    rewrite <- Hk, <- Hke, <- sl_keys_add.
    match goal with |- context [set_group gaddr ?g1] => change (EXCLUDE _ _) with (ginfo_state g1);
      apply timer_post_set; [done..|]; apply (ginfo_wf_intro e e gaddr g); [done|done|..] end; simpl; auto.
    split; [by apply filter_ordered|by apply sl_add_ordered| |by apply Forall_filter_sub|].
    + rewrite sl_keys_add, Hke, Hk. pose proof (sl_keys_filter_subseteq (timed_by t)
        (include_requested_list g)) as Hsub. fold (expired_by t g) in Hsub. set_solver.
    + apply Forall_add; [done|]. apply Forall_fmap, Forall_forall. done.
Qed.

(** *** Filter timers *)

Lemma wp_filter_timer gaddr g t tm db e :
  db_wf e db -> group_info db !! gaddr = Some g -> e_store e !! t = Some tm ->
  wp (timer_triggerd_filter_timer cb gaddr t db)
     (timer_post e gaddr
        (if bool_decide (shared_filter_timer g = Some t)
         then rfc_filter_expires (ginfo_state g) else ginfo_state g) db) e.
Proof.
  intros Hdb Hg Htm. pose proof (dw_env _ _ Hdb) as Hwf.
  pose proof (dw_groups _ _ Hdb gaddr g Hg) as Hgw.
  pose proof Hgw as [Ho He Hd Hm Ht Hu Hf _ Hgr Hsr].
  assert (Hsame : timer_post e gaddr (ginfo_state g) db db e).
  { pose proof (timer_post_same e gaddr db Hdb) as Hp. unfold group_state in Hp.
    by rewrite Hg in Hp. }
  unfold timer_triggerd_filter_timer. apply wp_bind. unfold wp at 1, get_timer. rewrite Htm.
  destruct (ew_shape _ Hwf _ _ Htm) as [-> _]. apply wp_bind, wp_ret. rewrite Hg.
  apply wp_bind, wp_deref. case_bool_decide as Hft; simpl; [|by apply wp_ret].
  unfold ginfo_state in *. destruct (filter_mode g) eqn:Hfm; simpl; [by apply wp_ret|].
  case_bool_decide as Hnil; apply wp_notify_post.
  - rewrite Hnil. by apply timer_post_del.
  - match goal with |- context [set_group gaddr ?g1] => change (INCLUDE _) with (ginfo_state g1);
      apply timer_post_set; [done..|]; apply (ginfo_wf_intro e e gaddr g); [done|done|..] end; simpl; auto.
    + split; [done|constructor| |done|constructor]. unfold sl_keys at 2. set_solver.
    + by intros ? [=].
Qed.

(** *** Retransmission, older host and general query timers *)

Lemma wp_ret_group_timer gaddr g t db e :
  db_wf e db -> group_info db !! gaddr = Some g -> retransmission_over t db ->
  wp (timer_triggerd_ret_group_timer clk snd w i tv gaddr t db)
     (timer_post e gaddr (ginfo_state g) db) e.
Proof.
  intros Hdb Hg Hover. pose proof (dw_env _ _ Hdb) as Hwf.
  pose proof (dw_groups _ _ Hdb gaddr g Hg) as Hgw.
  pose proof Hgw as [Ho He Hd Hm Ht Hu Hf _ Hgr Hsr].
  assert (Hsame : timer_post e gaddr (ginfo_state g) db db e).
  { pose proof (timer_post_same e gaddr db Hdb) as Hp. unfold group_state in Hp.
    by rewrite Hg in Hp. }
  unfold timer_triggerd_ret_group_timer. rewrite Hg. apply wp_bind, wp_deref.
  case_bool_decide as Hrt; [|by apply wp_ret].
  apply wp_bind, wp_send_Q_group; try done.
  { intros _ Hpos. destruct (filter_mode g) eqn:Hfm; [|done].
    specialize (Hover gaddr g Hg Hrt Hfm). lia. }
  intros e1 ft grt n Hext1 Hwf1 Hft Hor Hgrt. apply wp_ret.
  destruct Hor as [->|[Hnone _]]; [|congruence].
  match goal with |- context [set_group gaddr ?g1] =>
    change (ginfo_state g) with (ginfo_state g1) end.
  apply timer_post_set; [done..|]. apply (ginfo_wf_intro e e1 gaddr g); simpl; auto.
  split; [done..| |done]. by eapply Forall_timed_ext.
Qed.

Lemma wp_ret_source_timer gaddr g t db e :
  db_wf e db -> group_info db !! gaddr = Some g ->
  wp (timer_triggerd_ret_source_timer clk snd w i tv gaddr t db)
     (timer_post e gaddr (ginfo_state g) db) e.
Proof.
  intros Hdb Hg. pose proof (dw_env _ _ Hdb) as Hwf.
  pose proof (dw_groups _ _ Hdb gaddr g Hg) as Hgw.
  pose proof Hgw as [Ho He Hd Hm Ht Hu Hf _ Hgr Hsr].
  unfold timer_triggerd_ret_source_timer. rewrite Hg. apply wp_bind, wp_deref.
  case_bool_decide as Hrt.
  - apply wp_bind, wp_send_Q_own; try done; [by eapply timed_live|].
    intros e1 srt Hext1 Hwf1 Htm Hsrt. apply wp_ret.
    replace (ginfo_state g) with (ginfo_state (set_irl
      (queried_on tv (e_next e) [] (include_requested_list g) true)
      (set_source_retransmission srt g))).
    { apply timer_post_set; [done..|]. apply (ginfo_wf_intro e e1 gaddr g); simpl; auto.
      - apply (lists_wf_base _ _ (include_requested_list g));
          [apply queried_on_addrs|done..| |done].
        apply Forall_timed_queried; [done|]. eapply Forall_impl; [exact Ht|].
        intros s Hs. right. by eapply timed_ext.
      - by eapply points_to_ext. }
    unfold ginfo_state. simpl.
    by rewrite (same_addrs_keys (include_requested_list g)) by apply queried_on_addrs.
  - apply wp_ret. pose proof (timer_post_same e gaddr db Hdb) as Hp. unfold group_state in Hp.
    by rewrite Hg in Hp.
Qed.

Lemma set_compatibility_wf e e' gaddr g v p :
  ginfo_wf e gaddr g -> env_ext e e' ->
  points_to e' p OLDER_HOST_PRESENT_TIMER_MSG (Some gaddr) ->
  ginfo_wf e' gaddr (set_compatibility v p g).
Proof.
  intros Hg Hext Hp. destruct (ginfo_wf_ext _ _ _ _ Hext Hg). by split.
Qed.

Lemma wp_older_host_timer gaddr g t db e :
  db_wf e db -> group_info db !! gaddr = Some g ->
  wp (timer_triggerd_older_host_present_timer clk w i tv cb gaddr t db)
     (timer_post e gaddr (ginfo_state g) db) e.
Proof.
  intros Hdb Hg. pose proof (dw_env _ _ Hdb) as Hwf.
  pose proof (dw_groups _ _ Hdb gaddr g Hg) as Hgw.
  unfold timer_triggerd_older_host_present_timer. rewrite Hg. apply wp_bind, wp_deref.
  case_bool_decide as Hrt; [case_if|].
  - apply wp_notify_post.
    match goal with |- context [set_group gaddr ?g1] =>
      change (ginfo_state g) with (ginfo_state g1) end.
    apply timer_post_set; [done..|]. apply (set_compatibility_wf e); auto with menv. done.
  - apply wp_bind_timer; [done|auto with menv|]. intros e1 Hext1 Hwf1 Htm. apply wp_ret.
    match goal with |- context [set_group gaddr ?g1] =>
      change (ginfo_state g) with (ginfo_state g1) end.
    apply timer_post_set; [done..|]. apply (set_compatibility_wf e); auto with menv.
  - apply wp_ret. pose proof (timer_post_same e gaddr db Hdb) as Hp. unfold group_state in Hp.
    by rewrite Hg in Hp.
Qed.

Lemma wp_send_general_query db (Q : bool * membership_db A -> env A -> Prop) e :
  env_wf e ->
  (forall b e' n, env_ext e e' -> env_wf e' ->
    timer_is e' (e_next e) GENERAL_QUERY_TIMER_MSG None ->
    Q (b, set_general_query (Some (e_next e)) n db) e') ->
  wp (querier_send_general_query clk snd w i tv db) Q e.
Proof.
  intros Hwf HQ. unfold querier_send_general_query.
  match goal with |- context [if ?b then ?x else ?y] => destruct (if b then x else y) as [n d] end.
  apply wp_bind_timer; [done|auto with menv|]. intros e1 Hext1 Hwf1 Htm.
  apply wp_bind. eapply wp_mono; [apply send_general_query_law|]. intros b e2 Hio2.
  apply env_io_ext in Hio2. apply wp_ret, HQ; [by etrans|by eapply ext_wf|eauto with menv].
Qed.

Lemma db_wf_general e e' db p n :
  db_wf e db -> env_ext e e' -> env_wf e' -> points_to e' p GENERAL_QUERY_TIMER_MSG None ->
  db_wf e' (set_general_query p n db).
Proof.
  intros [Hw Hgs Hq] Hext Hwf' Hp. split; [done| |done].
  intros k x Hk. eapply ginfo_wf_ext, Hgs; eauto.
Qed.

Lemma wp_general_query_timer t db e :
  db_wf e db ->
  wp (timer_triggerd_general_query_timer clk snd w i tv t db)
     (fun db' e' => env_ext e e' /\ db_wf e' db' /\ group_info db' = group_info db) e.
Proof.
  intros Hdb. unfold timer_triggerd_general_query_timer. case_if; [|by apply wp_ret].
  apply wp_bind, wp_send_general_query; [by apply (dw_env _ _ Hdb)|].
  intros b e1 n Hext1 Hwf1 Htm. apply wp_ret. simpl. split_and!; [done| |done].
  eapply db_wf_general; eauto with menv.
Qed.

(** ** The dispatch *)

Lemma group_state_others gaddr db (db' : membership_db A) h :
  others_kept gaddr db db' -> h <> gaddr -> group_state db' h = group_state db h.
Proof. intros Ho Hne. unfold group_state. by rewrite Ho. Qed.

Lemma timer_post_spread e gaddr tm t db (m : M A (membership_db A)) :
  db_wf e db -> e_store e !! t = Some tm -> tm_gaddr tm = Some gaddr ->
  wp m (timer_post e gaddr (rfc_timer tm t db gaddr) db) e ->
  wp m (fun db' e' => evolves e e' db' /\ forall h, group_state db' h = rfc_timer tm t db h) e.
Proof.
  intros Hdb Htm Hga Hm. eapply wp_mono; [exact Hm|]. intros db' e' (Hext & Hdb' & Ho & Hst).
  split; [by split|]. intros h. destruct (decide (h = gaddr)) as [->|Hne]; [done|].
  rewrite (group_state_others gaddr db) by done. symmetry.
  apply (rfc_timer_other _ _ _ _ e); [done|done|congruence].
Qed.

Lemma wp_dispatch_timer gaddr g t tm db e :
  db_wf e db -> e_store e !! t = Some tm -> group_info db !! gaddr = Some g ->
  retransmission_over t db ->
  wp (match tm_type tm with
      | FILTER_TIMER_MSG => timer_triggerd_filter_timer cb gaddr t db
      | SOURCE_TIMER_MSG => timer_triggerd_source_timer cb gaddr t db
      | RET_GROUP_TIMER_MSG => timer_triggerd_ret_group_timer clk snd w i tv gaddr t db
      | RET_SOURCE_TIMER_MSG => timer_triggerd_ret_source_timer clk snd w i tv gaddr t db
      | OLDER_HOST_PRESENT_TIMER_MSG =>
        timer_triggerd_older_host_present_timer clk w i tv cb gaddr t db
      | _ => mret db
      end) (timer_post e gaddr (rfc_timer tm t db gaddr) db) e.
Proof.
  intros Hdb Htm Hg Hover. unfold rfc_timer. rewrite Hg.
  assert (Hsame : timer_post e gaddr (ginfo_state g) db db e).
  { pose proof (timer_post_same e gaddr db Hdb) as Hp. unfold group_state in Hp.
    by rewrite Hg in Hp. }
  destruct (tm_type tm); try by apply wp_ret.
  - by eapply wp_filter_timer.
  - by apply wp_source_timer.
  - by apply wp_ret_group_timer.
  - by apply wp_ret_source_timer.
  - by apply wp_older_host_timer.
Qed.

Lemma wp_timer_triggerd held t tm db e :
  db_wf e db -> e_store e !! t = Some tm -> retransmission_over t db ->
  wp (timer_triggerd clk snd w i tv cb held t db)
     (fun db' e' => evolves e e' db' /\ forall gaddr, group_state db' gaddr = rfc_timer tm t db gaddr)
     e.
Proof.
  intros Hdb Htm Hover. unfold timer_triggerd. apply wp_bind.
  unfold wp at 1, get_timer. rewrite Htm.
  destruct (held || bool_decide (t ∈ db_timers db)) eqn:Hheld; simpl.
  2: { apply wp_ret. split; [by split|]. intros h. symmetry. apply rfc_timer_none.
    intros g Hg Ht. apply orb_false_iff in Hheld as [_ Hn]. apply bool_decide_eq_false in Hn.
    by eapply Hn, db_timers_In. }
  destruct (ew_shape _ (dw_env _ _ Hdb) _ _ Htm) as [_ [[Hgq|[gaddr Hga]] _]].
  { rewrite Hgq. eapply wp_mono; [by apply wp_general_query_timer|].
    intros db' e' (Hext & Hdb' & Hgi). split; [by split|]. intros h.
    unfold rfc_timer, group_state. rewrite Hgq, Hgi. by destruct (group_info db !! h). }
  rewrite Hga. assert (Hnone : forall h, group_info db !! gaddr = None ->
    group_state db h = rfc_timer tm t db h).
  { intros h Hn. symmetry. destruct (decide (h = gaddr)) as [->|Hne].
    - unfold rfc_timer. by rewrite Hn.
    - apply (rfc_timer_other _ _ _ _ e); [done|done|congruence]. }
  pose proof (fun g Hg => timer_post_spread e gaddr tm t db _ Hdb Htm Hga
    (wp_dispatch_timer gaddr g t tm db e Hdb Htm Hg Hover)) as Hd.
  assert (Hskip : tm_type tm <> FILTER_TIMER_MSG -> tm_type tm <> SOURCE_TIMER_MSG ->
    forall h, group_state db h = rfc_timer tm t db h).
  { intros H1 H2 h. unfold rfc_timer, group_state. destruct (group_info db !! h); [|done].
    by destruct (tm_type tm). }
  destruct (tm_type tm) eqn:Hty;
    try (by apply wp_ret; split; [by split|]; intros h; apply Hskip).
  6: { eapply wp_mono; [by apply wp_general_query_timer|].
    intros db' e' (Hext & Hdb' & Hgi). split; [by split|]. intros h.
    unfold rfc_timer, group_state. rewrite Hty, Hgi. by destruct (group_info db !! h). }
  all: apply wp_bind, wp_deref; destruct (group_info db !! gaddr) as [g|] eqn:Hg;
    [by apply (Hd g)|]; apply wp_ret; by split; [split|intros h; apply Hnone].
Qed.

(** ** The missing filter timer *)

Lemma bind_None {X Y} (m : M A X) (f : X -> M A Y) e : m e = None -> (m ≫= f) e = None.
Proof. unfold mbind, M_bind. by intros ->. Qed.

(** Retransmitting a group query without a filter timer. *)
Lemma send_Q_group_null gaddr g t e :
  group_retransmission_timer g = Some t -> 0 < group_retransmission_count g ->
  shared_filter_timer g = None -> send_Q_group clk snd w i tv gaddr g e = None.
Proof.
  intros Hgrt Hpos Hft. unfold send_Q_group, mbind, M_bind, mret, M_ret. rewrite Hgrt.
  apply Z.ltb_lt in Hpos. rewrite Hpos. cbn [group_retransmission_count set_group_retransmission].
  unfold deref. case_if; [|by simpl; rewrite Hft].
  unfold make_timer, add_time_msg, insert_reminder, alloc, now, mbind, M_bind. simpl. by rewrite Hft.
Qed.

(** Without retransmissions left it only resets. *)
Lemma send_Q_group_over gaddr g t e :
  group_retransmission_timer g = Some t -> group_retransmission_count g <= 0 ->
  send_Q_group clk snd w i tv gaddr g e = Some (set_group_retransmission None (-1) g, e).
Proof.
  intros Hgrt Hneg. unfold send_Q_group, mbind, M_bind, mret, M_ret. rewrite Hgrt.
  apply Z.ltb_ge in Hneg. by rewrite Hneg.
Qed.

(** The retransmission timer of a group sends the query of the group again. *)
Lemma ret_group_event held gaddr g t db e :
  db_wf e db -> group_info db !! gaddr = Some g -> group_retransmission_timer g = Some t ->
  timer_triggerd clk snd w i tv cb held t db e
  = (ginfo ← send_Q_group clk snd w i tv gaddr g; mret (set_group gaddr ginfo db)) e.
Proof.
  intros Hdb Hg Hgrt. pose proof (dw_groups _ _ Hdb gaddr g Hg) as Hgw.
  destruct (gw_grt _ _ _ Hgw t Hgrt) as (tm & Htm & Hty & Hga).
  assert (Hin : t ∈ db_timers db).
  { apply (db_timers_In t db gaddr g Hg). unfold ginfo_timers. rewrite Hgrt.
    rewrite !elem_of_app. right; right; left. by left. }
  unfold timer_triggerd, mbind, M_bind, get_timer. rewrite Htm.
  rewrite (bool_decide_eq_true_2 _ Hin), orb_true_r. cbn [negb]. rewrite Hty, Hga.
  unfold deref, mret, M_ret. rewrite Hg.
  unfold timer_triggerd_ret_group_timer, mbind, M_bind, deref, mret, M_ret. rewrite Hg.
  by rewrite bool_decide_eq_true_2.
Qed.

Lemma ret_group_null held gaddr g t db e :
  db_wf e db -> group_info db !! gaddr = Some g -> group_retransmission_timer g = Some t ->
  filter_mode g = INCLUDE_MODE -> 0 < group_retransmission_count g ->
  timer_triggerd clk snd w i tv cb held t db e = None.
Proof.
  intros Hdb Hg Hgrt Hfm Hpos. rewrite (ret_group_event held gaddr g t) by done.
  apply bind_None, (send_Q_group_null _ _ t); [done|done|].
  pose proof (gw_mode _ _ _ (dw_groups _ _ Hdb gaddr g Hg)) as Hm. rewrite Hfm in Hm. by destruct Hm.
Qed.

(** A retransmission of a group query that finds its group in INCLUDE mode,
    without a filter timer. *)
Definition null_filter_query t db : Prop :=
  exists gaddr g, group_info db !! gaddr = Some g /\ group_retransmission_timer g = Some t
    /\ filter_mode g = INCLUDE_MODE /\ 0 < group_retransmission_count g.

Lemma over_or_null t db : retransmission_over t db \/ null_filter_query t db.
Proof.
  destruct (decide (map_Forall (fun _ g => ~ (group_retransmission_timer g = Some t
      /\ filter_mode g = INCLUDE_MODE /\ 0 < group_retransmission_count g)) (group_info db))) as [Hf|Hf].
  - left. intros gaddr g Hg Ht Hm. destruct (Z.le_gt_cases (group_retransmission_count g) 0) as [|Hpos]; [done|].
    destruct (Hf gaddr g Hg). split_and!; [done|done|lia].
  - right. apply map_not_Forall in Hf as (gaddr & g & Hg & Hn); [|apply _].
    apply dec_stable in Hn as (? & ? & ?). exists gaddr, g. by split_and!.
Qed.

(** C2: Timer events refine RFC 3810, exactly but for one crash. For every
    well-formed database and every timer object, whether or not another owner
    still holds it, [timer_triggerd] returns unless the timer retransmits a group
    query while its group is in INCLUDE mode and retransmissions remain (then the
    null filter timer is dereferenced). Whenever it returns, it leaves a
    well-formed database and has changed the state of each group by the expiry
    rules only: a source timer removes its sources (7.2.3), the current filter
    timer switches the group to INCLUDE (7.2.2), and everything else, an outdated
    timer in particular, changes no state. *)
Theorem timer_triggerd_refines held t tm db e :
  db_wf e db -> e_store e !! t = Some tm ->
  match timer_triggerd clk snd w i tv cb held t db e with
  | Some (db', e') => retransmission_over t db /\ evolves e e' db'
      /\ forall gaddr, group_state db' gaddr = rfc_timer tm t db gaddr
  | None => null_filter_query t db
  end.
Proof.
  intros Hdb Htm. destruct (over_or_null t db) as [Hover|Hnull].
  - pose proof (wp_timer_triggerd held t tm db e Hdb Htm Hover) as Hwp. unfold wp in Hwp.
    destruct (timer_triggerd clk snd w i tv cb held t db e) as [[db' e']|]; [by destruct Hwp|done].
  - pose proof Hnull as (gaddr & g & Hg & Hgrt & Hfm & Hpos). by rewrite (ret_group_null held gaddr g).
Qed.
End Timers.
