(* ===== verification/QuerierTheorems.v ===== *)
(** * Theorems on whole runs of the querier

    The invariant of every reachable database, the answers given to the
    routing, the startup queries, and the places where the code departs from
    its own comments. *)

From S2P Require Import Prelude Def TimersValues AddrStorage Timing Messages Sender.
From S2P Require Import MembershipDb Querier QuerierSpec QuerierHelpers QuerierReports.
From S2P Require Import QuerierTimers.

Local Open Scope Z_scope.

Section Runs.
Context {A : Type} `{Address A} (clk : nat -> Z).
Context (snd : sender (A := A)) `{!SenderLaws snd} (w i : Z) (tv : timers_values).
Context (cb : membership_db A -> A -> M A unit).
Hypothesis cb_io : forall db gaddr e, wp (cb db gaddr) (fun _ e' => env_io e e') e.

Implicit Types (gaddr : A) (g : gaddr_info A) (e : env A) (db : membership_db A) (t : tid).

(** ** Reachable databases *)

(** The events of a querier: a report of fresh sources, and a timer event. *)
Inductive querier_step : membership_db A * env A -> membership_db A * env A -> Prop :=
  | step_record gr db e db' e' :
      fresh_sources (gr_slist gr) ->
      receive_record clk snd w i tv cb gr db e = Some (db', e') ->
      querier_step (db, e) (db', e')
  | step_timer held t db e db' e' :
      timer_triggerd clk snd w i tv cb held t db e = Some (db', e') ->
      querier_step (db, e) (db', e').

Lemma timer_step_over held t db e db' e' :
  db_wf e db -> timer_triggerd clk snd w i tv cb held t db e = Some (db', e') ->
  retransmission_over t db.
Proof.
  intros Hdb Hrun gaddr g Hg Hgrt Hfm.
  destruct (Z.le_gt_cases (group_retransmission_count g) 0) as [|Hpos]; [done|].
  by rewrite (ret_group_null clk snd w i tv cb held gaddr g) in Hrun by (done || lia).
Qed.

Lemma querier_step_wf s s' : querier_step s s' -> db_wf s.2 s.1 -> db_wf s'.2 s'.1.
Proof.
  intros [gr db e db' e' HB Hrun|held t db e db' e' Hrun] Hdb; simpl in *.
  - pose proof (wp_receive_record clk snd w i tv cb cb_io gr db e Hdb HB) as Hwp.
    unfold wp in Hwp. rewrite Hrun in Hwp. by destruct Hwp as [[_ ?] _].
  - pose proof (timer_step_over _ _ _ _ _ _ Hdb Hrun) as Hover.
    destruct (e_store e !! t) as [tm|] eqn:Htm.
    + pose proof (wp_timer_triggerd clk snd w i tv cb cb_io held t tm db e Hdb Htm Hover)
        as Hwp. unfold wp in Hwp. rewrite Hrun in Hwp. by destruct Hwp as [[_ ?] _].
    + unfold timer_triggerd, mbind, M_bind, get_timer in Hrun. by rewrite Htm in Hrun.
Qed.

Lemma router_groups_io v b e :
  wp (router_groups_function snd i v b) (fun _ e' => env_io e e') e.
Proof.
  assert (Hsnd : forall mf a (Q : bool -> env A -> Prop) e0 e1,
    env_io e0 e1 -> (forall b e2, env_io e0 e2 -> Q b e2) ->
    wp (send_record snd i mf a []) Q e1).
  { intros mf a Q e0 e1 H01 HQ. eapply wp_mono; [apply send_record_law|].
    intros b' e2 H12. apply HQ. by etrans. }
  unfold router_groups_function. case_if; [|case_if; [|by apply wp_ret]].
  - apply wp_bind, (Hsnd _ _ _ e); [done|]. intros rc e1 Hio. destruct rc;
      [|by apply wp_ret]. by apply (Hsnd _ _ _ e).
  - apply wp_bind, (Hsnd _ _ _ e); [done|]. intros rc e1 Hio. apply wp_bind.
    destruct rc; [apply (Hsnd _ _ _ e); [done|]|apply wp_ret].
    + intros rc e2 Hio2. destruct rc; [|by apply wp_ret]. by apply (Hsnd _ _ _ e).
    + by apply wp_ret.
Qed.

Lemma new_querier_wf v e :
  env_wf e ->
  wp (new_querier clk snd w i tv v)
     (fun r e' => env_ext e e' /\ forall db, r = Some db -> db_wf e' db) e.
Proof.
  intros Hwf. unfold new_querier. apply wp_bind.
  eapply wp_mono; [apply router_groups_io|]. intros ok e1 Hio. apply env_io_ext in Hio.
  case_if; [by apply wp_ret|]. apply wp_bind, wp_send_general_query; [done|by eapply ext_wf|].
  intros b e2 n Hext2 Hwf2 Htm. assert (env_ext e e2) by (by etrans).
  case_if; apply wp_ret; (split; [done|]); [done|]. intros db [= <-].
  split; [done| |by apply points_to_Some]. apply map_Forall_empty.
Qed.

(** C11: Invariant of the querier: every database reached from a constructed
    querier by any sequence of reports of fresh sources and timer events is
    well formed. In particular the include and exclude lists stay disjoint, an
    EXCLUDE record has a filter timer, an INCLUDE record has neither a filter
    timer nor an exclude list, and exactly the sources of the include or
    requested list have a source timer. *)
Theorem querier_invariant v e0 db0 e1 db e :
  env_wf e0 ->
  new_querier clk snd w i tv v e0 = Some (Some db0, e1) ->
  rtc querier_step (db0, e1) (db, e) -> db_wf e db.
Proof.
  intros Hwf Hnew Hrun. pose proof (new_querier_wf v e0 Hwf) as Hw. unfold wp in Hw.
  rewrite Hnew in Hw. destruct Hw as [_ Hw]. specialize (Hw db0 eq_refl).
  remember (db0, e1) as s eqn:Es. remember (db, e) as s' eqn:Es'.
  assert (Hs : db_wf s.2 s.1) by (by subst s). clear Hw Hnew Es.
  induction Hrun as [s|s1 s2 s3 Hstep Hrun IH]; [by subst s|].
  apply IH; [done|]. by eapply querier_step_wf.
Qed.

(** C39: What a group retransmission timer does in INCLUDE mode, where the group
    has no filter timer: if retransmissions remain, [send_Q] dereferences the
    null filter timer and the handler has no result; if none remain (the count is
    0 after another leave, or negative), the handler only resets the
    retransmission of the group. A group gets into this state when its filter
    timer expires before its last group query is sent. *)
Theorem ret_group_timer_null_filter held gaddr g t db e :
  db_wf e db -> group_info db !! gaddr = Some g -> group_retransmission_timer g = Some t ->
  filter_mode g = INCLUDE_MODE ->
  timer_triggerd clk snd w i tv cb held t db e
  = if 0 <? group_retransmission_count g then None
    else Some (set_group gaddr (set_group_retransmission None (-1) g) db, e).
Proof.
  intros Hdb Hg Hgrt Hfm. rewrite (ret_group_event clk snd w i tv cb held gaddr g t) by done.
  destruct (Z.ltb_spec 0 (group_retransmission_count g)) as [Hpos|Hneg].
  - apply bind_None, (send_Q_group_null _ _ _ _ _ _ _ t); [done|done|].
    pose proof (gw_mode _ _ _ (dw_groups _ _ Hdb gaddr g Hg)) as Hm. rewrite Hfm in Hm. by destruct Hm.
  - unfold mbind, M_bind. by rewrite (send_Q_group_over _ _ _ _ _ _ _ t).
Qed.
End Runs.

(** ** Answers to the routing *)

Section Answers.
Context {A : Type} `{Address A}.

(** Does a membership (filter mode, source list) ask for a source? *)
Definition wants (infos : mc_filter * list (source A)) (s : A) : bool :=
  match infos.1 with
  | INCLUDE_MODE => bool_decide (s ∈ sl_keys infos.2)
  | EXCLUDE_MODE => negb (bool_decide (s ∈ sl_keys infos.2))
  end.

Lemma suggest_wants i (db : membership_db A) gaddr rt_slist f :
  is_querier db = true ->
  suggest_to_forward_traffic i db gaddr rt_slist f
  = (fun e => if wants (get_group_membership_infos db gaddr) (saddr e.1) && f (saddr e.1)
              then (e.1, e.2 ++ [i]) else e) <$> rt_slist
  /\ forall s, wants (get_group_membership_infos db gaddr) s = true <->
       rfc_forwards (group_state db gaddr) s
       \/ exists g, group_info db !! gaddr = Some g
                    /\ is_under_bakcward_compatibility_effects g = true.
Proof.
  intros Hq. unfold suggest_to_forward_traffic, get_group_membership_infos, wants, group_state.
  rewrite Hq. destruct (group_info db !! gaddr) as [g|].
  2: { simpl. split.
    - rewrite <- (list_fmap_id rt_slist) at 1. apply list_fmap_ext. intros _ e _.
      by rewrite bool_decide_eq_false_2.
    - intros s. rewrite bool_decide_eq_true. naive_solver. }
  unfold ginfo_state. destruct (is_under_bakcward_compatibility_effects g) eqn:Hc;
    [|destruct (filter_mode g)]; simpl; (split; [apply list_fmap_ext; intros _ e _|intros s]).
  - by rewrite bool_decide_eq_false_2.
  - rewrite bool_decide_eq_false_2 by set_solver. simpl. naive_solver.
  - erewrite bool_decide_ext; [done|]. symmetry. apply elem_of_sl_keys.
  - rewrite bool_decide_eq_true. naive_solver congruence.
  - rewrite <- bool_decide_not. erewrite bool_decide_ext; [done|]. apply sl_find_None.
  - rewrite negb_true_iff, bool_decide_eq_false. naive_solver congruence.
Qed.

(** C20: The two answers of a querier agree: [suggest_to_forward_traffic] adds the
    interface exactly to the sources that [get_group_membership_infos] asks
    for and the interface filter accepts. These are the sources forwarded by
    RFC 3810, 7.3 in the state of the group, and all sources while an older
    host is present. *)
Theorem forwarding_agrees i (db : membership_db A) gaddr rt_slist f :
  is_querier db = true ->
  suggest_to_forward_traffic i db gaddr rt_slist f
  = (fun e => if wants (get_group_membership_infos db gaddr) (saddr e.1) && f (saddr e.1)
              then (e.1, e.2 ++ [i]) else e) <$> rt_slist
  /\ forall s, wants (get_group_membership_infos db gaddr) s = true <->
       rfc_forwards (group_state db gaddr) s
       \/ exists g, group_info db !! gaddr = Some g
                    /\ is_under_bakcward_compatibility_effects g = true.
Proof. apply suggest_wants. Qed.
End Answers.

(** ** General queries *)

Section GeneralQueries.
Context {A : Type} `{Address A} (clk : nat -> Z).
Context (snd : sender (A := A)) `{!SenderLaws snd} (w i : Z) (tv : timers_values).
Implicit Types (e : env A) (db : membership_db A).

(** A number of general queries in a row, each triggered by the timer of the one
    before. *)
Fixpoint general_queries (n : nat) db : M A (membership_db A) :=
  match n with
  | O => mret db
  | S n => r ← querier_send_general_query clk snd w i tv db; general_queries n r.2
  end.

(** The interval the code chooses, in seconds, and the counter it leaves. *)
Definition schedule db : Z * Z :=
  let count := match general_query_timer db with
               | None => to_int32 (get_startup_query_count tv - 1)
               | Some _ => db_startup_query_count db
               end in
  if 0 <? count then (count - 1, get_startup_query_interval tv)
  else (count, get_query_interval tv).

Definition timer_ends e (p : option tid) (at_ns : Z) : Prop :=
  exists t tm, p = Some t /\ e_store e !! t = Some tm /\ tm_end_time tm = at_ns.

Lemma wp_general_query_schedule db (Q : bool * membership_db A -> env A -> Prop) e :
  (forall b e' t, timer_ends e' (Some t) (clk (e_reads e) + ms_to_ns ((schedule db).2 * 1000)) ->
    Q (b, set_general_query (Some t) (schedule db).1 db) e') ->
  wp (querier_send_general_query clk snd w i tv db) Q e.
Proof.
  intros HQ. unfold querier_send_general_query. fold (schedule db).
  destruct (schedule db) as [n d]. cbn [fst Datatypes.snd] in HQ.
  unfold make_timer, add_time_msg, now, alloc, insert_reminder.
  unfold wp, mbind at 1 2 3 4, M_bind. simpl.
  match goal with |- context [send_general_query snd i tv ?e1] =>
    pose proof (send_general_query_law (snd := snd) i tv e1) as Hlaw; unfold wp in Hlaw;
    destruct (send_general_query snd i tv e1) as [[b e']|]; [|done] end.
  simpl. apply HQ. eexists _, _. split; [reflexivity|].
  rewrite (io_store _ _ Hlaw). simpl. by rewrite lookup_insert_eq.
Qed.

Lemma general_queries_count n db e :
  1 <= get_startup_query_count tv < 2 ^ 31 ->
  match general_query_timer db with
  | None => True
  | Some _ => 0 <= db_startup_query_count db
  end ->
  wp (general_queries n db)
     (fun db' e' => (schedule db').1 = Z.max 0 ((schedule db).1 - Z.of_nat n)
        /\ ((schedule db').2 =
              if Z.of_nat n <? (match general_query_timer db with
                                | None => get_startup_query_count tv - 1
                                | Some _ => db_startup_query_count db
                                end)
              then get_startup_query_interval tv else get_query_interval tv)) e.
Proof.
  intros Hc. revert db e. induction n as [|n IH]; intros db e Hdb; simpl.
  - apply wp_ret. unfold schedule. change (Z.of_nat 0) with 0. destruct (general_query_timer db).
    + destruct (0 <? db_startup_query_count db) eqn:E; simpl; split; try done; bool_simpl; lia.
    + rewrite to_int32_small by lia. destruct (0 <? get_startup_query_count tv - 1) eqn:E;
        simpl; split; try done; bool_simpl; lia.
  - apply wp_bind, wp_general_query_schedule. intros b e1 t _. simpl.
    set (db1 := set_general_query (Some t) (schedule db).1 db).
    set (c0 := match general_query_timer db with
               | None => get_startup_query_count tv - 1 | Some _ => db_startup_query_count db end).
    assert (Hc1 : (schedule db).1 = Z.max 0 (c0 - 1) /\ 0 <= c0).
    { unfold schedule, c0. destruct (general_query_timer db); rewrite ?to_int32_small by lia;
        match goal with |- context [0 <? ?x] => destruct (Z.ltb_spec 0 x) end; simpl; lia. }
    assert (Hone : (schedule db1).1 = Z.max 0 ((schedule db).1 - 1)).
    { unfold schedule at 1, db1. simpl. destruct (Z.ltb_spec 0 (schedule db).1); simpl; lia. }
    assert (Hm : (Z.of_nat n <? (schedule db).1) = (Z.of_nat (S n) <? c0)).
    { destruct (Z.ltb_spec (Z.of_nat n) (schedule db).1), (Z.ltb_spec (Z.of_nat (S n)) c0);
        done || lia. }
    eapply wp_mono; [apply (IH db1); simpl; lia|].
    intros db' e' [H1 H2]. split.
    + rewrite H1, Hone. lia.
    + rewrite H2. change (db_startup_query_count db1) with (schedule db).1. simpl.
      by rewrite Hm.
Qed.

(** Startup: the general query number [n] of a new querier (the first one,
    sent by the constructor, is number 0) starts a timer of Startup Query
    Interval if [n] is below Startup Query Count - 1 and of Query Interval from
    then on, for every startup query count from 1 that fits an [int]. *)
Theorem startup_query_schedule n v e :
  1 <= get_startup_query_count tv < 2 ^ 31 ->
  wp (general_queries n (new_membership_db v))
     (fun db' e' => wp (querier_send_general_query clk snd w i tv db')
        (fun r e'' => timer_ends e'' (general_query_timer r.2)
           (clk (e_reads e') + ms_to_ns (1000 *
              (if Z.of_nat n <? get_startup_query_count tv - 1
               then get_startup_query_interval tv else get_query_interval tv)))) e') e.
Proof.
  intros Hc. eapply wp_mono; [by apply general_queries_count|]. intros db' e' [_ Hd].
  apply wp_general_query_schedule. intros b e'' t Ht. simpl in *.
  by rewrite Hd, Z.mul_comm in Ht.
Qed.
End GeneralQueries.

(** ** Departures from the comments of the source *)

Section Departures.
Context {A : Type} `{Address A} (clk : nat -> Z).
Context (snd : sender (A := A)) `{!SenderLaws snd} (w i : Z) (tv : timers_values).
Implicit Types (gaddr : A) (g : gaddr_info A) (e : env A) (db : membership_db A) (t : tid).

Lemma send_Q_group_stale gaddr g t e :
  group_retransmission_timer g = Some t -> group_retransmission_count g <= 0 ->
  send_Q_group clk snd w i tv gaddr g e = Some (set_group_retransmission None (-1) g, e).
Proof.
  intros Hgrt Hle. unfold send_Q_group, mbind, M_bind, mret, M_ret. rewrite Hgrt.
  by apply Z.ltb_ge in Hle as ->.
Qed.

(** Sending one group query, with [n] to go. *)
Lemma wp_send_Q_group_next gaddr g t ft e (Q : gaddr_info A -> env A -> Prop) :
  env_wf e -> group_retransmission_timer g = Some t -> 0 < group_retransmission_count g ->
  shared_filter_timer g = Some ft -> timer_is e ft FILTER_TIMER_MSG (Some gaddr) ->
  (forall t' e', env_ext e e' -> env_wf e' ->
    Q (set_group_retransmission (Some t') (group_retransmission_count g - 1) g) e') ->
  wp (send_Q_group clk snd w i tv gaddr g) Q e.
Proof.
  intros Hwf Hgrt Hpos Hft Htm HQ. unfold send_Q_group. rewrite Hgrt. apply wp_bind, wp_ret.
  apply Z.ltb_lt in Hpos. rewrite Hpos. apply wp_bind.
  eapply (wp_mono _ (fun g' e' => env_ext e e' /\ env_wf e' /\ exists t',
    g' = set_group_retransmission (Some t') (group_retransmission_count g - 1) g)).
  { rewrite Hgrt. case_if.
    - apply wp_bind_timer; [done|auto with menv|]. intros e1 Hext1 Hwf1 _. apply wp_ret. eauto.
    - apply wp_ret. split_and!; [done|done|eauto]. }
  intros g' e1 (Hext1 & Hwf1 & t' & ->). simpl. rewrite Hft.
  apply wp_bind, wp_deref, wp_bind. eapply wp_get_timer; [eauto with menv|]. intros tm _ _.
  apply wp_bind, wp_now. intros z e2 Hio2. apply wp_bind.
  eapply wp_mono; [apply send_mc_addr_specific_query_law|]. intros b e3 Hio3. apply wp_ret.
  apply env_io_ext in Hio2, Hio3. apply HQ; [by etrans; [|etrans]|].
  by eapply (ext_wf e2), (ext_wf e1).
Qed.

(** The first query of a group lowers the filter timer. *)
Lemma wp_send_Q_group_first gaddr g e (Q : gaddr_info A -> env A -> Prop) :
  env_wf e -> group_retransmission_timer g = None ->
  2 <= get_last_listener_query_count tv < 2 ^ 31 ->
  (forall t' ft e', env_ext e e' -> env_wf e' -> timer_is e' ft FILTER_TIMER_MSG (Some gaddr) ->
    Q (set_filter_timer (Some ft) (set_group_retransmission (Some t')
         (get_last_listener_query_count tv - 1) g)) e') ->
  wp (send_Q_group clk snd w i tv gaddr g) Q e.
Proof.
  intros Hwf Hgrt Hn HQ. unfold send_Q_group. rewrite Hgrt. apply wp_bind, wp_bind_timer;
    [done|auto with menv|]. intros e1 Hext1 Hwf1 Htm. apply wp_ret. cbn -[to_int32 Z.pow].
  rewrite to_int32_small by lia.
  rewrite (proj2 (Z.ltb_lt 0 (get_last_listener_query_count tv))) by lia.
  rewrite (proj2 (Z.ltb_lt 0 (get_last_listener_query_count tv - 1))) by lia.
  apply wp_bind, wp_bind_timer; [done|auto with menv|]. intros e2 Hext2 Hwf2 Htm2.
  apply wp_ret. simpl. apply wp_bind, wp_deref, wp_bind.
  eapply wp_get_timer; [eauto with menv|]. intros tm _ _.
  apply wp_bind, wp_now. intros z e3 Hio3. apply wp_bind.
  eapply wp_mono; [apply send_mc_addr_specific_query_law|]. intros b e4 Hio4. apply wp_ret.
  apply env_io_ext in Hio3, Hio4. assert (env_ext e2 e4) by (by etrans).
  apply (HQ _ (e_next e) e4); [by etrans; [|etrans]|by eapply (ext_wf e2)|].
  apply (timer_is_ext e2); [done|]. eauto with menv.
Qed.

(** With the default Last Listener Query Count of 2, the retransmission
    state of a group survives its two queries: a further "Send Q(MA)" only
    resets that state. It sends no query and does not lower the filter timer,
    although the comment in [send_Q] requires both. *)
Theorem second_leave_not_queried gaddr g e :
  env_wf e -> get_last_listener_query_count tv = 2 -> group_retransmission_timer g = None ->
  wp (g1 ← send_Q_group clk snd w i tv gaddr g; send_Q_group clk snd w i tv gaddr g1)
     (fun g2 e2 => send_Q_group clk snd w i tv gaddr g2 e2
                   = Some (set_group_retransmission None (-1) g2, e2)) e.
Proof.
  intros Hwf Hn Hgrt. apply wp_bind, wp_send_Q_group_first; [done|done|lia|].
  intros t1 ft e1 Hext1 Hwf1 Hft. eapply wp_send_Q_group_next; simpl; [done|done|lia|done|done|].
  intros t2 e2 Hext2 Hwf2. apply (send_Q_group_stale _ _ t2); [done|]. simpl. lia.
Qed.

(** A callback that has a result only if the querier asks for every source. *)
Definition expects_all_sources (db : membership_db A) gaddr : M A unit :=
  match get_group_membership_infos db gaddr with
  | (EXCLUDE_MODE, []) => mret tt
  | _ => undefined
  end.

(** A leave in an older version (TO_IN with no sources) for a group without
    listeners announces the group before it deletes the record: the callback
    is shown the membership EXCLUDE ({}), all sources, and after the handler
    the group has no record and no notification takes this back. *)
Theorem older_leave_announces_group gr db e :
  env_wf e -> group_info db !! gr_gaddr gr = None ->
  gr_record_type gr = CHANGE_TO_INCLUDE_MODE -> gr_slist gr = [] ->
  is_newest_version (gr_grp_mem_proto gr) = false ->
  is_older_or_equal_version (gr_grp_mem_proto gr) (querier_version_mode db) = true ->
  wp (receive_record clk snd w i tv expects_all_sources gr db)
     (fun db' _ => group_info db' !! gr_gaddr gr = None) e.
Proof.
  intros Hwf Hnone Hrt Hsl Hnew Hold. unfold receive_record, compatibility_coordination.
  rewrite Hnone, Hrt, Hsl, Hnew, Hold. apply wp_bind, wp_bind_timer; [done|auto with menv|].
  intros e1 Hext1 Hwf1 Htm. apply wp_ret. simpl. rewrite andb_false_r.
  apply wp_bind, wp_bind, wp_send_Q_own; simpl; [done|done|constructor|constructor|].
  intros e2 srt Hext2 Hwf2 Htm2 Hsrt. apply wp_bind, wp_mali_own; [done|].
  intros e3 Hext3 Hwf3 Htm3. unfold state_change_notification, expects_all_sources,
    get_group_membership_infos. simpl. rewrite lookup_insert_eq.
  unfold is_under_bakcward_compatibility_effects. simpl.
  apply wp_bind, wp_ret, wp_ret. simpl. apply wp_ret. simpl. by rewrite lookup_delete_eq.
Qed.

(** A BLOCK report in an older version for a group without listeners leaves
    an empty INCLUDE record in the database: the early return skips the
    deletion of unused records, so the record is not deleted until a later
    event for the group. *)
Theorem older_block_leaves_record gr db e (cb : membership_db A -> A -> M A unit) :
  env_wf e -> group_info db !! gr_gaddr gr = None ->
  gr_record_type gr = BLOCK_OLD_SOURCES ->
  is_newest_version (gr_grp_mem_proto gr) = false ->
  is_older_or_equal_version (gr_grp_mem_proto gr) (querier_version_mode db) = true ->
  wp (receive_record clk snd w i tv cb gr db)
     (fun db' _ => exists g, group_info db' !! gr_gaddr gr = Some g
        /\ filter_mode g = INCLUDE_MODE /\ include_requested_list g = []) e.
Proof.
  intros Hwf Hnone Hrt Hnew Hold. unfold receive_record, compatibility_coordination.
  rewrite Hnone, Hrt, Hnew, Hold. apply wp_bind, wp_bind_timer; [done|auto with menv|].
  intros e1 Hext1 Hwf1 Htm. apply wp_ret. unfold is_in_backward_compatibility_mode. simpl.
  rewrite Hnew. simpl. apply wp_ret. eexists. simpl. by rewrite lookup_insert_eq.
Qed.
End Departures.

(** ** Instances

    The theorems at a concrete querier: IGMPv3 on interface 7, with the default
    timers, a clock that ticks at every reading, sockets that always work. *)

Definition ex_clk (n : nat) : Z := Z.of_nat n * 1000.
Definition ex_sock (n : nat) (a : action) : bool := true.
Definition ex_sender : sender (A := ipv4) := igmp_sender ex_clk ex_sock.
Definition ex_cb (db : membership_db ipv4) (gaddr : ipv4) : M ipv4 unit := mret tt.
Definition ex_group : ipv4 := mk_ipv4 232 1 1 1.
Definition ex_source (n : Z) : source ipv4 := new_source (mk_ipv4 10 0 0 n).
Definition ex_report (rt : mcast_addr_record_type) (l : list (source ipv4))
    (v : group_mem_protocol) : group_record_msg ipv4 :=
  {| gr_if_index := 7; gr_record_type := rt; gr_gaddr := ex_group; gr_slist := l;
     gr_grp_mem_proto := v |}.
Definition ex_db : membership_db ipv4 := new_membership_db IGMPv3.

Lemma ex_cb_io (db : membership_db ipv4) gaddr e :
  wp (ex_cb db gaddr) (fun _ e' => env_io e e') e.
Proof. by apply wp_ret. Qed.

Lemma empty_env_wf : env_wf (A := ipv4) empty_env.
Proof.
  split; intros t; simpl; [|by rewrite lookup_empty]. rewrite lookup_empty.
  split; [lia|by intros []].
Qed.

Lemma ex_db_wf : db_wf empty_env ex_db.
Proof. split; [apply empty_env_wf|apply map_Forall_empty|apply points_to_None]. Qed.

Lemma ex_fresh : fresh_sources [ex_source 1; ex_source 2].
Proof. split; repeat constructor. Qed.

Lemma receive_record_refines_witness :
  wp (receive_record ex_clk ex_sender 0 7 new_timers_values ex_cb
        (ex_report MODE_IS_EXCLUDE [ex_source 1; ex_source 2] IGMPv3) ex_db)
     (fun db' e' => evolves empty_env e' db' /\ others_kept ex_group ex_db db'
        /\ group_state db' ex_group = EXCLUDE (∅ ∩ sl_keys [ex_source 1; ex_source 2])
             (sl_keys [ex_source 1; ex_source 2] ∖ ∅)) empty_env.
Proof.
  apply (receive_record_refines ex_clk ex_sender 0 7 new_timers_values ex_cb ex_cb_io
    (ex_report MODE_IS_EXCLUDE [ex_source 1; ex_source 2] IGMPv3) ex_db empty_env
    ex_db_wf ex_fresh).
Defined.

(** A group in INCLUDE mode with one source, whose timer is timer 0. *)
Definition ex_timer : timer_msg ipv4 := new_timer SOURCE_TIMER_MSG 7 (Some ex_group) None 0 260000.
Definition ex_env : env ipv4 :=
  {| e_reads := 1; e_next := 1%nat; e_store := {[0%nat := ex_timer]}; e_timing := []; e_lost := []; e_log := [] |}.
Definition ex_db1 : membership_db ipv4 :=
  set_group ex_group (set_irl [set_timer (ex_source 1) (Some 0%nat) (-1)]
    (new_gaddr_info IGMPv3)) ex_db.

Lemma ex_env_wf : env_wf ex_env.
Proof.
  split; intros t; simpl.
  - destruct (decide (t = 0%nat)) as [->|Hne].
    + rewrite lookup_singleton_eq. split; [eauto|lia].
    + rewrite lookup_singleton_ne by done. split; [lia|by intros []].
  - intros tm [<- <-]%lookup_singleton_Some. split; [done|]. split; [right; by eexists|by intros [=]].
Qed.

Lemma ex_timer_is : timer_is ex_env 0%nat SOURCE_TIMER_MSG (Some ex_group).
Proof. eexists. simpl. by rewrite lookup_singleton_eq. Qed.

Lemma ex_db1_wf : db_wf ex_env ex_db1.
Proof.
  split; [apply ex_env_wf| |apply points_to_None].
  apply map_Forall_insert_2; [|apply map_Forall_empty].
  split; simpl; try apply points_to_None; try constructor; try constructor; try done.
  exists 0%nat. split; [done|apply ex_timer_is].
Qed.

Lemma ex_db1_over : retransmission_over 0%nat ex_db1.
Proof.
  intros gaddr g Hg Hr. simpl in Hg.
  apply lookup_insert_Some in Hg as [[_ <-]|[_ Hg]]; [done|by rewrite lookup_empty in Hg].
Qed.

Lemma timer_triggerd_refines_witness :
  match timer_triggerd ex_clk ex_sender 0 7 new_timers_values ex_cb false 0%nat ex_db1 ex_env with
  | Some (db', e') => retransmission_over 0%nat ex_db1 /\ evolves ex_env e' db'
      /\ forall gaddr, group_state db' gaddr = rfc_timer ex_timer 0%nat ex_db1 gaddr
  | None => null_filter_query 0%nat ex_db1
  end.
Proof.
  apply (timer_triggerd_refines ex_clk ex_sender 0 7 new_timers_values ex_cb ex_cb_io);
    [apply ex_db1_wf|reflexivity].
Defined.

Lemma ex_new_querier :
  exists db0 e1, new_querier ex_clk ex_sender 0 7 new_timers_values IGMPv3 empty_env
                 = Some (Some db0, e1).
Proof.
  assert (Hr : match new_querier ex_clk ex_sender 0 7 new_timers_values IGMPv3 empty_env with
               | Some (Some _, _) => true | _ => false end = true) by reflexivity.
  destruct (new_querier ex_clk ex_sender 0 7 new_timers_values IGMPv3 empty_env)
    as [[[db|] e]|]; [eauto|done|done].
Qed.

Lemma querier_invariant_witness :
  exists db0 e1, new_querier ex_clk ex_sender 0 7 new_timers_values IGMPv3 empty_env
                 = Some (Some db0, e1) /\ db_wf e1 db0.
Proof.
  destruct ex_new_querier as (db0 & e1 & Hnew). exists db0, e1. split; [exact Hnew|].
  apply (querier_invariant ex_clk ex_sender 0 7 new_timers_values ex_cb ex_cb_io IGMPv3 empty_env
    db0 e1 db0 e1 empty_env_wf Hnew). apply rtc_refl.
Defined.

Lemma startup_query_schedule_witness :
  wp (general_queries ex_clk ex_sender 0 7 new_timers_values 1 (new_membership_db IGMPv3))
     (fun db' e' => wp (querier_send_general_query ex_clk ex_sender 0 7 new_timers_values db')
        (fun r e'' => timer_ends e'' (general_query_timer r.2)
           (ex_clk (e_reads e') + ms_to_ns (1000 * 125))) e') (empty_env (A := ipv4)).
Proof.
  apply (startup_query_schedule ex_clk ex_sender 0 7 new_timers_values 1 IGMPv3 empty_env).
  cbn. lia.
Defined.

Lemma forwarding_agrees_witness :
  suggest_to_forward_traffic 7 ex_db1 ex_group [(ex_source 1, [3]); (ex_source 2, [3])]
    (fun _ => true)
  = (fun e => if wants (get_group_membership_infos ex_db1 ex_group) (saddr e.1) && true
              then (e.1, e.2 ++ [7]) else e) <$> [(ex_source 1, [3]); (ex_source 2, [3])].
Proof. apply (forwarding_agrees 7 ex_db1 ex_group _ (fun _ => true)). reflexivity. Defined.

Lemma second_leave_not_queried_witness :
  wp (g1 ← send_Q_group ex_clk ex_sender 0 7 new_timers_values ex_group (new_gaddr_info IGMPv3);
      send_Q_group ex_clk ex_sender 0 7 new_timers_values ex_group g1)
     (fun g2 e2 => send_Q_group ex_clk ex_sender 0 7 new_timers_values ex_group g2 e2
                   = Some (set_group_retransmission None (-1) g2, e2)) empty_env.
Proof.
  apply (second_leave_not_queried ex_clk ex_sender 0 7 new_timers_values ex_group
    (new_gaddr_info IGMPv3) empty_env empty_env_wf); reflexivity.
Defined.

Lemma older_leave_announces_group_witness :
  wp (receive_record ex_clk ex_sender 0 7 new_timers_values expects_all_sources
        (ex_report CHANGE_TO_INCLUDE_MODE [] IGMPv2) ex_db)
     (fun db' _ => group_info db' !! ex_group = None) empty_env.
Proof.
  apply (older_leave_announces_group ex_clk ex_sender 0 7 new_timers_values
    (ex_report CHANGE_TO_INCLUDE_MODE [] IGMPv2) ex_db empty_env empty_env_wf); reflexivity.
Defined.

Lemma older_block_leaves_record_witness :
  wp (receive_record ex_clk ex_sender 0 7 new_timers_values ex_cb
        (ex_report BLOCK_OLD_SOURCES [ex_source 1] IGMPv2) ex_db)
     (fun db' _ => exists g, group_info db' !! ex_group = Some g
        /\ filter_mode g = INCLUDE_MODE /\ include_requested_list g = []) empty_env.
Proof.
  apply (older_block_leaves_record ex_clk ex_sender 0 7 new_timers_values
    (ex_report BLOCK_OLD_SOURCES [ex_source 1] IGMPv2) ex_db empty_env ex_cb empty_env_wf);
    reflexivity.
Defined.

(** A group in INCLUDE mode with a pending group retransmission. *)
Definition ex_ret_timer : timer_msg ipv4 :=
  new_timer RET_GROUP_TIMER_MSG 7 (Some ex_group) None 0 1000.
Definition ex_ret_env : env ipv4 :=
  {| e_reads := 1; e_next := 1%nat; e_store := {[0%nat := ex_ret_timer]}; e_timing := [];
     e_lost := []; e_log := [] |}.
Definition ex_ret_group : gaddr_info ipv4 :=
  set_group_retransmission (Some 0%nat) 1 (new_gaddr_info IGMPv3).

Lemma ex_ret_db_wf : db_wf ex_ret_env (set_group ex_group ex_ret_group ex_db).
Proof.
  split; [| |apply points_to_None].
  - split; intros t; simpl.
    + destruct (decide (t = 0%nat)) as [->|Hne].
      * rewrite lookup_singleton_eq. split; [eauto|lia].
      * rewrite lookup_singleton_ne by done. split; [lia|by intros []].
    + intros tm [<- <-]%lookup_singleton_Some. split; [done|]. split; [right; by eexists|by intros [=]].
  - apply map_Forall_insert_2; [|apply map_Forall_empty].
    split; simpl; try apply points_to_None; try constructor; try done.
    apply points_to_Some. eexists. simpl. by rewrite lookup_singleton_eq.
Qed.

Lemma ret_group_timer_null_filter_witness :
  timer_triggerd ex_clk ex_sender 0 7 new_timers_values ex_cb false 0%nat
    (set_group ex_group ex_ret_group ex_db) ex_ret_env = None.
Proof.
  apply (ret_group_timer_null_filter ex_clk ex_sender 0 7 new_timers_values ex_cb false ex_group
    ex_ret_group); [apply ex_ret_db_wf|reflexivity|reflexivity|reflexivity].
Defined.
