(* ===== verification/Notify.v ===== *)
(** * What a querier tells the routing

    The calls a handler of a querier makes, in order. Whenever the membership of
    a group changes the routing is told, with a database that gives the same
    answers as the one that is kept; everything else is queries. [trace] speaks
    of a computation that has a result ([wp] says when it has one). *)

From S2P Require Import Prelude Def TimersValues AddrStorage Timing Messages Sender.
From S2P Require Import MembershipDb Querier QuerierSpec QuerierReports QuerierTimers QuerierTheorems.

Local Open Scope Z_scope.

(** ** Traces *)

Section Trace.
Context {A : Type} `{Address A}.

(** If the computation has a result, the calls it made and the result are
    related. *)
Definition trace {X} (m : M A X) (R : X -> list action -> Prop) : Prop :=
  forall e x e', m e = Some (x, e') -> exists l, e_log e' = e_log e ++ l /\ R x l.

Lemma trace_ret {X} (x : X) (R : X -> list action -> Prop) : R x [] -> trace (mret x) R.
Proof. intros HR e y e' [= <- <-]. exists []. by rewrite app_nil_r. Qed.

Lemma trace_mono {X} (m : M A X) (R R' : X -> list action -> Prop) :
  trace m R -> (forall x l, R x l -> R' x l) -> trace m R'.
Proof. intros Hm HR e x e' E. destruct (Hm e x e' E) as (l & ? & ?). eauto. Qed.

Lemma trace_bind {X Y} (m : M A X) (f : X -> M A Y) (R : X -> list action -> Prop)
    (R' : Y -> list action -> Prop) :
  trace m R -> (forall x l, R x l -> trace (f x) (fun y l' => R' y (l ++ l'))) -> trace (m ≫= f) R'.
Proof.
  intros Hm Hf e y e' E. unfold mbind, M_bind in E. destruct (m e) as [[x e1]|] eqn:E1; [|done].
  destruct (Hm _ _ _ E1) as (l & Hl & HR). destruct (Hf _ _ HR _ _ _ E) as (l' & Hl' & HR').
  exists (l ++ l'). split; [|done]. by rewrite Hl', Hl, app_assoc.
Qed.

Lemma trace_bind_ret {X Y} (x : X) (f : X -> M A Y) (R : Y -> list action -> Prop) :
  trace (f x) R -> trace (mret x ≫= f) R.
Proof. done. Qed.

Lemma trace_bind_deref {X Y} (p : option X) (f : X -> M A Y) (R : Y -> list action -> Prop) :
  (forall x, p = Some x -> trace (f x) R) -> trace (deref p ≫= f) R.
Proof. intros Hf e y e' E. destruct p as [x|]; [|done]. by apply (Hf x eq_refl). Qed.

Lemma trace_silent {X} (m : M A X) :
  (forall e x e', m e = Some (x, e') -> e_log e' = e_log e) -> trace m (fun _ l => l = []).
Proof. intros Hm e x e' E. exists []. by rewrite (Hm _ _ _ E), app_nil_r. Qed.

Lemma trace_call (sock : nat -> action -> bool) a : trace (call sock a) (fun _ l => l = [a]).
Proof. intros e x e' [= <- <-]. by exists [a]. Qed.

Lemma trace_wp {X} (m : M A X) (R : X -> list action -> Prop) (Q : X -> env A -> Prop) e :
  wp m Q e -> trace m R ->
  wp m (fun x e' => Q x e' /\ exists l, e_log e' = e_log e ++ l /\ R x l) e.
Proof. unfold wp. intros HQ Hm. destruct (m e) as [[x e']|] eqn:E; [|done]. split; [done|]. by apply Hm. Qed.

(** ** Computations that make calls of one kind only *)

Definition makes (P : action -> Prop) {X} (m : M A X) (K : X -> Prop) : Prop :=
  trace m (fun x l => Forall P l /\ K x).

Definition always {X} (_ : X) : Prop := True.

Context (P : action -> Prop).

Lemma makes_ret {X} (x : X) (K : X -> Prop) : K x -> makes P (mret x) K.
Proof. intros HK. apply trace_ret. by split. Qed.

Lemma makes_bind {X Y} (m : M A X) (f : X -> M A Y) (K : X -> Prop) (K' : Y -> Prop) :
  makes P m K -> (forall x, K x -> makes P (f x) K') -> makes P (m ≫= f) K'.
Proof.
  intros Hm Hf. eapply trace_bind; [exact Hm|]. intros x l [Hl HK]. eapply trace_mono; [by apply Hf|].
  intros y l' [Hl' HK']. split; [|done]. by apply Forall_app.
Qed.

Lemma makes_mono {X} (m : M A X) (K K' : X -> Prop) : makes P m K -> (forall x, K x -> K' x) -> makes P m K'.
Proof. intros Hm HK. eapply trace_mono; [exact Hm|]. intros x l [? ?]. split; auto. Qed.

Lemma makes_silent {X} (m : M A X) :
  (forall e x e', m e = Some (x, e') -> e_log e' = e_log e) -> makes P m always.
Proof. intros Hm. eapply trace_mono; [by apply trace_silent|]. intros x l ->. by split. Qed.

Lemma makes_deref {X} (p : option X) : makes P (deref p) always.
Proof. apply makes_silent. intros e x e' E. destruct p; [|done]. by injection E as _ <-. Qed.

Lemma makes_get_timer t : makes P (get_timer t) always.
Proof. apply makes_silent. intros e x e'. unfold get_timer. destruct (_ !! _); [|done]. by intros [= _ <-]. Qed.

Lemma makes_modify_timer t f : makes P (modify_timer t f) always.
Proof. apply makes_silent. intros e x e'. unfold modify_timer. destruct (_ !! _); [|done]. by intros [= _ <-]. Qed.

Lemma makes_now clk : makes P (now clk) always.
Proof. apply makes_silent. by intros e x e' [= _ <-]. Qed.

Lemma makes_make_timer clk ty i g s d : makes P (make_timer clk ty i g s d) always.
Proof. apply makes_silent. by intros e x e' [= _ <-]. Qed.

Lemma makes_add_time_msg clk d w t : makes P (add_time_msg clk d w t) always.
Proof. apply makes_silent. by intros e x e' [= _ <-]. Qed.

Lemma makes_call sock a : P a -> makes P (call sock a) always.
Proof. intros Ha. eapply trace_mono; [apply trace_call|]. intros b l ->. split; [by constructor|done]. Qed.

Lemma makes_foldM {X Y} (f : X -> Y -> M A X) x l :
  (forall x y, makes P (f x y) always) -> makes P (foldM f x l) always.
Proof.
  intros Hf. revert x. induction l as [|y l IH]; intros x; [by apply makes_ret|].
  eapply makes_bind; [apply Hf|]. intros x' _. apply IH.
Qed.

Lemma makes_forM {Y} (f : Y -> M A unit) l :
  (forall y, makes P (f y) always) -> makes P (forM l f) always.
Proof.
  intros Hf. induction l as [|y l IH]; [by apply makes_ret|]. eapply makes_bind; [apply Hf|]. done.
Qed.
End Trace.

(** The calls of a query. *)
Definition querier_call (a : action) : Prop :=
  match a with ChooseIf _ | SendQuery _ => True | _ => False end.

Notation quiet := (makes querier_call).

#[export] Hint Resolve makes_deref makes_get_timer makes_modify_timer makes_now makes_make_timer
  makes_add_time_msg makes_foldM makes_forM : quiet.
#[export] Hint Extern 1 (makes _ (call _ _) _) => apply makes_call; exact I : quiet.
#[export] Hint Extern 0 (always _) => exact I : quiet.

(** Step through a computation. *)
Ltac quiet_steps :=
  repeat lazymatch goal with
         | |- makes _ (mret _) _ => apply makes_ret
         | |- makes _ (mbind _ _) _ => eapply (makes_bind _ _ _ always); [|intros ? ?]
         | |- makes _ (if ?b then _ else _) _ => destruct b
         | |- makes _ (match ?x with _ => _ end) _ => destruct x
         | |- makes _ _ _ => by eauto with quiet
         | |- always _ => exact I
         end.

(** ** Senders *)

(** The queries of a sender are quiet. *)
Class QuietSender {A} `{Address A} (snd : sender (A := A)) : Prop := {
  quiet_general i tv : quiet (send_general_query snd i tv) always;
  quiet_group i tv g s : quiet (send_mc_addr_specific_query snd i tv g s) always;
  quiet_sources i tv g l : quiet (send_mc_addr_and_src_specific_query snd i tv g l) always
}.

#[export] Hint Resolve quiet_general quiet_group quiet_sources : quiet.

(** The calls for a record: the reception state of the socket is set. *)
Definition record_calls (i : Z) (g : addr_storage) (mf : mc_filter) (srcs : list addr_storage)
    : list action :=
  if bool_decide (mf = INCLUDE_MODE) && bool_decide (srcs = []) then [LeaveGroup g i]
  else [JoinGroup g i; SetSourceFilter i g mf srcs].

(** A sender that passes every record on to the kernel. *)
Class RecordingSender {A} `{Address A} (snd : sender (A := A)) : Prop :=
  send_record_trace i mf g l :
    trace (send_record snd i mf g l)
          (fun _ acts => acts = record_calls i g mf ((fun s => to_storage (saddr s)) <$> l)).

Section Senders.
Context {A : Type} `{Address A} (clk : nat -> Z) (sock : nat -> action -> bool).

Lemma quiet_query_loop tv (l : list (source A)) : quiet (query_loop clk tv l) always.
Proof. unfold query_loop, query_step. apply makes_foldM. intros [[[rc out] lo] hi] s. quiet_steps. Qed.

#[export] Instance igmp_sender_quiet : QuietSender (igmp_sender clk sock).
Proof.
  split; intros; simpl; unfold igmp_source_query, send_igmpv3_query; cbv zeta;
    pose proof quiet_query_loop; quiet_steps.
Qed.

#[export] Instance mld_sender_quiet : QuietSender (mld_sender clk sock).
Proof.
  split; intros; simpl; unfold mld_source_query, send_mldv2_query; cbv zeta;
    pose proof quiet_query_loop; quiet_steps.
Qed.

#[export] Instance igmp_sender_recording : RecordingSender (igmp_sender clk sock).
Proof.
  intros i mf g l. simpl. unfold igmp_send_record, record_calls.
  assert (bool_decide ((fun s => to_storage (saddr s)) <$> l = []) = bool_decide (l = [])) as ->.
  { apply bool_decide_ext. by destruct l. }
  destruct (bool_decide (mf = INCLUDE_MODE) && bool_decide (l = [])).
  - eapply trace_bind; [apply trace_call|]. intros b acts ->. by apply trace_ret.
  - assert (bool_decide (mf = EXCLUDE_MODE) || bool_decide (mf = INCLUDE_MODE) = true) as ->
      by (by destruct mf).
    eapply trace_bind; [apply trace_call|]. intros b acts ->.
    eapply trace_mono; [apply trace_call|]. by intros b' acts ->.
Qed.
End Senders.

(** ** The handlers of a querier *)

Section Handlers.
Context {A : Type} `{Address A} (clk : nat -> Z).
Context (snd : sender (A := A)) `{!QuietSender snd} (w i : Z) (tv : timers_values).

Implicit Types (gaddr : A) (g : gaddr_info A) (db : membership_db A) (t : tid).

(** A helper keeps the filter mode and the effects of older hosts. *)
Definition same_mode g g' : Prop :=
  filter_mode g' = filter_mode g /\ older_host_present_timer g' = older_host_present_timer g.

#[local] Instance same_mode_preorder : PreOrder same_mode.
Proof. split; [by intros g|]. intros g1 g2 g3 [] []. split; congruence. Qed.

Lemma mali_filter_quiet gaddr g : quiet (mali_filter clk w i tv gaddr g) (same_mode g).
Proof. unfold mali_filter. cbv zeta. quiet_steps. done. Qed.

Lemma mali_own_quiet gaddr g tmp : quiet (mali_own clk w i tv gaddr g tmp) (same_mode g).
Proof. unfold mali_own, mali_sources, mali_list. cbv zeta. quiet_steps; done. Qed.

Lemma send_Q_sources_quiet gaddr g sl tmp r :
  quiet (send_Q_sources clk snd w i tv gaddr g sl tmp r) (fun x => same_mode g x.1).
Proof. unfold send_Q_sources. cbv zeta. quiet_steps; done. Qed.

Lemma send_Q_own_quiet gaddr g tmp r : quiet (send_Q_own clk snd w i tv gaddr g tmp r) (same_mode g).
Proof.
  unfold send_Q_own. eapply makes_bind; [apply send_Q_sources_quiet|]. intros [g' l] Hg.
  apply makes_ret. by transitivity g'.
Qed.

Lemma send_Q_group_quiet gaddr g : quiet (send_Q_group clk snd w i tv gaddr g) (same_mode g).
Proof.
  unfold send_Q_group. apply (makes_bind _ _ _ (same_mode g)).
  { cbv zeta. destruct (group_retransmission_timer g); quiet_steps; done. }
  intros g1 H1. destruct (0 <? group_retransmission_count g1); [|by apply makes_ret].
  apply (makes_bind _ _ _ (same_mode g)).
  { cbv zeta. quiet_steps; done. }
  intros g2 H2. quiet_steps. done.
Qed.

(** *** Notifications *)

Context (cb : membership_db A -> A -> M A unit) (C : membership_db A -> A -> list action -> Prop).
Hypothesis cb_trace : forall db gaddr, trace (cb db gaddr) (fun _ l => C db gaddr l).

(** Two databases give the same answer for a group. *)
Definition same_answers gaddr db db' : Prop :=
  forall s, wants (get_group_membership_infos db gaddr) s = wants (get_group_membership_infos db' gaddr) s.

(** The routing was told the membership of the group as it is in [db'], or it
    did not change; [T] are the calls made for a group. *)
Definition told (T : A -> action -> Prop) gaddr db db' (l : list action) : Prop :=
  (Forall querier_call l /\ same_answers gaddr db db')
  \/ exists l0 dbn ln lq, l = l0 ++ ln ++ lq /\ Forall (T gaddr) l0 /\ C dbn gaddr ln
       /\ Forall querier_call lq
       /\ get_group_membership_infos dbn gaddr = get_group_membership_infos db' gaddr.

Lemma same_answers_refl gaddr db : same_answers gaddr db db.
Proof. by intros s. Qed.

Definition notifies (rt : mcast_addr_record_type) : bool :=
  match rt with BLOCK_OLD_SOURCES | UNKNOWN_RECORD _ => false | _ => true end.

(** A handler that tells the routing the record it returns. *)
Definition tells gaddr g db g' (l : list action) : Prop :=
  older_host_present_timer g' = older_host_present_timer g
  /\ exists l1 ln, l = l1 ++ ln /\ Forall querier_call l1 /\ C (set_group gaddr g' db) gaddr ln.

Lemma notify_tells gaddr g db :
  trace (state_change_notification cb (set_group gaddr g db) gaddr;; mret g) (tells gaddr g db).
Proof.
  eapply trace_bind; [apply cb_trace|]. intros [] ln Hln. apply trace_ret. split; [done|].
  exists [], ln. rewrite app_nil_r. by split_and!; [|constructor|].
Qed.

Lemma tells_bind {X} (m : M A X) (K : X -> Prop) f gaddr g db :
  quiet m K -> (forall x, K x -> trace (f x) (tells gaddr g db)) -> trace (m ≫= f) (tells gaddr g db).
Proof.
  intros Hm Hf. eapply trace_bind; [exact Hm|]. intros x l [Hl HK]. eapply trace_mono; [by apply Hf|].
  intros g' l' (Ho & l1 & ln & -> & Hl1 & HC). split; [done|]. exists (l ++ l1), ln.
  by rewrite app_assoc; split_and!; [|apply Forall_app|].
Qed.

Lemma tells_mode gaddr g1 g db (m : M A (gaddr_info A)) : older_host_present_timer g1 = older_host_present_timer g ->
  trace m (tells gaddr g1 db) -> trace m (tells gaddr g db).
Proof.
  intros Hg Hm. eapply trace_mono; [exact Hm|]. intros g' l (Ho & Hl). split; [congruence|done].
Qed.

(** The steps of a handler up to its notification. *)
Ltac tells_step :=
  lazymatch goal with
  | |- trace (mbind _ (state_change_notification _ _ _)) _ =>
      eapply tells_mode; [|apply notify_tells]; try done
  | |- trace (mbind _ (mali_own _ _ _ _ _ _ _)) _ => eapply tells_bind; [apply mali_own_quiet|intros ? [_ ?]]
  | |- trace (mbind _ (mali_filter _ _ _ _ _ _)) _ => eapply tells_bind; [apply mali_filter_quiet|intros ? [_ ?]]
  | |- trace (mbind _ (send_Q_own _ _ _ _ _ _ _ _ _)) _ => eapply tells_bind; [apply send_Q_own_quiet|intros ? [_ ?]]
  | |- trace (mbind _ (send_Q_group _ _ _ _ _ _ _)) _ => eapply tells_bind; [apply send_Q_group_quiet|intros ? [_ ?]]
  end.

(** A handler that is quiet keeps the mode of the record. *)
Definition handler_post (rt : mcast_addr_record_type) gaddr g db g' (l : list action) : Prop :=
  if notifies rt then tells gaddr g db g' l else Forall querier_call l /\ same_mode g g'.

Lemma include_mode_trace rt gaddr B g db :
  trace (receive_record_in_include_mode clk snd w i tv cb rt gaddr B g db) (handler_post rt gaddr g db).
Proof.
  unfold receive_record_in_include_mode, handler_post. cbv zeta.
  destruct rt; cbn [notifies]; try (repeat tells_step; simpl in *; congruence).
  - apply send_Q_own_quiet.
  - by apply makes_ret.
Qed.

Lemma mali_sources_quiet gaddr l tmp : quiet (mali_sources clk w i tv gaddr l tmp) always.
Proof. unfold mali_sources, mali_list. cbv zeta. quiet_steps. Qed.

Lemma exclude_mode_trace rt gaddr B g db :
  trace (receive_record_in_exclude_mode clk snd w i tv cb rt gaddr B g db) (handler_post rt gaddr g db).
Proof.
  unfold receive_record_in_exclude_mode, handler_post. cbv zeta.
  destruct rt; cbn [notifies]; try (repeat tells_step; simpl in *; congruence).
  - eapply tells_bind; [apply mali_sources_quiet|]. intros A1 _. repeat tells_step; simpl in *; congruence.
  - eapply makes_mono; [apply send_Q_own_quiet|]. intros g' [Hf Ho]. by split.
  - by apply makes_ret.
Qed.

(** *** Reports *)

Definition known_record db gaddr : gaddr_info A :=
  default (new_gaddr_info (querier_version_mode db)) (group_info db !! gaddr).

(** The record of a group after a report; a report of the newest version does
    not change the effects of older hosts. *)
Definition received (gr : group_record_msg A) db db' (l : list action) : Prop :=
  exists g', (is_newest_version (gr_grp_mem_proto gr) = true ->
              older_host_present_timer g' = older_host_present_timer (known_record db (gr_gaddr gr)))
    /\ (db' = set_group (gr_gaddr gr) g' db
        \/ db' = del_group (gr_gaddr gr) db /\ ginfo_state g' = INCLUDE ∅)
    /\ if notifies (gr_record_type gr)
       then exists l1 ln, l = l1 ++ ln /\ Forall querier_call l1
              /\ C (set_group (gr_gaddr gr) g' db) (gr_gaddr gr) ln
       else Forall querier_call l.

Lemma compatibility_quiet gr g db :
  quiet (compatibility_coordination clk w i tv gr g db)
    (fun g1 => is_newest_version (gr_grp_mem_proto gr) = true ->
               older_host_present_timer g1 = older_host_present_timer g).
Proof.
  unfold compatibility_coordination. destruct (is_newest_version _); cbn [negb andb];
    [by apply makes_ret|]. cbv zeta. quiet_steps; done.
Qed.

Lemma handler_received gr g1 db (m : M A (gaddr_info A)) (k : gaddr_info A -> M A (membership_db A)) :
  (is_newest_version (gr_grp_mem_proto gr) = true ->
   older_host_present_timer g1 = older_host_present_timer (known_record db (gr_gaddr gr))) ->
  trace m (handler_post (gr_record_type gr) (gr_gaddr gr) g1 db) ->
  (forall g', exists db', k g' = mret db'
     /\ (db' = set_group (gr_gaddr gr) g' db
         \/ db' = del_group (gr_gaddr gr) db /\ ginfo_state g' = INCLUDE ∅)) ->
  trace (m ≫= k) (received gr db).
Proof.
  intros Hg1 Hm Hk. eapply trace_bind; [exact Hm|]. intros g' l Hl. destruct (Hk g') as (db' & -> & Hdb').
  apply trace_ret. exists g'. rewrite app_nil_r. unfold handler_post in Hl.
  destruct (notifies (gr_record_type gr)).
  - destruct Hl as (Ho & Hl). split_and!; [|done..]. intros Hn. rewrite Ho. auto.
  - destruct Hl as (Hl & _ & Ho). split_and!; [|done..]. intros Hn. rewrite Ho. auto.
Qed.

Lemma receive_record_trace gr db :
  trace (receive_record clk snd w i tv cb gr db) (received gr db).
Proof.
  unfold receive_record. cbv zeta. fold (known_record db (gr_gaddr gr)).
  eapply trace_bind; [apply compatibility_quiet|]. intros g1 l1 [Hl1 Hg1].
  enough (Hrest : forall B, trace (if is_in_backward_compatibility_mode g1
       && bool_decide (gr_record_type gr = BLOCK_OLD_SOURCES) then mret (set_group (gr_gaddr gr) g1 db)
     else match filter_mode g1 with
          | INCLUDE_MODE =>
            g ← receive_record_in_include_mode clk snd w i tv cb (gr_record_type gr) (gr_gaddr gr) B g1 db;
            if bool_decide (filter_mode g = INCLUDE_MODE) && bool_decide (include_requested_list g = [])
            then mret (del_group (gr_gaddr gr) db) else mret (set_group (gr_gaddr gr) g db)
          | EXCLUDE_MODE =>
            g ← receive_record_in_exclude_mode clk snd w i tv cb (gr_record_type gr) (gr_gaddr gr) B g1 db;
            mret (set_group (gr_gaddr gr) g db)
          end) (received gr db)).
  { eapply trace_mono; [apply Hrest|]. intros db' l (g' & Ho & Hdb & Hl). exists g'. split_and!; [done..|].
    destruct (notifies (gr_record_type gr)); [|by apply Forall_app].
    destruct Hl as (l2 & ln & -> & Hl2 & HC). exists (l1 ++ l2), ln. rewrite app_assoc.
    by split_and!; [|apply Forall_app|]. }
  intros B. destruct (is_in_backward_compatibility_mode g1 && bool_decide (gr_record_type gr = BLOCK_OLD_SOURCES)) eqn:Hb.
  { apply andb_true_iff in Hb as [_ Hb]. apply bool_decide_eq_true in Hb. apply trace_ret. exists g1.
    rewrite Hb. split_and!; [done|by left|constructor]. }
  destruct (filter_mode g1).
  - eapply (handler_received gr g1); [done|apply include_mode_trace|]. intros g'. simpl.
    case_if; eexists; (split; [reflexivity|]); [right|by left]. split; [done|].
    bool_simpl. unfold ginfo_state.
    by match goal with H1 : filter_mode g' = _, H2 : include_requested_list g' = _ |- _ => rewrite H1, H2 end.
  - eapply (handler_received gr g1); [done|apply exclude_mode_trace|]. intros g'. eauto.
Qed.
End Handlers.

(** ** Answers *)

Section Answers.
Context {A : Type} `{Address A}.
Implicit Types (gaddr : A) (g : gaddr_info A) (db : membership_db A).

(** An older host is present in a group. *)
Definition older_present db gaddr : bool :=
  match group_info db !! gaddr with
  | Some g => is_under_bakcward_compatibility_effects g
  | None => false
  end.

Lemma wants_spec db gaddr s :
  wants (get_group_membership_infos db gaddr) s = true <->
  rfc_forwards (group_state db gaddr) s \/ older_present db gaddr = true.
Proof.
  pose (db1 := {| general_query_timer := None; db_startup_query_count := 0;
    querier_version_mode := IGMPv3; is_querier := true; group_info := group_info db |}).
  change (get_group_membership_infos db gaddr) with (get_group_membership_infos db1 gaddr).
  rewrite (proj2 (suggest_wants 0 db1 gaddr [] (fun _ => true) eq_refl) s).
  change (group_state db1 gaddr) with (group_state db gaddr). unfold older_present. simpl.
  destruct (group_info db !! gaddr); naive_solver.
Qed.

Lemma answers_agree gaddr db db' :
  (forall s, rfc_forwards (group_state db gaddr) s <-> rfc_forwards (group_state db' gaddr) s) ->
  older_present db gaddr = older_present db' gaddr -> same_answers gaddr db db'.
Proof. intros Hs Ho s. apply eq_true_iff_eq. by rewrite !wants_spec, Hs, Ho. Qed.

(** A record that exists for the effects of older hosts only is not empty. *)
Definition db_proper db : Prop :=
  forall gaddr, older_present db gaddr = true -> group_state db gaddr <> INCLUDE ∅.

Lemma older_present_set gaddr g db :
  older_present (set_group gaddr g db) gaddr = is_under_bakcward_compatibility_effects g.
Proof. unfold older_present. simpl. by rewrite lookup_insert_eq. Qed.

Lemma older_present_del gaddr db : older_present (del_group gaddr db) gaddr = false.
Proof. unfold older_present. simpl. by rewrite lookup_delete_eq. Qed.

Lemma older_present_known gaddr g db :
  older_host_present_timer g = older_host_present_timer (known_record db gaddr) ->
  is_under_bakcward_compatibility_effects g = older_present db gaddr.
Proof.
  unfold is_under_bakcward_compatibility_effects, older_present, known_record. intros ->.
  by destruct (group_info db !! gaddr).
Qed.

Lemma others_older gaddr db db' h :
  others_kept gaddr db db' -> h <> gaddr ->
  older_present db' h = older_present db h /\ group_state db' h = group_state db h.
Proof. intros Ho Hh. unfold older_present, group_state. by rewrite Ho. Qed.

Lemma db_proper_kept gaddr db db' :
  db_proper db -> others_kept gaddr db db' ->
  (older_present db' gaddr = true -> group_state db' gaddr <> INCLUDE ∅) -> db_proper db'.
Proof.
  intros Hp Ho Hg h. destruct (decide (h = gaddr)) as [->|Hh]; [done|].
  destruct (others_older gaddr db db' h) as [-> ->]; auto.
Qed.

(** A report the routing hears of completely: an older version may not leave a
    group without listeners, nor send records it does not have. *)
Definition heard (gr : group_record_msg A) db : Prop :=
  is_newest_version (gr_grp_mem_proto gr) = true
  \/ notifies (gr_record_type gr) = true
     /\ (group_state db (gr_gaddr gr) <> INCLUDE ∅
         \/ gr_record_type gr = MODE_IS_EXCLUDE \/ gr_record_type gr = CHANGE_TO_EXCLUDE_MODE).

Lemma report_empty (st : router_state (A := A)) rt B :
  rfc_report st rt B = INCLUDE ∅ ->
  st = INCLUDE ∅ /\ rt <> MODE_IS_EXCLUDE /\ rt <> CHANGE_TO_EXCLUDE_MODE.
Proof.
  destruct st as [A0|X Y], rt; simpl; intros [= E]; split_and!; try done; f_equal; set_solver.
Qed.

Lemma reception_empty (st : router_state (A := A)) v rt B :
  rfc_reception st v rt B = INCLUDE ∅ ->
  st = INCLUDE ∅ /\ rt <> MODE_IS_EXCLUDE /\ rt <> CHANGE_TO_EXCLUDE_MODE.
Proof.
  unfold rfc_reception. destruct (is_newest_version v); [apply report_empty|].
  destruct rt; intros E; [apply report_empty in E; naive_solver..|by split_and!|].
  apply report_empty in E; naive_solver.
Qed.

Lemma reception_quiet (st : router_state (A := A)) v rt B s :
  notifies rt = false ->
  rfc_forwards st s <-> rfc_forwards (rfc_reception st v rt B) s.
Proof.
  unfold rfc_reception. destruct (is_newest_version v), st, rt; simpl; intros; done.
Qed.
End Answers.

(** ** The routing is told *)

Section Told.
Context {A : Type} `{Address A} (clk : nat -> Z).
Context (snd : sender (A := A)) `{!SenderLaws snd, !QuietSender snd} (w i : Z) (tv : timers_values).
Context (cb : membership_db A -> A -> M A unit) (C : membership_db A -> A -> list action -> Prop).
Context (T : A -> action -> Prop).
Hypothesis cb_io : forall db gaddr e, wp (cb db gaddr) (fun _ e' => env_io e e') e.
Hypothesis cb_trace : forall db gaddr, trace (cb db gaddr) (fun _ l => C db gaddr l).
Hypothesis query_concerns : forall gaddr a, querier_call a -> T gaddr a.
Hypothesis calls_concern : forall db gaddr l, C db gaddr l -> Forall (T gaddr) l.

Implicit Types (gaddr : A) (g : gaddr_info A) (db : membership_db A) (t : tid) (e : env A).

Lemma quiet_concerns gaddr l : Forall querier_call l -> Forall (T gaddr) l.
Proof. intros Hl. eapply Forall_impl; [exact Hl|]. intros a. apply query_concerns. Qed.

Lemma told_concerns gaddr db db' l : told C T gaddr db db' l -> Forall (T gaddr) l.
Proof.
  intros [[Hl _]|(l0 & dbn & ln & lq & -> & H0 & Hn & Hq & _)]; [by apply quiet_concerns|].
  rewrite !Forall_app. split_and!; [done|by eapply calls_concern|by apply quiet_concerns].
Qed.

Lemma told_quiet_first gaddr db1 db2 l l' :
  Forall querier_call l -> told C T gaddr db1 db2 l' -> told C T gaddr db1 db2 (l ++ l').
Proof.
  intros Hl [[Hq' Hs']|(l0 & dbn & ln & lq & -> & H0 & Hn & Hq & Hs)].
  - left. split; [by apply Forall_app|done].
  - right. exists (l ++ l0), dbn, ln, lq. rewrite <- !app_assoc. split_and!; try done.
    apply Forall_app. split; [by apply quiet_concerns|done].
Qed.

Lemma told_again gaddr db1 db2 db3 l ln :
  told C T gaddr db1 db2 l -> C db3 gaddr ln -> told C T gaddr db1 db3 (l ++ ln).
Proof.
  intros Hl Hn. right. exists l, db3, ln, []. rewrite app_nil_r.
  split_and!; [done|by eapply told_concerns|done|constructor|done].
Qed.

Lemma told_final gaddr db db' l1 ln :
  Forall querier_call l1 -> C db' gaddr ln -> told C T gaddr db db' (l1 ++ ln).
Proof.
  intros H1 Hn. right. exists l1, db', ln, []. rewrite app_nil_r.
  split_and!; [done|by apply quiet_concerns|done|constructor|done].
Qed.

Lemma told_same gaddr db : told C T gaddr db db [].
Proof. left. by split. Qed.

(** *** Reports *)

Lemma received_told gr db db' l v B :
  db_proper db -> heard gr db -> others_kept (gr_gaddr gr) db db' ->
  group_state db' (gr_gaddr gr)
  = rfc_reception (group_state db (gr_gaddr gr)) v (gr_record_type gr) B ->
  received C gr db db' l -> db_proper db' /\ told C T (gr_gaddr gr) db db' l.
Proof.
  intros Hp Hh Hok Hst (g' & Ho & Hdb' & Hl). set (gaddr := gr_gaddr gr) in *.
  assert (Hg' : ginfo_state g' = group_state db' gaddr).
  { destruct Hdb' as [->|[-> Hg]]; [by rewrite group_state_set|by rewrite group_state_del]. }
  assert (Hempty : group_state db' gaddr = INCLUDE ∅ -> is_under_bakcward_compatibility_effects g' = false).
  { intros E. rewrite Hst in E. apply reception_empty in E as (E & Hn1 & Hn2).
    destruct Hh as [Hn|(_ & [Hne|[?|?]])]; try done.
    rewrite (older_present_known gaddr g' db) by (by apply Ho). apply not_true_is_false. intros Hop.
    by apply (Hp gaddr). }
  split.
  { apply (db_proper_kept gaddr db); [done|done|]. intros Hop E. apply Hempty in E.
    destruct Hdb' as [->|[-> _]]; [rewrite older_present_set in Hop|rewrite older_present_del in Hop]; congruence. }
  assert (Hsame : get_group_membership_infos (set_group gaddr g' db) gaddr
                  = get_group_membership_infos db' gaddr).
  { destruct Hdb' as [->|[-> Hg]]; [done|]. unfold get_group_membership_infos. simpl.
    rewrite lookup_insert_eq, lookup_delete_eq, Hempty by (by rewrite group_state_del).
    unfold ginfo_state in Hg. destruct (filter_mode g'); [|done]. injection Hg as Hg.
    apply sl_keys_empty in Hg. by rewrite Hg. }
  destruct (notifies (gr_record_type gr)) eqn:Hn.
  - destruct Hl as (l1 & ln & -> & H1 & HC). right. exists l1, (set_group gaddr g' db), ln, [].
    rewrite app_nil_r. split_and!; [done|by apply quiet_concerns|done|constructor|done].
  - left. split; [done|]. destruct Hh as [Hv|[? _]]; [|congruence]. intros s.
    rewrite <- Hsame. apply answers_agree.
    + intros s'. rewrite group_state_set, Hg', Hst. by apply reception_quiet.
    + rewrite older_present_set. symmetry. apply older_present_known. by apply Ho.
Qed.

Lemma wp_report_told gr db e :
  db_wf e db -> fresh_sources (gr_slist gr) -> db_proper db -> heard gr db ->
  wp (receive_record clk snd w i tv cb gr db)
     (fun db' e' => evolves e e' db' /\ others_kept (gr_gaddr gr) db db' /\ db_proper db'
        /\ exists l, e_log e' = e_log e ++ l /\ told C T (gr_gaddr gr) db db' l) e.
Proof.
  intros Hdb HB Hp Hh. eapply wp_mono.
  - apply trace_wp; [apply (wp_receive_record clk snd w i tv cb cb_io gr db e Hdb HB)|].
    apply (receive_record_trace clk snd w i tv cb C cb_trace).
  - intros db' e' [(Hev & Hok & Hst) (l & Hl & HR)].
    destruct (received_told gr db db' l _ _ Hp Hh Hok Hst HR) as [Hp' Ht]. eauto 10.
Qed.

(** *** Timers *)

Definition proper_at gaddr db : Prop :=
  older_present db gaddr = true -> group_state db gaddr <> INCLUDE ∅.

(** A timer event on a group: the routing is told, or only a retransmission was
    sent. *)
Definition fired gaddr db db' (l : list action) : Prop :=
  others_kept gaddr db db' /\ told C T gaddr db db' l /\ (proper_at gaddr db -> proper_at gaddr db').

Definition retransmitted gaddr db db' (l : list action) : Prop :=
  others_kept gaddr db db' /\ Forall querier_call l /\ older_present db' gaddr = older_present db gaddr.

Lemma fired_same gaddr db : fired gaddr db db [].
Proof. split_and!; [done|apply told_same|done]. Qed.

Lemma notify_trace gaddr db' :
  trace (state_change_notification cb db' gaddr;; mret db') (fun x l => x = db' /\ C db' gaddr l).
Proof.
  eapply trace_bind; [apply cb_trace|]. intros [] ln Hln. apply trace_ret. by rewrite app_nil_r.
Qed.

Lemma notify_fired gaddr db db' :
  others_kept gaddr db db' -> proper_at gaddr db' ->
  trace (state_change_notification cb db' gaddr;; mret db') (fired gaddr db).
Proof.
  intros Ho Hp. eapply trace_mono; [apply notify_trace|]. intros x ln [-> Hln].
  split_and!; [done|by apply (told_final gaddr db db' [] ln)|done].
Qed.

Lemma proper_at_del gaddr db : proper_at gaddr (del_group gaddr db).
Proof. intros Ho. by rewrite older_present_del in Ho. Qed.

Lemma proper_at_set gaddr g db :
  (filter_mode g = INCLUDE_MODE -> include_requested_list g <> []) -> proper_at gaddr (set_group gaddr g db).
Proof.
  intros Hg _ E. rewrite group_state_set in E. unfold ginfo_state in E. destruct (filter_mode g) eqn:Hf; [|done].
  apply Hg; [done|]. apply sl_keys_empty. congruence.
Qed.

Lemma source_timer_fired gaddr t db :
  trace (timer_triggerd_source_timer cb gaddr t db) (fired gaddr db).
Proof.
  unfold timer_triggerd_source_timer. apply trace_bind_deref. intros g Hg. cbv zeta.
  destruct (filter_mode g) eqn:Hf.
  - case_bool_decide; apply notify_fired.
    + apply others_kept_del.
    + apply proper_at_del.
    + apply others_kept_set.
    + by apply proper_at_set.
  - apply notify_fired; [apply others_kept_set|by apply proper_at_set].
Qed.

Lemma filter_timer_fired gaddr t db :
  trace (timer_triggerd_filter_timer cb gaddr t db) (fired gaddr db).
Proof.
  unfold timer_triggerd_filter_timer.
  eapply trace_bind; [eapply trace_mono; [apply (makes_get_timer querier_call)|by intros x l H0; exact H0]|].
  intros ft l [Hl _]. apply (trace_bind _ _ (fun db' l' => fired gaddr db db' (l ++ l'))).
  { assert (Hpre : forall db' l', fired gaddr db db' l' -> fired gaddr db db' (l ++ l')).
    { intros db' l' (Ho & Ht & Hp). split_and!; [done|by apply told_quiet_first|done]. }
    destruct (tm_is_used_as_source_timer ft).
    - eapply trace_mono; [apply source_timer_fired|apply Hpre].
    - apply trace_ret, Hpre, fired_same. }
  intros db1 l1 Hf. pose proof Hf as (Ho1 & Ht1 & Hp1). apply trace_bind_deref. intros g Hg.
  assert (Hkeep : trace (mret db1 : M A _) (fun db2 l2 => fired gaddr db db2 (l ++ l1 ++ l2)))
    by (apply trace_ret; by rewrite app_nil_r).
  assert (Hpost : forall db2, others_kept gaddr db1 db2 -> proper_at gaddr db2 ->
    trace (state_change_notification cb db2 gaddr;; mret db2) (fun db2 l2 => fired gaddr db db2 (l ++ l1 ++ l2))).
  { intros db2 Ho2 Hp2. eapply trace_mono; [apply notify_trace|]. intros x ln [-> Hln]. split_and!; [| |done].
    - intros h Hh. by rewrite Ho2, Ho1.
    - rewrite app_assoc. by apply (told_again gaddr db db1 db2). }
  destruct (negb _); [done|]. destruct (filter_mode g); [done|]. cbv zeta.
  case_bool_decide; apply Hpost.
  - apply others_kept_del.
  - apply proper_at_del.
  - apply others_kept_set.
  - by apply proper_at_set.
Qed.

Lemma retransmitted_set gaddr g g' db l :
  group_info db !! gaddr = Some g -> Forall querier_call l -> same_mode g g' ->
  retransmitted gaddr db (set_group gaddr g' db) l.
Proof.
  intros Hg Hl [_ Ho]. split_and!; [apply others_kept_set|done|]. rewrite older_present_set.
  unfold older_present, is_under_bakcward_compatibility_effects. by rewrite Hg, Ho.
Qed.

Lemma retransmitted_same gaddr db : retransmitted gaddr db db [].
Proof. by split_and!. Qed.

Lemma ret_group_retransmitted gaddr t db :
  trace (timer_triggerd_ret_group_timer clk snd w i tv gaddr t db) (retransmitted gaddr db).
Proof.
  unfold timer_triggerd_ret_group_timer. apply trace_bind_deref. intros g Hg.
  case_if; [|apply trace_ret, retransmitted_same].
  eapply trace_bind; [apply (send_Q_group_quiet clk snd w i tv)|]. intros g' l [Hl Hm].
  apply trace_ret. rewrite app_nil_r. by apply (retransmitted_set gaddr g).
Qed.

Lemma ret_source_retransmitted gaddr t db :
  trace (timer_triggerd_ret_source_timer clk snd w i tv gaddr t db) (retransmitted gaddr db).
Proof.
  unfold timer_triggerd_ret_source_timer. apply trace_bind_deref. intros g Hg.
  case_if; [|apply trace_ret, retransmitted_same].
  eapply trace_bind; [apply (send_Q_own_quiet clk snd w i tv)|]. intros g' l [Hl Hm].
  apply trace_ret. rewrite app_nil_r. by apply (retransmitted_set gaddr g).
Qed.

Lemma older_host_fired gaddr t db :
  trace (timer_triggerd_older_host_present_timer clk w i tv cb gaddr t db) (fired gaddr db).
Proof.
  unfold timer_triggerd_older_host_present_timer. apply trace_bind_deref. intros g Hg.
  case_bool_decide as Ht; [|apply trace_ret, fired_same].
  destruct (is_newest_version _); cbv zeta.
  - apply notify_fired; [apply others_kept_set|]. intros Ho. by rewrite older_present_set in Ho.
  - assert (Hq : quiet (ohpt ← make_timer clk OLDER_HOST_PRESENT_TIMER_MSG i (Some gaddr) None
        (if is_newest_version (get_next_newer_version (compatibility_mode_variable g))
         then get_multicast_address_listening_interval tv else get_older_host_present_interval tv);
      add_time_msg clk (if is_newest_version (get_next_newer_version (compatibility_mode_variable g))
         then get_multicast_address_listening_interval tv else get_older_host_present_interval tv) w ohpt;;
      mret (set_group gaddr (set_compatibility (get_next_newer_version (compatibility_mode_variable g))
              (Some ohpt) g) db))
      (fun db' => exists p, db' = set_group gaddr (set_compatibility
        (get_next_newer_version (compatibility_mode_variable g)) (Some p) g) db))
      by (quiet_steps; eauto).
    eapply trace_mono; [exact Hq|]. intros db' l [Hl [p ->]].
    assert (Hop : older_present db gaddr = true).
    { unfold older_present, is_under_bakcward_compatibility_effects. by rewrite Hg, Ht. }
    assert (Hst : group_state (set_group gaddr (set_compatibility
      (get_next_newer_version (compatibility_mode_variable g)) (Some p) g) db) gaddr = group_state db gaddr)
      by (rewrite group_state_set; unfold group_state; by rewrite Hg).
    split_and!; [apply others_kept_set| |intros Hp _; rewrite Hst; by apply Hp].
    left. split; [done|]. apply answers_agree; [intros s; by rewrite Hst|]. by rewrite older_present_set, Hop.
Qed.

Definition timer_post_told (tm : timer_msg A) db db' (l : list action) : Prop :=
  (Forall querier_call l /\ group_info db' = group_info db)
  \/ exists gaddr, fired gaddr db db' l
       \/ retransmitted gaddr db db' l
          /\ (tm_type tm = RET_GROUP_TIMER_MSG \/ tm_type tm = RET_SOURCE_TIMER_MSG).

Lemma general_query_trace t db :
  trace (timer_triggerd_general_query_timer clk snd w i tv t db)
    (fun db' l => Forall querier_call l /\ group_info db' = group_info db).
Proof.
  unfold timer_triggerd_general_query_timer. case_if; [|by apply trace_ret; split].
  apply (makes_bind _ _ _ (fun r => group_info r.2 = group_info db));
    [|intros [b db'] Hdb'; by apply makes_ret].
  unfold querier_send_general_query. cbv zeta. destruct (if 0 <? _ then _ else _) as [n d].
  quiet_steps. done.
Qed.

Lemma timer_trace held t tm db e db' e' :
  e_store e !! t = Some tm -> timer_triggerd clk snd w i tv cb held t db e = Some (db', e') ->
  exists l, e_log e' = e_log e ++ l /\ timer_post_told tm db db' l.
Proof.
  intros Htm. unfold timer_triggerd, mbind at 1, M_bind at 1, get_timer at 1. rewrite Htm.
  assert (Hnone : trace (mret db : M A (membership_db A)) (timer_post_told tm db)) by (apply trace_ret; left; by split).
  case_if; [apply Hnone|].
  assert (Hfire : forall (m : M A (membership_db A)) gaddr, trace m (fired gaddr db) -> trace m (timer_post_told tm db))
    by (intros m gaddr Hm; eapply trace_mono; [exact Hm|]; intros x l ?; right; eauto).
  assert (Hret : forall (m : M A (membership_db A)) gaddr, trace m (retransmitted gaddr db) ->
      tm_type tm = RET_GROUP_TIMER_MSG \/ tm_type tm = RET_SOURCE_TIMER_MSG ->
      trace m (timer_post_told tm db))
    by (intros m gaddr Hm Hty; eapply trace_mono; [exact Hm|]; intros x l ?; right; eauto).
  destruct (tm_type tm) eqn:Hty; try apply Hnone.
  6: { cut (trace (timer_triggerd_general_query_timer clk snd w i tv t db) (timer_post_told tm db)); [by eauto|].
       eapply trace_mono; [apply general_query_trace|]. intros x l ?. by left. }
  all: match goal with |- ?m ?s = _ -> _ => cut (trace m (timer_post_told tm db)); [by eauto|] end;
    apply trace_bind_deref; intros gaddr _; destruct (group_info db !! gaddr); [|apply Hnone].
  - eapply Hfire, filter_timer_fired.
  - eapply Hfire, source_timer_fired.
  - eapply Hret; [apply ret_group_retransmitted|by left].
  - eapply Hret; [apply ret_source_retransmitted|by right].
  - eapply Hfire, older_host_fired.
Qed.

Lemma wp_timer_told held t tm db e :
  db_wf e db -> e_store e !! t = Some tm -> retransmission_over t db -> db_proper db ->
  wp (timer_triggerd clk snd w i tv cb held t db)
     (fun db' e' => evolves e e' db' /\ db_proper db'
        /\ exists l, e_log e' = e_log e ++ l
             /\ ((Forall querier_call l /\ forall h, same_answers h db db')
                 \/ exists gaddr, others_kept gaddr db db' /\ told C T gaddr db db' l)) e.
Proof.
  intros Hdb Htm Hover Hp.
  destruct (wp_result _ _ _ (wp_timer_triggerd clk snd w i tv cb cb_io held t tm db e Hdb Htm Hover))
    as (db' & e' & Hrun & Hev & Hst). unfold wp. rewrite Hrun. split; [done|].
  destruct (timer_trace _ _ _ _ _ _ _ Htm Hrun) as (l & Hl & [[Hq Hgi]|(gaddr & [(Ho & Ht & Hp')|((Ho & Hq & Hop) & Hty)])]).
  - assert (Hsame : forall h, older_present db' h = older_present db h /\ group_state db' h = group_state db h).
    { intros h. unfold older_present, group_state. by rewrite Hgi. }
    split; [intros h; destruct (Hsame h) as [-> ->]; apply Hp|]. exists l. split; [done|]. left.
    split; [done|]. intros h. destruct (Hsame h) as [H1 H2]. apply answers_agree; [by rewrite H2|done].
  - split; [apply (db_proper_kept gaddr db); [done|done|apply Hp'; intros Hop; by apply Hp]|].
    exists l. eauto 10.
  - assert (Hs : group_state db' gaddr = group_state db gaddr).
    { rewrite Hst. unfold rfc_timer, group_state. destruct (group_info db !! gaddr); [|done].
      by destruct Hty as [-> | ->]. }
    split; [apply (db_proper_kept gaddr db); [done|done|]; rewrite Hs, Hop; apply Hp|].
    exists l. split; [done|]. right. exists gaddr. split; [done|]. left. split; [done|].
    apply answers_agree; [by rewrite Hs|done].
Qed.
End Told.
