(* ===== verification/RoutingData.v ===== *)
(** * Known sources (include/proxy/simple_routing_data.hpp, src/proxy/simple_routing_data.cpp)

    The multicast sources seen so far: for each group an ordered source list
    and the interface each source was seen on. [retransmission_count] of such a
    source holds the packet counter last read from the kernel. The kernel's
    answer to a request for route statistics is [stats n gaddr saddr], [n]
    counting the readings taken from outside; [None] is a failed request. *)

From S2P Require Import Prelude Def AddrStorage Messages.

Local Open Scope Z_scope.

Section RoutingData.
Context {A : Type} `{Address A} (stats : nat -> A -> A -> option Z).

Record sr_data_value := {
  m_source_list : list (source A);
  m_if_map : gmap A Z
}.

Notation s_routing_data := (gmap A sr_data_value).

Implicit Types (data : s_routing_data) (gaddr : A).

Definition get_mroute_stats gaddr (sa : A) : M A (option Z) := fun e =>
  Some (stats (e_reads e) gaddr sa,
        {| e_reads := S (e_reads e); e_next := e_next e; e_store := e_store e;
           e_timing := e_timing e; e_lost := e_lost e; e_log := e_log e |}).

(** A failed request counts as [true], that is 1. *)
Definition get_current_packet_count gaddr (sa : A) : M A Z :=
  r ← get_mroute_stats gaddr sa;
  mret (match r with Some pktcnt => pktcnt | None => 1 end).

(** [long] to [unsigned long]. *)
Definition to_ulong (z : Z) : Z := z mod 2 ^ 64.
Definition of_ulong (z : Z) : Z := (z + 2 ^ 63) mod 2 ^ 64 - 2 ^ 63.

Definition set_source (if_index : Z) gaddr (s : source A) data : M A s_routing_data :=
  match data !! gaddr with
  | Some v =>
    sl ← (match sl_find (key s) (m_source_list v) with
          | None => mret (sl_insert s (m_source_list v))
          | Some _ =>
            cnt ← get_current_packet_count gaddr (saddr s);
            mret (sl_insert (set_timer s (shared_source_timer s) (of_ulong cnt))
                    (sl_erase (key s) (m_source_list v)))
          end);
    mret (<[gaddr := {| m_source_list := sl;
                        m_if_map := <[saddr s := if_index]> (m_if_map v) |}]> data)
  | None =>
    mret (<[gaddr := {| m_source_list := [s]; m_if_map := {[saddr s := if_index]} |}]> data)
  end.

(** Erasing a source, and the group with its last source. *)
Definition del_source gaddr (sa : A) data : s_routing_data :=
  match data !! gaddr with
  | Some v =>
    let sl := sl_erase sa (m_source_list v) in
    if bool_decide (sl = []) then delete gaddr data
    else <[gaddr := {| m_source_list := sl; m_if_map := delete sa (m_if_map v) |}]> data
  | None => data
  end.

(** The boolean says whether the source was refreshed. *)
Definition refresh_source_or_del_it_if_unused gaddr (sa : A) data : M A (bool * s_routing_data) :=
  match data !! gaddr with
  | Some v =>
    match sl_find sa (m_source_list v) with
    | Some s =>
      cnt ← get_current_packet_count gaddr sa;
      if to_ulong (retransmission_count s) =? cnt
      then mret (false, del_source gaddr sa data)
      else mret (true, <[gaddr := {|
             m_source_list := (fun x => if bool_decide (key x = sa)
               then set_timer x (shared_source_timer x) (of_ulong cnt) else x) <$> m_source_list v;
             m_if_map := m_if_map v |}]> data)
    | None => mret (false, del_source gaddr sa data)
    end
  | None => mret (false, data)
  end.

(** Assignment of a timer through the iterator that a refresh returned. *)
Definition assign_source_timer gaddr (sa : A) (t : tid) data : s_routing_data :=
  match data !! gaddr with
  | Some v =>
    <[gaddr := {| m_source_list := (fun x => if bool_decide (key x = sa)
                    then set_timer x (Some t) (retransmission_count x) else x) <$> m_source_list v;
                  m_if_map := m_if_map v |}]> data
  | None => data
  end.

Definition get_available_sources gaddr data : list (source A) :=
  match data !! gaddr with Some v => m_source_list v | None => [] end.

Definition get_interface_map gaddr data : gmap A Z :=
  match data !! gaddr with Some v => m_if_map v | None => ∅ end.

(** ** Invariant: exactly the listed sources have an interface, and there is no
       group without sources. *)

Definition value_wf (v : sr_data_value) : Prop :=
  sl_ordered (m_source_list v) /\ m_source_list v <> []
  /\ dom (m_if_map v) = sl_keys (m_source_list v).

Definition srd_wf data : Prop := map_Forall (fun _ => value_wf) data.

Lemma sl_find_keys_insert (s : source A) l :
  sl_keys (sl_insert s l) = {[saddr s]} ∪ sl_keys l.
Proof.
  apply set_eq. intros k. rewrite elem_of_union, !elem_of_sl_keys, sl_find_insert.
  destruct (sl_find k l) eqn:E; [naive_solver|].
  case_bool_decide; rewrite elem_of_singleton; split; try naive_solver.
Qed.

Lemma sl_keys_erase k (l : list (source A)) : sl_keys (sl_erase k l) = sl_keys l ∖ {[k]}.
Proof.
  apply set_eq. intros x. rewrite elem_of_difference, !elem_of_sl_keys, sl_find_erase.
  case_bool_decide; rewrite elem_of_singleton; split; try naive_solver.
Qed.

Lemma keys_nonempty (l : list (source A)) k : k ∈ sl_keys l -> l <> [].
Proof. intros Hk ->. unfold sl_keys in Hk. set_solver. Qed.

Lemma wp_packet_count gaddr sa (Q : Z -> env A -> Prop) e :
  (forall e', env_io e e' -> Q (default 1 (stats (e_reads e) gaddr sa)) e') ->
  wp (get_current_packet_count gaddr sa) Q e.
Proof.
  intros HQ. apply wp_bind. unfold get_mroute_stats, wp. simpl.
  replace (match stats (e_reads e) gaddr sa with Some p => p | None => 1 end)
    with (default 1 (stats (e_reads e) gaddr sa)) by (by destruct (stats _ _ _)).
  apply HQ. split; simpl; [lia|done..].
Qed.

Definition source_set (if_index : Z) gaddr (s : source A) data (data' : s_routing_data) : Prop :=
  srd_wf data'
  /\ get_interface_map gaddr data' !! saddr s = Some if_index
  /\ (exists x, sl_find (saddr s) (get_available_sources gaddr data') = Some x
                /\ shared_source_timer x = shared_source_timer s)
  /\ forall h, h <> gaddr -> data' !! h = data !! h.

Lemma set_source_wf if_index gaddr s data e :
  srd_wf data ->
  wp (set_source if_index gaddr s data) (fun data' _ => source_set if_index gaddr s data data') e.
Proof.
  intros Hd. unfold set_source. destruct (data !! gaddr) as [v|] eqn:Hv.
  - destruct (Hd gaddr v Hv) as (Ho & Hne & Hdom).
    assert (Hgo : forall sl x (e' : env A), sl_ordered sl ->
      sl_keys sl = {[saddr s]} ∪ sl_keys (m_source_list v) ->
      sl_find (saddr s) sl = Some x -> shared_source_timer x = shared_source_timer s ->
      wp (mret (<[gaddr := {| m_source_list := sl;
                              m_if_map := <[saddr s := if_index]> (m_if_map v) |}]> data))
         (fun data' _ => source_set if_index gaddr s data data') e').
    { intros sl x e' Hsl Hk Hx Ht. apply wp_ret. cbn beta.
      unfold source_set, get_interface_map, get_available_sources. rewrite lookup_insert_eq. simpl.
      split_and!; [|by rewrite lookup_insert_eq|eauto|by intros; rewrite lookup_insert_ne].
      apply map_Forall_insert_2; [|done]. split_and!; simpl; [done| |].
      - apply (keys_nonempty _ (saddr s)). rewrite Hk. set_solver.
      - rewrite dom_insert_L, Hk, Hdom. done. }
    destruct (sl_find (key s) (m_source_list v)) as [y|] eqn:Hf.
    + do 2 apply wp_bind. apply wp_packet_count. intros e1 _. apply wp_ret.
      eapply Hgo; [auto with slist| | |].
      * rewrite sl_find_keys_insert, sl_keys_erase. simpl. unfold key, source_Keyed.
        apply set_eq. intros k. destruct (decide (k = saddr s)); set_solver.
      * rewrite sl_find_insert, sl_find_erase, bool_decide_eq_true_2 by done.
        unfold key, source_Keyed. simpl. by rewrite bool_decide_eq_true_2.
      * done.
    + apply wp_bind, wp_ret. eapply Hgo; [auto with slist|apply sl_find_keys_insert| |done].
      rewrite sl_find_insert. unfold key, source_Keyed in *. rewrite Hf.
      by rewrite bool_decide_eq_true_2.
  - apply wp_ret. cbn beta. unfold source_set, get_interface_map, get_available_sources. rewrite lookup_insert_eq. simpl.
    split_and!; [|by rewrite lookup_singleton_eq| |by intros; rewrite lookup_insert_ne].
    + apply map_Forall_insert_2; [|done]. split_and!; simpl; [repeat constructor|done|].
      rewrite dom_singleton_L. unfold sl_keys. simpl. unfold key, source_Keyed. set_solver.
    + unfold key, source_Keyed. rewrite bool_decide_eq_true_2 by done. eauto.
Qed.

Lemma wp_set_source_io if_index gaddr s data e :
  srd_wf data ->
  wp (set_source if_index gaddr s data) (fun data' e' => srd_wf data' /\ env_io e e') e.
Proof.
  intros Hd. pose proof (set_source_wf if_index gaddr s data e Hd) as Hw.
  assert (Hio : wp (set_source if_index gaddr s data) (fun _ e' => env_io e e') e).
  { unfold set_source. destruct (data !! gaddr); [|by apply wp_ret]. apply wp_bind.
    destruct (sl_find _ _); [|by do 2 apply wp_ret].
    apply wp_bind, wp_packet_count. intros e1 Hio. by do 2 apply wp_ret. }
  unfold wp in *. destruct (set_source if_index gaddr s data e) as [[d e']|]; [|done].
  by destruct Hw.
Qed.

Lemma del_source_wf gaddr sa data :
  srd_wf data ->
  srd_wf (del_source gaddr sa data)
  /\ sa ∉ sl_keys (get_available_sources gaddr (del_source gaddr sa data))
  /\ get_interface_map gaddr (del_source gaddr sa data) !! sa = None
  /\ forall h, h <> gaddr -> del_source gaddr sa data !! h = data !! h.
Proof.
  intros Hd. unfold del_source, get_available_sources, get_interface_map.
  destruct (data !! gaddr) as [v|] eqn:Hv.
  2: { rewrite Hv. split_and!; [done|unfold sl_keys; set_solver|by rewrite lookup_empty|done]. }
  destruct (Hd gaddr v Hv) as (Ho & Hne & Hdom). case_bool_decide as Hnil.
  - rewrite lookup_delete_eq.
    split_and!; [by apply map_Forall_delete|unfold sl_keys; set_solver|by rewrite lookup_empty|].
    intros. by rewrite lookup_delete_ne.
  - rewrite lookup_insert_eq. simpl. rewrite sl_keys_erase.
    split_and!; [|set_solver|by rewrite lookup_delete_eq|intros; by rewrite lookup_insert_ne].
    apply map_Forall_insert_2; [|done]. split_and!; simpl; [auto with slist|done|].
    by rewrite dom_delete_L, sl_keys_erase, Hdom.
Qed.

Lemma update_value_wf v (f : source A -> source A) :
  (forall x, saddr (f x) = saddr x) -> value_wf v ->
  value_wf {| m_source_list := f <$> m_source_list v; m_if_map := m_if_map v |}.
Proof.
  intros Hf (Ho & Hne & Hdom).
  assert (Hk : saddr <$> (f <$> m_source_list v) = saddr <$> m_source_list v).
  { rewrite <- list_fmap_compose. apply list_fmap_ext. intros _ x _. apply Hf. }
  split_and!; simpl.
  - clear Hne Hdom Hk. induction Ho as [|x l Hl IH Hx]; simpl; constructor; [done|].
    apply Forall_fmap. eapply Forall_impl; [exact Hx|]. intros y Hy. unfold compose.
    unfold key, source_Keyed in *. by rewrite !Hf.
  - by destruct (m_source_list v).
  - rewrite Hdom. unfold sl_keys, key, source_Keyed. by rewrite Hk.
Qed.

Lemma assign_source_timer_wf gaddr sa t data :
  srd_wf data -> srd_wf (assign_source_timer gaddr sa t data).
Proof.
  intros Hd. unfold assign_source_timer. destruct (data !! gaddr) as [v|] eqn:Hv; [|done].
  apply map_Forall_insert_2; [|done]. apply update_value_wf; [|by eapply Hd].
  intros x. by case_bool_decide.
Qed.

Lemma refresh_wf gaddr sa data e :
  srd_wf data ->
  wp (refresh_source_or_del_it_if_unused gaddr sa data) (fun r e' => env_io e e' /\ srd_wf r.2
    /\ r.1 = (match sl_find sa (get_available_sources gaddr data) with
              | Some s => negb (to_ulong (retransmission_count s) =?
                            default 1 (stats (e_reads e) gaddr sa))
              | None => false
              end)
    /\ (r.1 = true -> sa ∈ sl_keys (get_available_sources gaddr r.2)
         /\ get_interface_map gaddr r.2 = get_interface_map gaddr data)
    /\ (r.1 = false -> sa ∉ sl_keys (get_available_sources gaddr r.2)
         /\ get_interface_map gaddr r.2 !! sa = None)) e.
Proof.
  intros Hd. destruct (del_source_wf gaddr sa data Hd) as (Hdw & Hdk & Hdm & _).
  unfold refresh_source_or_del_it_if_unused, get_available_sources at 1.
  destruct (data !! gaddr) as [v|] eqn:Hv.
  2: { apply wp_ret. unfold get_available_sources, get_interface_map. simpl. rewrite Hv.
       split_and!; [done|done|done|done|]. intros _. split; [unfold sl_keys; set_solver|].
       by rewrite lookup_empty. }
  destruct (sl_find sa (m_source_list v)) as [s|] eqn:Hs.
  2: { apply wp_ret. split_and!; done. }
  apply wp_bind, wp_packet_count. intros e1 Hio1.
  set (cnt := default 1 _). destruct (to_ulong (retransmission_count s) =? cnt) eqn:Hc;
    unfold wp, mret, M_ret; simpl; rewrite ?Hc; split_and!; try done.
  - apply map_Forall_insert_2; [|done]. apply (update_value_wf v); [|by eapply Hd].
    intros x. by case_bool_decide.
  - intros _. unfold get_available_sources, get_interface_map. rewrite lookup_insert_eq, Hv. simpl.
    split; [|done]. rewrite elem_of_sl_keys_In.
    eexists. split; [apply list_elem_of_fmap; exists s; split; [done|by eapply sl_find_In]|].
    apply sl_find_Some_key in Hs. by rewrite bool_decide_eq_true_2.
Qed.

(** The source table stays consistent: [set_source] keeps exactly the listed
    sources mapped to an interface and no group empty, and afterwards the source
    is listed with the timer just started and mapped to the interface it was
    seen on, whether or not it was known before; other groups do not change. *)
Theorem set_source_consistent if_index gaddr s data e :
  srd_wf data ->
  wp (set_source if_index gaddr s data) (fun data' _ => source_set if_index gaddr s data data') e.
Proof. apply set_source_wf. Qed.

(** A source is kept exactly while its packets keep coming: the refresh
    succeeds if and only if the source is known and the kernel's packet counter
    differs from the one remembered; otherwise the source and its interface are
    removed. *)
Theorem refresh_keeps_active gaddr sa data e :
  srd_wf data ->
  wp (refresh_source_or_del_it_if_unused gaddr sa data) (fun r e' => env_io e e' /\ srd_wf r.2
    /\ r.1 = (match sl_find sa (get_available_sources gaddr data) with
              | Some s => negb (to_ulong (retransmission_count s) =?
                            default 1 (stats (e_reads e) gaddr sa))
              | None => false
              end)
    /\ (r.1 = true -> sa ∈ sl_keys (get_available_sources gaddr r.2)
         /\ get_interface_map gaddr r.2 = get_interface_map gaddr data)
    /\ (r.1 = false -> sa ∉ sl_keys (get_available_sources gaddr r.2)
         /\ get_interface_map gaddr r.2 !! sa = None)) e.
Proof. apply refresh_wf. Qed.
End RoutingData.
