(* ===== verification/Receiver.v ===== *)
(** * Receivers (include/proxy/receiver.hpp, src/proxy/receiver.cpp,
      src/proxy/igmp_receiver.cpp, src/proxy/mld_receiver.cpp)

    The analysis of a received packet: which messages it gives for the proxy
    instance. The packet is the whole receive buffer, a list of octets whose
    tail holds what earlier packets left; the handlers do not look at the size
    of the packet. A read outside of the buffer is undefined behaviour and has
    no result. The layouts are those of the kernel's and the program's packed
    structures. *)

From S2P Require Import Prelude Def AddrStorage Timing Messages Interfaces.
From S2P Require Import MembershipDb QuerierSpec.

Local Open Scope Z_scope.

(** ** Registered interfaces *)

Record receiver := { m_relevant_if_index : gset Z }.

Implicit Types (r : receiver) (buf bs : list Z) (off n : nat).

Definition is_if_index_relevant (if_index : Z) r : bool :=
  bool_decide (if_index ∈ m_relevant_if_index r).

Definition registrate_interface (if_index : Z) r : receiver :=
  {| m_relevant_if_index := {[if_index]} ∪ m_relevant_if_index r |}.

Definition receiver_del_interface (if_index : Z) r : receiver :=
  {| m_relevant_if_index := m_relevant_if_index r ∖ {[if_index]} |}.

(** ** Reading *)

Definition rd buf off n : option (list Z) :=
  if decide (off + n <= length buf)%nat then Some (take n (drop off buf)) else None.

Definition rd8 buf off : option Z := buf !! off.

(** A 16-bit field in network order ([ntohs]). *)
Definition rd16 buf off : option Z := be_value <$> rd buf off 2.

(** What the handlers use of an address type: its size and its octets. *)
Class AddressCodec (A : Type) `{Address A} := {
  addr_size : nat;
  of_octets : list Z -> A;
  to_octets : A -> list Z;
  to_octets_ok : forall a, octets addr_size (to_octets a);
  of_to_octets : forall a, of_octets (to_octets a) = a
}.

#[export] Program Instance ipv4_codec : AddressCodec ipv4 := {
  addr_size := 4;
  of_octets := ipv4_of_octets;
  to_octets a := to_be 4 (ip_value a)
}.
Next Obligation. intros a. apply to_be_octets. Qed.
Next Obligation.
  intros a. apply ip_eq. cbn [ipv4_of_octets ip_value]. pose proof (ip_range a).
  rewrite be_value_to_be by (change (256 ^ Z.of_nat 4) with (2 ^ 32); lia).
  apply Z.mod_small. lia.
Qed.

#[export] Program Instance ipv6_codec : AddressCodec ipv6 := {
  addr_size := 16;
  of_octets := ipv6_of_octets;
  to_octets a := to_be 16 (ip_value a)
}.
Next Obligation. intros a. apply to_be_octets. Qed.
Next Obligation.
  intros a. apply ip_eq. cbn [ipv6_of_octets ip_value]. pose proof (ip_range a).
  rewrite be_value_to_be by (change (256 ^ Z.of_nat 16) with (2 ^ 128); lia).
  apply Z.mod_small. lia.
Qed.

Section Records.
Context {A : Type} `{AddressCodec A}.

(** The loop over the sources of a record. *)
Fixpoint read_sources buf off n (slist : list (source A)) : option (list (source A)) :=
  match n with
  | O => Some slist
  | S n' =>
    src ← rd buf off addr_size;
    read_sources buf (off + addr_size)%nat n' (sl_insert (new_source (of_octets src)) slist)
  end.

(** The loop over the records of a report. *)
Fixpoint read_records (if_index : Z) (version : group_mem_protocol) buf off n
    : option (list (proxy_msg A)) :=
  match n with
  | O => Some []
  | S n' =>
    rec_type ← rd8 buf off;
    aux_data_len ← rd8 buf (off + 1)%nat;
    nos ← rd16 buf (off + 2)%nat;
    gaddr ← rd buf (off + 4)%nat addr_size;
    slist ← read_sources buf (off + 4 + addr_size)%nat (Z.to_nat nos) [];
    rest ← read_records if_index version buf
      (off + (4 + addr_size) + Z.to_nat nos * addr_size + Z.to_nat aux_data_len * 4)%nat n';
    Some (a_group_record_msg {| gr_if_index := if_index;
                                gr_record_type := record_type_of_octet rec_type;
                                gr_gaddr := of_octets gaddr; gr_slist := slist;
                                gr_grp_mem_proto := version |} :: rest)
  end.

(** A report or a leave of an older version, for one group. *)
Definition older_record (if_index : Z) (rt : mcast_addr_record_type) (gaddr : list Z)
    (version : group_mem_protocol) : proxy_msg A :=
  a_group_record_msg {| gr_if_index := if_index; gr_record_type := rt;
                        gr_gaddr := of_octets gaddr; gr_slist := [];
                        gr_grp_mem_proto := version |}.
End Records.

(** ** IGMP *)

Definition IGMP_RECEIVER_KERNEL_MSG : Z := 0.
Definition IGMPMSG_NOCACHE : Z := 1.
Definition IPPROTO_IGMP : Z := 2.
Definition IGMP_V2_MEMBERSHIP_REPORT : Z := 0x16.
Definition IGMP_V2_LEAVE_GROUP : Z := 0x17.
Definition IGMP_V3_MEMBERSHIP_REPORT : Z := 0x22.

(** [sizeof(ip) + sizeof(igmp) + 4 + 10000], larger than [sizeof(igmpmsg)]. *)
Definition igmp_iov_min_size : nat := Z.to_nat (20 + 8 + 4 + 10000).

Section IgmpReceiver.
Context (if_nametoindex : string -> Z)
  (props : list (string * option (addr_storage * addr_storage))).

(** The interface a report came in on, found by its source address; [None] if it
    is unknown or not registered. *)
Definition igmp_input_if r (src : list Z) : option Z :=
  let if_index := get_if_index_saddr if_nametoindex props
                    (assign_in_addr (of_family AF_UNSPEC) src) in
  if if_index =? 0 then None
  else if is_if_index_relevant if_index r then Some if_index else None.

Definition igmp_analyse_packet (ifs : interfaces) r buf : option (list (proxy_msg ipv4)) :=
  ip_vhl ← rd8 buf 0;
  let igmp_hdr := Z.to_nat (Z.land ip_vhl 0xF * 4) in
  ip_p ← rd8 buf 9;
  if ip_p =? IGMP_RECEIVER_KERNEL_MSG then
    im_msgtype ← rd8 buf 8;
    if im_msgtype =? IGMPMSG_NOCACHE then
      im_src ← rd buf 12 4;
      im_dst ← rd buf 16 4;
      im_vif ← rd8 buf 10;
      let if_index := get_if_index_vif im_vif ifs in
      if if_index =? 0 then Some []
      else if negb (is_if_index_relevant if_index r) then Some []
      else Some [new_source_msg if_index (of_octets im_dst) (of_octets im_src)]
    else Some []
  else
    ip_len ← rd16 buf 2;
    if (ip_p =? IPPROTO_IGMP) && (ip_len <=? Z.of_nat igmp_iov_min_size) then
      igmp_type ← rd8 buf igmp_hdr;
      ip_src ← rd buf 12 4;
      if (igmp_type =? IGMP_V2_MEMBERSHIP_REPORT) || (igmp_type =? IGMP_V2_LEAVE_GROUP) then
        match igmp_input_if r ip_src with
        | None => Some []
        | Some if_index =>
          igmp_group ← rd buf (igmp_hdr + 4)%nat 4;
          if igmp_type =? IGMP_V2_MEMBERSHIP_REPORT
          then Some [older_record if_index MODE_IS_EXCLUDE igmp_group IGMPv2]
          else Some [older_record if_index CHANGE_TO_INCLUDE_MODE igmp_group IGMPv2]
        end
      else if igmp_type =? IGMP_V3_MEMBERSHIP_REPORT then
        num_records ← rd16 buf (igmp_hdr + 6)%nat;
        match igmp_input_if r ip_src with
        | None => Some []
        | Some if_index =>
          read_records if_index IGMPv3 buf (igmp_hdr + 8)%nat (Z.to_nat num_records)
        end
      else Some []
    else Some [].
End IgmpReceiver.

(** ** MLD *)

Definition MLD_RECEIVER_KERNEL_MSG : Z := 0.
Definition MRT6MSG_NOCACHE : Z := 1.
Definition MLD_LISTENER_REPORT : Z := 131.
Definition MLD_LISTENER_REDUCTION : Z := 132.
Definition MLD_V2_LISTENER_REPORT : Z := 143.
Definition IPPROTO_IPV6 : Z := 41.
Definition IPV6_PKTINFO : Z := 50.

(** [sizeof(mld_hdr) + 10000], larger than [sizeof(mrt6msg)]. *)
Definition mld_iov_min_size : nat := Z.to_nat (24 + 10000).

(** A control message, with the interface of its [in6_pktinfo]. *)
Record cmsghdr := {
  cmsg_len : Z;
  cmsg_level : Z;
  cmsg_type : Z;
  ipi6_ifindex : Z
}.

(** The last control message with packet information. *)
Definition packet_info (ctrl : list cmsghdr) : option Z :=
  fold_left (fun info c =>
    if (0 <? cmsg_len c) && (cmsg_level c =? IPPROTO_IPV6) && (cmsg_type c =? IPV6_PKTINFO)
    then Some (ipi6_ifindex c) else info) ctrl None.

Section MldReceiver.
(** A 16-bit field in the byte order of the host. *)
Context (host_u16 : list Z -> Z).

Definition mld_input_if r (ctrl : list cmsghdr) : option Z :=
  match packet_info ctrl with
  | None => None
  | Some if_index => if is_if_index_relevant if_index r then Some if_index else None
  end.

Definition mld_analyse_packet (ifs : interfaces) r (ctrl : list cmsghdr) buf
    : option (list (proxy_msg ipv6)) :=
  mld_type ← rd8 buf 0;
  if mld_type =? MLD_RECEIVER_KERNEL_MSG then
    im6_msgtype ← rd8 buf 1;
    if im6_msgtype =? MRT6MSG_NOCACHE then
      im6_src ← rd buf 8 16;
      im6_dst ← rd buf 24 16;
      im6_mif ← rd buf 2 2;
      let if_index := get_if_index_vif (host_u16 im6_mif) ifs in
      if if_index =? 0 then Some []
      else if negb (is_if_index_relevant if_index r) then Some []
      else Some [new_source_msg if_index (of_octets im6_dst) (of_octets im6_src)]
    else Some []
  else if (mld_type =? MLD_LISTENER_REPORT) || (mld_type =? MLD_LISTENER_REDUCTION) then
    match mld_input_if r ctrl with
    | None => Some []
    | Some if_index =>
      mld_addr ← rd buf 8 16;
      if mld_type =? MLD_LISTENER_REPORT
      then Some [older_record if_index MODE_IS_EXCLUDE mld_addr MLDv1]
      else Some [older_record if_index CHANGE_TO_INCLUDE_MODE mld_addr MLDv1]
    end
  else if mld_type =? MLD_V2_LISTENER_REPORT then
    match packet_info ctrl with
    | None => Some []
    | Some _ =>
      num_records ← rd16 buf 6;
      match mld_input_if r ctrl with
      | None => Some []
      | Some if_index => read_records if_index MLDv2 buf 8 (Z.to_nat num_records)
      end
    end
  else Some [].
End MldReceiver.

(** ** Reports as they are sent *)

Section Encoding.
Context {A : Type} `{AddressCodec A}.

(** A record: its type, its auxiliary data of [4 * rr_aux_words] octets, the
    group and the sources. *)
Record report_record := {
  rr_type : Z;
  rr_aux_words : nat;
  rr_aux : list Z;
  rr_gaddr : A;
  rr_sources : list A
}.

Definition record_wf (rr : report_record) : Prop :=
  0 <= rr_type rr < 256 /\ (rr_aux_words rr < 256)%nat
  /\ length (rr_aux rr) = (4 * rr_aux_words rr)%nat /\ Z.of_nat (length (rr_sources rr)) < 2 ^ 16.

Definition encode_record (rr : report_record) : list Z :=
  [rr_type rr; Z.of_nat (rr_aux_words rr)] ++ to_be 2 (Z.of_nat (length (rr_sources rr)))
  ++ to_octets (rr_gaddr rr) ++ concat (map to_octets (rr_sources rr)) ++ rr_aux rr.

(** The record arrived as the message. *)
Definition delivers (if_index : Z) (version : group_mem_protocol) (rr : report_record)
    (m : proxy_msg A) : Prop :=
  exists gr, m = a_group_record_msg gr /\ gr_if_index gr = if_index
    /\ gr_record_type gr = record_type_of_octet (rr_type rr) /\ gr_gaddr gr = rr_gaddr rr
    /\ fresh_sources (gr_slist gr) /\ sl_keys (gr_slist gr) = list_to_set (rr_sources rr)
    /\ gr_grp_mem_proto gr = version.

Definition slist_of (acc : list (source A)) (srcs : list A) : list (source A) :=
  fold_left (fun l a => sl_insert (new_source a) l) srcs acc.

Lemma fresh_insert a (l : list (source A)) :
  fresh_sources l -> fresh_sources (sl_insert (new_source a) l).
Proof.
  intros [Ho Hf]. split; [by apply sl_insert_ordered|]. apply Forall_forall. intros x Hx.
  apply sl_insert_In in Hx as [->|Hx]; [done|]. by eapply Forall_forall in Hf.
Qed.

Lemma slist_of_spec srcs acc :
  fresh_sources acc ->
  fresh_sources (slist_of acc srcs) /\ sl_keys (slist_of acc srcs) = sl_keys acc ∪ list_to_set srcs.
Proof.
  revert acc. induction srcs as [|a srcs IH]; intros acc Hacc; simpl.
  { split; [done|]. set_solver. }
  destruct (IH (sl_insert (new_source a) acc) (fresh_insert a acc Hacc)) as [Hf Hk].
  split; [done|]. rewrite Hk. apply set_eq. intros k.
  rewrite !elem_of_union, !elem_of_sl_keys, sl_find_insert, elem_of_singleton.
  change (key (new_source a)) with a. destruct (sl_find k acc) eqn:E; [naive_solver|].
  case_bool_decide; naive_solver.
Qed.

(** Reading behind a prefix. *)
Lemma rd_shift pre l k n : rd (pre ++ l) (length pre + k) n = rd l k n.
Proof.
  unfold rd. rewrite length_app, <- drop_drop, drop_app_length. repeat case_decide; done || lia.
Qed.

Lemma rd8_shift pre l k : rd8 (pre ++ l) (length pre + k) = rd8 l k.
Proof. unfold rd8. rewrite lookup_app_r by lia. f_equal. lia. Qed.

Lemma rd8_behind pre l : rd8 (pre ++ l) (length pre) = rd8 l 0.
Proof. rewrite <- (rd8_shift pre l 0). by rewrite Nat.add_0_r. Qed.

Lemma rd16_shift pre l k : rd16 (pre ++ l) (length pre + k) = rd16 l k.
Proof. unfold rd16. by rewrite rd_shift. Qed.

Lemma rd_prefix pre l k n bs : rd pre k n = Some bs -> rd (pre ++ l) k n = Some bs.
Proof.
  unfold rd. rewrite length_app. case_decide as Hk; [|done]. rewrite decide_True by lia.
  intros [= <-]. f_equal. rewrite drop_app_le by lia. apply take_app_le. rewrite length_drop. lia.
Qed.

Lemma rd8_prefix pre l k x : rd8 pre k = Some x -> rd8 (pre ++ l) k = Some x.
Proof. apply lookup_app_l_Some. Qed.

Lemma read_sources_shift pre l k n acc :
  read_sources (pre ++ l) (length pre + k) n acc = read_sources l k n acc.
Proof.
  revert k acc. induction n as [|n IH]; intros k acc; [done|]. cbn [read_sources].
  rewrite rd_shift. destruct (rd l k addr_size) as [src|]; [|done]. simpl.
  by rewrite <- Nat.add_assoc, IH.
Qed.

Lemma rd_front mid post n : n = length mid -> rd (mid ++ post) 0 n = Some mid.
Proof.
  intros ->. unfold rd. rewrite decide_True by (rewrite length_app; lia). by rewrite drop_0, take_app_length.
Qed.

Lemma rd16_front z post : 0 <= z < 2 ^ 16 -> rd16 (to_be 2 z ++ post) 0 = Some z.
Proof.
  intros Hz. unfold rd16. rewrite rd_front by done. simpl. f_equal. by apply (be_value_to_be 2).
Qed.

Lemma read_sources_spec srcs post acc :
  read_sources (concat (map to_octets srcs) ++ post) 0 (length srcs) acc
  = Some (slist_of acc srcs).
Proof.
  revert acc. induction srcs as [|a srcs IH]; intros acc; [done|].
  cbn [map concat length read_sources]. rewrite <- (app_assoc (to_octets a)).
  destruct (to_octets_ok a) as [Hl _]. rewrite rd_front by done. simpl. rewrite of_to_octets.
  rewrite <- Hl, <- (Nat.add_0_r (length (to_octets a))), read_sources_shift. apply IH.
Qed.

Lemma encode_record_length rr :
  record_wf rr ->
  length (encode_record rr)
  = (4 + addr_size + length (rr_sources rr) * addr_size + rr_aux_words rr * 4)%nat.
Proof.
  intros (_ & _ & Haux & _). unfold encode_record.
  assert (Hs : length (concat (map to_octets (rr_sources rr))) = (length (rr_sources rr) * addr_size)%nat).
  { induction (rr_sources rr) as [|a l IH]; [done|].
    cbn [map concat length]. rewrite length_app, IH. destruct (to_octets_ok a) as [-> _]. lia. }
  rewrite !length_app, Hs, Haux. destruct (to_octets_ok (rr_gaddr rr)) as [-> _]. simpl. lia.
Qed.

(** The fields of a record at the front of the buffer. *)
Lemma record_fields rr post :
  record_wf rr ->
  let buf := encode_record rr ++ post in
  rd8 buf 0 = Some (rr_type rr) /\ rd8 buf 1 = Some (Z.of_nat (rr_aux_words rr))
  /\ rd16 buf 2 = Some (Z.of_nat (length (rr_sources rr)))
  /\ rd buf 4 addr_size = Some (to_octets (rr_gaddr rr))
  /\ read_sources buf (4 + addr_size) (length (rr_sources rr)) []
     = Some (slist_of [] (rr_sources rr)).
Proof.
  intros (Ht & Haw & Haux & Hn). destruct (to_octets_ok (rr_gaddr rr)) as [Hg _].
  unfold encode_record. rewrite <- !app_assoc. cbv zeta. split_and!; [done|done| | |].
  - rewrite (rd16_shift [_; _] _ 0). apply rd16_front. lia.
  - rewrite (rd_shift [_; _] _ 2), (rd_shift (to_be 2 _) _ 0). by apply rd_front.
  - change (4 + addr_size)%nat with (2 + (2 + addr_size))%nat.
    rewrite (read_sources_shift [_; _]), (read_sources_shift (to_be 2 _)).
    rewrite <- Hg, <- (Nat.add_0_r (length (to_octets _))), read_sources_shift.
    apply read_sources_spec.
Qed.

Lemma read_record_spec i v rr pre post n :
  record_wf rr ->
  read_records i v (pre ++ encode_record rr ++ post) (length pre) (S n)
  = (rest ← read_records i v (pre ++ encode_record rr ++ post)
              (length pre + length (encode_record rr))%nat n;
     Some (a_group_record_msg {| gr_if_index := i;
             gr_record_type := record_type_of_octet (rr_type rr); gr_gaddr := rr_gaddr rr;
             gr_slist := slist_of [] (rr_sources rr); gr_grp_mem_proto := v |} :: rest)).
Proof.
  intros Hwf. pose proof (encode_record_length rr Hwf) as Hlen.
  destruct (record_fields rr post Hwf) as (F0 & F1 & F2 & F3 & F4).
  cbn [read_records]. rewrite <- (Nat.add_assoc (length pre) 4 addr_size).
  rewrite <- (Nat.add_0_r (length pre)) at 1.
  rewrite !rd8_shift, rd16_shift, rd_shift, F0, F1, F2, F3. cbn [mbind option_bind].
  rewrite !Nat2Z.id.
  rewrite (read_sources_shift pre _ (4 + addr_size)), F4. cbn [mbind option_bind].
  rewrite Hlen, of_to_octets. do 2 f_equal. lia.
Qed.

Lemma read_records_spec i v rs pre post :
  Forall record_wf rs ->
  exists msgs, read_records i v (pre ++ concat (map encode_record rs) ++ post) (length pre) (length rs)
               = Some msgs /\ Forall2 (delivers i v) rs msgs.
Proof.
  intros Hrs. revert pre. induction Hrs as [|rr rs Hr Hrs IH]; intros pre; [by exists []|].
  cbn [map concat length]. rewrite <- (app_assoc (encode_record rr)).
  rewrite read_record_spec by done.
  destruct (IH (pre ++ encode_record rr)) as (msgs & Hread & Hd).
  rewrite length_app, <- app_assoc in Hread. rewrite Hread. simpl. eexists. split; [done|].
  constructor; [|done]. eexists. split; [done|]. simpl.
  destruct (slist_of_spec (rr_sources rr) []) as [Hf Hk]; [split; constructor|].
  split_and!; try done. rewrite Hk. unfold sl_keys. simpl. set_solver.
Qed.
End Encoding.

Arguments report_record : clear implicits.

(** ** What the receivers hand to the proxy instance *)

Section Delivered.
Context {A : Type} `{AddressCodec A}.

(** A message for a registered interface, with sources as the querier expects
    them. *)
Definition message_fit r (m : proxy_msg A) : Prop :=
  match m with
  | a_group_record_msg gr => fresh_sources (gr_slist gr) /\ gr_if_index gr ∈ m_relevant_if_index r
  | new_source_msg i _ _ => i <> 0 /\ i ∈ m_relevant_if_index r
  | _ => False
  end.

Lemma read_sources_fresh buf off n acc l :
  fresh_sources acc -> read_sources buf off n acc = Some l -> fresh_sources (A := A) l.
Proof.
  revert off acc. induction n as [|n IH]; intros off acc Hacc Hr; simpl in Hr; [by simplify_eq|].
  destruct (rd buf off addr_size) as [src|]; simpl in Hr; [|done].
  eapply IH; [|exact Hr]. by apply fresh_insert.
Qed.

Lemma read_records_fit r i v buf off n msgs :
  is_if_index_relevant i r = true -> read_records i v buf off n = Some msgs ->
  Forall (message_fit r) msgs.
Proof.
  intros Hi%bool_decide_eq_true. revert off msgs.
  induction n as [|n IH]; intros off msgs Hr; cbn [read_records] in Hr; [by simplify_eq|].
  repeat match type of Hr with
  | context [?x ≫= _] => destruct x as [?|] eqn:?; cbn [mbind option_bind] in Hr; [|done]
  end.
  simplify_eq. constructor; [|by eapply IH]. split; [|done]. simpl.
  eapply read_sources_fresh; [|eassumption]. split; constructor.
Qed.

Lemma older_record_fit r i rt g v :
  is_if_index_relevant i r = true -> Forall (message_fit r) [older_record i rt g v].
Proof.
  intros Hi%bool_decide_eq_true. constructor; [|done]. split; [|done]. split; constructor.
Qed.

Lemma new_source_fit r i g s :
  (i =? 0) = false -> negb (is_if_index_relevant i r) = false ->
  Forall (message_fit r) [new_source_msg i g s].
Proof.
  intros Hz%Z.eqb_neq Hi%negb_false_iff%bool_decide_eq_true. by constructor.
Qed.

(** A claimed number of sources that does not fit in the buffer. *)
Lemma read_sources_overread buf off n acc :
  (length buf < off + n * addr_size)%nat -> (off <= length buf)%nat ->
  read_sources (A := A) buf off n acc = None.
Proof.
  revert off acc. induction n as [|n IH]; intros off acc Hlong Hoff; [simpl in Hlong; lia|].
  cbn [read_sources]. unfold rd. case_decide; [|done]. simpl. apply IH; [simpl in Hlong|]; lia.
Qed.

Lemma read_records_overread i v buf off n nos :
  rd16 buf (off + 2) = Some nos ->
  (length buf < off + 4 + addr_size + Z.to_nat nos * addr_size)%nat ->
  (off + 4 + addr_size <= length buf)%nat ->
  read_records (A := A) i v buf off (S n) = None.
Proof.
  intros Hnos Hlong Hoff. cbn [read_records]. rewrite Hnos. cbn [mbind option_bind].
  destruct (rd8 buf off) as [t|]; [|done]. cbn [mbind option_bind].
  destruct (rd8 buf (off + 1)) as [a|]; [|done]. cbn [mbind option_bind].
  destruct (rd buf (off + 4) addr_size) as [g|]; [|done]. cbn [mbind option_bind].
  by rewrite read_sources_overread.
Qed.
End Delivered.

Ltac packet_steps Hr :=
  repeat match type of Hr with
  | context [?x ≫= _] => destruct x as [?|] eqn:?; cbn [mbind option_bind] in Hr; [|done]
  | context [match ?x with _ => _ end] =>
      first [is_var x; destruct x | destruct x eqn:?]; cbn [negb] in Hr; try done
  end.

Section Theorems.
Context (if_nametoindex : string -> Z)
  (props : list (string * option (addr_storage * addr_storage))) (host_u16 : list Z -> Z).

(** The header of a report of either protocol. *)
Definition report_header (type : Z) (x : list Z) n : list Z :=
  [type] ++ x ++ to_be 2 (Z.of_nat n).

Lemma report_header_length type x n : length x = 5%nat -> length (report_header type x n) = 8%nat.
Proof. intros Hx. unfold report_header. rewrite !length_app, Hx. done. Qed.

Lemma report_header_count type x n post :
  length x = 5%nat -> Z.of_nat n < 2 ^ 16 ->
  rd16 (report_header type x n ++ post) 6 = Some (Z.of_nat n).
Proof.
  intros Hx Hn. unfold report_header. rewrite app_assoc, <- app_assoc.
  replace 6%nat with (length ([type] ++ x) + 0)%nat by (rewrite length_app, Hx; done).
  rewrite rd16_shift. apply rd16_front. lia.
Qed.

Lemma igmp_input_relevant r src i :
  igmp_input_if if_nametoindex props r src = Some i -> is_if_index_relevant i r = true.
Proof.
  unfold igmp_input_if. destruct (_ =? 0); [done|].
  destruct (is_if_index_relevant _ r) eqn:E; [|done]. by intros [= <-].
Qed.

Lemma mld_input_relevant r ctrl i :
  mld_input_if r ctrl = Some i -> is_if_index_relevant i r = true.
Proof.
  unfold mld_input_if. destruct (packet_info ctrl) as [j|]; [|done].
  destruct (is_if_index_relevant j r) eqn:E; [|done]. by intros [= <-].
Qed.

Lemma igmp_messages_fit ifs r buf msgs :
  igmp_analyse_packet if_nametoindex props ifs r buf = Some msgs -> Forall (message_fit r) msgs.
Proof.
  intros Hr. unfold igmp_analyse_packet in Hr. packet_steps Hr; simplify_eq; try done;
    eauto using older_record_fit, new_source_fit, read_records_fit, igmp_input_relevant.
Qed.

Lemma mld_messages_fit ifs r ctrl buf msgs :
  mld_analyse_packet host_u16 ifs r ctrl buf = Some msgs -> Forall (message_fit r) msgs.
Proof.
  intros Hr. unfold mld_analyse_packet in Hr. packet_steps Hr; simplify_eq; try done;
    eauto using older_record_fit, new_source_fit, read_records_fit, mld_input_relevant.
Qed.

(** C25: Whatever a packet contains, the receivers only hand over messages for
    interfaces that are registered, and every report they hand over has an
    ordered source list of fresh sources, as the querier relies on. *)
Theorem received_messages_fit ifs r ctrl buf :
  (forall msgs, igmp_analyse_packet if_nametoindex props ifs r buf = Some msgs ->
     Forall (message_fit r) msgs)
  /\ (forall msgs, mld_analyse_packet host_u16 ifs r ctrl buf = Some msgs ->
     Forall (message_fit r) msgs).
Proof. split; intros msgs; [apply igmp_messages_fit|apply mld_messages_fit]. Qed.

(** An IGMPv3 report arrives completely: for an IP packet with any header
    and options, from an address whose interface is registered, the receiver
    hands over one message for each group record, in order, with its type, its
    group and exactly its sources, whatever the auxiliary data and whatever
    follows in the buffer. *)
Theorem igmp_report_delivered ifs r hdr vhl src i hi lo x (rs : list (report_record ipv4)) post :
  length hdr = Z.to_nat (Z.land vhl 0xF * 4) -> rd8 hdr 0 = Some vhl -> rd8 hdr 9 = Some IPPROTO_IGMP ->
  rd hdr 2 2 = Some [hi; lo] -> hi * 256 + lo <= Z.of_nat igmp_iov_min_size ->
  rd hdr 12 4 = Some src -> igmp_input_if if_nametoindex props r src = Some i ->
  length x = 5%nat -> Forall record_wf rs -> Z.of_nat (length rs) < 2 ^ 16 ->
  exists msgs,
    igmp_analyse_packet if_nametoindex props ifs r
      (hdr ++ report_header IGMP_V3_MEMBERSHIP_REPORT x (length rs)
           ++ concat (map encode_record rs) ++ post) = Some msgs
    /\ Forall2 (delivers i IGMPv3) rs msgs.
Proof.
  intros Hlen H0 H9 H2 Hsz H12 Hif Hx Hrs Hn. unfold igmp_analyse_packet, rd16.
  rewrite (rd8_prefix _ _ _ _ H0). cbn [mbind option_bind]. rewrite <- Hlen.
  rewrite (rd8_prefix _ _ _ _ H9), (rd_prefix _ _ _ _ _ H2), (rd_prefix _ _ _ _ _ H12).
  cbn [mbind option_bind fmap option_fmap option_map].
  change (IPPROTO_IGMP =? IGMP_RECEIVER_KERNEL_MSG) with false.
  change (be_value [hi; lo]) with ((0 * 256 + hi) * 256 + lo). rewrite (proj2 (Z.leb_le _ _)) by lia.
  change (IPPROTO_IGMP =? IPPROTO_IGMP) with true. cbn [andb].
  rewrite rd8_behind. cbn [mbind option_bind].
  change (rd8 (report_header IGMP_V3_MEMBERSHIP_REPORT x (length rs) ++ _) 0)
    with (Some IGMP_V3_MEMBERSHIP_REPORT). cbn [mbind option_bind].
  change ((IGMP_V3_MEMBERSHIP_REPORT =? IGMP_V2_MEMBERSHIP_REPORT)
    || (IGMP_V3_MEMBERSHIP_REPORT =? IGMP_V2_LEAVE_GROUP)) with false.
  change (IGMP_V3_MEMBERSHIP_REPORT =? IGMP_V3_MEMBERSHIP_REPORT) with true. cbv iota.
  pose proof (report_header_count IGMP_V3_MEMBERSHIP_REPORT x (length rs)
    (concat (map encode_record rs) ++ post) Hx Hn) as Hc. unfold rd16 in Hc.
  rewrite rd_shift, Hc. cbn [mbind option_bind]. rewrite Hif, Nat2Z.id.
  destruct (read_records_spec i IGMPv3 rs
    (hdr ++ report_header IGMP_V3_MEMBERSHIP_REPORT x (length rs)) post Hrs) as (msgs & Hm & Hd).
  rewrite length_app, report_header_length, <- app_assoc in Hm by done. eauto.
Qed.

(** An MLDv2 report arrives completely: with packet information for a
    registered interface the receiver hands over one message for each address
    record, in order, with its type, its group and exactly its sources. *)
Theorem mld_report_delivered ifs r ctrl i x (rs : list (report_record ipv6)) post :
  mld_input_if r ctrl = Some i ->
  length x = 5%nat -> Forall record_wf rs -> Z.of_nat (length rs) < 2 ^ 16 ->
  exists msgs,
    mld_analyse_packet host_u16 ifs r ctrl
      (report_header MLD_V2_LISTENER_REPORT x (length rs) ++ concat (map encode_record rs) ++ post)
    = Some msgs
    /\ Forall2 (delivers i MLDv2) rs msgs.
Proof.
  intros Hif Hx Hrs Hn. unfold mld_analyse_packet.
  change (rd8 (report_header MLD_V2_LISTENER_REPORT x (length rs) ++ _) 0)
    with (Some MLD_V2_LISTENER_REPORT). cbn [mbind option_bind].
  change (MLD_V2_LISTENER_REPORT =? MLD_RECEIVER_KERNEL_MSG) with false.
  change ((MLD_V2_LISTENER_REPORT =? MLD_LISTENER_REPORT)
    || (MLD_V2_LISTENER_REPORT =? MLD_LISTENER_REDUCTION)) with false.
  change (MLD_V2_LISTENER_REPORT =? MLD_V2_LISTENER_REPORT) with true. cbv iota.
  assert (exists j, packet_info ctrl = Some j) as [j ->].
  { unfold mld_input_if in Hif. destruct (packet_info ctrl); [eauto|done]. }
  rewrite (report_header_count _ _ _ _ Hx Hn). cbn [mbind option_bind]. rewrite Hif, Nat2Z.id.
  destruct (read_records_spec i MLDv2 rs (report_header MLD_V2_LISTENER_REPORT x (length rs)) post Hrs)
    as (msgs & Hm & Hd).
  rewrite report_header_length in Hm by done. eauto.
Qed.

(** The counts of a report are not checked against its size: a report whose
    first record claims more sources than the receive buffer can hold passes
    all checks of the handler and is then read beyond the end of the buffer. *)
Theorem igmp_report_overread ifs r buf vhl len src i nrec nos :
  length buf = igmp_iov_min_size ->
  rd8 buf 0 = Some vhl -> 0 <= vhl -> rd8 buf 9 = Some IPPROTO_IGMP ->
  rd16 buf 2 = Some len -> len <= Z.of_nat igmp_iov_min_size ->
  rd buf 12 4 = Some src -> igmp_input_if if_nametoindex props r src = Some i ->
  rd8 buf (Z.to_nat (Z.land vhl 0xF * 4)) = Some IGMP_V3_MEMBERSHIP_REPORT ->
  rd16 buf (Z.to_nat (Z.land vhl 0xF * 4) + 6)%nat = Some nrec -> 1 <= nrec ->
  rd16 buf (Z.to_nat (Z.land vhl 0xF * 4) + 8 + 2)%nat = Some nos -> 2 ^ 12 <= nos ->
  igmp_analyse_packet if_nametoindex props ifs r buf = None.
Proof.
  intros Hlen H0 Hv H9 H2 Hl H12 Hif Ht Hn Hn1 Hnos Hbig. unfold igmp_analyse_packet.
  rewrite H0. cbn [mbind option_bind]. rewrite H9. cbn [mbind option_bind].
  change (IPPROTO_IGMP =? IGMP_RECEIVER_KERNEL_MSG) with false. rewrite H2. cbn [mbind option_bind].
  rewrite (proj2 (Z.leb_le _ _)) by lia. change (IPPROTO_IGMP =? IPPROTO_IGMP) with true. cbn [andb].
  rewrite Ht. cbn [mbind option_bind]. rewrite H12. cbn [mbind option_bind].
  change ((IGMP_V3_MEMBERSHIP_REPORT =? IGMP_V2_MEMBERSHIP_REPORT)
    || (IGMP_V3_MEMBERSHIP_REPORT =? IGMP_V2_LEAVE_GROUP)) with false.
  change (IGMP_V3_MEMBERSHIP_REPORT =? IGMP_V3_MEMBERSHIP_REPORT) with true. cbv iota.
  rewrite Hn. cbn [mbind option_bind]. rewrite Hif.
  assert (Hland : 0 <= Z.land vhl 0xF < 16).
  { change 0xF with (Z.ones 4). rewrite Z.land_ones by lia. apply (Z.mod_pos_bound vhl 16). lia. }
  destruct (Z.to_nat nrec) as [|k] eqn:Hk; [lia|].
  apply (read_records_overread _ _ _ _ _ nos Hnos); rewrite Hlen; unfold igmp_iov_min_size;
    simpl addr_size; lia.
Qed.
End Theorems.

(** ** Instances

    A report that came in on interface 7, the interface of the subnet
    10.0.0.0/24. *)

Definition ex_props : list (string * option (addr_storage * addr_storage)) :=
  [("lo"%string, None); ("eth0"%string, Some (ip4 255 255 255 0, ip4 10 0 0 254))].
Definition ex_index (name : string) : Z := 7.
Definition ex_receiver : receiver := registrate_interface 7 {| m_relevant_if_index := ∅ |}.
Definition ex_u16 (bs : list Z) : Z := be_value (rev bs).
Definition ex_hdr : list Z := [0x45; 0; 0; 60; 0; 0; 0; 0; 1; 2; 0; 0; 10; 0; 0; 9; 224; 0; 0; 22].
Definition ex_rr4 : report_record ipv4 :=
  {| rr_type := 6; rr_aux_words := 1; rr_aux := [1; 2; 3; 4]; rr_gaddr := mk_ipv4 232 1 1 1;
     rr_sources := [mk_ipv4 10 0 0 2; mk_ipv4 10 0 0 1; mk_ipv4 10 0 0 2] |}.
Definition ex_rr6 : report_record ipv6 :=
  {| rr_type := 4; rr_aux_words := 0; rr_aux := []; rr_gaddr := ipv6_of_octets (0xff :: zeros 15);
     rr_sources := [ipv6_of_octets (zeros 15 ++ [1])] |}.

Lemma igmp_report_delivered_witness :
  exists msgs, igmp_analyse_packet ex_index ex_props (new_interfaces AF_INET false) ex_receiver
      (ex_hdr ++ report_header IGMP_V3_MEMBERSHIP_REPORT (zeros 5) 1
              ++ concat (map encode_record [ex_rr4]) ++ zeros 100) = Some msgs
    /\ Forall2 (delivers 7 IGMPv3) [ex_rr4] msgs.
Proof.
  apply (igmp_report_delivered ex_index ex_props (new_interfaces AF_INET false) ex_receiver ex_hdr
    0x45 [10; 0; 0; 9] 7 0 60 (zeros 5) [ex_rr4] (zeros 100)); try reflexivity; try discriminate.
  constructor; [|constructor]. repeat split; cbn; lia.
Defined.

Lemma mld_report_delivered_witness :
  exists msgs, mld_analyse_packet ex_u16 (new_interfaces AF_INET6 false) ex_receiver
      [{| cmsg_len := 36; cmsg_level := IPPROTO_IPV6; cmsg_type := IPV6_PKTINFO;
          ipi6_ifindex := 7 |}]
      (report_header MLD_V2_LISTENER_REPORT (zeros 5) 1
       ++ concat (map encode_record [ex_rr6]) ++ zeros 100) = Some msgs
    /\ Forall2 (delivers 7 MLDv2) [ex_rr6] msgs.
Proof.
  apply (mld_report_delivered ex_u16 (new_interfaces AF_INET6 false) ex_receiver
    [{| cmsg_len := 36; cmsg_level := IPPROTO_IPV6; cmsg_type := IPV6_PKTINFO;
        ipi6_ifindex := 7 |}] 7 (zeros 5) [ex_rr6] (zeros 100)); try reflexivity; try discriminate.
  constructor; [|constructor]. repeat split; cbn; lia.
Defined.

(** A report of one record that claims 65535 sources. *)
Definition ex_overlong : list Z :=
  ex_hdr ++ report_header IGMP_V3_MEMBERSHIP_REPORT (zeros 5) 1
  ++ [4; 0; 255; 255; 232; 1; 1; 1] ++ zeros (igmp_iov_min_size - 36).

Lemma igmp_report_overread_witness :
  igmp_analyse_packet ex_index ex_props (new_interfaces AF_INET false) ex_receiver ex_overlong = None.
Proof.
  apply (igmp_report_overread ex_index ex_props (new_interfaces AF_INET false) ex_receiver
    ex_overlong 0x45 60 [10; 0; 0; 9] 7 1 65535); vm_compute; first [reflexivity|discriminate].
Defined.

(** The kernel reports traffic from 10.0.0.1 on the first virtual interface. *)
Definition ex_upcall : list Z :=
  [0; 0; 0; 0; 0; 0; 0; 0; 1; 0; 0; 0; 10; 0; 0; 1; 232; 1; 1; 1] ++ zeros 100.
Definition ex_table : interfaces :=
  set_maps [(0, 7)] [(7, 0)] (new_interfaces AF_INET false).

Lemma received_messages_fit_witness :
  exists m, igmp_analyse_packet ex_index ex_props ex_table ex_receiver ex_upcall = Some [m]
    /\ message_fit ex_receiver m.
Proof.
  eexists. split; [reflexivity|]. apply Forall_singleton.
  apply (received_messages_fit ex_index ex_props ex_u16 ex_table ex_receiver [] ex_upcall).
  reflexivity.
Defined.
