(* ===== verification/ReceiverThread.v ===== *)
(** * The receiver threads (src/proxy/receiver.cpp)

    The loop around the analysis of a packet. The receive buffer and the length
    of the control buffer are set up once and live as long as the thread: a
    packet overwrites the front of the buffer, and every call leaves the length
    of the control data it delivered for the next one. *)

From S2P Require Import Prelude Def AddrStorage Timing Messages Interfaces Printing Sockets Receiver.

Local Open Scope Z_scope.

(** The answer to a call of [recvmsg]: its result, the data, and the control
    messages with their length for a control buffer of a given length. *)
Record arrival := {
  a_result : kresult;
  a_data : list Z;
  a_ctrl : Z -> list cmsghdr * Z
}.

Section Thread.
(** [analyse_packet]. *)
Context {M : Type} (analyse : list cmsghdr -> list Z -> option (list M)).

(** What [recvmsg] leaves in memory: the buffer, the control messages and the
    length of the control buffer. *)
Definition recvmsg_memory (a : arrival) (buf : list Z) (controllen : Z)
    : list Z * (list cmsghdr * Z) :=
  match a_result a with
  | KOk n => (take (Z.to_nat n) (a_data a) ++ drop (Z.to_nat n) buf, a_ctrl a controllen)
  | KErr _ => (buf, ([], controllen))
  end.

(** The loop, for the answers that arrive until [stop] is called. *)
Fixpoint receiver_thread (arrivals : list arrival) (buf : list Z) (controllen : Z)
    : option (list M) :=
  match arrivals with
  | [] => Some []
  | a :: arrivals' =>
    let '(buf', (ctrl, controllen')) := recvmsg_memory a buf controllen in
    let '(ok, info_size) := received (a_result a) in
    if negb ok then receiver_thread arrivals' buf' controllen'
    else if info_size =? 0 then receiver_thread arrivals' buf' controllen'
    else
      msgs ← analyse ctrl buf';
      rest ← receiver_thread arrivals' buf' controllen';
      Some (msgs ++ rest)
  end.

(** ** Delivery *)

Section Delivery.
Context {A : Type} `{AddressCodec A} (delivered : Z -> report_record A -> M -> Prop).
(** [data] is a report of the records [rs] that came in on the interface [i]. *)
Context (is_report : Z -> list (report_record A) -> list cmsghdr -> list Z -> Prop).
Hypothesis report_read : forall i rs ctrl data post,
  is_report i rs ctrl data ->
  exists msgs, analyse ctrl (data ++ post) = Some msgs /\ Forall2 (delivered i) rs msgs.
Context (size : nat) (ctrl_size : Z).

(** An arrival brings a report, or nothing ([None]): a failed call, a timeout
    or an empty packet. *)
Inductive brings : option (Z * list (report_record A)) -> arrival -> Prop :=
  | brings_report i rs a ctrl :
      a_result a = KOk (Z.of_nat (length (a_data a))) ->
      (0 < length (a_data a) <= size)%nat ->
      a_ctrl a ctrl_size = (ctrl, ctrl_size) ->
      is_report i rs ctrl (a_data a) ->
      brings (Some (i, rs)) a
  | brings_error a b : a_result a = KErr b -> brings None a
  | brings_empty a ctrl :
      a_result a = KOk 0 -> a_ctrl a ctrl_size = (ctrl, ctrl_size) -> brings None a.

(** The records of what arrived, each with its interface. *)
Definition records_of (expected : list (option (Z * list (report_record A))))
    : list (Z * report_record A) :=
  concat (map (fun o => match o with Some (i, rs) => map (pair i) rs | None => [] end) expected).

Lemma receiver_thread_delivers expected arrivals buf :
  Forall2 brings expected arrivals -> length buf = size ->
  exists msgs, receiver_thread arrivals buf ctrl_size = Some msgs
    /\ Forall2 (fun e m => delivered e.1 e.2 m) (records_of expected) msgs.
Proof.
  intros Hb. revert buf. induction Hb as [|o a expected arrivals Ho Hb IH]; intros buf Hl.
  { by exists []. }
  cbn [receiver_thread]. unfold recvmsg_memory.
  destruct Ho as [i rs a ctrl Hr Hn Hc Hrep|a b Hr|a ctrl Hr Hc]; rewrite Hr; cbn [received].
  - rewrite Hc, Nat2Z.id, take_ge by lia. cbv zeta.
    rewrite (proj2 (Z.eqb_neq (Z.of_nat _) (-1))), (proj2 (Z.eqb_neq (Z.of_nat _) 0)) by lia. cbn [negb].
    destruct (report_read i rs ctrl (a_data a) (drop (length (a_data a)) buf) Hrep) as (msgs & -> & Hd).
    destruct (IH (a_data a ++ drop (length (a_data a)) buf)) as (rest & -> & Hd').
    { rewrite length_app, length_drop. lia. }
    cbn [mbind option_bind]. eexists. split; [reflexivity|]. unfold records_of. cbn [map concat].
    apply Forall2_app; [|done]. by apply Forall2_fmap_l.
  - destruct b; cbn; by apply IH.
  - rewrite Hc. cbn. by apply IH.
Qed.
End Delivery.

(** ** What is left of an earlier packet *)

(** A packet that repeats the first octets of the one before it is analysed as
    if it were complete: the size of the packet plays no role. *)
Lemma truncated_report_redelivers a1 a2 buf ctrl controllen n msgs :
  a_result a1 = KOk (Z.of_nat (length (a_data a1))) -> (0 < n <= length (a_data a1))%nat ->
  a_ctrl a1 controllen = (ctrl, controllen) -> a_ctrl a2 controllen = (ctrl, controllen) ->
  a_result a2 = KOk (Z.of_nat n) -> a_data a2 = take n (a_data a1) ->
  analyse ctrl (a_data a1 ++ drop (length (a_data a1)) buf) = Some msgs ->
  receiver_thread [a1; a2] buf controllen = Some (msgs ++ msgs).
Proof.
  intros H1 Hn Hc1 Hc2 H2 Hd Hm. cbn [receiver_thread]. unfold recvmsg_memory.
  rewrite H1, H2, Hc1, Hc2, Hd, !Nat2Z.id, (take_ge (a_data a1) (length (a_data a1))) by lia. cbn [received].
  rewrite !(proj2 (Z.eqb_neq (Z.of_nat _) (-1))), !(proj2 (Z.eqb_neq (Z.of_nat _) 0)) by lia. cbn [negb].
  rewrite Hm. cbn [mbind option_bind]. rewrite take_take, Nat.min_id.
  rewrite drop_app_le by lia. rewrite app_assoc, take_drop, Hm. cbn. by rewrite app_nil_r.
Qed.
End Thread.

(** ** The two receivers *)

(** [get_ctrl_min_size]. *)
Definition igmp_ctrl_min_size : Z := 0.
Definition mld_ctrl_min_size : Z := 16 + 20.

Section Receivers.
Context (if_nametoindex : string -> Z)
  (props : list (string * option (addr_storage * addr_storage))) (host_u16 : list Z -> Z).
Context (ifs : interfaces) (r : receiver).

Definition igmp_thread (arrivals : list arrival) (buf : list Z) : option (list (proxy_msg ipv4)) :=
  receiver_thread (fun _ => igmp_analyse_packet if_nametoindex props ifs r) arrivals buf igmp_ctrl_min_size.

Definition mld_thread (arrivals : list arrival) (buf : list Z) : option (list (proxy_msg ipv6)) :=
  receiver_thread (mld_analyse_packet host_u16 ifs r) arrivals buf mld_ctrl_min_size.

(** An IP packet with an IGMPv3 report from an address of the interface. *)
Definition is_igmpv3_report (i : Z) (rs : list (report_record ipv4)) (_ : list cmsghdr)
    (data : list Z) : Prop :=
  exists hdr vhl src hi lo x post,
    data = hdr ++ report_header IGMP_V3_MEMBERSHIP_REPORT x (length rs)
             ++ concat (map encode_record rs) ++ post
    /\ length hdr = Z.to_nat (Z.land vhl 0xF * 4) /\ rd8 hdr 0 = Some vhl
    /\ rd8 hdr 9 = Some IPPROTO_IGMP /\ rd hdr 2 2 = Some [hi; lo]
    /\ hi * 256 + lo <= Z.of_nat igmp_iov_min_size /\ rd hdr 12 4 = Some src
    /\ igmp_input_if if_nametoindex props r src = Some i
    /\ length x = 5%nat /\ Forall record_wf rs /\ Z.of_nat (length rs) < 2 ^ 16.

(** An MLDv2 report with the packet information of the interface. *)
Definition is_mldv2_report (i : Z) (rs : list (report_record ipv6)) (ctrl : list cmsghdr)
    (data : list Z) : Prop :=
  exists x post,
    data = report_header MLD_V2_LISTENER_REPORT x (length rs) ++ concat (map encode_record rs) ++ post
    /\ mld_input_if r ctrl = Some i
    /\ length x = 5%nat /\ Forall record_wf rs /\ Z.of_nat (length rs) < 2 ^ 16.

(** C23: The IGMP thread delivers every report: whatever errors, timeouts and
    empty packets come in between and whatever earlier packets left in the
    buffer, one message per group record reaches the instance, in order, for the
    interface of its report and with exactly its sources. *)
Theorem igmp_thread_delivers expected arrivals buf :
  Forall2 (brings is_igmpv3_report igmp_iov_min_size igmp_ctrl_min_size) expected arrivals ->
  length buf = igmp_iov_min_size ->
  exists msgs, igmp_thread arrivals buf = Some msgs
    /\ Forall2 (fun e m => delivers e.1 IGMPv3 e.2 m) (records_of expected) msgs.
Proof.
  apply (receiver_thread_delivers _ (fun i => delivers i IGMPv3)).
  intros i rs ctrl data post (hdr & vhl & src & hi & lo & x & post' & -> & ? & ? & ? & ? & ? & ? & ? & ? & ? & ?).
  rewrite <- !app_assoc. by eapply igmp_report_delivered.
Qed.

(** C24: As long as every packet brings its packet information and the kernel leaves
    the length of the control buffer as it was, the MLD thread delivers every report
    in the same way. (The length is not set again after a call: one packet without
    control data ends the delivery, [control_data_lost].) *)
Theorem mld_thread_delivers expected arrivals buf :
  Forall2 (brings is_mldv2_report mld_iov_min_size mld_ctrl_min_size) expected arrivals ->
  length buf = mld_iov_min_size ->
  exists msgs, mld_thread arrivals buf = Some msgs
    /\ Forall2 (fun e m => delivers e.1 MLDv2 e.2 m) (records_of expected) msgs.
Proof.
  apply (receiver_thread_delivers _ (fun i => delivers i MLDv2)).
  intros i rs ctrl data post (x & post' & -> & ? & ? & ? & ?).
  rewrite <- !app_assoc. by apply mld_report_delivered.
Qed.

(** A packet without control data leaves a control buffer of length zero, and
    the length is never set again: from then on no report is delivered. *)
Definition mld_report_arrival (a : arrival) : Prop :=
  exists t l, a_data a = t :: l /\ a_result a = KOk (Z.of_nat (length (a_data a)))
    /\ t ∈ [MLD_LISTENER_REPORT; MLD_LISTENER_REDUCTION; MLD_V2_LISTENER_REPORT]
    /\ a_ctrl a 0 = ([], 0).

Lemma no_control_no_reports arrivals buf :
  Forall mld_report_arrival arrivals ->
  receiver_thread (mld_analyse_packet host_u16 ifs r) arrivals buf 0 = Some [].
Proof.
  intros Ha. revert buf. induction Ha as [|a' arrivals (t & l & Hd & Hr & Ht & Hc) Ha IH]; intros buf; [done|].
  cbn [receiver_thread]. unfold recvmsg_memory. rewrite Hr, Hc, Hd, Nat2Z.id, take_ge by done.
  cbn [received length]. rewrite (proj2 (Z.eqb_neq _ (-1))), (proj2 (Z.eqb_neq _ 0)) by lia. cbn [negb].
  assert (Hm : forall rest, mld_analyse_packet host_u16 ifs r [] ((t :: l) ++ rest) = Some []).
  { intros rest. rewrite !elem_of_cons in Ht. by destruct Ht as [->|[->|[->|Ht%elem_of_nil]]]. }
  rewrite Hm. cbn [mbind option_bind]. by rewrite IH.
Qed.

Lemma control_data_lost a arrivals buf msgs :
  a_result a = KOk (Z.of_nat (length (a_data a))) -> (0 < length (a_data a))%nat ->
  a_ctrl a mld_ctrl_min_size = ([], 0) -> Forall mld_report_arrival arrivals ->
  mld_analyse_packet host_u16 ifs r [] (a_data a ++ drop (length (a_data a)) buf) = Some msgs ->
  mld_thread (a :: arrivals) buf = Some msgs.
Proof.
  intros Hr Hn Hc Ha Hm. unfold mld_thread. cbn [receiver_thread]. unfold recvmsg_memory.
  rewrite Hr, Hc, Nat2Z.id, take_ge by done. cbn [received].
  rewrite (proj2 (Z.eqb_neq (Z.of_nat _) (-1))), (proj2 (Z.eqb_neq (Z.of_nat _) 0)) by lia. cbn [negb].
  rewrite Hm. cbn [mbind option_bind]. rewrite no_control_no_reports by done. cbn. by rewrite app_nil_r.
Qed.
End Receivers.

(** ** Concrete runs: a report, a failed call, the report again *)

Definition ex_igmp_arrival : arrival :=
  let data := ex_hdr ++ report_header IGMP_V3_MEMBERSHIP_REPORT (zeros 5) 1
                ++ concat (map encode_record [ex_rr4]) in
  {| a_result := KOk (Z.of_nat (length data)); a_data := data; a_ctrl := fun n => ([], n) |}.

Definition ex_pktinfo : list cmsghdr :=
  [{| cmsg_len := 36; cmsg_level := IPPROTO_IPV6; cmsg_type := IPV6_PKTINFO; ipi6_ifindex := 7 |}].

Definition ex_mld_arrival : arrival :=
  let data := report_header MLD_V2_LISTENER_REPORT (zeros 5) 1 ++ concat (map encode_record [ex_rr6]) in
  {| a_result := KOk (Z.of_nat (length data)); a_data := data; a_ctrl := fun n => (ex_pktinfo, n) |}.

Definition ex_failure : arrival :=
  {| a_result := KErr false; a_data := []; a_ctrl := fun n => ([], n) |}.

Lemma igmp_thread_delivers_witness : exists msgs,
  igmp_thread ex_index ex_props (new_interfaces AF_INET false) ex_receiver
    [ex_igmp_arrival; ex_failure; ex_igmp_arrival] (zeros igmp_iov_min_size) = Some msgs
  /\ Forall2 (fun e m => delivers e.1 IGMPv3 e.2 m) [(7, ex_rr4); (7, ex_rr4)] msgs.
Proof.
  apply (igmp_thread_delivers ex_index ex_props (new_interfaces AF_INET false) ex_receiver
    [Some (7, [ex_rr4]); None; Some (7, [ex_rr4])]); [|apply length_replicate].
  assert (Hb : brings (is_igmpv3_report ex_index ex_props ex_receiver) igmp_iov_min_size
                 igmp_ctrl_min_size (Some (7, [ex_rr4])) ex_igmp_arrival).
  { apply (brings_report _ _ _ 7 [ex_rr4] ex_igmp_arrival []); [reflexivity| |reflexivity|].
    - split; [vm_compute; lia|]. apply Nat.leb_le. vm_compute. reflexivity.
    - exists ex_hdr, 0x45, [10; 0; 0; 9], 0, 60, (zeros 5), [].
      split_and!; try reflexivity; try discriminate.
      constructor; [|constructor]. repeat split; cbn; lia. }
  repeat constructor; [exact Hb| |exact Hb]. by apply (brings_error _ _ _ ex_failure false).
Defined.

Lemma mld_thread_delivers_witness : exists msgs,
  mld_thread ex_u16 (new_interfaces AF_INET6 false) ex_receiver
    [ex_mld_arrival; ex_failure; ex_mld_arrival] (zeros mld_iov_min_size) = Some msgs
  /\ Forall2 (fun e m => delivers e.1 MLDv2 e.2 m) [(7, ex_rr6); (7, ex_rr6)] msgs.
Proof.
  apply (mld_thread_delivers ex_u16 (new_interfaces AF_INET6 false) ex_receiver
    [Some (7, [ex_rr6]); None; Some (7, [ex_rr6])]); [|apply length_replicate].
  assert (Hb : brings (is_mldv2_report ex_receiver) mld_iov_min_size mld_ctrl_min_size
                 (Some (7, [ex_rr6])) ex_mld_arrival).
  { apply (brings_report _ _ _ 7 [ex_rr6] ex_mld_arrival ex_pktinfo); [reflexivity| |reflexivity|].
    - split; [vm_compute; lia|]. apply Nat.leb_le. vm_compute. reflexivity.
    - exists (zeros 5), []. split_and!; try reflexivity.
      constructor; [|constructor]. repeat split; cbn; lia. }
  repeat constructor; [exact Hb| |exact Hb]. by apply (brings_error _ _ _ ex_failure false).
Defined.
