(* ===== verification/ProxyRouting.v ===== *)
(** * Routing of a proxy instance
      (include/proxy/simple_mc_proxy_routing.hpp, src/proxy/simple_mc_proxy_routing.cpp,
       add_route and del_route of src/proxy/routing.cpp)

    The interfaces of a proxy instance as the routing reads them, the
    aggregation of the downstream memberships for the upstream interfaces
    ([interface_memberships]), the choice of the output interfaces of a source,
    and the three events of [routing_management]. Interface names come from the
    operating system ([get_if_name]); [get_virtual_if_index] is the lookup in the
    table of virtual interfaces ([Interfaces]), which does not change while the
    instances run. *)

From S2P Require Import Prelude Def TimersValues AddrStorage Filter Timing Messages Sender.
From S2P Require Import Interfaces MembershipDb Querier RoutingData.

Local Open Scope Z_scope.

Section Routing.
Context {A : Type} `{Address A} (clk : nat -> Z) (sock : nat -> action -> bool)
  (stats : nat -> A -> A -> option Z).
Context (snd : sender (A := A)) (gts : gmap string table) (get_if_name : Z -> string)
  (get_virtual_if_index : Z -> Z) (m_worker : Z).

(** ** The interfaces of the instance *)

(** A downstream interface: the querier's database and timers, and the filters. *)
Record downstream_infos := {
  d_db : membership_db A;
  d_timers_values : timers_values;
  d_interface : option interface
}.

Record upstream_infos := {
  u_if_index : Z;
  u_interface : option interface;
  u_priority : Z
}.

#[export] Instance upstream_Keyed : Keyed upstream_infos Z := u_priority.

(** The members of [proxy_instance] that the routing reads. [m_downstreams] is
    ordered by interface index, [m_upstreams] by priority. *)
Record proxy_state := {
  m_group_mem_protocol : group_mem_protocol;
  m_upstreams : list upstream_infos;
  m_downstreams : list (Z * downstream_infos);
  m_upstream_input_rule : option rule_binding;
  m_upstream_output_rule : option rule_binding;
  m_data : gmap A (sr_data_value (A := A))
}.

Implicit Types (p : proxy_state) (gaddr : A).

Definition is_upstream p (if_index : Z) : bool :=
  existsb (fun u => u_if_index u =? if_index) (m_upstreams p).

Definition is_downstream p (if_index : Z) : bool :=
  bool_decide (is_Some (sl_find if_index (m_downstreams p))).

(** ** [interface_memberships] *)

Record source_state := {
  m_mc_filter : mc_filter;
  ss_source_list : list (source A)
}.

Definition new_source_state : source_state :=
  {| m_mc_filter := INCLUDE_MODE; ss_source_list := [] |}.

Definition source_state_of (sstate : mc_filter * list (source A)) : source_state :=
  {| m_mc_filter := sstate.1; ss_source_list := sstate.2 |}.

Definition merge_membership_infos (merge_to merge_from : source_state) : source_state :=
  match m_mc_filter merge_to, m_mc_filter merge_from with
  | INCLUDE_MODE, INCLUDE_MODE =>
    {| m_mc_filter := INCLUDE_MODE;
       ss_source_list := sl_add_assign (ss_source_list merge_to) (ss_source_list merge_from) |}
  | INCLUDE_MODE, EXCLUDE_MODE =>
    {| m_mc_filter := EXCLUDE_MODE;
       ss_source_list := sl_sub (ss_source_list merge_from) (ss_source_list merge_to) |}
  | EXCLUDE_MODE, INCLUDE_MODE =>
    {| m_mc_filter := EXCLUDE_MODE;
       ss_source_list := sl_sub_assign (ss_source_list merge_to) (ss_source_list merge_from) |}
  | EXCLUDE_MODE, EXCLUDE_MODE =>
    {| m_mc_filter := EXCLUDE_MODE;
       ss_source_list := sl_mul_assign (ss_source_list merge_to) (ss_source_list merge_from) |}
  end.

(** A filter of an interface that is reached through a pointer; no result when
    the pointer is null. *)
Definition output_filter (i : option interface) (name : string) gaddr (sa : A) : option bool :=
  i ← i; match_output_filter gts i name (to_storage gaddr) (to_storage sa).
Definition input_filter (i : option interface) (name : string) gaddr (sa : A) : option bool :=
  i ← i; match_input_filter gts i name (to_storage gaddr) (to_storage sa).

Definition downstream_states p gaddr : list (source_state * option interface) :=
  (fun d => (source_state_of (get_group_membership_infos (d_db d.2) gaddr), d_interface d.2))
    <$> m_downstreams p.

(** The loop over the sources of one downstream: the sources kept for this
    upstream, and the ones left for the next upstream. *)
Fixpoint sort_out_first (u : upstream_infos) (di : option interface) gaddr
    (l : list (source A)) : option (list (source A) * list (source A)) :=
  match l with
  | [] => Some ([], [])
  | s :: l' =>
    out ← output_filter di (get_if_name (u_if_index u)) gaddr (saddr s);
    if negb out then sort_out_first u di gaddr l'
    else
      inp ← input_filter (u_interface u) (get_if_name (u_if_index u)) gaddr (saddr s);
      r ← sort_out_first u di gaddr l';
      if negb inp then Some (r.1, sl_insert s r.2) else Some (s :: r.1, r.2)
  end.

(** The loop over the downstreams for one upstream. *)
Fixpoint first_round (u : upstream_infos) gaddr (l : list (source_state * option interface))
    : option (list source_state * list (source_state * option interface)) :=
  match l with
  | [] => Some ([], [])
  | (cs, di) :: l' =>
    kept_tmp ← sort_out_first u di gaddr (ss_source_list cs);
    r ← first_round u gaddr l';
    let cs' := {| m_mc_filter := m_mc_filter cs; ss_source_list := kept_tmp.1 |} in
    let tmp := {| m_mc_filter := m_mc_filter cs; ss_source_list := kept_tmp.2 |} in
    Some (cs' :: r.1,
          if negb (bool_decide (kept_tmp.2 = [])) then (tmp, di) :: r.2 else r.2)
  end.

Fixpoint first_upstreams gaddr (us : list upstream_infos)
    (l : list (source_state * option interface)) : option (list (Z * list source_state)) :=
  match us with
  | [] => Some []
  | u :: us' =>
    r ← first_round u gaddr l;
    rest ← first_upstreams gaddr us' r.2;
    Some ((u_if_index u, r.1) :: rest)
  end.

Definition process_upstream_in_first p gaddr : option (list (Z * list source_state)) :=
  first_upstreams gaddr (m_upstreams p) (downstream_states p gaddr).

(** The cleaning of [m_data] in the mutex variant. *)
Definition clean_states (s : source A) (l : list source_state) : list source_state :=
  List.filter (fun st => negb (bool_decide (ss_source_list st = [])))
    ((fun st => {| m_mc_filter := m_mc_filter st;
                   ss_source_list := sl_erase (key s) (ss_source_list st) |}) <$> l).

Definition clean_data (s : source A) (d : list (Z * list source_state))
    : list (Z * list source_state) :=
  (fun e => (e.1, clean_states s e.2)) <$> d.

(** The loop over the sources of one downstream; the state is the cleaned
    [m_data], the sources left and the sources for this upstream. *)
Fixpoint sort_out_mutex p (u : upstream_infos) (di : option interface) gaddr
    (l : list (source A)) (d : list (Z * list source_state))
    : option (list (Z * list source_state) * list (source A) * list (source A)) :=
  match l with
  | [] => Some (d, [], [])
  | s :: l' =>
    out ← output_filter di (get_if_name (u_if_index u)) gaddr (saddr s);
    inp ← (if negb out then Some false
           else input_filter (u_interface u) (get_if_name (u_if_index u)) gaddr (saddr s));
    if negb (out && inp) then
      r ← sort_out_mutex p u di gaddr l' d;
      let '(d, remaining, tmp) := r in Some (d, s :: remaining, tmp)
    else
      match get_interface_map gaddr (m_data p) !! saddr s with
      | Some in_if =>
        r ← sort_out_mutex p u di gaddr l' (clean_data s d);
        let '(d, remaining, tmp) := r in
        Some (d, remaining, if is_upstream p in_if then sl_insert s tmp else tmp)
      | None =>
        r ← sort_out_mutex p u di gaddr l' d;
        let '(d, remaining, tmp) := r in Some (d, s :: remaining, sl_insert s tmp)
      end
  end.

Fixpoint mutex_round p (u : upstream_infos) gaddr (l : list (source_state * option interface))
    (d : list (Z * list source_state))
    : option (list (Z * list source_state) * list source_state
              * list (source_state * option interface)) :=
  match l with
  | [] => Some (d, [], [])
  | (cs, di) :: l' =>
    r ← sort_out_mutex p u di gaddr (ss_source_list cs) d;
    let '(d, remaining, tmp) := r in
    r ← mutex_round p u gaddr l' d;
    let '(d, states, ref) := r in
    Some (d,
          (if negb (bool_decide (tmp = []))
           then {| m_mc_filter := m_mc_filter cs; ss_source_list := tmp |} :: states else states),
          (if bool_decide (remaining = []) then ref
           else ({| m_mc_filter := m_mc_filter cs; ss_source_list := remaining |}, di) :: ref))
  end.

Fixpoint mutex_upstreams p gaddr (us : list upstream_infos)
    (l : list (source_state * option interface)) (d : list (Z * list source_state))
    : option (list (Z * list source_state)) :=
  match us with
  | [] => Some d
  | u :: us' =>
    r ← mutex_round p u gaddr l d;
    let '(d, states, ref) := r in
    mutex_upstreams p gaddr us' ref (d ++ [(u_if_index u, states)])
  end.

Definition process_upstream_in_mutex p gaddr : option (list (Z * list source_state)) :=
  mutex_upstreams p gaddr (m_upstreams p) (downstream_states p gaddr) [].

Definition interface_memberships (rmt : rb_rule_matching_type) p gaddr
    : option (list (Z * list source_state)) :=
  if bool_decide (rmt = RMT_FIRST) then process_upstream_in_first p gaddr
  else process_upstream_in_mutex p gaddr.

(** [get_group_memberships]: the entry at the front is merged and removed. An
    empty list is read through an invalid iterator. *)
Definition get_group_memberships (upstream_if_index : Z) (d : list (Z * list source_state))
    : option (source_state * list (Z * list source_state)) :=
  match d with
  | [] => None
  | (i, states) :: d' =>
    if negb (i =? upstream_if_index) then Some (new_source_state, d)
    else Some (fold_left merge_membership_infos states new_source_state, d')
  end.

(** ** Rules *)

Definition is_rule_matching_type p (interface_type : rb_interface_type)
    (interface_direction : rb_interface_direction) (rmt : rb_rule_matching_type) : bool :=
  match interface_type, interface_direction with
  | IT_UPSTREAM, ID_IN =>
    match m_upstream_input_rule p with
    | Some rb => bool_decide (m_rule_matching_type rb = rmt)
    | None => false
    end
  | IT_UPSTREAM, ID_OUT =>
    match m_upstream_output_rule p with
    | Some rb => bool_decide (m_rule_matching_type rb = rmt)
    | None => false
    end
  | _, _ => false
  end.

Definition check_interface p (interface_type : rb_interface_type)
    (interface_direction : rb_interface_direction) (checking_if_index input_if_index : Z)
    gaddr (sa : A) : option bool :=
  let interf :=
    match interface_type with
    | IT_UPSTREAM =>
      u_interface <$> List.find (fun u => u_if_index u =? checking_if_index) (m_upstreams p)
    | IT_DOWNSTREAM =>
      (fun d => d_interface d.2) <$> sl_find checking_if_index (m_downstreams p)
    end in
  match interf with
  | Some (Some i) =>
    let name := get_if_name input_if_index in
    if negb (String.eqb name "") then
      match interface_direction with
      | ID_IN => match_input_filter gts i name (to_storage gaddr) (to_storage sa)
      | ID_OUT => match_output_filter gts i name (to_storage gaddr) (to_storage sa)
      | ID_WILDCARD => Some false
      end
    else Some false
  | _ => Some false
  end.

(** ** The output interfaces of a source *)

(** The loop over the upstream interfaces, with its [break]. *)
Fixpoint upstream_outputs p (us : list upstream_infos) (input_if : Z) gaddr (sa : A)
    : option (list Z) :=
  match us with
  | [] => Some []
  | u :: us' =>
    ok ← check_interface p IT_UPSTREAM ID_OUT (u_if_index u) input_if gaddr sa;
    if ok : bool then
      if is_rule_matching_type p IT_UPSTREAM ID_OUT RMT_ALL
      then cons (u_if_index u) <$> upstream_outputs p us' input_if gaddr sa
      else if is_rule_matching_type p IT_UPSTREAM ID_OUT RMT_FIRST then Some [u_if_index u]
      else upstream_outputs p us' input_if gaddr sa
    else upstream_outputs p us' input_if gaddr sa
  end.

(** The loop over the sources; it stops at a source without an input interface.
    The boolean says whether all sources were treated. *)
Fixpoint upstream_part p gaddr (slist : list (source A)) : option (list (source A * list Z) * bool) :=
  match slist with
  | [] => Some ([], true)
  | s :: slist' =>
    match get_interface_map gaddr (m_data p) !! saddr s with
    | None => Some ([], false)
    | Some input_if =>
      outs ← (if is_downstream p input_if
              then upstream_outputs p (m_upstreams p) input_if gaddr (saddr s) else Some []);
      r ← upstream_part p gaddr slist';
      Some ((s, outs) :: r.1, r.2)
    end
  end.

(** The filter function handed to the queriers. [check_interface] always has a
    result for a table set of the parser. *)
Definition filter_fun p gaddr (output_if_index : Z) (sa : A) : bool :=
  match get_interface_map gaddr (m_data p) !! sa with
  | None => false
  | Some input_if =>
    if negb (output_if_index =? input_if)
    then default false (check_interface p IT_DOWNSTREAM ID_OUT output_if_index input_if gaddr sa)
    else false
  end.

Definition collect_interested_interfaces p gaddr (slist : list (source A))
    : option (list (source A * list Z)) :=
  r ← upstream_part p gaddr slist;
  if negb r.2 then Some r.1
  else Some (fold_left
    (fun rt d => suggest_to_forward_traffic d.1 (d_db d.2) gaddr rt (filter_fun p gaddr d.1))
    (m_downstreams p) r.1).

(** ** Routes *)

Definition add_route (fam : addr_family) (input_vif : Z) gaddr (sa : A) (output_vif : list Z)
    : M A bool :=
  match fam with
  | AF_INET => if (MAXVIFS <? length output_vif)%nat then mret false
               else call sock (AddMroute input_vif (to_storage sa) (to_storage gaddr) output_vif)
  | AF_INET6 => if (MAXMIFS <? length output_vif)%nat then mret false
                else call sock (AddMroute input_vif (to_storage sa) (to_storage gaddr) output_vif)
  | AF_UNSPEC => mret false
  end.

Definition del_route (vif : Z) gaddr (sa : A) : M A bool :=
  call sock (DelMroute vif (to_storage sa) (to_storage gaddr)).

(** May traffic come in through the interface of the source? *)
Definition input_allowed p gaddr (sa : A) (input_if : Z) : option bool :=
  up ← (if is_upstream p input_if
        then check_interface p IT_UPSTREAM ID_IN input_if input_if gaddr sa else Some false);
  if negb up && is_downstream p input_if
  then check_interface p IT_DOWNSTREAM ID_IN input_if input_if gaddr sa
  else Some up.

Definition set_route p gaddr (e : source A * list Z) : M A unit :=
  match get_interface_map gaddr (m_data p) !! saddr e.1 with
  | None => mret tt
  | Some input_if =>
    if bool_decide (e.2 = []) then
      del_route (get_virtual_if_index input_if) gaddr (saddr e.1);; mret tt
    else
      allowed ← deref (input_allowed p gaddr (saddr e.1) input_if);
      if allowed : bool then
        add_route (get_addr_family (m_group_mem_protocol p)) (get_virtual_if_index input_if) gaddr
          (saddr e.1) (get_virtual_if_index <$> e.2);; mret tt
      else mret tt
  end.

Definition set_routes p gaddr (output_if_index : list (source A * list Z)) : M A unit :=
  forM output_if_index (set_route p gaddr).

(** ** Aggregation and events *)

Fixpoint send_records gaddr (us : list upstream_infos) (d : list (Z * list source_state)) : M A unit :=
  match us with
  | [] => mret tt
  | u :: us' =>
    r ← deref (get_group_memberships (u_if_index u) d);
    send_record snd (u_if_index u) (m_mc_filter r.1) (to_storage gaddr) (ss_source_list r.1);;
    send_records gaddr us' r.2
  end.

Definition process_membership_aggregation (rmt : rb_rule_matching_type) p gaddr : M A unit :=
  if bool_decide (rmt = RMT_FIRST) || bool_decide (rmt = RMT_MUTEX) then
    d ← deref (interface_memberships rmt p gaddr);
    send_records gaddr (m_upstreams p) d
  else mret tt.

Definition event_querier_state_change p gaddr : M A unit :=
  routes ← deref (collect_interested_interfaces p gaddr (get_available_sources gaddr (m_data p)));
  set_routes p gaddr routes;;
  if is_rule_matching_type p IT_UPSTREAM ID_IN RMT_FIRST
  then process_membership_aggregation RMT_FIRST p gaddr
  else if is_rule_matching_type p IT_UPSTREAM ID_IN RMT_MUTEX
  then process_membership_aggregation RMT_MUTEX p gaddr
  else mret tt.

Definition get_source_life_time : Z := 20.

(** The life time of the mutex rule is stored in the timer, but the reminder is
    set for [get_source_life_time], as in the source. *)
Definition set_source_timer p (if_index : Z) gaddr (sa : A) : M A tid :=
  source_life_time ← (if is_upstream p if_index && is_rule_matching_type p IT_UPSTREAM ID_IN RMT_MUTEX
                      then rb ← deref (m_upstream_input_rule p); mret (m_timeout rb)
                      else mret (get_source_life_time * 1000));
  nst ← make_timer clk NEW_SOURCE_TIMER_MSG if_index (Some gaddr) (Some sa) source_life_time;
  add_time_msg clk (get_source_life_time * 1000) m_worker nst;;
  mret nst.

Definition set_data (d : gmap A (sr_data_value (A := A))) p : proxy_state :=
  {| m_group_mem_protocol := m_group_mem_protocol p; m_upstreams := m_upstreams p;
     m_downstreams := m_downstreams p; m_upstream_input_rule := m_upstream_input_rule p;
     m_upstream_output_rule := m_upstream_output_rule p; m_data := d |}.

Definition event_new_source (if_index : Z) gaddr (sa : A) p : M A proxy_state :=
  t ← set_source_timer p if_index gaddr sa;
  data ← set_source stats if_index gaddr (set_timer (new_source sa) (Some t) (-1)) (m_data p);
  let p := set_data data p in
  routes ← deref (collect_interested_interfaces p gaddr [new_source sa]);
  set_routes p gaddr routes;;
  (if is_rule_matching_type p IT_UPSTREAM ID_IN RMT_MUTEX
   then process_membership_aggregation RMT_MUTEX p gaddr else mret tt);;
  mret p.

(** The timers the table of sources keeps alive. *)
Definition data_timers (d : gmap A (sr_data_value (A := A))) : list tid :=
  flat_map (fun v => omap shared_source_timer (m_source_list v.2)) (map_to_list d).

Definition timer_triggerd_maintain_routing_table (held : bool) (t : tid) p : M A proxy_state :=
  tm ← get_timer t;
  if negb (held || bool_decide (t ∈ data_timers (m_data p))) then mret p
  else match tm_type tm with
       | NEW_SOURCE_TIMER_MSG =>
         gaddr ← deref (tm_gaddr tm);
         sa ← deref (tm_saddr tm);
         match sl_find sa (get_available_sources gaddr (m_data p)) with
         | Some s =>
           if bool_decide (shared_source_timer s = Some t) then
             r ← refresh_source_or_del_it_if_unused stats gaddr sa (m_data p);
             let p := set_data r.2 p in
             if negb r.1 then
               del_route (get_virtual_if_index (tm_if_index tm)) gaddr sa;;
               (if is_rule_matching_type p IT_UPSTREAM ID_IN RMT_MUTEX
                then process_membership_aggregation RMT_MUTEX p gaddr else mret tt);;
               mret p
             else
               t' ← set_source_timer p (tm_if_index tm) gaddr sa;
               mret (set_data (assign_source_timer gaddr sa t' (m_data p)) p)
           else mret p
         | None => mret p
         end
       | _ => mret p
       end.
End Routing.
