(* ===== verification/RoutingTheorems.v ===== *)
(** * Theorems on the routing

    Aggregation is the union of the interests of the downstream interfaces,
    traffic is forwarded by the rules of RFC 4605, and the routing events always
    return. *)

From S2P Require Import Prelude Def TimersValues AddrStorage Filter Timing Messages Sender.
From S2P Require Import MembershipDb Querier QuerierSpec QuerierTheorems RoutingData.
From S2P Require Import ProxyRouting.

Local Open Scope Z_scope.

Section Aggregation.
Context {A : Type} `{Address A}.
Implicit Types (st : source_state (A := A)) (s : A).

Definition state_wants st s : bool := wants (m_mc_filter st, ss_source_list st) s.

Definition state_ordered st : Prop := sl_ordered (ss_source_list st).

Lemma merge_wants st st' s :
  state_ordered st -> state_ordered st' ->
  state_wants (merge_membership_infos st st') s = state_wants st s || state_wants st' s.
Proof.
  destruct st as [m l], st' as [m' l']. unfold state_ordered. simpl. intros Hl Hl'.
  unfold state_wants, wants, merge_membership_infos, sl_sub.
  destruct m, m'; simpl; rewrite ?sl_keys_add, ?sl_keys_sub; rewrite ?sl_keys_mul by done;
    repeat case_bool_decide; set_solver.
Qed.

Lemma merge_ordered st st' :
  state_ordered st -> state_ordered st' -> state_ordered (merge_membership_infos st st').
Proof.
  destruct st as [m l], st' as [m' l']. unfold state_ordered, merge_membership_infos. simpl.
  destruct m, m'; simpl; unfold sl_sub; auto with slist.
Qed.

Lemma merge_all_wants (states : list (source_state (A := A))) st s :
  state_ordered st -> Forall state_ordered states ->
  state_wants (fold_left merge_membership_infos states st) s
  = state_wants st s || existsb (fun st => state_wants st s) states.
Proof.
  intros Hst Hs. revert st Hst. induction Hs as [|st' states Hst' Hs IH]; intros st Hst; simpl.
  - by rewrite orb_false_r.
  - rewrite IH by (by apply merge_ordered). rewrite merge_wants by done. by rewrite orb_assoc.
Qed.

(** C21: Merging two memberships is the union of interests: the merged filter
    mode and source list ask for a source exactly if one of the two does, for
    all four combinations of filter modes. *)
Theorem merge_is_union st st' s :
  state_ordered st -> state_ordered st' ->
  state_ordered (merge_membership_infos st st')
  /\ state_wants (merge_membership_infos st st') s = state_wants st s || state_wants st' s.
Proof. intros Hst Hst'. split; [by apply merge_ordered|by apply merge_wants]. Qed.
End Aggregation.

Section Proxying.
Context {A : Type} `{Address A} (gts : gmap string table) (get_if_name : Z -> string).
Implicit Types (p : proxy_state (A := A)) (gaddr : A) (u : upstream_infos).

(** An interface without filters. *)
Definition unfiltered (i : option interface) : Prop :=
  exists j, i = Some j /\ m_output_filter j = None /\ m_input_filter j = None.

Lemma sort_out_first_unfiltered u di gaddr (l : list (source A)) :
  unfiltered (u_interface u) -> unfiltered di ->
  sort_out_first gts get_if_name u di gaddr l = Some (l, []).
Proof.
  intros (ju & Hu & _ & Hin) (jd & Hd & Hout & _). subst di.
  induction l as [|s l IH]; [done|]. cbn [sort_out_first].
  unfold output_filter, input_filter, match_output_filter, match_input_filter, match_filter.
  rewrite Hu. simpl. rewrite Hout. simpl. rewrite Hin. simpl. by rewrite IH.
Qed.

Lemma first_round_unfiltered u gaddr l :
  unfiltered (u_interface u) -> Forall (fun x => unfiltered x.2) l ->
  first_round (A := A) gts get_if_name u gaddr l = Some (l.*1, []).
Proof.
  intros Hu Hl. induction Hl as [|[cs di] l Hdi Hl IH]; [done|]. cbn [first_round].
  rewrite sort_out_first_unfiltered by done. simpl. rewrite IH. simpl. by destruct cs.
Qed.

Lemma first_upstreams_nil gaddr us :
  first_upstreams (A := A) gts get_if_name gaddr us [] = Some ((fun u => (u_if_index u, [])) <$> us).
Proof. induction us as [|u us IH]; [done|]. cbn. by rewrite IH. Qed.

Definition downstream_wants p gaddr (s : A) : bool :=
  existsb (fun d => wants (get_group_membership_infos (d_db d.2) gaddr) s) (m_downstreams p).

Definition memberships_ordered p gaddr : Prop :=
  Forall (fun d => sl_ordered (get_group_membership_infos (d_db d.2) gaddr).2) (m_downstreams p).

Lemma state_wants_new (s : A) : state_wants new_source_state s = false.
Proof. unfold state_wants, wants. simpl. rewrite bool_decide_eq_false_2; [done|]. set_solver. Qed.

(** Without filters the first upstream interface gets all memberships. *)
Lemma process_first_unfiltered p gaddr u us :
  m_upstreams p = u :: us -> unfiltered (u_interface u) ->
  Forall (fun d => unfiltered (d_interface d.2)) (m_downstreams p) ->
  process_upstream_in_first gts get_if_name p gaddr
  = Some ((u_if_index u, (downstream_states p gaddr).*1) :: ((fun u => (u_if_index u, [])) <$> us)).
Proof.
  intros Hus Hu Hd. unfold process_upstream_in_first. rewrite Hus. cbn [first_upstreams].
  rewrite first_round_unfiltered; [|done|].
  - simpl. by rewrite first_upstreams_nil.
  - unfold downstream_states. apply Forall_fmap. eapply Forall_impl; [exact Hd|]. done.
Qed.

Lemma merged_wants p gaddr s :
  memberships_ordered p gaddr ->
  state_wants (fold_left merge_membership_infos (downstream_states p gaddr).*1 new_source_state) s
  = downstream_wants p gaddr s.
Proof.
  intros Ho. rewrite merge_all_wants; [|constructor|].
  2: { unfold downstream_states. rewrite <- list_fmap_compose. apply Forall_fmap.
       eapply Forall_impl; [exact Ho|]. done. }
  rewrite state_wants_new. simpl. unfold downstream_wants, downstream_states.
  rewrite <- list_fmap_compose. clear Ho. induction (m_downstreams p) as [|d ds IH]; [done|].
  cbn [fmap list_fmap existsb]. rewrite IH. unfold compose, state_wants, source_state_of. simpl.
  by destruct (get_group_membership_infos (d_db d.2) gaddr).
Qed.

(** IGMP/MLD proxying (RFC 4605): with the rule FIRST and no filters, the
    membership reported on the first upstream interface asks for a source
    exactly if some downstream querier asks for it, and the other upstream
    interfaces report no membership. *)
Theorem first_upstream_aggregates p gaddr u us s :
  m_upstreams p = u :: us -> unfiltered (u_interface u) ->
  Forall (fun d => unfiltered (d_interface d.2)) (m_downstreams p) ->
  memberships_ordered p gaddr ->
  exists d, process_upstream_in_first gts get_if_name p gaddr = Some d
    /\ (exists st, get_group_memberships (u_if_index u) d
                   = Some (st, (fun u => (u_if_index u, [])) <$> us)
                   /\ state_wants st s = downstream_wants p gaddr s).
Proof.
  intros Hus Hu Hd Ho. rewrite (process_first_unfiltered p gaddr u us) by done. eexists.
  split; [reflexivity|]. unfold get_group_memberships. rewrite Z.eqb_refl. simpl. eexists.
  split; [reflexivity|]. by apply merged_wants.
Qed.

(** With the rule MUTEX a membership without listed sources is never passed
    on: if no downstream membership of a group lists a source, as with the
    any-source membership EXCLUDE ({}), every upstream interface is left without
    a membership for it. *)
Theorem mutex_drops_any_source p gaddr :
  Forall (fun d => (get_group_membership_infos (d_db d.2) gaddr).2 = []) (m_downstreams p) ->
  process_upstream_in_mutex gts get_if_name p gaddr
  = Some ((fun u => (u_if_index u, [])) <$> m_upstreams p).
Proof.
  intros Hd. unfold process_upstream_in_mutex, downstream_states.
  assert (Hround : forall u l d, Forall (fun x => ss_source_list x.1 = []) l ->
    mutex_round (A := A) gts get_if_name p u gaddr l d = Some (d, [], [])).
  { intros u l d Hl. induction Hl as [|[cs di] l Hcs Hl IH]; [done|]. cbn [mutex_round].
    simpl in Hcs. rewrite Hcs. simpl. by rewrite IH. }
  assert (Hgo : forall us l d, Forall (fun x => ss_source_list x.1 = []) l ->
    mutex_upstreams (A := A) gts get_if_name p gaddr us l d
    = Some (d ++ ((fun u => (u_if_index u, [])) <$> us))).
  { induction us as [|u us IH]; intros l d Hl; cbn [mutex_upstreams].
    - by rewrite app_nil_r.
    - rewrite Hround by done. simpl. rewrite IH by constructor. by rewrite <- app_assoc. }
  rewrite Hgo; [done|]. apply Forall_fmap. eapply Forall_impl; [exact Hd|]. done.
Qed.
End Proxying.

(** ** Forwarding *)

Section Forwarding.
Context {A : Type} `{Address A} (gts : gmap string table) (get_if_name : Z -> string).
Implicit Types (p : proxy_state (A := A)) (gaddr : A) (rt : list (source A * list Z)).

Lemma suggest_In i db gaddr rt f s outs :
  (s, outs) ∈ suggest_to_forward_traffic i db gaddr rt f ->
  exists outs0, (s, outs0) ∈ rt
    /\ (outs = outs0
        \/ outs = outs0 ++ [i] /\ wants (get_group_membership_infos db gaddr) (saddr s) = true
           /\ f (saddr s) = true).
Proof.
  destruct (is_querier db) eqn:Hq.
  - rewrite (proj1 (suggest_wants i db gaddr rt f Hq)). intros Hin.
    apply list_elem_of_fmap in Hin as ([s0 o0] & He & Hin). simpl in He.
    destruct (wants _ (saddr s0) && f (saddr s0)) eqn:Hw; simplify_eq; [|eauto].
    exists o0. split; [done|]. right. bool_simpl. done.
  - unfold suggest_to_forward_traffic. rewrite Hq. eauto.
Qed.

(** Why an interface is an output of a source that came in on [input_if]. *)
Definition output_reason p gaddr (s : A) (input_if o : Z) : Prop :=
  (is_downstream p input_if = true /\ is_upstream p o = true)
  \/ (o <> input_if /\ exists d, (o, d) ∈ m_downstreams p
        /\ wants (get_group_membership_infos (d_db d) gaddr) s = true).

Definition outputs_justified p gaddr (e : source A * list Z) : Prop :=
  exists input_if, get_interface_map gaddr (m_data p) !! saddr e.1 = Some input_if
    /\ forall o, o ∈ e.2 -> output_reason p gaddr (saddr e.1) input_if o.

Lemma upstream_outputs_In p us input_if gaddr sa outs o :
  (forall u, u ∈ us -> u ∈ m_upstreams p) ->
  upstream_outputs gts get_if_name p us input_if gaddr sa = Some outs -> o ∈ outs ->
  is_upstream p o = true.
Proof.
  revert outs. induction us as [|u us IH]; intros outs Hsub Hr Ho;
    cbn [upstream_outputs] in Hr.
  { simplify_eq. set_solver. }
  assert (Hu : is_upstream p (u_if_index u) = true).
  { apply existsb_exists. exists u. split; [|apply Z.eqb_refl].
    apply list_elem_of_In, Hsub. left. }
  assert (IH' : forall outs, upstream_outputs gts get_if_name p us input_if gaddr sa = Some outs ->
    o ∈ outs -> is_upstream p o = true)
    by (intros outs' ? ?; eapply IH; eauto; intros u' Hu'; apply Hsub; by right).
  destruct (check_interface _ _ _ _ _ _ _ _ _) as [ok|]; cbn [mbind option_bind] in Hr; [|done].
  destruct ok; [|by eapply IH'].
  destruct (is_rule_matching_type p IT_UPSTREAM ID_OUT RMT_ALL).
  - destruct (upstream_outputs gts get_if_name p us input_if gaddr sa) as [outs'|];
      cbn in Hr; [|done]. injection Hr as <-.
    apply elem_of_cons in Ho as [->|Ho]; [done|]. by eapply IH'.
  - destruct (is_rule_matching_type _ _ _ _); [|by eapply IH'].
    simplify_eq. apply list_elem_of_singleton in Ho as ->. done.
Qed.

Lemma upstream_part_justified p gaddr slist rt b :
  upstream_part gts get_if_name p gaddr slist = Some (rt, b) ->
  Forall (outputs_justified p gaddr) rt.
Proof.
  revert rt b. induction slist as [|s slist IH]; intros rt b Hr; simpl in Hr.
  { by simplify_eq. }
  destruct (get_interface_map gaddr (m_data p) !! saddr s) as [input_if|] eqn:Hi;
    [|by simplify_eq].
  destruct (if is_downstream p input_if then _ else _) as [outs|] eqn:Ho; simpl in Hr; [|done].
  destruct (upstream_part gts get_if_name p gaddr slist) as [[rt' b']|]; simplify_eq/=.
  constructor; [|by eapply IH]. exists input_if. split; [done|]. intros o Hin. left.
  destruct (is_downstream p input_if); simplify_eq; [|set_solver].
  split; [done|]. by eapply (upstream_outputs_In p (m_upstreams p)).
Qed.

Lemma suggest_all_justified p gaddr ds rt :
  (forall d, d ∈ ds -> d ∈ m_downstreams p) -> Forall (outputs_justified p gaddr) rt ->
  Forall (outputs_justified p gaddr)
    (fold_left (fun rt d => suggest_to_forward_traffic d.1 (d_db d.2) gaddr rt
                  (filter_fun gts get_if_name p gaddr d.1)) ds rt).
Proof.
  revert rt. induction ds as [|[i d] ds IH]; intros rt Hsub Hrt; simpl; [done|].
  apply IH; [intros; apply Hsub; by right|]. apply Forall_forall. intros [s outs] Hin.
  apply suggest_In in Hin as (outs0 & Hin & Hcase). rewrite Forall_forall in Hrt.
  destruct (Hrt _ Hin) as (input_if & Hi & Hout). simpl in *. exists input_if.
  split; [done|]. intros o Ho. simpl in Ho.
  destruct Hcase as [->|(-> & Hw & Hf)]; [by apply Hout|].
  apply elem_of_app in Ho as [Ho|Ho]; [by apply Hout|].
  apply list_elem_of_singleton in Ho as ->. right. simpl. unfold filter_fun in Hf.
  rewrite Hi in Hf. destruct (Z.eqb_spec i input_if); [done|]. split; [done|].
  exists d. split; [apply Hsub; left|done].
Qed.

(** C10: Forwarding rules (RFC 4605, 4.3): every output interface chosen for a
    source is justified. An upstream interface is an output only for traffic
    that came in on a downstream interface, so nothing is forwarded from
    upstream to upstream; a downstream interface is an output only if its
    querier asks for the source and it is not the interface the traffic came
    in on. *)
Theorem forwarding_rules p gaddr slist rt :
  collect_interested_interfaces gts get_if_name p gaddr slist = Some rt ->
  Forall (outputs_justified p gaddr) rt.
Proof.
  intros Hr. unfold collect_interested_interfaces in Hr.
  destruct (upstream_part gts get_if_name p gaddr slist) as [[rt0 b]|] eqn:E; simpl in Hr; [|done].
  pose proof (upstream_part_justified _ _ _ _ _ E) as Hj. destruct b; simplify_eq/=; [|done].
  by apply suggest_all_justified.
Qed.

(** *** Without filters *)

(** RFC 4605, 4.3: traffic that came in on a downstream interface goes to all
    upstream interfaces, and all traffic goes to the other downstream interfaces
    with a listener. *)
Definition rfc_outputs p gaddr (input_if : Z) (s : A) : list Z :=
  (if is_downstream p input_if then u_if_index <$> m_upstreams p else [])
  ++ (List.filter (fun d => wants (get_group_membership_infos (d_db d.2) gaddr) s && negb (d.1 =? input_if))
        (m_downstreams p)).*1.

(** No interface has a filter, and every querier plays its part. *)
Record unrestricted p : Prop := {
  ur_upstreams : Forall (fun u => unfiltered (u_interface u)) (m_upstreams p);
  ur_downstreams : Forall (fun d => unfiltered (d_interface d.2) /\ is_querier (d_db d.2) = true) (m_downstreams p);
  ur_ordered : sl_ordered (m_downstreams p);
  ur_rule : is_rule_matching_type p IT_UPSTREAM ID_OUT RMT_ALL = true
}.

(** The source came in on an interface that exists. *)
Definition came_in p gaddr (s : source A) (input_if : Z) : Prop :=
  get_interface_map gaddr (m_data p) !! saddr s = Some input_if /\ get_if_name input_if <> "".

Lemma check_unfiltered_upstream p gaddr sa input_if u :
  unrestricted p -> u ∈ m_upstreams p -> get_if_name input_if <> "" ->
  check_interface gts get_if_name p IT_UPSTREAM ID_OUT (u_if_index u) input_if gaddr sa = Some true.
Proof.
  intros Hp Hu Hn. unfold check_interface.
  destruct (List.find (fun v => u_if_index v =? u_if_index u) (m_upstreams p)) as [v|] eqn:Hf.
  - apply List.find_some in Hf as [Hv _]. pose proof (ur_upstreams _ Hp) as Hall.
    rewrite Forall_forall in Hall. destruct (Hall v) as (j & Hj & Hout & _); [by apply list_elem_of_In|].
    simpl. rewrite Hj. rewrite (proj2 (String.eqb_neq _ _) Hn). simpl. unfold match_output_filter. by rewrite Hout.
  - apply (List.find_none _ _) with (x := u) in Hf; [|by apply list_elem_of_In]. by rewrite Z.eqb_refl in Hf.
Qed.

Lemma check_unfiltered_downstream p gaddr sa input_if d :
  unrestricted p -> d ∈ m_downstreams p -> get_if_name input_if <> "" ->
  check_interface gts get_if_name p IT_DOWNSTREAM ID_OUT d.1 input_if gaddr sa = Some true.
Proof.
  intros Hp Hd Hn. unfold check_interface. change d.1 with (key d).
  rewrite (sl_ordered_find _ _ (ur_ordered _ Hp) Hd). simpl. pose proof (ur_downstreams _ Hp) as Hall.
  rewrite Forall_forall in Hall. destruct (Hall d Hd) as [(j & Hj & Hout & _) _].
  rewrite Hj, (proj2 (String.eqb_neq _ _) Hn). simpl. unfold match_output_filter. by rewrite Hout.
Qed.

Lemma upstream_outputs_unfiltered p us input_if gaddr sa :
  unrestricted p -> us ⊆ m_upstreams p -> get_if_name input_if <> "" ->
  upstream_outputs gts get_if_name p us input_if gaddr sa = Some (u_if_index <$> us).
Proof.
  intros Hp Hus Hn. induction us as [|u us IH]; [done|]. cbn [upstream_outputs].
  rewrite check_unfiltered_upstream by (done || (apply Hus; left)). cbn [mbind option_bind]. rewrite (ur_rule _ Hp).
  rewrite IH; [done|]. intros v Hv. apply Hus. by right.
Qed.

Lemma upstream_part_unfiltered p gaddr (inputs : source A -> Z) slist :
  unrestricted p -> Forall (fun s => came_in p gaddr s (inputs s)) slist ->
  upstream_part gts get_if_name p gaddr slist
  = Some ((fun s => (s, if is_downstream p (inputs s) then u_if_index <$> m_upstreams p else [])) <$> slist, true).
Proof.
  intros Hp Hs. induction Hs as [|s slist [Hi Hn] Hs IH]; [done|]. cbn [upstream_part]. rewrite Hi.
  rewrite upstream_outputs_unfiltered by done. rewrite IH, fmap_cons. by case_if.
Qed.

Lemma suggest_all_unfiltered p gaddr (inputs : source A -> Z) ds (l : list (source A * list Z)) :
  unrestricted p -> ds ⊆ m_downstreams p -> Forall (fun e => came_in p gaddr e.1 (inputs e.1)) l ->
  fold_left (fun rt d => suggest_to_forward_traffic d.1 (d_db d.2) gaddr rt
               (filter_fun gts get_if_name p gaddr d.1)) ds l
  = (fun e => (e.1, e.2 ++ (List.filter (fun d => wants (get_group_membership_infos (d_db d.2) gaddr) (saddr e.1)
                                                 && negb (d.1 =? inputs e.1)) ds).*1)) <$> l.
Proof.
  intros Hp. revert l. induction ds as [|d ds IH]; intros l Hds Hl.
  { simpl. rewrite <- (list_fmap_id l) at 1. apply list_fmap_ext. intros _ [s o] _. by rewrite app_nil_r. }
  assert (Hd : d ∈ m_downstreams p) by (apply Hds; left). pose proof (ur_downstreams _ Hp) as Hall.
  rewrite Forall_forall in Hall. destruct (Hall d Hd) as [_ Hq]. cbn [fold_left].
  rewrite (proj1 (suggest_wants _ _ _ _ _ Hq)). rewrite IH.
  - rewrite <- list_fmap_compose. apply list_fmap_ext. intros j e He. unfold compose. cbn [List.filter].
    rewrite Forall_forall in Hl. destruct (Hl e) as [Hi Hn]; [by eapply list_elem_of_lookup_2|].
    unfold filter_fun. rewrite Hi, (check_unfiltered_downstream p) by done.
    destruct (d.1 =? inputs e.1); cbn [negb andb default]; [by rewrite andb_false_r|].
    rewrite andb_true_r. destruct (wants _ _); simpl; [by rewrite <- app_assoc|done].
  - intros x Hx. apply Hds. by right.
  - apply Forall_fmap. eapply Forall_impl; [exact Hl|]. intros e He. unfold compose. by case_if.
Qed.

(** C9: Without filters the outputs are exactly those of RFC 4605: with the rule
    ALL, every source whose input interface exists is forwarded to all upstream
    interfaces if it came in on a downstream interface, and to each other
    downstream interface whose querier wants it, and to no other interface. *)
Theorem forwarding_exact p gaddr (inputs : source A -> Z) slist :
  unrestricted p -> Forall (fun s => came_in p gaddr s (inputs s)) slist ->
  collect_interested_interfaces gts get_if_name p gaddr slist
  = Some ((fun s => (s, rfc_outputs p gaddr (inputs s) (saddr s))) <$> slist).
Proof.
  intros Hp Hs. unfold collect_interested_interfaces. rewrite (upstream_part_unfiltered p gaddr inputs) by done.
  simpl. f_equal. rewrite (suggest_all_unfiltered p gaddr inputs); [|done|done|].
  - rewrite <- list_fmap_compose. by apply list_fmap_ext.
  - apply Forall_fmap. eapply Forall_impl; [exact Hs|]. done.
Qed.
End Forwarding.

(** ** The routing events return *)

Section Events.
Context {A : Type} `{Address A} (clk : nat -> Z) (sock : nat -> action -> bool)
  (stats : nat -> A -> A -> option Z).
Context (snd : sender (A := A)) `{!SenderLaws snd} (gts : gmap string table)
  (get_if_name : Z -> string) (vif : Z -> Z) (w : Z).
Hypothesis gts_ok : gts_built gts.
Implicit Types (p : proxy_state (A := A)) (gaddr : A).

(** No interface is a null pointer. *)
Definition interfaces_set p : Prop :=
  Forall (fun u => is_Some (u_interface u)) (m_upstreams p)
  /\ Forall (fun d => is_Some (d_interface d.2)) (m_downstreams p).

Lemma match_filter_total name ga sa rb : is_Some (match_filter gts name ga sa rb).
Proof.
  unfold match_filter, rule_binding_match. destruct rb as [rb|]; [|eauto].
  destruct (m_table rb) as [t|]; [|eauto].
  destruct (table_match_total gts t name ga sa gts_ok) as [v Hv]. rewrite Hv.
  destruct (m_filter_type rb); simpl; eauto.
Qed.

Lemma output_filter_total i name gaddr sa :
  is_Some i -> is_Some (output_filter (A := A) gts i name gaddr sa).
Proof. intros [j ->]. apply match_filter_total. Qed.

Lemma input_filter_total i name gaddr sa :
  is_Some i -> is_Some (input_filter (A := A) gts i name gaddr sa).
Proof. intros [j ->]. apply match_filter_total. Qed.

Lemma check_interface_total p it dir c i gaddr sa :
  is_Some (check_interface gts get_if_name p it dir c i gaddr sa).
Proof.
  unfold check_interface. destruct (match it with IT_UPSTREAM => _ | IT_DOWNSTREAM => _ end)
    as [[j|]|]; [|eauto|eauto].
  destruct (negb _); [|eauto]. destruct dir; [apply match_filter_total..|eauto].
Qed.

Lemma sort_out_first_total u di gaddr (l : list (source A)) :
  is_Some (u_interface u) -> is_Some di ->
  is_Some (sort_out_first gts get_if_name u di gaddr l).
Proof.
  intros Hu Hd. induction l as [|s l [r Hr]]; cbn [sort_out_first]; [eauto|].
  destruct (output_filter_total di (get_if_name (u_if_index u)) gaddr (saddr s) Hd) as [o ->].
  simpl. destruct o; simpl; [|rewrite Hr; eauto].
  destruct (input_filter_total _ (get_if_name (u_if_index u)) gaddr (saddr s) Hu) as [b ->].
  simpl. rewrite Hr. simpl. destruct b; simpl; eauto.
Qed.

Lemma first_round_total u gaddr l :
  is_Some (u_interface u) -> Forall (fun x => is_Some x.2) l ->
  exists states rest, first_round (A := A) gts get_if_name u gaddr l = Some (states, rest)
    /\ Forall (fun x => is_Some x.2) rest.
Proof.
  intros Hu Hl. induction Hl as [|[cs di] l Hdi Hl (states & rest & Hr & Hrest)];
    cbn [first_round]; [eauto|].
  destruct (sort_out_first_total u di gaddr (ss_source_list cs) Hu Hdi) as [[k t] ->].
  simpl. rewrite Hr. simpl. eexists _, _. split; [reflexivity|]. case_if; [by constructor|done].
Qed.

Lemma first_upstreams_total gaddr us l :
  Forall (fun u => is_Some (u_interface u)) us -> Forall (fun x => is_Some x.2) l ->
  exists d, first_upstreams (A := A) gts get_if_name gaddr us l = Some d
            /\ d.*1 = u_if_index <$> us.
Proof.
  intros Hus. revert l. induction Hus as [|u us Hu Hus IH]; intros l Hl; cbn [first_upstreams];
    [eauto|].
  destruct (first_round_total u gaddr l Hu Hl) as (states & rest & -> & Hrest). simpl.
  destruct (IH rest Hrest) as (d & -> & Hd). simpl. eexists. split; [done|]. by rewrite !fmap_cons, Hd.
Qed.

Lemma sort_out_mutex_total p u di gaddr (l : list (source A)) d :
  is_Some (u_interface u) -> is_Some di ->
  exists d' remaining tmp,
    sort_out_mutex gts get_if_name p u di gaddr l d = Some (d', remaining, tmp)
    /\ d'.*1 = d.*1.
Proof.
  intros Hu Hd. revert d. induction l as [|s l IH]; intros d; cbn [sort_out_mutex]; [eauto|].
  destruct (output_filter_total di (get_if_name (u_if_index u)) gaddr (saddr s) Hd) as [o ->].
  simpl. assert (exists b, (if negb o then Some false else
    input_filter gts (u_interface u) (get_if_name (u_if_index u)) gaddr (saddr s)) = Some b)
    as [b ->].
  { destruct o; simpl; [apply input_filter_total; done|eauto]. }
  simpl. destruct (IH d) as (d1 & r1 & t1 & H1 & Hk1).
  destruct (IH (clean_data s d)) as (d2 & r2 & t2 & H2 & Hk2).
  assert (Hclean : (clean_data s d).*1 = d.*1).
  { unfold clean_data. rewrite <- list_fmap_compose. by apply list_fmap_ext. }
  destruct (negb (o && b)); [rewrite H1; simpl; eauto 10|].
  destruct (get_interface_map gaddr (m_data p) !! saddr s).
  - rewrite H2. simpl. eexists _, _, _. split; [reflexivity|]. by rewrite Hk2.
  - rewrite H1. simpl. eauto 10.
Qed.

Lemma mutex_round_total p u gaddr l d :
  is_Some (u_interface u) -> Forall (fun x => is_Some x.2) l ->
  exists d' states rest, mutex_round gts get_if_name p u gaddr l d = Some (d', states, rest)
    /\ Forall (fun x => is_Some x.2) rest /\ d'.*1 = d.*1.
Proof.
  intros Hu Hl. revert d. induction Hl as [|[cs di] l Hdi Hl IH]; intros d; cbn [mutex_round];
    [eauto 10|].
  destruct (sort_out_mutex_total p u di gaddr (ss_source_list cs) d Hu Hdi)
    as (d1 & r1 & t1 & -> & Hk1). simpl.
  destruct (IH d1) as (d2 & states & rest & -> & Hrest & Hk2). simpl.
  eexists _, _, _. split; [reflexivity|]. split; [case_if; [done|by constructor]|].
  by rewrite Hk2.
Qed.

Lemma mutex_upstreams_total p gaddr us l d :
  Forall (fun u => is_Some (u_interface u)) us -> Forall (fun x => is_Some x.2) l ->
  exists d', mutex_upstreams gts get_if_name p gaddr us l d = Some d'
             /\ d'.*1 = d.*1 ++ (u_if_index <$> us).
Proof.
  intros Hus. revert l d. induction Hus as [|u us Hu Hus IH]; intros l d Hl;
    cbn [mutex_upstreams]; [exists d; by rewrite app_nil_r|].
  destruct (mutex_round_total p u gaddr l d Hu Hl) as (d1 & states & rest & -> & Hrest & Hk).
  simpl. destruct (IH rest (d1 ++ [(u_if_index u, states)]) Hrest) as (d' & -> & Hd').
  eexists. split; [done|]. rewrite Hd', fmap_app, Hk. simpl. by rewrite <- app_assoc.
Qed.

Lemma memberships_total rmt p gaddr :
  interfaces_set p ->
  exists d, interface_memberships gts get_if_name rmt p gaddr = Some d
            /\ d.*1 = u_if_index <$> m_upstreams p.
Proof.
  intros [Hu Hd]. assert (Hl : Forall (fun x => is_Some x.2) (downstream_states p gaddr)).
  { apply Forall_fmap. eapply Forall_impl; [exact Hd|]. done. }
  unfold interface_memberships. case_if.
  - by apply first_upstreams_total.
  - by apply mutex_upstreams_total.
Qed.

Lemma wp_send_records gaddr us d e :
  d.*1 = u_if_index <$> us ->
  wp (send_records snd gaddr us d) (fun _ e' => env_io e e') e.
Proof.
  revert d e. induction us as [|u us IH]; intros d e Hd; cbn [send_records]; [by apply wp_ret|].
  destruct d as [|[i states] d]; [done|]. simpl in Hd. injection Hd as -> Hd.
  unfold get_group_memberships. rewrite Z.eqb_refl. simpl. apply wp_bind, wp_ret. simpl.
  apply wp_bind. eapply wp_mono; [apply send_record_law|]. intros b e1 Hio.
  eapply wp_mono; [by apply IH|]. intros [] e2 Hio2. cbn beta in *. by etrans.
Qed.

Lemma wp_aggregation rmt p gaddr e :
  interfaces_set p ->
  wp (process_membership_aggregation snd gts get_if_name rmt p gaddr)
     (fun _ e' => env_io e e') e.
Proof.
  intros Hp. unfold process_membership_aggregation. case_if; [|by apply wp_ret].
  destruct (memberships_total rmt p gaddr Hp) as (d & -> & Hd).
  apply wp_bind, wp_deref. by apply wp_send_records.
Qed.

Lemma upstream_outputs_total p us i gaddr sa :
  is_Some (upstream_outputs gts get_if_name p us i gaddr sa).
Proof.
  induction us as [|u us [r Hr]]; cbn [upstream_outputs]; [eauto|].
  destruct (check_interface_total p IT_UPSTREAM ID_OUT (u_if_index u) i gaddr sa) as [ok ->].
  simpl. rewrite Hr. destruct ok; [|eauto]. repeat case_if; simpl; eauto.
Qed.

Lemma collect_total p gaddr slist :
  is_Some (collect_interested_interfaces gts get_if_name p gaddr slist).
Proof.
  unfold collect_interested_interfaces.
  assert (Hup : is_Some (upstream_part gts get_if_name p gaddr slist)).
  { induction slist as [|s slist [r Hr]]; cbn [upstream_part]; [eauto|].
    destruct (get_interface_map gaddr (m_data p) !! saddr s) as [i|]; [|eauto].
    assert (exists o, (if is_downstream p i then upstream_outputs gts get_if_name p (m_upstreams p)
      i gaddr (saddr s) else Some []) = Some o) as [o ->].
    { case_if; [apply upstream_outputs_total|eauto]. }
    simpl. rewrite Hr. simpl. eauto. }
  destruct Hup as [[rt b] ->]. simpl. case_if; eauto.
Qed.

Lemma wp_set_routes p gaddr rt e :
  wp (set_routes sock gts get_if_name vif p gaddr rt) (fun _ e' => env_io e e') e.
Proof.
  unfold set_routes. revert e. induction rt as [|[s outs] rt IH]; intros e; cbn [forM];
    [by apply wp_ret|].
  apply wp_bind. eapply (wp_mono _ (fun _ e' => env_io e e')).
  2: { intros [] e1 Hio. eapply wp_mono; [apply IH|]. intros [] e2 Hio2. by etrans. }
  unfold set_route. destruct (get_interface_map gaddr (m_data p) !! _) as [i|];
    [|by apply wp_ret]. case_if.
  - apply wp_bind, wp_call. intros b e1 Hio _. by apply wp_ret.
  - assert (is_Some (input_allowed gts get_if_name p gaddr (saddr s) i)) as [al Hal].
    { unfold input_allowed. assert (exists b, (if is_upstream p i then
        check_interface gts get_if_name p IT_UPSTREAM ID_IN i i gaddr (saddr s) else Some false)
        = Some b) as [b ->] by (case_if; [apply check_interface_total|eauto]).
      simpl. case_if; [apply check_interface_total|eauto]. }
    simpl. rewrite Hal. apply wp_bind, wp_deref. destruct al; [|by apply wp_ret].
    apply wp_bind. unfold add_route. destruct (get_addr_family _); [by do 2 apply wp_ret|..];
      (case_if; [by do 2 apply wp_ret|]); apply wp_call; intros b e1 Hio _; by apply wp_ret.
Qed.

Lemma wp_state_change p gaddr e :
  interfaces_set p ->
  wp (event_querier_state_change sock snd gts get_if_name vif p gaddr)
     (fun _ e' => env_io e e') e.
Proof.
  intros Hp. unfold event_querier_state_change.
  destruct (collect_total p gaddr (get_available_sources gaddr (m_data p))) as [rt ->].
  apply wp_bind, wp_deref, wp_bind. eapply wp_mono; [apply wp_set_routes|].
  intros [] e1 Hio. eapply (wp_mono _ (fun _ e' => env_io e1 e')).
  - case_if; [by apply wp_aggregation|]. case_if; [by apply wp_aggregation|by apply wp_ret].
  - intros [] e2 Hio2. by etrans.
Qed.

(** The reaction to a change of memberships always returns and touches
    nothing but the sockets: for every table set the parser can build and every
    instance whose interfaces exist, no filter recursion diverges, no null
    pointer is dereferenced and the lists of memberships and of upstream
    interfaces stay in step. *)
Theorem state_change_returns p gaddr e :
  interfaces_set p ->
  wp (event_querier_state_change sock snd gts get_if_name vif p gaddr)
     (fun _ e' => env_io e e') e.
Proof. apply wp_state_change. Qed.
End Events.
