(* ===== verification/ProxyInstance.v ===== *)
(** * Proxy instance (include/proxy/proxy_instance.hpp, src/proxy/proxy_instance.cpp)

    The messages a proxy instance handles: configuration, reports, timers and
    new sources. The queriers call back into the routing with the database they
    hold at that moment, so the callback of a querier is the routing event on
    the instance with that database in place. *)

From S2P Require Import Prelude Def TimersValues AddrStorage Filter Timing MessageQueue Messages Sender.
From S2P Require Import MembershipDb Querier QuerierSpec QuerierHelpers QuerierReports.
From S2P Require Import QuerierTimers QuerierTheorems RoutingData ProxyRouting RoutingTheorems.

Local Open Scope Z_scope.

Section Instance.
Context {A : Type} `{Address A} (clk : nat -> Z) (sock : nat -> action -> bool)
  (stats : nat -> A -> A -> option Z).
Context (snd : sender (A := A)) (gts : gmap string table) (get_if_name : Z -> string)
  (vif : Z -> Z) (w : Z).
Implicit Types (p : proxy_state (A := A)) (gaddr : A).

Definition set_upstreams (us : list upstream_infos) p : proxy_state :=
  {| m_group_mem_protocol := m_group_mem_protocol p; m_upstreams := us;
     m_downstreams := m_downstreams p; m_upstream_input_rule := m_upstream_input_rule p;
     m_upstream_output_rule := m_upstream_output_rule p; m_data := m_data p |}.

Definition set_downstreams (ds : list (Z * downstream_infos (A := A))) p : proxy_state :=
  {| m_group_mem_protocol := m_group_mem_protocol p; m_upstreams := m_upstreams p;
     m_downstreams := ds; m_upstream_input_rule := m_upstream_input_rule p;
     m_upstream_output_rule := m_upstream_output_rule p; m_data := m_data p |}.

Definition set_rules (i o : option rule_binding) p : proxy_state :=
  {| m_group_mem_protocol := m_group_mem_protocol p; m_upstreams := m_upstreams p;
     m_downstreams := m_downstreams p; m_upstream_input_rule := i;
     m_upstream_output_rule := o; m_data := m_data p |}.

(** The constructor of the instance. *)
Definition new_proxy_state (gmp : group_mem_protocol) (instance_name : string) : proxy_state :=
  {| m_group_mem_protocol := gmp; m_upstreams := []; m_downstreams := [];
     m_upstream_input_rule := Some (matching_binding instance_name IT_UPSTREAM "*" ID_IN RMT_FIRST 0);
     m_upstream_output_rule := Some (matching_binding instance_name IT_UPSTREAM "*" ID_OUT RMT_ALL 0);
     m_data := ∅ |}.

(** The database of a downstream interface is replaced. *)
Definition set_downstream_db (i : Z) (db : membership_db A) p : proxy_state :=
  set_downstreams (sl_update i
    (fun d => (d.1, {| d_db := db; d_timers_values := d_timers_values d.2;
                       d_interface := d_interface d.2 |})) (m_downstreams p)) p.

(** The callback of the querier of interface [i]. *)
Definition cb_state_change p (i : Z) (db : membership_db A) gaddr : M A unit :=
  event_querier_state_change sock snd gts get_if_name vif (set_downstream_db i db p) gaddr.

Definition register_interface (i : Z) : M A unit :=
  call sock (AddVif i (vif i));; call sock (RegisterInterface i);; mret tt.

Definition unregister_interface (i : Z) : M A unit :=
  call sock (DelVif i (vif i));; call sock (UnregisterInterface i);; mret tt.

(** [handle_config]; the exception of a querier that cannot be constructed ends
    the worker thread, so it has no result. *)
Definition handle_config (cm : config_msg) p : M A proxy_state :=
  let i := cm_if_index cm in
  match cm_instruction cm with
  | ADD_DOWNSTREAM =>
    match sl_find i (m_downstreams p) with
    | None =>
      (if negb (is_upstream p i) then register_interface i else mret tt);;
      q ← new_querier clk snd w i (cm_tv cm) (m_group_mem_protocol p);
      db ← deref q;
      mret (set_downstreams (sl_insert (i, {| d_db := db; d_timers_values := cm_tv cm;
                                              d_interface := cm_interface cm |})
                               (m_downstreams p)) p)
    | Some _ => mret p
    end
  | DEL_DOWNSTREAM =>
    match sl_find i (m_downstreams p) with
    | Some d =>
      (if negb (is_upstream p i) then unregister_interface i else mret tt);;
      destroy_querier snd i (d_db d.2);;
      mret (set_downstreams (sl_erase i (m_downstreams p)) p)
    | None => mret p
    end
  | ADD_UPSTREAM =>
    if negb (is_upstream p i) then
      (if negb (is_downstream p i) then register_interface i else mret tt);;
      mret (set_upstreams (sl_insert {| u_if_index := i; u_interface := cm_interface cm;
                                        u_priority := cm_upstream_priority cm |}
                             (m_upstreams p)) p)
    else mret p
  | DEL_UPSTREAM =>
    match List.find (fun u => u_if_index u =? i) (m_upstreams p) with
    | Some u =>
      (if negb (is_downstream p i) then unregister_interface i else mret tt);;
      mret (set_upstreams (sl_erase (u_priority u) (m_upstreams p)) p)
    | None => mret p
    end
  | SET_GLOBAL_RULE_BINDING =>
    match cm_rule_binding cm with
    | Some rb =>
      if bool_decide (m_rule_binding_type rb = RBT_RULE_MATCHING)
         && bool_decide (m_interface_type rb = IT_UPSTREAM) then
        match m_filter_direction rb with
        | ID_IN => mret (set_rules (Some rb) (m_upstream_output_rule p) p)
        | ID_OUT => mret (set_rules (m_upstream_input_rule p) (Some rb) p)
        | ID_WILDCARD => mret p
        end
      else mret p
    | None => mret p
    end
  end.

(** A timer message for the querier of its interface. *)
Definition querier_timer (held : bool) (t : tid) (tm : timer_msg A) p : M A proxy_state :=
  let i := tm_if_index tm in
  match sl_find i (m_downstreams p) with
  | Some d =>
    db ← timer_triggerd clk snd w i (d_timers_values d.2) (cb_state_change p i) held t (d_db d.2);
    mret (set_downstream_db i db p)
  | None => mret p
  end.

(** One round of [worker_thread] on the message taken from the queue; the
    boolean is [m_running] afterwards. *)
Definition handle_message (held : bool) (m : proxy_msg A) p : M A (bool * proxy_state) :=
  match m with
  | test_msg _ _ => mret (true, p)
  | a_config_msg cm => p ← handle_config cm p; mret (true, p)
  | a_timer_msg t =>
    tm ← get_timer t;
    match tm_type tm with
    | FILTER_TIMER_MSG | SOURCE_TIMER_MSG | RET_GROUP_TIMER_MSG | RET_SOURCE_TIMER_MSG
    | OLDER_HOST_PRESENT_TIMER_MSG | GENERAL_QUERY_TIMER_MSG =>
      p ← querier_timer held t tm p; mret (true, p)
    | NEW_SOURCE_TIMER_MSG =>
      p ← timer_triggerd_maintain_routing_table clk sock stats snd gts get_if_name vif w held t p;
      mret (true, p)
    | _ => mret (true, p)
    end
  | a_group_record_msg gr =>
    let i := gr_if_index gr in
    match sl_find i (m_downstreams p) with
    | Some d =>
      db ← receive_record clk snd w i (d_timers_values d.2) (cb_state_change p i) gr (d_db d.2);
      mret (true, set_downstream_db i db p)
    | None => mret (true, p)
    end
  | new_source_msg i gaddr sa =>
    p ← event_new_source clk sock stats snd gts get_if_name vif w i gaddr sa p; mret (true, p)
  | debug_msg => mret (true, p)
  | exit_cmd => mret (false, p)
  | init_msg => mret (true, p)
  end.

(** The order of the queue. *)
Definition msg_prio (m : proxy_msg A) : Z := priority_code (get_priority m).

(** [worker_thread]: a round for each element of [rounds], with the messages
    that other threads add before it and whether a timer taken from the queue is
    held elsewhere. A round on an empty queue waits. The boolean is [m_running]. *)
Fixpoint worker_thread {Q} `{PriorityQueue (proxy_msg A) msg_prio Q}
    (rounds : list (bool * list (proxy_msg A))) (mq : message_queue (Q := Q)) p
    : M A (bool * message_queue (Q := Q) * proxy_state) :=
  match rounds with
  | [] => mret (true, mq, p)
  | (held, added) :: rounds' =>
    let mq := fold_left (fun mq m => add_msg msg_prio m mq) added mq in
    match dequeue msg_prio mq with
    | None => worker_thread rounds' mq p
    | Some (m, mq) =>
      r ← handle_message held m p;
      if r.1 : bool then worker_thread rounds' mq r.2 else mret (false, mq, r.2)
    end
  end.
End Instance.
