(* ===== verification/Proxy.v ===== *)
(** * Proxy process (include/proxy/proxy.hpp, src/proxy/proxy.cpp, src/main.cpp)

    The command line, the start of the proxy instances of a configuration and
    their end. The results of [getopt], the sockets of the instances and the
    user of the process are parameters. *)

From Stdlib Require Import Strings.Ascii.
From S2P Require Import Prelude Result Def TimersValues AddrStorage Filter InstanceDef Interfaces.
From S2P Require Import Configuration Timing MessageQueue Messages Sender MembershipDb Querier.
From S2P Require Import Logging RoutingData ProxyRouting ProxyInstance.

Local Open Scope Z_scope.

(** ** Command line *)

(** The members [prozess_commandline_args] sets and its two flags. *)
Record arguments := {
  m_verbose_lvl : Z;
  m_print_proxy_status : bool;
  m_reset_rp_filter : bool;
  m_config_path : string;
  is_logging : bool;
  is_check_kernel : bool
}.

Definition default_arguments : arguments :=
  {| m_verbose_lvl := 0; m_print_proxy_status := false; m_reset_rp_filter := false;
     m_config_path := "mcproxy.conf"; is_logging := false; is_check_kernel := false |}.

Definition unknown_argument : string := "Unknown argument! See help (-h) for more information.".

(** The body of the loop for the option [c] with the argument [optarg]. *)
Definition process_option (c : ascii) (optarg : string) (a : arguments) : result arguments :=
  match c with
  | "h"%char => Err (Throw EmptyString)
  | "c"%char =>
    Ok {| m_verbose_lvl := m_verbose_lvl a; m_print_proxy_status := m_print_proxy_status a;
          m_reset_rp_filter := m_reset_rp_filter a; m_config_path := m_config_path a;
          is_logging := is_logging a; is_check_kernel := true |}
  | "r"%char =>
    Ok {| m_verbose_lvl := m_verbose_lvl a; m_print_proxy_status := m_print_proxy_status a;
          m_reset_rp_filter := true; m_config_path := m_config_path a;
          is_logging := is_logging a; is_check_kernel := is_check_kernel a |}
  | "d"%char =>
    Ok {| m_verbose_lvl := m_verbose_lvl a; m_print_proxy_status := m_print_proxy_status a;
          m_reset_rp_filter := m_reset_rp_filter a; m_config_path := m_config_path a;
          is_logging := true; is_check_kernel := is_check_kernel a |}
  | "s"%char =>
    Ok {| m_verbose_lvl := m_verbose_lvl a; m_print_proxy_status := true;
          m_reset_rp_filter := m_reset_rp_filter a; m_config_path := m_config_path a;
          is_logging := is_logging a; is_check_kernel := is_check_kernel a |}
  | "v"%char =>
    Ok {| m_verbose_lvl := m_verbose_lvl a + 1; m_print_proxy_status := m_print_proxy_status a;
          m_reset_rp_filter := m_reset_rp_filter a; m_config_path := m_config_path a;
          is_logging := is_logging a; is_check_kernel := is_check_kernel a |}
  | "f"%char =>
    Ok {| m_verbose_lvl := m_verbose_lvl a; m_print_proxy_status := m_print_proxy_status a;
          m_reset_rp_filter := m_reset_rp_filter a; m_config_path := optarg;
          is_logging := is_logging a; is_check_kernel := is_check_kernel a |}
  | _ => Err (Throw unknown_argument)
  end.

Fixpoint process_options (opts : list (ascii * string)) (a : arguments) : result arguments :=
  match opts with
  | [] => Ok a
  | (c, optarg) :: opts' => a ← process_option c optarg a; process_options opts' a
  end.

(** [opts] are the results of [getopt], [operands] says that arguments that are
    no options are left ([optind < arg_count]). *)
Definition prozess_commandline_args (opts : list (ascii * string)) (operands : bool)
    : result (arguments * log_level) :=
  a ← process_options opts default_arguments;
  if operands then Err (Throw "Unknown option argument")
  else
    lvl ← (if negb (is_logging a) then Ok HC_LOG_ERROR_LVL
           else if m_verbose_lvl a =? 0 then Ok HC_LOG_DEBUG_LVL
           else if 1 <=? m_verbose_lvl a then Ok HC_LOG_TRACE_LVL
           else Err (Throw "Unknown verbose level"));
    if is_check_kernel a then Err (Throw EmptyString) else Ok (a, lvl).

(** ** Start of the instances *)

Definition get_default_priority_interval : Z := 100.

Section Start.
Context {A : Type} `{Address A}.
Context (if_nametoindex : string -> Z).
(** The kernel: whether a table can be chosen, and whether the socket becomes
    the multicast router of a table while the tables of the list have one. *)
Context (set_kernel_table : Z -> bool) (set_mrt_flag : list Z -> Z -> bool).
(** The exception of the constructor of the sender or the receiver, if any. *)
Context (io_exception : Z -> option string).

(** An instance that has been started: the arguments of its constructor and the
    messages added to its queue, oldest first. *)
Record proxy_instance := {
  pi_group_mem_protocol : group_mem_protocol;
  pi_instance_name : string;
  pi_table_number : Z;
  pi_interfaces : option interfaces;
  pi_msgs : list (proxy_msg A)
}.

Definition pi_add_msg (m : proxy_msg A) (pr_i : proxy_instance) : proxy_instance :=
  {| pi_group_mem_protocol := pi_group_mem_protocol pr_i;
     pi_instance_name := pi_instance_name pr_i; pi_table_number := pi_table_number pr_i;
     pi_interfaces := pi_interfaces pr_i; pi_msgs := pi_msgs pr_i ++ [m] |}.

(** The routing table of the kernel an instance uses: numbers that are not
    positive leave the default table, 0. *)
Definition mrt_table (table_number : Z) : Z := Z.max 0 table_number.

Definition init_mrt_socket (used : list Z) (table_number : Z) : bool :=
  (if 0 <? table_number then set_kernel_table table_number else true)
  && set_mrt_flag used (mrt_table table_number).

(** The constructor of the instance as the proxy sees it. *)
Definition new_proxy_instance (gmp : group_mem_protocol) (instance_name : string)
    (table_number : Z) (ifs : option interfaces) (used : list Z) : result proxy_instance :=
  if negb (init_mrt_socket used table_number) then
    Err (Throw "failed to initialize mroute socket")
  else match io_exception table_number with
       | Some s => Err (Throw s)
       | None => Ok {| pi_group_mem_protocol := gmp; pi_instance_name := instance_name;
                       pi_table_number := table_number; pi_interfaces := ifs; pi_msgs := [] |}
       end.

(** The loops over the global settings, the upstream and the downstream
    interfaces of a definition. *)
Definition add_settings (l : list rule_binding) (pr_i : proxy_instance) : proxy_instance :=
  fold_left (fun pr_i r =>
    pi_add_msg (a_config_msg (config_msg_rule SET_GLOBAL_RULE_BINDING (Some r))) pr_i) l pr_i.

Fixpoint add_upstreams (upstream_priority : Z) (l : list interface) (pr_i : proxy_instance)
    : result proxy_instance :=
  match l with
  | [] => Ok pr_i
  | u :: l' =>
    let if_index := if_nametoindex (if_name u) in
    if if_index =? 0 then Err (Throw "interface not found")
    else
      cm ← of_option (Throw "config_msg is incomplet, missing parameter timer_values")
             (config_msg_interface ADD_UPSTREAM if_index upstream_priority (Some u));
      add_upstreams (to_uint32 (upstream_priority + get_default_priority_interval)) l'
        (pi_add_msg (a_config_msg cm) pr_i)
  end.

Fixpoint add_downstreams (l : list interface) (pr_i : proxy_instance) : result proxy_instance :=
  match l with
  | [] => Ok pr_i
  | d :: l' =>
    let if_index := if_nametoindex (if_name d) in
    if if_index =? 0 then Err (Throw "interface not found")
    else add_downstreams l'
           (pi_add_msg (a_config_msg (config_msg_timers ADD_DOWNSTREAM if_index (Some d)
                                        new_timers_values)) pr_i)
  end.

(** The number of the routing table of the next instance; counting beyond the
    range of [int] is undefined. *)
Definition next_table_number (size : nat) (pinstance : instance_definition) (table_number : Z)
    : result Z :=
  if negb (m_user_selected_table_number pinstance) then
    if table_number =? 2 ^ 31 - 1 then Err Undefined
    else Ok (if (size <=? 1)%nat then 0 else table_number + 1)
  else Ok (m_table_number pinstance).

(** The loop of [start_proxy_instances]; [r] is [m_proxy_instances]. *)
Fixpoint start_instances (c : configuration) (m : gmap string interfaces) (size : nat)
    (table_number : Z) (ids : inst_def_set) (r : list (Z * proxy_instance))
    : result (list (Z * proxy_instance)) :=
  match ids with
  | [] => Ok r
  | pinstance :: ids' =>
    table_number ← next_table_number size pinstance table_number;
    pr_i ← new_proxy_instance (m_gmp c) (id_instance_name pinstance) table_number
             (get_interfaces_for_pinstance m (id_instance_name pinstance))
             ((fun e => mrt_table e.1) <$> r);
    let pr_i := add_settings (m_global_settings pinstance) pr_i in
    pr_i ← add_upstreams 0 (id_upstreams pinstance) pr_i;
    pr_i ← add_downstreams (id_downstreams pinstance) pr_i;
    start_instances c m size table_number ids' (sl_insert (table_number, pr_i) r)
  end.

Definition start_proxy_instances (c : configuration) (m : gmap string interfaces)
    : result (list (Z * proxy_instance)) :=
  start_instances c m (inst_def_set_size (m_inst_def_set c)) 0 (m_inst_def_set c) [].

(** [start]: the rounds of the loop until a signal arrives, and the end. *)
Definition to_all (msg : proxy_msg A) (r : list (Z * proxy_instance))
    : list (Z * proxy_instance) := (fun e => (e.1, pi_add_msg msg e.2)) <$> r.

Fixpoint start (print_status : bool) (rounds : nat) (r : list (Z * proxy_instance))
    : list (Z * proxy_instance) :=
  match rounds with
  | O => to_all exit_cmd r
  | S rounds => start print_status rounds (if print_status then to_all debug_msg r else r)
  end.
End Start.

(** ** The process *)

Section Process.
Context {A : Type} `{Address A}.
Context (inet_pton : addr_family -> string -> option (list Z)) (if_nametoindex : string -> Z)
  (if_flags : addr_family -> Z -> option Z) (file : string -> option string).
Context (set_kernel_table : Z -> bool) (set_mrt_flag : list Z -> Z -> bool)
  (io_exception : Z -> option string).

(** The constructor of [proxy]: the instances with all messages they got. *)
Definition new_proxy (opts : list (ascii * string)) (operands : bool) (geteuid : Z) (rounds : nat)
    : result (list (Z * proxy_instance (A := A))) :=
  '(a, _) ← prozess_commandline_args opts operands;
  if negb (geteuid =? 0) then
    Err (Throw "The mcproxy has to be started with root privileges!")
  else
    '(c, m) ← new_configuration inet_pton if_nametoindex if_flags (file (m_config_path a))
                (m_reset_rp_filter a);
    r ← start_proxy_instances if_nametoindex set_kernel_table set_mrt_flag io_exception c m;
    Ok (start (m_print_proxy_status a) rounds r).
End Process.
