(* ===== verification/ProxyTheorems.v ===== *)
(** * The start of the proxy

    Every instance of a configuration is started under a routing table of its
    own with the messages of its definition; the order in which its queue
    delivers them does not matter; and the exit command ends an instance. *)

From Stdlib Require Import Strings.Ascii.
From S2P Require Import Prelude Result Def TimersValues AddrStorage Filter InstanceDef Interfaces.
From S2P Require Import Configuration Timing MessageQueue Messages Sender MembershipDb Querier.
From S2P Require Import RoutingData ProxyRouting ProxyInstance Proxy.

Local Open Scope Z_scope.

(** ** The messages of a definition *)

Section Messages.
Context {A : Type} `{Address A} (if_nametoindex : string -> Z).
Implicit Types (pr_i : proxy_instance (A := A)).

Definition setting_msg (r : rule_binding) : config_msg :=
  config_msg_rule SET_GLOBAL_RULE_BINDING (Some r).

(** The [k]th upstream interface in the order of the definition. *)
Definition upstream_msg (k : nat) (u : interface) : config_msg :=
  {| cm_instruction := ADD_UPSTREAM; cm_if_index := if_nametoindex (if_name u);
     cm_upstream_priority := to_uint32 (Z.of_nat k * 100); cm_interface := Some u;
     cm_tv := new_timers_values; cm_rule_binding := None |}.

Definition downstream_msg (d : interface) : config_msg :=
  config_msg_timers ADD_DOWNSTREAM (if_nametoindex (if_name d)) (Some d) new_timers_values.

Definition startup_msgs (id : instance_definition) : list config_msg :=
  map setting_msg (m_global_settings id) ++ imap upstream_msg (id_upstreams id)
  ++ map downstream_msg (id_downstreams id).

(** The instance [pr_i] with further messages. *)
Definition pi_add_msgs (l : list config_msg) pr_i : proxy_instance :=
  {| pi_group_mem_protocol := pi_group_mem_protocol pr_i;
     pi_instance_name := pi_instance_name pr_i; pi_table_number := pi_table_number pr_i;
     pi_interfaces := pi_interfaces pr_i; pi_msgs := pi_msgs pr_i ++ (a_config_msg <$> l) |}.

Lemma pi_add_msgs_nil pr_i : pi_add_msgs [] pr_i = pr_i.
Proof. destruct pr_i. unfold pi_add_msgs. cbn. by rewrite app_nil_r. Qed.

Lemma pi_add_msgs_app l l' pr_i : pi_add_msgs l' (pi_add_msgs l pr_i) = pi_add_msgs (l ++ l') pr_i.
Proof. unfold pi_add_msgs. cbn. by rewrite fmap_app, app_assoc. Qed.

Lemma pi_add_msgs_cons cm l pr_i :
  pi_add_msgs l (pi_add_msg (a_config_msg cm) pr_i) = pi_add_msgs (cm :: l) pr_i.
Proof. exact (pi_add_msgs_app [cm] l pr_i). Qed.

Lemma add_settings_msgs l pr_i : add_settings l pr_i = pi_add_msgs (map setting_msg l) pr_i.
Proof.
  unfold add_settings. revert pr_i. induction l as [|r l IH]; intros pr_i; cbn [fold_left map];
    [by rewrite pi_add_msgs_nil|]. by rewrite IH, pi_add_msgs_cons.
Qed.

Lemma priority_step k : to_uint32 (to_uint32 (Z.of_nat k * 100) + get_default_priority_interval)
  = to_uint32 (Z.of_nat (S k) * 100).
Proof.
  unfold to_uint32, get_default_priority_interval. rewrite Zplus_mod_idemp_l. f_equal. lia.
Qed.

(** An interface without index ends the loops. *)
Definition known (l : list interface) : Prop := Forall (fun i => if_nametoindex (if_name i) <> 0) l.

Lemma add_upstreams_msgs k l pr_i :
  add_upstreams if_nametoindex (to_uint32 (Z.of_nat k * 100)) l pr_i
  = if decide (known l) then Ok (pi_add_msgs (imap (fun j => upstream_msg (k + j)) l) pr_i)
    else Err (Throw "interface not found").
Proof.
  revert k pr_i. induction l as [|u l IH]; intros k pr_i; cbn [add_upstreams].
  { rewrite decide_True by apply Forall_nil_2. by rewrite pi_add_msgs_nil. }
  destruct (Z.eqb_spec (if_nametoindex (if_name u)) 0) as [H0|H0].
  { rewrite decide_False; [done|]. by intros [? _]%Forall_cons. }
  cbn [config_msg_interface of_option mbind result_bind]. rewrite priority_step, IH.
  destruct (decide (known l)) as [Hl|Hl].
  - rewrite decide_True by (by apply Forall_cons_2). rewrite pi_add_msgs_cons. do 2 f_equal.
    rewrite imap_cons. f_equal; [unfold upstream_msg; by rewrite Nat.add_0_r|].
    apply imap_ext. intros j i _. cbn. by rewrite Nat.add_succ_r.
  - rewrite decide_False; [done|]. by intros [_ ?]%Forall_cons.
Qed.

Lemma add_downstreams_msgs l pr_i :
  add_downstreams if_nametoindex l pr_i
  = if decide (known l) then Ok (pi_add_msgs (map downstream_msg l) pr_i)
    else Err (Throw "interface not found").
Proof.
  revert pr_i. induction l as [|d l IH]; intros pr_i; cbn [add_downstreams].
  { rewrite decide_True by apply Forall_nil_2. by rewrite pi_add_msgs_nil. }
  destruct (Z.eqb_spec (if_nametoindex (if_name d)) 0) as [H0|H0].
  { rewrite decide_False; [done|]. by intros [? _]%Forall_cons. }
  rewrite IH. destruct (decide (known l)) as [Hl|Hl].
  - rewrite decide_True by (by apply Forall_cons_2). cbn [map]. by rewrite pi_add_msgs_cons.
  - rewrite decide_False; [done|]. by intros [_ ?]%Forall_cons.
Qed.
End Messages.

(** ** The instances *)

Section Start.
Context {A : Type} `{Address A} (if_nametoindex : string -> Z).
Context (set_kernel_table : Z -> bool) (set_mrt_flag : list Z -> Z -> bool)
  (io_exception : Z -> option string).

Notation known := (known if_nametoindex).
Notation start_instances := (start_instances (A := A) if_nametoindex set_kernel_table set_mrt_flag io_exception).
Notation start_proxy_instances :=
  (start_proxy_instances (A := A) if_nametoindex set_kernel_table set_mrt_flag io_exception).

(** The numbers of the routing tables of the instances, in order. *)
Fixpoint table_numbers (size : nat) (table_number : Z) (ids : inst_def_set) : result (list Z) :=
  match ids with
  | [] => Ok []
  | id :: ids' =>
    n ← next_table_number size id table_number;
    ns ← table_numbers size n ids';
    Ok (n :: ns)
  end.

(** What is expected to run for a definition. *)
Definition started (c : configuration) (m : gmap string interfaces) (id : instance_definition)
    (n : Z) : Z * proxy_instance (A := A) :=
  (n, {| pi_group_mem_protocol := m_gmp c; pi_instance_name := id_instance_name id;
         pi_table_number := n; pi_interfaces := m !! id_instance_name id;
         pi_msgs := a_config_msg <$> startup_msgs if_nametoindex id |}).

Definition tables_in_use (r : list (Z * proxy_instance (A := A))) : list Z :=
  (fun e => mrt_table e.1) <$> r.

Lemma start_instances_cons c m size n id ids r :
  start_instances c m size n (id :: ids) r =
  (n ← next_table_number size id n;
   if negb (init_mrt_socket set_kernel_table set_mrt_flag (tables_in_use r) n) then
     Err (Throw "failed to initialize mroute socket")
   else match io_exception n with
        | Some s => Err (Throw s)
        | None =>
          if decide (known (id_upstreams id) /\ known (id_downstreams id)) then
            start_instances c m size n ids (sl_insert (started c m id n) r)
          else Err (Throw "interface not found")
        end).
Proof.
  cbn [Proxy.start_instances]. destruct (next_table_number size id n) as [n'|e]; [|done].
  cbn [mbind result_bind]. unfold new_proxy_instance. fold (tables_in_use r).
  destruct (negb _); [done|]. destruct (io_exception n'); [done|]. cbn [mbind result_bind].
  rewrite add_settings_msgs. change 0 with (to_uint32 (Z.of_nat 0 * 100)) at 1.
  rewrite add_upstreams_msgs. destruct (decide (known (id_upstreams id))) as [Hu|Hu].
  2: { rewrite decide_False by naive_solver. done. }
  cbn [mbind result_bind]. rewrite add_downstreams_msgs.
  destruct (decide (known (id_downstreams id))) as [Hd|Hd].
  2: { rewrite decide_False by naive_solver. done. }
  rewrite decide_True by done. cbn [mbind result_bind]. by rewrite !pi_add_msgs_app.
Qed.

(** The kernel refuses a second multicast router for a table (EADDRINUSE); whether
    it accepts a first one may depend on the table. *)
Context (accepts : Z -> bool).
Hypothesis kernel_router : forall used n, set_mrt_flag used n = accepts n && bool_decide (n ∉ used).

(** The sockets for the table [n] can be set up. *)
Definition sockets_work (n : Z) : Prop :=
  (0 < n -> set_kernel_table n = true) /\ accepts (mrt_table n) = true /\ io_exception n = None.

#[local] Instance sockets_work_dec n : Decision (sockets_work n).
Proof. unfold sockets_work. apply _. Defined.

Lemma init_mrt_socket_spec used n :
  init_mrt_socket set_kernel_table set_mrt_flag used n = true
  <-> (0 < n -> set_kernel_table n = true) /\ accepts (mrt_table n) = true /\ mrt_table n ∉ used.
Proof.
  unfold init_mrt_socket. rewrite kernel_router, !andb_true_iff, bool_decide_eq_true.
  destruct (Z.ltb_spec 0 n); intuition lia.
Qed.

Definition all_known (ids : inst_def_set) : Prop :=
  Forall (fun id => known (id_upstreams id) /\ known (id_downstreams id)) ids.

Lemma sl_insert_fresh (x : Z * proxy_instance (A := A)) r :
  mrt_table x.1 ∉ tables_in_use r -> sl_insert x r ≡ₚ x :: r.
Proof.
  intros Hx. unfold sl_insert. rewrite (proj2 (sl_find_None _ _)).
  - clear. induction r as [|y r IH]; cbn [sl_place]; [done|]. case_if; [done|].
    rewrite IH. apply perm_swap.
  - rewrite elem_of_sl_keys_In. intros (y & Hy & Hk). apply Hx. apply list_elem_of_fmap.
    exists y. split; [|done]. change (y.1 = x.1) in Hk. by rewrite Hk.
Qed.

Lemma start_instances_spec c m size ids n r ns :
  sl_ordered r -> table_numbers size n ids = Ok ns ->
  if decide (NoDup (map mrt_table ns) /\ Forall (fun n => mrt_table n ∉ tables_in_use r) ns
             /\ Forall sockets_work ns /\ all_known ids)
  then exists r', start_instances c m size n ids r = Ok r'
         /\ r' ≡ₚ r ++ zip_with (started c m) ids ns /\ sl_ordered r'
  else exists s, start_instances c m size n ids r = Err (Throw s).
Proof.
  revert n r ns. induction ids as [|id ids IH]; intros n r ns Hr Hns; cbn [table_numbers] in Hns.
  { injection Hns as <-. rewrite decide_True by (split_and!; constructor).
    exists r. split_and!; [done|by rewrite app_nil_r|done]. }
  apply bind_Ok in Hns as (n' & Hn' & Hns). apply bind_Ok in Hns as (ns' & Hns & [= <-]).
  rewrite start_instances_cons, Hn'. cbn [mbind result_bind].
  destruct (init_mrt_socket _ _ _ _) eqn:Hi; cbn [negb].
  2: { rewrite decide_False; [by eexists|]. intros (_ & [? _]%Forall_cons & [(? & ? & _) _]%Forall_cons & _).
       apply not_true_iff_false in Hi. by apply Hi, init_mrt_socket_spec. }
  apply init_mrt_socket_spec in Hi as (Ht & Ha & Hfree). destruct (io_exception n') eqn:Hio.
  { rewrite decide_False; [by eexists|]. intros (_ & _ & [(_ & _ & ?) _]%Forall_cons & _). congruence. }
  destruct (decide (known (id_upstreams id) /\ known (id_downstreams id))) as [Hk|Hk].
  2: { rewrite decide_False; [by eexists|]. by intros (_ & _ & _ & [? _]%Forall_cons). }
  assert (Hw : sockets_work n') by done.
  pose proof (sl_insert_fresh (started c m id n') r Hfree) as Hp.
  assert (Hu : tables_in_use (sl_insert (started c m id n') r) ≡ₚ mrt_table n' :: tables_in_use r)
    by (unfold tables_in_use; by rewrite Hp).
  specialize (IH n' (sl_insert (started c m id n') r) ns' (sl_insert_ordered _ _ Hr) Hns).
  match type of IH with if decide ?P then _ else _ =>
    assert (Hiff : P <-> NoDup (map mrt_table (n' :: ns'))
      /\ Forall (fun n => mrt_table n ∉ tables_in_use r) (n' :: ns') /\ Forall sockets_work (n' :: ns')
      /\ all_known (id :: ids)) end.
  { cbn [map]. rewrite NoDup_cons, !(Forall_cons _ n'). unfold all_known. rewrite Forall_cons.
    rewrite !Forall_forall. setoid_rewrite Hu. setoid_rewrite not_elem_of_cons.
    rewrite list_elem_of_fmap. naive_solver. }
  destruct (decide _) as [HP|HP] in IH; [rewrite decide_True by (by apply Hiff)
    |rewrite decide_False by (by rewrite <- Hiff); done].
  destruct IH as (r' & Hr' & Hp' & Ho). exists r'. split_and!; [done| |done].
  rewrite Hp', Hp. cbn [zip_with]. apply Permutation_middle.
Qed.

(** Table numbers beyond the range of [int] are undefined. *)
Lemma start_instances_undefined c m size ids n r f :
  table_numbers size n ids = Err f -> exists f', start_instances c m size n ids r = Err f'.
Proof.
  revert n r. induction ids as [|id ids IH]; intros n r; cbn [table_numbers]; [done|].
  rewrite start_instances_cons. destruct (next_table_number size id n) as [n'|f']; cbn [mbind result_bind]; [|by eexists].
  intros Hns. destruct (negb _); [by eexists|]. destruct (io_exception n'); [by eexists|].
  case_decide; [|by eexists]. destruct (table_numbers size n' ids) as [ns|f'] eqn:E; [done|]. injection Hns as ->. by apply (IH n').
Qed.

(** C15: Starting a configuration, on a kernel that refuses a second multicast
    router for a table: it succeeds exactly if the table numbers stay in the range
    of [int], no two instances are given the same routing table, the kernel accepts
    the table and the router of every instance, the constructors of every sender
    and receiver succeed, and all interfaces exist; then every instance of the
    configuration runs, under its number, with its own interfaces and exactly the
    messages of its definition. Otherwise the start does not succeed: within the
    range of [int] it ends with an exception. *)
Theorem start_proxy_instances_spec c m :
  let ids := m_inst_def_set c in
  match table_numbers (inst_def_set_size ids) 0 ids with
  | Ok ns =>
    if decide (NoDup (map mrt_table ns) /\ Forall sockets_work ns /\ all_known ids)
    then exists r, start_proxy_instances c m = Ok r
           /\ r ≡ₚ zip_with (started c m) ids ns /\ sl_ordered r
    else exists s, start_proxy_instances c m = Err (Throw s)
  | Err _ => exists f, start_proxy_instances c m = Err f
  end.
Proof.
  intros ids. destruct (table_numbers (inst_def_set_size ids) 0 ids) as [ns|f] eqn:Hns;
    [|by eapply start_instances_undefined].
  pose proof (start_instances_spec c m (inst_def_set_size ids) ids 0 [] ns ltac:(constructor) Hns) as Hs.
  assert (Forall (fun n => mrt_table n ∉ tables_in_use []) ns) by (apply Forall_forall; intros; by inversion 1).
  destruct (decide _) as [HP|HP] in Hs; [rewrite decide_True by tauto|rewrite decide_False by tauto];
    exact Hs.
Qed.
End Start.

(** *** Table numbers *)

(** A kernel that refuses nothing but a second router. *)
Lemma router_answers (set_mrt_flag : list Z -> Z -> bool) :
  (forall used n, set_mrt_flag used n = true <-> n ∉ used) ->
  forall used n, set_mrt_flag used n = true && bool_decide (n ∉ used).
Proof. intros Hk used n. apply eq_true_iff_eq. by rewrite Hk, andb_true_l, bool_decide_eq_true. Qed.

(** Without a choice of the user the instances are numbered from 1, a single
    instance uses the default table. *)
Lemma automatic_numbers size n ids :
  Forall (fun id => m_user_selected_table_number id = false) ids -> (2 <= size)%nat ->
  0 <= n -> n + Z.of_nat (length ids) < 2 ^ 31 ->
  table_numbers size n ids = Ok (seqZ (n + 1) (Z.of_nat (length ids))).
Proof.
  intros Hids Hs. revert n. induction Hids as [|id ids Hid Hids IH]; intros n Hn Hlen; [done|].
  cbn [table_numbers length] in *. unfold next_table_number. rewrite Hid. cbn [negb].
  rewrite (proj2 (Z.eqb_neq _ _)) by lia. cbn [mbind result_bind].
  rewrite (proj2 (Nat.leb_gt _ _)) by lia. rewrite IH by lia. cbn [mbind result_bind].
  rewrite (seqZ_cons (n + 1)) by lia. do 2 f_equal.
  replace (Z.pred (Z.of_nat (S (length ids)))) with (Z.of_nat (length ids)) by lia.
  by replace (Z.succ (n + 1)) with (n + 1 + 1) by lia.
Qed.

Lemma automatic_numbers_distinct n k :
  0 <= n -> NoDup (map mrt_table (seqZ n k)).
Proof.
  intros Hn. change (NoDup (mrt_table <$> seqZ n k)).
  replace (mrt_table <$> seqZ n k) with (seqZ n k); [apply NoDup_seqZ|].
  symmetry. rewrite <- (list_fmap_id (seqZ n k)) at 2. apply list_fmap_ext. intros i x Hx.
  apply lookup_seqZ in Hx as [-> _]. unfold mrt_table, id. lia.
Qed.

Lemma single_number id :
  m_user_selected_table_number id = false -> table_numbers 1 0 [id] = Ok [0].
Proof. intros Hid. cbn. unfold next_table_number. by rewrite Hid. Qed.

Lemma zip_ordered {A : Type} `{Address A} if_nametoindex c m ids n :
  sl_ordered (zip_with (started (A := A) if_nametoindex c m) ids (seqZ n (Z.of_nat (length ids)))).
Proof.
  revert n. induction ids as [|id ids IH]; intros n; [constructor|]. cbn [length].
  rewrite seqZ_cons by lia. rewrite Nat2Z.inj_succ, Z.pred_succ. cbn [zip_with].
  constructor; [apply IH|]. apply Forall_forall. intros x Hx.
  apply elem_of_lookup_zip_with in Hx as (i & id' & n' & -> & _ & Hn').
  apply lookup_seqZ in Hn' as [-> _]. apply Z.ltb_lt. cbn. lia.
Qed.

Lemma names_started {A : Type} `{Address A} if_nametoindex c m ids ns :
  length ns = length ids ->
  (fun e => pi_instance_name e.2) <$> zip_with (started (A := A) if_nametoindex c m) ids ns
  = id_instance_name <$> ids.
Proof.
  revert ns. induction ids as [|id ids IH]; intros [|n ns] Hlen; try done. cbn in *.
  f_equal. apply IH. lia.
Qed.

(** The numbers chosen automatically never collide with each other: on a
    working kernel a configuration in which the user chooses no table starts
    all of its instances, the only instance in the default table or several
    under the numbers from 1 on. *)
Theorem automatic_start {A : Type} `{Address A} if_nametoindex set_mrt_flag c m :
  (forall used n, set_mrt_flag used n = true <-> n ∉ used) ->
  Forall (fun id => m_user_selected_table_number id = false) (m_inst_def_set c) ->
  Z.of_nat (length (m_inst_def_set c)) < 2 ^ 31 ->
  all_known if_nametoindex (m_inst_def_set c) ->
  exists r, start_proxy_instances (A := A) if_nametoindex (fun _ => true) set_mrt_flag (fun _ => None) c m = Ok r
    /\ r.*1 = (if (length (m_inst_def_set c) <=? 1)%nat then replicate (length (m_inst_def_set c)) 0
               else seqZ 1 (Z.of_nat (length (m_inst_def_set c))))
    /\ (fun e => pi_instance_name e.2) <$> r = id_instance_name <$> m_inst_def_set c.
Proof.
  intros Hk Hauto Hlen Hknown. set (ids := m_inst_def_set c) in *.
  set (start := if (length ids <=? 1)%nat then 0 else 1).
  assert (Hns : table_numbers (length ids) 0 ids = Ok (seqZ start (Z.of_nat (length ids)))).
  { unfold start. destruct (Nat.leb_spec (length ids) 1).
    - destruct Hauto as [|id ids' Hid Hids]; [done|]. destruct ids'; [|cbn in *; lia].
      by rewrite single_number.
    - rewrite automatic_numbers by (done || lia). done. }
  assert (Hs : 0 <= start) by (unfold start; by case_match).
  pose proof (start_instances_spec (A := A) if_nametoindex (fun _ => true) set_mrt_flag (fun _ => None)
    (fun _ => true) (router_answers _ Hk) c m (length ids) ids 0 [] _ ltac:(constructor) Hns) as Hr.
  rewrite decide_True in Hr.
  2: { split_and!; [by apply automatic_numbers_distinct| |by apply Forall_forall|done].
       apply Forall_forall. intros x _. by inversion 1. }
  destruct Hr as (r & Hr & Hp & Ho). exists r. split; [exact Hr|].
  apply sl_ordered_perm in Hp; [subst r|done|apply zip_ordered]. cbn [app].
  assert (Hlen' : length (seqZ start (Z.of_nat (length ids))) = length ids) by (rewrite length_seqZ; lia).
  split.
  - rewrite fmap_zip_with_r by (done || lia).
    unfold start. destruct (Nat.leb_spec (length ids) 1); [|done].
    destruct ids as [|? [|]]; [done..|cbn in *; lia].
  - by apply names_started.
Qed.

(** An automatic number may collide with a number the user chose for a later
    instance: the start fails although the configuration is consistent. *)
Lemma number_collision {A : Type} `{Address A} if_nametoindex set_mrt_flag c m a b :
  (forall used n, set_mrt_flag used n = true <-> n ∉ used) ->
  m_inst_def_set c = [a; b] -> m_user_selected_table_number a = false ->
  m_user_selected_table_number b = true -> m_table_number b = 1 ->
  exists s, start_proxy_instances (A := A) if_nametoindex (fun _ => true) set_mrt_flag
              (fun _ => None) c m = Err (Throw s).
Proof.
  intros Hk Hids Ha Hb Hn.
  pose proof (start_instances_spec (A := A) if_nametoindex (fun _ => true) set_mrt_flag (fun _ => None)
    (fun _ => true) (router_answers _ Hk) c m 2 [a; b] 0 [] [1; 1] ltac:(constructor)) as Hr.
  unfold start_proxy_instances. rewrite Hids. rewrite decide_False in Hr.
  - apply Hr. cbn. unfold next_table_number. by rewrite Ha, Hb, Hn.
  - intros (Hnd & _). apply NoDup_cons in Hnd as [Hnd _]. apply Hnd. by apply list_elem_of_here.
Qed.
