(* ===== verification/StartupTheorems.v ===== *)
(** * The order of the start-up messages

    All configuration messages have the same priority, and [std::priority_queue]
    leaves the order of equal elements open, so the messages that configure a
    new instance may be handled in any order. *)

From S2P Require Import Prelude Result Def TimersValues AddrStorage Filter InstanceDef Interfaces.
From S2P Require Import Configuration Timing MessageQueue Messages Sender MembershipDb Querier.
From S2P Require Import QuerierTheorems RoutingData ProxyRouting ProxyInstance Proxy ProxyTheorems.

Local Open Scope Z_scope.

Section Startup.
Context {A : Type} `{Address A} (clk : nat -> Z) (sock : nat -> action -> bool).
Context (snd : sender (A := A)) (vif : Z -> Z) (w : Z).

(** The subscriptions and the first query of a querier succeed. *)
Hypothesis record_sent : forall i g e, wp (send_record snd i EXCLUDE_MODE g []) (fun b _ => b = true) e.
Hypothesis query_sent : forall i tv e, wp (send_general_query snd i tv) (fun b _ => b = true) e.

Lemma wp_true {X} (m : M A bool) (k : bool -> M A X) (Q : X -> env A -> Prop) e :
  wp m (fun b _ => b = true) e -> (forall e', wp (k true) Q e') -> wp (m ≫= k) Q e.
Proof. intros Hm Hk. apply wp_bind. eapply wp_mono; [exact Hm|]. intros b e' ->. apply Hk. Qed.

Lemma wp_make_timer_any type i g sa d (Q : tid -> env A -> Prop) e :
  (forall t e', Q t e') -> wp (make_timer clk type i g sa d) Q e.
Proof. intros HQ. apply HQ. Qed.

Lemma new_querier_some i tv v e :
  wp (new_querier clk snd w i tv v) (fun r _ => is_Some r) e.
Proof.
  unfold new_querier, router_groups_function. apply wp_true.
  { destruct v; cbn [is_IPv4 is_IPv6]; repeat (apply wp_true; [apply record_sent|]; intros);
      apply record_sent || (apply wp_true; [|intros]; apply record_sent). }
  intros e1. cbn [negb]. apply wp_bind. unfold querier_send_general_query.
  match goal with |- context [if 0 <? ?c then (?x, ?y) else ?z] =>
    destruct (if 0 <? c then (x, y) else z) as [count t] end.
  apply wp_bind, wp_make_timer_any. intros gqt e2. apply wp_bind, wp_add_time_msg.
  intros e3 _ _ _. apply wp_true; [apply query_sent|]. intros e4. apply wp_ret. by apply wp_ret.
Qed.

Lemma register_any (b : bool) i (Q : unit -> env A -> Prop) e :
  (forall e', Q tt e') -> wp (if b then register_interface sock vif i else mret tt) Q e.
Proof.
  intros HQ. destruct b; [|by apply wp_ret]. do 2 (apply wp_bind, wp_call; intros ? ? _ _).
  by apply wp_ret.
Qed.

(** ** The effect of a set of messages *)

Definition upstream_of (cm : config_msg) : upstream_infos :=
  {| u_if_index := cm_if_index cm; u_interface := cm_interface cm;
     u_priority := cm_upstream_priority cm |}.

(** A setting that takes effect in a direction. *)
Definition sets (dir : rb_interface_direction) (rb : rule_binding) : bool :=
  bool_decide (m_rule_binding_type rb = RBT_RULE_MATCHING)
  && bool_decide (m_interface_type rb = IT_UPSTREAM)
  && bool_decide (m_filter_direction rb = dir).

Definition is_setting (dir : rb_interface_direction) (cm : config_msg) (rb : rule_binding) : Prop :=
  cm_instruction cm = SET_GLOBAL_RULE_BINDING /\ cm_rule_binding cm = Some rb /\ sets dir rb = true.

(** The rule of a direction after the messages [l]. *)
Definition rule_after (dir : rb_interface_direction) (l : list config_msg)
    (before after : option rule_binding) : Prop :=
  (forall cm rb, cm ∈ l -> is_setting dir cm rb -> after = Some rb)
  /\ ((forall cm rb, cm ∈ l -> ~ is_setting dir cm rb) -> after = before).

(** The messages [l] have been handled, in any order. *)
Record applied (p0 : proxy_state (A := A)) (l : list config_msg) (p : proxy_state (A := A)) : Prop := {
  ap_gmp : m_group_mem_protocol p = m_group_mem_protocol p0;
  ap_up_ordered : sl_ordered (m_upstreams p);
  ap_up u : u ∈ m_upstreams p <->
    exists cm, cm ∈ l /\ cm_instruction cm = ADD_UPSTREAM /\ u = upstream_of cm;
  ap_down_ordered : sl_ordered (m_downstreams p);
  ap_down i itf :
    (exists d, (i, d) ∈ m_downstreams p /\ d_interface d = itf) <->
    exists cm, cm ∈ l /\ cm_instruction cm = ADD_DOWNSTREAM /\ cm_if_index cm = i
               /\ cm_interface cm = itf;
  ap_in : rule_after ID_IN l (m_upstream_input_rule p0) (m_upstream_input_rule p);
  ap_out : rule_after ID_OUT l (m_upstream_output_rule p0) (m_upstream_output_rule p)
}.

(** The messages do not compete: interfaces and priorities are those of one
    message, and so is the rule of a direction. *)
Record compatible (l : list config_msg) : Prop := {
  co_instr cm : cm ∈ l -> cm_instruction cm = ADD_UPSTREAM \/ cm_instruction cm = ADD_DOWNSTREAM
                          \/ cm_instruction cm = SET_GLOBAL_RULE_BINDING;
  co_up cm cm' : cm ∈ l -> cm' ∈ l ->
    cm_instruction cm = ADD_UPSTREAM -> cm_instruction cm' = ADD_UPSTREAM ->
    cm_if_index cm = cm_if_index cm' \/ cm_upstream_priority cm = cm_upstream_priority cm' ->
    cm = cm';
  co_down cm cm' : cm ∈ l -> cm' ∈ l ->
    cm_instruction cm = ADD_DOWNSTREAM -> cm_instruction cm' = ADD_DOWNSTREAM ->
    cm_if_index cm = cm_if_index cm' -> cm = cm';
  co_rule dir cm cm' rb rb' : cm ∈ l -> cm' ∈ l ->
    is_setting dir cm rb -> is_setting dir cm' rb' -> rb = rb'
}.

Lemma exists_snoc (P : config_msg -> Prop) l cm :
  (exists x, x ∈ l ++ [cm] /\ P x) <-> P cm \/ exists x, x ∈ l /\ P x.
Proof. setoid_rewrite elem_of_app. setoid_rewrite list_elem_of_singleton. naive_solver. Qed.

Lemma exists_skip (P : config_msg -> Prop) l cm :
  ~ P cm -> (exists x, x ∈ l ++ [cm] /\ P x) <-> exists x, x ∈ l /\ P x.
Proof. intros Hn. rewrite exists_snoc. tauto. Qed.

Lemma applied_same p0 l l' p : (forall cm, cm ∈ l <-> cm ∈ l') -> applied p0 l p -> applied p0 l' p.
Proof.
  intros Hl [Hg Huo Hu Hdo Hd [Hi1 Hi2] [Ho1 Ho2]].
  split; [done|done| |done| | |]; [| |split; naive_solver..]; intros; rewrite ?Hu, ?Hd;
    by setoid_rewrite Hl.
Qed.

Lemma rule_after_skip dir l cm b a :
  (forall rb, ~ is_setting dir cm rb) -> rule_after dir l b a -> rule_after dir (l ++ [cm]) b a.
Proof.
  intros Hcm [H1 H2]. split.
  - intros cm' rb [Hl| ->%list_elem_of_singleton]%elem_of_app Hs; [eauto|by apply Hcm in Hs].
  - intros Hno. apply H2. intros cm' rb Hl. apply Hno, elem_of_app. by left.
Qed.

(** A message for an interface leaves the rules alone. *)
Lemma rule_after_other dir l cm b a :
  cm_instruction cm <> SET_GLOBAL_RULE_BINDING -> rule_after dir l b a -> rule_after dir (l ++ [cm]) b a.
Proof. intros Hcm. apply rule_after_skip. by intros rb [? _]. Qed.

Lemma rule_after_set dir l cm rb b a :
  compatible (l ++ [cm]) -> is_setting dir cm rb -> rule_after dir l b a ->
  rule_after dir (l ++ [cm]) b (Some rb).
Proof.
  intros Hc Hs _. assert (Hin : cm ∈ l ++ [cm]) by set_solver. split.
  - intros cm' rb' Hl Hs'. f_equal. by eapply (co_rule _ Hc dir cm cm').
  - intros Hno. by destruct (Hno cm rb).
Qed.

Lemma is_upstream_spec p i : is_upstream p i = true <-> exists u, u ∈ m_upstreams p /\ u_if_index u = i.
Proof.
  unfold is_upstream. rewrite existsb_exists. setoid_rewrite list_elem_of_In. setoid_rewrite Z.eqb_eq. done.
Qed.

Lemma handle_upstream p0 l p cm e :
  cm_instruction cm = ADD_UPSTREAM -> compatible (l ++ [cm]) -> applied p0 l p ->
  wp (handle_config clk sock snd vif w cm p) (fun p' _ => applied p0 (l ++ [cm]) p') e.
Proof.
  intros Hcm Hc Hp. pose proof Hp as [Hg Huo Hu Hdo Hd Hi Ho].
  assert (Hin : cm ∈ l ++ [cm]) by set_solver.
  unfold handle_config. rewrite Hcm. destruct (is_upstream p (cm_if_index cm)) eqn:Hup; cbn [negb].
  - apply wp_ret. apply is_upstream_spec in Hup as (u & Hul & Hui).
    apply Hu in Hul as (cm' & Hl' & Hcm' & ->). eapply applied_same; [|exact Hp].
    assert (cm' = cm) as ->; [|set_solver].
    apply (co_up _ Hc); [set_solver|done|done|done|by left].
  - apply wp_bind, register_any. intros e1. apply wp_ret.
    assert (Hfresh : sl_find (cm_upstream_priority cm) (m_upstreams p) = None).
    { apply sl_find_None. rewrite elem_of_sl_keys_In. intros (u & Hul & Hk).
      pose proof Hul as (cm' & Hl' & Hcm' & ->)%Hu.
      assert (cm' = cm) as -> by (apply (co_up _ Hc); [set_solver|done|done|done|by right]).
      rewrite (proj2 (is_upstream_spec p (cm_if_index cm))) in Hup; [done|]. by eexists. }
    split; cbn; try done; try (apply rule_after_other; [by rewrite Hcm|done]).
    + by apply sl_insert_ordered.
    + intros u. rewrite (sl_insert_new (upstream_of cm) _ u Hfresh), Hu, exists_snoc. tauto.
    + intros i itf. rewrite Hd, exists_skip; [done|]. intros [? _]. congruence.
Qed.

Lemma handle_downstream p0 l p cm e :
  cm_instruction cm = ADD_DOWNSTREAM -> compatible (l ++ [cm]) -> applied p0 l p ->
  wp (handle_config clk sock snd vif w cm p) (fun p' _ => applied p0 (l ++ [cm]) p') e.
Proof.
  intros Hcm Hc Hp. pose proof Hp as [Hg Huo Hu Hdo Hd Hi Ho].
  unfold handle_config. rewrite Hcm. destruct (sl_find _ _) as [[i d]|] eqn:Hf.
  - apply wp_ret. pose proof (sl_find_Some_key _ _ _ Hf) as Hk. change (i = cm_if_index cm) in Hk.
    apply sl_find_In in Hf. eapply applied_same; [|exact Hp].
    destruct (proj1 (Hd i (d_interface d))) as (cm' & Hl' & Hcm' & Hk' & _); [by eexists|].
    assert (cm' = cm) as -> by (apply (co_down _ Hc); [set_solver|set_solver|done|done|congruence]).
    set_solver.
  - apply wp_bind, register_any. intros e1. apply wp_bind.
    eapply wp_mono; [apply new_querier_some|]. intros q e2 [db ->]. apply wp_bind, wp_deref, wp_ret.
    split; cbn; try done; try (apply rule_after_other; [by rewrite Hcm|done]).
    + intros u. rewrite Hu, exists_skip; [done|]. intros [? _]. congruence.
    + by apply sl_insert_ordered.
    + intros i itf. rewrite exists_snoc, <- Hd. split.
      * intros (d & [[= -> ->]|Hin]%sl_insert_new & Hitf); [by left|right; by exists d|exact Hf].
      * intros [(_ & <- & Hitf)|(d & Hin & Hitf)].
        -- eexists. split; [by apply sl_insert_new; [exact Hf|left]|done].
        -- exists d. split; [by apply sl_insert_new; [exact Hf|right]|done].
Qed.

Lemma handle_setting p0 l p cm e :
  cm_instruction cm = SET_GLOBAL_RULE_BINDING -> compatible (l ++ [cm]) -> applied p0 l p ->
  wp (handle_config clk sock snd vif w cm p) (fun p' _ => applied p0 (l ++ [cm]) p') e.
Proof.
  intros Hcm Hc Hp. pose proof Hp as [Hg Huo Hu Hdo Hd Hi Ho].
  assert (Hifs : forall p', m_upstreams p' = m_upstreams p -> m_downstreams p' = m_downstreams p ->
    m_group_mem_protocol p' = m_group_mem_protocol p ->
    rule_after ID_IN (l ++ [cm]) (m_upstream_input_rule p0) (m_upstream_input_rule p') ->
    rule_after ID_OUT (l ++ [cm]) (m_upstream_output_rule p0) (m_upstream_output_rule p') ->
    applied p0 (l ++ [cm]) p').
  { intros p' Eu Ed Eg Ri Ro. split; rewrite ?Eu, ?Ed, ?Eg; try done.
    - intros u. rewrite Hu, exists_skip; [done|]. intros [? _]. congruence.
    - intros i itf. rewrite Hd, exists_skip; [done|]. intros [? _]. congruence. }
  unfold handle_config. rewrite Hcm.
  assert (Hset : forall dir rb, cm_rule_binding cm = Some rb -> sets dir rb = true -> is_setting dir cm rb)
    by done.
  assert (Hskip : forall dir rb b a, cm_rule_binding cm = Some rb -> sets dir rb = false ->
    rule_after dir l b a -> rule_after dir (l ++ [cm]) b a).
  { intros dir rb b a Hrb Hs. apply rule_after_skip. intros rb' (_ & ? & ?). congruence. }
  destruct (cm_rule_binding cm) as [rb|] eqn:Hrb.
  2: { apply wp_ret, Hifs; try done; apply rule_after_skip; try done; intros rb (_ & ? & _); congruence. }
  destruct (_ && _) eqn:Hs.
  2: { apply wp_ret, Hifs; try done; eapply Hskip; try done; unfold sets; by rewrite Hs. }
  destruct (m_filter_direction rb) eqn:Hdir; apply wp_ret, Hifs; try done; cbn;
    first [eapply Hskip; [done|unfold sets; by rewrite Hs, Hdir|done]
          |eapply rule_after_set; [done| |done]; apply Hset; [done|]; unfold sets; by rewrite Hs, Hdir].
Qed.

Lemma handle_all p0 msgs l p e :
  compatible (l ++ msgs) -> applied p0 l p ->
  wp (foldM (fun p cm => handle_config clk sock snd vif w cm p) p msgs)
     (fun p' _ => applied p0 (l ++ msgs) p') e.
Proof.
  revert l p e. induction msgs as [|cm msgs IH]; intros l p e Hc Hp; cbn [foldM].
  { apply wp_ret. by rewrite app_nil_r. }
  change (cm :: msgs) with ([cm] ++ msgs) in Hc |- *. rewrite app_assoc in Hc |- *.
  assert (Hc1 : compatible (l ++ [cm])).
  { destruct Hc as [C1 C2 C3 C4]. split; intros; [apply C1|apply C2|apply C3|eapply C4]; set_solver. }
  apply wp_bind, (wp_mono _ (fun p' _ => applied p0 (l ++ [cm]) p')); [|intros p' e'; by apply IH].
  destruct (co_instr _ Hc1 cm) as [Hi|[Hi|Hi]]; [set_solver|by apply handle_upstream
    |by apply handle_downstream|by apply handle_setting].
Qed.

(** ** The messages of a definition *)

Context (if_nametoindex : string -> Z).

Definition index (i : interface) : Z := if_nametoindex (if_name i).

(** Each interface is listed once as upstream and once as downstream, and each
    rule is set once. *)
Record startup_ok (id : instance_definition) : Prop := {
  so_up : NoDup (index <$> id_upstreams id);
  so_down : NoDup (index <$> id_downstreams id);
  so_few : Z.of_nat (length (id_upstreams id)) * 100 <= 2 ^ 32;
  so_rules dir r r' : r ∈ m_global_settings id -> r' ∈ m_global_settings id ->
    sets dir r = true -> sets dir r' = true -> r = r'
}.

Lemma elem_of_startup id cm :
  cm ∈ startup_msgs if_nametoindex id <->
  (exists r, r ∈ m_global_settings id /\ cm = setting_msg r)
  \/ (exists k u, id_upstreams id !! k = Some u /\ cm = upstream_msg if_nametoindex k u)
  \/ (exists d, d ∈ id_downstreams id /\ cm = downstream_msg if_nametoindex d).
Proof.
  unfold startup_msgs. rewrite !elem_of_app.
  change (map setting_msg) with (fmap (M := list) setting_msg).
  change (map (downstream_msg if_nametoindex)) with (fmap (M := list) (downstream_msg if_nametoindex)).
  rewrite !list_elem_of_fmap, elem_of_lookup_imap. naive_solver.
Qed.

Lemma priority_small id k u :
  startup_ok id -> id_upstreams id !! k = Some u -> to_uint32 (Z.of_nat k * 100) = Z.of_nat k * 100.
Proof.
  intros Hok Hk. apply lookup_lt_Some in Hk. pose proof (so_few _ Hok).
  apply Z.mod_small. lia.
Qed.

Lemma startup_up id cm :
  cm ∈ startup_msgs if_nametoindex id /\ cm_instruction cm = ADD_UPSTREAM <->
  exists k u, id_upstreams id !! k = Some u /\ cm = upstream_msg if_nametoindex k u.
Proof.
  rewrite elem_of_startup. split.
  - by intros [[(r & _ & ->)|[Hu|(d & _ & ->)]] Hi].
  - intros (k & u & Hk & ->). split; [right; left; by exists k, u|done].
Qed.

Lemma startup_down id cm :
  cm ∈ startup_msgs if_nametoindex id /\ cm_instruction cm = ADD_DOWNSTREAM <->
  exists d, d ∈ id_downstreams id /\ cm = downstream_msg if_nametoindex d.
Proof.
  rewrite elem_of_startup. split.
  - by intros [[(r & _ & ->)|[(k & u & _ & ->)|Hd]] Hi].
  - intros (d & Hd & ->). split; [right; right; by exists d|done].
Qed.

Lemma startup_setting id dir cm rb :
  cm ∈ startup_msgs if_nametoindex id /\ is_setting dir cm rb <->
  rb ∈ m_global_settings id /\ sets dir rb = true /\ cm = setting_msg rb.
Proof.
  rewrite elem_of_startup. split.
  - by intros [[(r & Hr & ->)|[(k & u & _ & ->)|(d & _ & ->)]] (Hi & [= <-] & Hs)].
  - intros (Hr & Hs & ->). split; [left; by exists rb|done].
Qed.

Lemma NoDup_index l (x y : interface) : NoDup (index <$> l) -> x ∈ l -> y ∈ l -> index x = index y -> x = y.
Proof.
  intros Hnd (i & Hi)%list_elem_of_lookup (j & Hj)%list_elem_of_lookup Hxy.
  assert (i = j) as ->; [|congruence].
  eapply NoDup_lookup; [exact Hnd|by rewrite list_lookup_fmap, Hi|].
  by rewrite list_lookup_fmap, Hj, Hxy.
Qed.

Lemma startup_compatible id : startup_ok id -> compatible (startup_msgs if_nametoindex id).
Proof.
  intros Hok. split.
  - intros cm [(r & _ & ->)|[(k & u & _ & ->)|(d & _ & ->)]]%elem_of_startup; auto.
  - intros cm cm' Hc Hc' Hi Hi' Heq.
    destruct (proj1 (startup_up id cm) (conj Hc Hi)) as (k & u & Hk & ->).
    destruct (proj1 (startup_up id cm') (conj Hc' Hi')) as (k' & u' & Hk' & ->).
    cbn [upstream_msg cm_if_index cm_upstream_priority] in Heq.
    rewrite (priority_small id k u), (priority_small id k' u') in Heq by done.
    assert (k = k') as <-; [|congruence]. destruct Heq as [Heq|Heq]; [|lia].
    eapply NoDup_lookup; [apply (so_up _ Hok)|by rewrite list_lookup_fmap, Hk|].
    rewrite list_lookup_fmap, Hk'. cbn. unfold index. by rewrite Heq.
  - intros cm cm' Hc Hc' Hi Hi' Heq.
    destruct (proj1 (startup_down id cm) (conj Hc Hi)) as (d & Hd & ->).
    destruct (proj1 (startup_down id cm') (conj Hc' Hi')) as (d' & Hd' & ->).
    by rewrite (NoDup_index _ d d' (so_down _ Hok) Hd Hd' Heq).
  - intros dir cm cm' rb rb' Hc Hc' Hs Hs'.
    destruct (proj1 (startup_setting id dir cm rb) (conj Hc Hs)) as (Hr & Hrs & _).
    destruct (proj1 (startup_setting id dir cm' rb') (conj Hc' Hs')) as (Hr' & Hrs' & _).
    by apply (so_rules _ Hok dir).
Qed.

Lemma compatible_perm l l' : l ≡ₚ l' -> compatible l -> compatible l'.
Proof.
  intros Hp [C1 C2 C3 C4].
  split; [intros cm|intros cm cm'|intros cm cm'|intros dir cm cm' rb rb']; rewrite <- !Hp; eauto.
Qed.

(** The configured state: upstream interfaces in the order of the definition,
    and for a rule the setting of the user or the default. *)
Definition configured_upstreams (id : instance_definition) : list upstream_infos :=
  imap (fun k u => {| u_if_index := index u; u_interface := Some u; u_priority := Z.of_nat k * 100 |})
    (id_upstreams id).

Definition configured_rule (dir : rb_interface_direction) (default : option rule_binding)
    (id : instance_definition) : option rule_binding :=
  match List.find (sets dir) (m_global_settings id) with
  | Some rb => Some rb
  | None => default
  end.

Lemma configured_upstreams_ordered id : sl_ordered (configured_upstreams id).
Proof.
  unfold configured_upstreams.
  assert (Hg : forall n l, sl_ordered (imap (fun k u => {| u_if_index := index u; u_interface := Some u;
    u_priority := Z.of_nat (n + k) * 100 |}) l)).
  { intros n l. revert n. induction l as [|u l IH]; intros n; [constructor|]. rewrite imap_cons.
    constructor.
    - erewrite imap_ext; [apply (IH (S n))|]. intros k x _. cbn. by rewrite Nat.add_succ_r.
    - apply Forall_forall. intros x (k & y & -> & _)%elem_of_lookup_imap_1.
      apply Z.ltb_lt. cbn -[Z.of_nat Z.mul]. lia. }
  apply (Hg O).
Qed.

Lemma applied_upstreams p0 id p :
  startup_ok id -> applied p0 (startup_msgs if_nametoindex id) p -> m_upstreams p = configured_upstreams id.
Proof.
  intros Hok Hp. apply sl_ordered_ext; [apply Hp|apply configured_upstreams_ordered|].
  intros u. rewrite (ap_up _ _ _ Hp). unfold configured_upstreams. rewrite elem_of_lookup_imap. split.
  - intros (cm & Hc & Hi & ->). destruct (proj1 (startup_up id cm) (conj Hc Hi)) as (k & x & Hk & ->).
    exists k, x. split; [|done]. unfold upstream_of. cbn. by rewrite (priority_small id k x).
  - intros (k & x & -> & Hk). exists (upstream_msg if_nametoindex k x).
    destruct (proj2 (startup_up id (upstream_msg if_nametoindex k x))) as [Hc Hi]; [by exists k, x|].
    split_and!; [done|done|]. unfold upstream_of. cbn. by rewrite (priority_small id k x).
Qed.

Lemma applied_downstreams p0 id p :
  startup_ok id -> applied p0 (startup_msgs if_nametoindex id) p ->
  (fun d => (d.1, d_interface d.2)) <$> m_downstreams p ≡ₚ (fun d => (index d, Some d)) <$> id_downstreams id.
Proof.
  intros Hok Hp. apply NoDup_Permutation.
  - apply (NoDup_fmap_1 fst). rewrite <- list_fmap_compose.
    assert (Hd : sl_ordered (m_downstreams p)) by apply Hp. clear -Hd.
    induction Hd as [|x l Hl IH Hx]; [constructor|]. rewrite fmap_cons. constructor; [|done].
    rewrite list_elem_of_fmap. intros (y & Hy & Hin). rewrite Forall_forall in Hx.
    specialize (Hx y Hin). apply key_ltb_ne in Hx. by apply Hx.
  - apply (NoDup_fmap_1 fst). rewrite <- list_fmap_compose. apply Hok.
  - intros [i itf]. rewrite !list_elem_of_fmap. transitivity (exists d, (i, d) ∈ m_downstreams p /\ d_interface d = itf).
    { split; [intros ([j d] & [= -> ->] & Hd); by exists d|intros (d & Hd & <-); by exists (i, d)]. }
    rewrite (ap_down _ _ _ Hp). split.
    + intros (cm & Hc & Hi & <- & <-). destruct (proj1 (startup_down id cm) (conj Hc Hi)) as (d & Hd & ->).
      by exists d.
    + intros (d & [= -> ->] & Hd). exists (downstream_msg if_nametoindex d).
      destruct (proj2 (startup_down id (downstream_msg if_nametoindex d))) as [Hc Hi]; [by exists d|done].
Qed.

Lemma applied_rule dir id b a :
  rule_after dir (startup_msgs if_nametoindex id) b a -> a = configured_rule dir b id.
Proof.
  intros [H1 H2]. unfold configured_rule. destruct (List.find _ _) as [rb|] eqn:Hf.
  - apply find_some in Hf as [Hin Hs]. apply list_elem_of_In in Hin.
    destruct (proj2 (startup_setting id dir (setting_msg rb) rb)) as [Hc Hset]; [done|by eapply H1].
  - apply H2. intros cm rb Hc Hset.
    destruct (proj1 (startup_setting id dir cm rb) (conj Hc Hset)) as (Hr & Hs & _).
    apply list_elem_of_In in Hr. by rewrite (find_none _ _ Hf rb Hr) in Hs.
Qed.

(** C14: If a definition lists no interface twice in the same role and sets the rule
    of each direction at most once, and if the subscriptions and first queries of
    the queriers succeed, a new instance reaches the configured state in whatever
    order its queue delivers the messages of the definition: the upstream
    interfaces in the order of the definition, a querier for every downstream
    interface, and the rules the user set. (Without the condition the outcome
    depends on the order: [setting_order_matters].) *)
Theorem startup_any_order gmp name id msgs e :
  startup_ok id -> msgs ≡ₚ startup_msgs if_nametoindex id ->
  let p0 := new_proxy_state gmp name in
  wp (foldM (fun p cm => handle_config clk sock snd vif w cm p) p0 msgs)
     (fun p _ => m_upstreams p = configured_upstreams id
        /\ (fun d => (d.1, d_interface d.2)) <$> m_downstreams p
             ≡ₚ (fun d => (index d, Some d)) <$> id_downstreams id
        /\ m_upstream_input_rule p = configured_rule ID_IN (m_upstream_input_rule p0) id
        /\ m_upstream_output_rule p = configured_rule ID_OUT (m_upstream_output_rule p0) id) e.
Proof.
  intros Hok Hp p0. eapply wp_mono.
  - apply (handle_all p0 msgs [] p0); [by eapply compatible_perm, startup_compatible|].
    split; cbn; try done; try constructor; try (intros; set_solver); done.
  - intros p e' Hall. apply (applied_same _ _ (startup_msgs if_nametoindex id)) in Hall;
      [|intros cm; cbn; by rewrite Hp].
    split_and!; [by eapply applied_upstreams|by eapply applied_downstreams
      |apply applied_rule, Hall|apply applied_rule, Hall].
Qed.
End Startup.

(** ** The end of an instance *)

Section Shutdown.
Context {A : Type} `{Address A} (clk : nat -> Z) (sock : nat -> action -> bool)
  (stats : nat -> A -> A -> option Z).
Context (snd : sender (A := A)) (gts : gmap string table) (get_if_name : Z -> string)
  (vif : Z -> Z) (w : Z).
Context {Q : Type} `{PriorityQueue (proxy_msg A) msg_prio Q}.

Definition is_user_input (m : proxy_msg A) : bool :=
  match get_priority m with USER_INPUT => true | _ => false end.

Definition user_inputs (mq : message_queue (Q := Q)) : list (proxy_msg A) :=
  List.filter is_user_input (mq_elems msg_prio mq).

Lemma prio_user_input m : msg_prio m <= 1 -> is_user_input m = true.
Proof.
  unfold msg_prio, is_user_input. intros Hm. by destruct (get_priority m).
Qed.

Lemma user_inputs_perm l l' :
  l ≡ₚ l' -> List.filter is_user_input l ≡ₚ List.filter is_user_input l'.
Proof. induction 1; cbn; repeat case_match; eauto using Permutation. Qed.

(** User input is never dropped; messages of other priorities do not touch it. *)
Lemma user_inputs_add added mq :
  user_inputs (fold_left (fun mq m => add_msg msg_prio m mq) added mq)
  ≡ₚ List.filter is_user_input added ++ user_inputs mq.
Proof.
  revert mq. induction added as [|m added IH]; intros mq; cbn [fold_left List.filter]; [done|].
  rewrite IH. unfold user_inputs, add_msg, enqueue_loseable, enqueue, mq_elems.
  destruct (msg_prio m =? LOSEABLE_PRIO) eqn:Hl.
  - assert (Hm : is_user_input m = false) by (unfold is_user_input; unfold msg_prio in Hl; by destruct (get_priority m)).
    case_if; cbn [Datatypes.snd m_q]; [|by rewrite Hm].
    rewrite (user_inputs_perm _ _ (pq_elems_push m (m_q mq))). cbn. by rewrite Hm.
  - cbn [m_q]. rewrite (user_inputs_perm _ _ (pq_elems_push m (m_q mq))). cbn.
    destruct (is_user_input m); [|done]. symmetry. apply Permutation_middle.
Qed.

(** The user input of an instance is for the printing of its state or its end. *)
Lemma handle_user_input held m p e :
  is_user_input m = true -> m <> exit_cmd ->
  handle_message clk sock stats snd gts get_if_name vif w held m p e = Some ((true, p), e).
Proof. by destruct m. Qed.

(** The user input that arrives in the rounds. *)
Definition arriving (rounds : list (bool * list (proxy_msg A))) : list (proxy_msg A) :=
  List.filter is_user_input (flat_map Datatypes.snd rounds).

(** C16: The exit command ends an instance: once it is in the queue the worker
    stops after at most as many rounds as there is user input in the queue and
    among what arrives, whatever other messages, reports, data and timers, arrive
    meanwhile, and it handles nothing but user input on the way, which changes
    neither the state nor the environment. *)
Theorem exit_ends_worker rounds mq p e :
  exit_cmd ∈ mq_elems msg_prio mq ->
  (length (user_inputs mq) + length (arriving rounds) <= length rounds)%nat ->
  exists mq', worker_thread clk sock stats snd gts get_if_name vif w rounds mq p e
              = Some ((false, mq', p), e).
Proof.
  revert mq. induction rounds as [|[held added] rounds IH]; intros mq Hexit Hlen.
  { apply list_elem_of_In in Hexit.
    assert (Hi : In exit_cmd (user_inputs mq)) by (by apply filter_In).
    destruct (user_inputs mq); [done|cbn in Hlen; lia]. }
  cbn [worker_thread]. unfold arriving in Hlen. cbn [flat_map Datatypes.snd] in Hlen.
  rewrite List.filter_app, length_app in Hlen. pose proof (user_inputs_add added mq) as Hu.
  set (mq1 := fold_left _ _ _) in *.
  assert (Hexit1 : In exit_cmd (user_inputs mq1)).
  { eapply Permutation_in; [symmetry; exact Hu|]. apply in_or_app. right.
    apply filter_In. by split; [apply list_elem_of_In|]. }
  assert (Hin1 : In exit_cmd (mq_elems msg_prio mq1)) by (by apply filter_In in Hexit1 as [? _]).
  destruct (dequeue msg_prio mq1) as [[m mq2]|] eqn:Hd.
  2: { unfold dequeue in Hd. destruct (pq_pop (m_q mq1)) as [[? ?]|] eqn:Hpop; [done|].
       apply pq_pop_empty in Hpop. unfold mq_elems in Hin1. by rewrite Hpop in Hin1. }
  apply dequeue_Some in Hd as (Hp & Hmin & _).
  assert (Hm : is_user_input m = true).
  { apply prio_user_input. rewrite Forall_forall in Hmin. by apply (Hmin exit_cmd), list_elem_of_In. }
  assert (Hu2 : m :: user_inputs mq2 ≡ₚ List.filter is_user_input added ++ user_inputs mq).
  { rewrite <- Hu. unfold user_inputs at 2. rewrite (user_inputs_perm _ _ Hp). cbn. by rewrite Hm. }
  assert (Hmx : m = exit_cmd \/ m <> exit_cmd) by (destruct m; auto; by right).
  destruct Hmx as [->|Hne]; [by eexists|].
  unfold mbind, M_bind. rewrite handle_user_input by done. cbn [fst Datatypes.snd]. apply IH; [|cbn in Hlen].
  - rewrite Hp in Hin1. destruct Hin1 as [Hx|Hx]; [by destruct Hne|]. by apply list_elem_of_In.
  - apply Permutation_length in Hu2. rewrite length_app in Hu2. cbn in Hu2. unfold arriving. lia.
Qed.
End Shutdown.

(** ** Examples *)

(** Two settings for the same direction, or an interface that is listed twice as
    upstream, make the outcome depend on the order of the queue. *)
Lemma setting_order_matters {A : Type} `{Address A} clk sock (snd : sender (A := A)) vif w r1 r2 p e :
  sets ID_IN r1 = true -> sets ID_IN r2 = true ->
  wp (foldM (fun p cm => handle_config clk sock snd vif w cm p) p [setting_msg r1; setting_msg r2])
     (fun p' _ => m_upstream_input_rule p' = Some r2) e
  /\ wp (foldM (fun p cm => handle_config clk sock snd vif w cm p) p [setting_msg r2; setting_msg r1])
     (fun p' _ => m_upstream_input_rule p' = Some r1) e.
Proof.
  assert (Hs : forall r (p : proxy_state (A := A)) e, sets ID_IN r = true ->
    handle_config clk sock snd vif w (setting_msg r) p e
    = Some (set_rules (Some r) (m_upstream_output_rule p) p, e)).
  { intros r q e0 [Hr Hd%bool_decide_eq_true]%andb_true_iff. unfold handle_config. cbn.
    by rewrite Hr, Hd. }
  intros H1 H2. unfold wp, foldM, mbind, M_bind. by split; rewrite !Hs.
Qed.

Definition ex_instance (name up : string) : instance_definition :=
  new_instance_definition name [new_interface up] [new_interface "eth1"] 0 false.

Definition ex_config : configuration :=
  {| m_gmp := IGMPv3; m_global_table_set := ∅;
     m_inst_def_set := [ex_instance "a" "eth0"; ex_instance "b" "eth2"] |}.

Definition ex_indexes (name : string) : Z :=
  if String.eqb name "eth0" then 2 else if String.eqb name "eth1" then 3 else 4.

(** A kernel with one multicast router for each table. *)
Definition ex_router (used : list Z) (n : Z) : bool := bool_decide (n ∉ used).

Lemma ex_router_spec used n : ex_router used n = true <-> n ∉ used.
Proof. apply bool_decide_eq_true. Qed.

Lemma ex_known : all_known ex_indexes (m_inst_def_set ex_config).
Proof. by repeat (apply Forall_cons_2 || apply Forall_nil_2 || split). Qed.

Lemma start_proxy_instances_spec_witness :
  exists r, start_proxy_instances (A := ipv4) ex_indexes (fun _ => true) ex_router (fun _ => None)
              ex_config ∅ = Ok r
    /\ r ≡ₚ zip_with (started ex_indexes ex_config ∅) (m_inst_def_set ex_config) [1; 2]
    /\ sl_ordered r.
Proof.
  pose proof (start_proxy_instances_spec (A := ipv4) ex_indexes (fun _ => true) ex_router (fun _ => None)
    (fun _ => true) (router_answers _ ex_router_spec) ex_config ∅) as Hs.
  change (table_numbers _ 0 _) with (Ok [1; 2]) in Hs. cbn beta iota zeta in Hs.
  rewrite decide_True in Hs; [exact Hs|]. split_and!; [|by repeat constructor|exact ex_known].
  apply (automatic_numbers_distinct 1 2). lia.
Defined.

Lemma automatic_start_witness :
  exists r, start_proxy_instances (A := ipv4) ex_indexes (fun _ => true) ex_router (fun _ => None)
              ex_config ∅ = Ok r
    /\ r.*1 = [1; 2] /\ (fun e => pi_instance_name e.2) <$> r = ["a"; "b"].
Proof.
  apply (automatic_start (A := ipv4) ex_indexes ex_router ex_config ∅ ex_router_spec);
    [repeat constructor|done|exact ex_known].
Defined.

Lemma ex_record_sent i g e : wp (send_record ex_sender i EXCLUDE_MODE g []) (fun b _ => b = true) e.
Proof. done. Qed.

Lemma ex_query_sent i tv e : wp (send_general_query ex_sender i tv) (fun b _ => b = true) e.
Proof. done. Qed.

Lemma ex_startup_ok : startup_ok ex_indexes (ex_instance "a" "eth0").
Proof.
  split; [apply NoDup_singleton|apply NoDup_singleton|done|].
  intros dir r r' Hr. by inversion Hr.
Qed.

Lemma startup_any_order_witness :
  let id := ex_instance "a" "eth0" in
  wp (foldM (fun p cm => handle_config ex_clk ex_sock ex_sender (fun i => i) 0 cm p)
        (new_proxy_state IGMPv3 "a") (reverse (startup_msgs ex_indexes id)))
     (fun p _ => m_upstreams p = configured_upstreams ex_indexes id
        /\ (fun d => (d.1, d_interface d.2)) <$> m_downstreams p
             ≡ₚ [(3, Some (new_interface "eth1"))]
        /\ m_upstream_input_rule p = m_upstream_input_rule (new_proxy_state (A := ipv4) IGMPv3 "a")
        /\ m_upstream_output_rule p = m_upstream_output_rule (new_proxy_state (A := ipv4) IGMPv3 "a"))
     empty_env.
Proof.
  apply (startup_any_order ex_clk ex_sock ex_sender (fun i => i) 0 ex_record_sent ex_query_sent
    ex_indexes IGMPv3 "a" (ex_instance "a" "eth0") (reverse (startup_msgs ex_indexes (ex_instance "a" "eth0")))
    empty_env ex_startup_ok). apply reverse_Permutation.
Defined.

Definition ex_queue : message_queue (Q := list_queue (msg_prio (A := ipv4))) :=
  add_msg msg_prio exit_cmd (add_msg msg_prio debug_msg (new_message_queue msg_prio 10)).

Lemma exit_ends_worker_witness :
  exists mq', worker_thread ex_clk ex_sock (fun _ _ _ => None) ex_sender ∅ (fun _ => "eth") (fun i => i) 0
    [(false, [a_timer_msg 0%nat; debug_msg]); (false, []); (false, [])] ex_queue (new_proxy_state IGMPv3 "a") empty_env
    = Some ((false, mq', new_proxy_state IGMPv3 "a"), empty_env).
Proof.
  apply (exit_ends_worker ex_clk ex_sock (fun _ _ _ => None) ex_sender ∅ (fun _ => "eth") (fun i => i) 0
    [(false, [a_timer_msg 0%nat; debug_msg]); (false, []); (false, [])] ex_queue (new_proxy_state IGMPv3 "a") empty_env).
  - apply list_elem_of_In. right. by left.
  - apply le_n.
Defined.
