(* ===== verification/InstanceTheorems.v ===== *)
(** * Theorems on the proxy instance

    The invariant of an instance is kept by every message, whatever their order;
    the handlers of reports, timers and sources always return. *)

From S2P Require Import Prelude Def TimersValues AddrStorage Filter Timing Messages Sender.
From S2P Require Import MembershipDb Querier QuerierSpec QuerierHelpers QuerierReports.
From S2P Require Import QuerierTimers QuerierTheorems RoutingData ProxyRouting RoutingTheorems.
From S2P Require Import ProxyInstance Interfaces Receiver.

Local Open Scope Z_scope.

Section Instance.
Context {A : Type} `{Address A} (clk : nat -> Z) (sock : nat -> action -> bool)
  (stats : nat -> A -> A -> option Z).
Context (snd : sender (A := A)) `{!SenderLaws snd} (gts : gmap string table)
  (get_if_name : Z -> string) (vif : Z -> Z) (w : Z).
Hypothesis gts_ok : gts_built gts.
Implicit Types (p : proxy_state (A := A)) (gaddr : A) (e : env A).

(** The invariant: both interface tables are ordered by their keys, no
    interface is missing, every querier's database is well formed, and the table
    of sources is consistent. *)
Record proxy_wf e p : Prop := {
  pw_env : env_wf e;
  pw_up : sl_ordered (m_upstreams p);
  pw_down : sl_ordered (m_downstreams p);
  pw_dbs : Forall (fun d => db_wf e (d_db d.2)) (m_downstreams p);
  pw_ifs : interfaces_set p;
  pw_data : srd_wf (m_data p)
}.

Lemma db_wf_ext e e' (db : membership_db A) :
  env_ext e e' -> db_wf e db -> db_wf e' db.
Proof.
  intros Hext [Hwf Hgs Hq]. split; [by eapply ext_wf| |eauto with menv].
  intros k g Hg. eapply ginfo_wf_ext, Hgs; eauto.
Qed.

Lemma dbs_ext e e' (ds : list (Z * downstream_infos (A := A))) :
  env_ext e e' -> Forall (fun d => db_wf e (d_db d.2)) ds ->
  Forall (fun d => db_wf e' (d_db d.2)) ds.
Proof. intros Hext Hd. eapply Forall_impl; [exact Hd|]. intros d. by apply db_wf_ext. Qed.

Lemma proxy_wf_ext e e' p : env_ext e e' -> proxy_wf e p -> proxy_wf e' p.
Proof.
  intros Hext []. split; auto; [by eapply ext_wf|by eapply dbs_ext].
Qed.

Lemma update_ordered (i : Z) (f : Z * downstream_infos (A := A) -> Z * downstream_infos) ds :
  (forall d, (f d).1 = d.1) -> sl_ordered ds -> sl_ordered (sl_update i f ds).
Proof.
  intros Hf. induction 1 as [|d ds Hds IH Hd]; [constructor|].
  assert (Hk : forall d : Z * downstream_infos (A := A),
    key (if bool_decide (key d = i) then f d else d) = key d).
  { intros x. case_bool_decide; [|done]. apply Hf. }
  constructor; [exact IH|]. apply Forall_fmap. eapply Forall_impl; [exact Hd|].
  intros x Hx. unfold compose. by rewrite !Hk.
Qed.

Lemma set_downstream_ifs i db p : interfaces_set p -> interfaces_set (set_downstream_db i db p).
Proof.
  intros [Hu Hd]. split; [done|]. simpl. apply Forall_fmap. eapply Forall_impl; [exact Hd|].
  intros d Hi. unfold compose. by case_bool_decide.
Qed.

Lemma set_downstream_wf e e' i db p :
  proxy_wf e p -> env_ext e e' -> db_wf e' db -> proxy_wf e' (set_downstream_db i db p).
Proof.
  intros Hp Hext Hdb. destruct (proxy_wf_ext _ _ _ Hext Hp). split; auto.
  - by apply update_ordered.
  - simpl. apply Forall_fmap. eapply Forall_impl; [eassumption|].
    intros d Hd. unfold compose. by case_bool_decide.
  - by apply set_downstream_ifs.
Qed.

Lemma cb_state_change_io p i :
  interfaces_set p ->
  forall db gaddr e, wp (cb_state_change sock snd gts get_if_name vif p i db gaddr)
                        (fun _ e' => env_io e e') e.
Proof.
  intros Hp db gaddr e. apply wp_state_change; [done|done|]. by apply set_downstream_ifs.
Qed.

Lemma found_db_wf e p i d :
  proxy_wf e p -> sl_find i (m_downstreams p) = Some d -> db_wf e (d_db d.2).
Proof.
  intros Hp Hf. apply sl_find_In in Hf. pose proof (pw_dbs _ _ Hp) as Hd.
  rewrite Forall_forall in Hd. by apply (Hd d).
Qed.

(** ** Reports and timers of the queriers *)

Lemma wp_group_record gr held p e :
  proxy_wf e p -> fresh_sources (gr_slist gr) ->
  wp (handle_message clk sock stats snd gts get_if_name vif w held (a_group_record_msg gr) p)
     (fun r e' => r.1 = true /\ proxy_wf e' r.2) e.
Proof.
  intros Hp HB. cbn [handle_message].
  destruct (sl_find (gr_if_index gr) (m_downstreams p)) as [d|] eqn:Hd; [|by apply wp_ret].
  apply wp_bind. eapply wp_mono.
  { apply (wp_receive_record clk snd w (gr_if_index gr) _ _
      (cb_state_change_io p (gr_if_index gr) (pw_ifs _ _ Hp)) gr (d_db d.2) e);
      [by eapply found_db_wf|done]. }
  intros db' e' [[Hext Hdb'] _]. apply wp_ret. split; [done|]. by eapply set_downstream_wf.
Qed.

Lemma wp_querier_timer held t tm p e :
  proxy_wf e p -> e_store e !! t = Some tm ->
  (forall d, sl_find (tm_if_index tm) (m_downstreams p) = Some d ->
    retransmission_over t (d_db d.2)) ->
  wp (querier_timer clk sock snd gts get_if_name vif w held t tm p)
     (fun p' e' => proxy_wf e' p') e.
Proof.
  intros Hp Htm Hover. unfold querier_timer.
  destruct (sl_find (tm_if_index tm) (m_downstreams p)) as [d|] eqn:Hd; [|by apply wp_ret].
  apply wp_bind. eapply wp_mono.
  { apply (wp_timer_triggerd clk snd w (tm_if_index tm) _ _
      (cb_state_change_io p (tm_if_index tm) (pw_ifs _ _ Hp)) held t tm (d_db d.2) e);
      [by eapply found_db_wf|done|by apply Hover]. }
  intros db' e' [[Hext Hdb'] _]. apply wp_ret. by eapply set_downstream_wf.
Qed.

(** ** Sources *)

Lemma wp_set_source_timer p i gaddr sa (Q : tid -> env A -> Prop) e :
  env_wf e -> (forall t e', env_ext e e' -> is_Some (e_store e' !! t) -> Q t e') ->
  wp (set_source_timer clk w p i gaddr sa) Q e.
Proof.
  intros Hwf HQ. unfold set_source_timer. apply wp_bind.
  eapply (wp_mono _ (fun _ e' => env_io e e')).
  { destruct (is_upstream p i && is_rule_matching_type p IT_UPSTREAM ID_IN RMT_MUTEX) eqn:Hr;
      [|by apply wp_ret].
    bool_simpl. unfold is_rule_matching_type in *.
    destruct (m_upstream_input_rule p) as [rb|]; [|done]. apply wp_bind, wp_deref. by apply wp_ret. }
  intros lt e1 Hio. apply env_io_ext in Hio.
  apply wp_bind, wp_make_timer; [by eapply ext_wf|auto with menv|]. intros e2 Hext2 Hwf2 _ Ht.
  apply wp_bind, wp_add_time_msg. intros e3 Hext3 _ _. apply wp_ret, HQ; [by etrans; [|etrans]|].
  destruct (timer_is_ext _ _ _ _ _ Hext3 Ht) as (tm & Htm & _). by exists tm.
Qed.

Lemma set_data_wf e d p : proxy_wf e p -> srd_wf d -> proxy_wf e (set_data d p).
Proof. intros [] Hd. by split. Qed.

Lemma mutex_aggregation_io (b : bool) p gaddr e :
  interfaces_set p ->
  wp (if b then process_membership_aggregation snd gts get_if_name RMT_MUTEX p gaddr else mret tt)
     (fun _ e' => env_io e e') e.
Proof. intros Hp. destruct b; [by apply wp_aggregation|by apply wp_ret]. Qed.

Lemma wp_event_new_source i gaddr sa p e :
  proxy_wf e p ->
  wp (event_new_source clk sock stats snd gts get_if_name vif w i gaddr sa p)
     (fun p' e' => proxy_wf e' p') e.
Proof.
  intros Hp. unfold event_new_source. apply wp_bind, wp_set_source_timer; [apply Hp|].
  intros t e1 Hext1 _. pose proof (proxy_wf_ext _ _ _ Hext1 Hp) as Hp1. apply wp_bind.
  eapply wp_mono; [apply wp_set_source_io, Hp1|].
  intros data e2 [Hdata Hio2]. apply env_io_ext in Hio2.
  pose proof (proxy_wf_ext _ _ _ Hio2 Hp1) as Hp2. set (p2 := set_data data p).
  assert (Hw2 : proxy_wf e2 p2) by (by apply set_data_wf).
  destruct (collect_total gts get_if_name gts_ok p2 gaddr [new_source sa]) as [rt ->].
  apply wp_bind, wp_deref, wp_bind. eapply wp_mono; [by apply wp_set_routes|].
  intros [] e3 Hio3. apply wp_bind. eapply wp_mono; [apply mutex_aggregation_io, Hw2|].
  intros [] e4 Hio4. apply wp_ret. apply env_io_ext in Hio3, Hio4.
  by eapply proxy_wf_ext, proxy_wf_ext.
Qed.

Lemma wp_maintain held t tm p e :
  proxy_wf e p -> e_store e !! t = Some tm ->
  wp (timer_triggerd_maintain_routing_table clk sock stats snd gts get_if_name vif w held t p)
     (fun p' e' => proxy_wf e' p') e.
Proof.
  intros Hp Htm. unfold timer_triggerd_maintain_routing_table. apply wp_bind.
  unfold wp at 1, get_timer. rewrite Htm. case_if; [by apply wp_ret|].
  destruct (ew_shape _ (pw_env _ _ Hp) _ _ Htm) as [_ [Hga Hsa]].
  destruct (tm_type tm) eqn:Hty; try by apply wp_ret.
  destruct Hga as [|[gaddr ->]]; [done|]. destruct (Hsa eq_refl) as [sa ->].
  do 2 apply wp_bind, wp_deref.
  destruct (sl_find sa (get_available_sources gaddr (m_data p))) as [s|]; [|by apply wp_ret].
  case_if; [|by apply wp_ret]. apply wp_bind.
  eapply wp_mono; [apply refresh_wf, Hp|]. intros [b data] e1 (Hio1 & Hdata & _). simpl in *.
  apply env_io_ext in Hio1. pose proof (proxy_wf_ext _ _ _ Hio1 Hp) as Hp1.
  assert (Hw1 : proxy_wf e1 (set_data data p)) by (by apply set_data_wf).
  destruct b; simpl.
  - apply wp_bind, wp_set_source_timer; [apply Hw1|]. intros t' e2 Hext2 _. apply wp_ret.
    apply (proxy_wf_ext _ _ _ Hext2) in Hw1. apply set_data_wf; [done|].
    by apply assign_source_timer_wf.
  - apply wp_bind, wp_call. intros b' e2 Hio2 _. apply wp_bind.
    eapply wp_mono; [apply mutex_aggregation_io, Hw1|]. intros [] e3 Hio3. apply wp_ret.
    apply env_io_ext in Hio2, Hio3. by eapply proxy_wf_ext, proxy_wf_ext.
Qed.

(** ** Configuration *)

(** If the computation has a result, it satisfies the postcondition. *)
Definition wlp {X} (m : M A X) (Q : X -> env A -> Prop) e : Prop :=
  match m e with Some (x, e') => Q x e' | None => True end.

Lemma wlp_of_wp {X} (m : M A X) Q e : wp m Q e -> wlp m Q e.
Proof. unfold wp, wlp. by destruct (m e) as [[x e']|]. Qed.

Lemma wlp_bind {X Y} (m : M A X) (f : X -> M A Y) Q e :
  wlp m (fun x e' => wlp (f x) Q e') e -> wlp (m ≫= f) Q e.
Proof. unfold wlp, mbind, M_bind. by destruct (m e) as [[x e']|]. Qed.

Lemma wlp_mono {X} (m : M A X) (Q Q' : X -> env A -> Prop) e :
  wlp m Q e -> (forall x e', Q x e' -> Q' x e') -> wlp m Q' e.
Proof. unfold wlp. destruct (m e) as [[x e']|]; auto. Qed.

Lemma register_io (b : bool) i e :
  wp (if b then register_interface sock vif i else mret tt) (fun _ e' => env_io e e') e.
Proof.
  destruct b; [|by apply wp_ret]. apply wp_bind, wp_call. intros b1 e1 Hio1 _.
  apply wp_bind, wp_call. intros b2 e2 Hio2 _. apply wp_ret. by etrans.
Qed.

Lemma unregister_io (b : bool) i e :
  wp (if b then unregister_interface sock vif i else mret tt) (fun _ e' => env_io e e') e.
Proof.
  destruct b; [|by apply wp_ret]. apply wp_bind, wp_call. intros b1 e1 Hio1 _.
  apply wp_bind, wp_call. intros b2 e2 Hio2 _. apply wp_ret. by etrans.
Qed.

Lemma set_upstreams_wf e us p :
  proxy_wf e p -> sl_ordered us -> Forall (fun u => is_Some (u_interface u)) us ->
  proxy_wf e (set_upstreams us p).
Proof. intros [? ? ? ? [_ Hd] ?] Ho Hu. by split. Qed.

Lemma set_downstreams_wf e ds p :
  proxy_wf e p -> sl_ordered ds -> Forall (fun d => is_Some (d_interface d.2)) ds ->
  Forall (fun d => db_wf e (d_db d.2)) ds -> proxy_wf e (set_downstreams ds p).
Proof. intros [? ? ? ? [Hu _] ?] Ho Hd Hdb. by split. Qed.

Lemma Forall_sl_insert {T K} `{KeyOrder K, Keyed T K} (P : T -> Prop) x l :
  P x -> Forall P l -> Forall P (sl_insert x l).
Proof. rewrite !Forall_forall. intros Hx Hl y [->|Hy]%sl_insert_In; auto. Qed.

Lemma Forall_sl_erase {T K} `{KeyOrder K, Keyed T K} (P : T -> Prop) k l :
  Forall P l -> Forall P (sl_erase k l).
Proof. rewrite !Forall_forall. intros Hl y [Hy _]%sl_erase_In. auto. Qed.

(** A configuration message for an interface carries it. *)
Definition config_ok (cm : config_msg) : Prop :=
  match cm_instruction cm with
  | ADD_DOWNSTREAM | ADD_UPSTREAM => is_Some (cm_interface cm)
  | _ => True
  end.

Lemma wlp_add_downstream cm p e :
  proxy_wf e p -> config_ok cm -> cm_instruction cm = ADD_DOWNSTREAM ->
  wlp (handle_config clk sock snd vif w cm p) (fun p' e' => proxy_wf e' p') e.
Proof.
  intros Hp Hok Hi. unfold config_ok in Hok. rewrite Hi in Hok. unfold handle_config. rewrite Hi.
  destruct (sl_find _ _); [by apply wlp_of_wp, wp_ret|].
  apply wlp_bind, wlp_of_wp. eapply wp_mono; [apply register_io|]. intros [] e1 Hio.
  apply env_io_ext in Hio. pose proof (proxy_wf_ext _ _ _ Hio Hp) as Hp1.
  apply wlp_bind, wlp_of_wp. eapply wp_mono; [apply new_querier_wf; [done|apply Hp1]|].
  intros [db|] e2 [Hext2 Hdb]; [|done]. apply wlp_bind, wlp_of_wp, wp_deref, wlp_of_wp, wp_ret.
  apply (proxy_wf_ext _ _ _ Hext2) in Hp1. specialize (Hdb db eq_refl).
  pose proof Hp1 as [_ _ Hod Hdbs [_ Hifs] _].
  apply set_downstreams_wf; [done|auto with slist|by apply Forall_sl_insert|].
  by apply Forall_sl_insert.
Qed.

Lemma wp_other_config cm p e :
  proxy_wf e p -> config_ok cm -> cm_instruction cm <> ADD_DOWNSTREAM ->
  wp (handle_config clk sock snd vif w cm p) (fun p' e' => proxy_wf e' p') e.
Proof.
  intros Hp Hok Hne. pose proof Hp as [_ Hou Hod Hdbs [Huif Hdif] _]. unfold config_ok in Hok.
  unfold handle_config. destruct (cm_instruction cm); [done|..].
  - destruct (sl_find _ _) as [d|]; [|by apply wp_ret].
    apply wp_bind. eapply wp_mono; [apply unregister_io|]. intros [] e1 Hio1.
    apply wp_bind. unfold destroy_querier. apply wp_bind.
    eapply wp_mono; [by apply router_groups_io|]. intros b e2 Hio2. do 2 apply wp_ret.
    apply env_io_ext in Hio1, Hio2. assert (Hext : env_ext e e2) by (by etrans).
    apply (proxy_wf_ext _ _ _ Hext) in Hp. pose proof (pw_dbs _ _ Hp) as Hdbs2.
    apply set_downstreams_wf; [done|by apply sl_erase_ordered|by apply Forall_sl_erase..].
  - case_if; [|by apply wp_ret]. apply wp_bind. eapply wp_mono; [apply register_io|].
    intros [] e1 Hio1. apply wp_ret. apply env_io_ext in Hio1.
    apply (proxy_wf_ext _ _ _ Hio1) in Hp.
    apply set_upstreams_wf; [done|by apply sl_insert_ordered|by apply Forall_sl_insert].
  - destruct (List.find _ _) as [u|]; [|by apply wp_ret].
    apply wp_bind. eapply wp_mono; [apply unregister_io|]. intros [] e1 Hio1. apply wp_ret.
    apply env_io_ext in Hio1. apply (proxy_wf_ext _ _ _ Hio1) in Hp.
    apply set_upstreams_wf; [done|by apply sl_erase_ordered|by apply Forall_sl_erase].
  - destruct (cm_rule_binding cm) as [rb|]; [|by apply wp_ret]. case_if; [|by apply wp_ret].
    destruct (m_filter_direction rb); apply wp_ret; [..|done]; destruct Hp; by split.
Qed.

(** ** Messages *)

(** Messages as the receivers and the configuration build them. *)
Definition message_ok (m : proxy_msg A) : Prop :=
  match m with
  | a_group_record_msg gr => fresh_sources (gr_slist gr)
  | a_config_msg cm => config_ok cm
  | _ => True
  end.

(** A timer that was created; no group retransmission is pending for a group
    that returned to INCLUDE mode. *)
Definition timer_ready e p (t : tid) : Prop :=
  exists tm, e_store e !! t = Some tm
    /\ forall d, sl_find (tm_if_index tm) (m_downstreams p) = Some d ->
         retransmission_over t (d_db d.2).

Lemma wp_timer_message held t p e :
  proxy_wf e p -> timer_ready e p t ->
  wp (handle_message clk sock stats snd gts get_if_name vif w held (a_timer_msg t) p)
     (fun r e' => r.1 = true /\ proxy_wf e' r.2) e.
Proof.
  intros Hp (tm & Htm & Hover). cbn [handle_message]. apply wp_bind.
  unfold wp at 1, get_timer. rewrite Htm.
  assert (Hq : wp (p' ← querier_timer clk sock snd gts get_if_name vif w held t tm p;
    mret (true, p')) (fun r e' => r.1 = true /\ proxy_wf e' r.2) e).
  { apply wp_bind. eapply wp_mono; [by apply wp_querier_timer|]. intros p' e' Hp'.
    by apply wp_ret. }
  destruct (tm_type tm) eqn:Hty; try exact Hq; try by apply wp_ret.
  apply wp_bind. eapply wp_mono; [by eapply wp_maintain|]. intros p' e' Hp'. by apply wp_ret.
Qed.

(** Handling a message, but for the configuration of a downstream interface,
    whose querier may fail to start. *)
Lemma wp_handle_message held m p e :
  proxy_wf e p -> message_ok m ->
  (forall cm, m = a_config_msg cm -> cm_instruction cm <> ADD_DOWNSTREAM) ->
  (forall t, m = a_timer_msg t -> timer_ready e p t) ->
  wp (handle_message clk sock stats snd gts get_if_name vif w held m p)
     (fun r e' => r.1 = (match m with exit_cmd => false | _ => true end) /\ proxy_wf e' r.2) e.
Proof.
  intros Hp Hok Hadd Hready. destruct m as [|v pr|t|gr|i gaddr sa|cm| |];
    try (by apply wp_ret).
  - apply wp_timer_message; [done|by apply Hready].
  - by apply wp_group_record.
  - cbn [handle_message]. apply wp_bind. eapply wp_mono; [by apply wp_event_new_source|].
    intros p' e' Hp'. by apply wp_ret.
  - cbn [handle_message]. apply wp_bind.
    eapply wp_mono; [apply wp_other_config; [done|done|by apply Hadd]|].
    intros p' e' Hp'. by apply wp_ret.
Qed.

Inductive instance_step : proxy_state (A := A) * env A -> proxy_state (A := A) * env A -> Prop :=
  | instance_message held m p e b p' e' :
      message_ok m ->
      handle_message clk sock stats snd gts get_if_name vif w held m p e = Some ((b, p'), e') ->
      instance_step (p, e) (p', e').

(** A timer message that was handled was ready. *)
Lemma handled_timer_ready held t p e b p' e' :
  proxy_wf e p ->
  handle_message clk sock stats snd gts get_if_name vif w held (a_timer_msg t) p e
    = Some ((b, p'), e') ->
  timer_ready e p t.
Proof.
  intros Hp Hrun. cbn [handle_message] in Hrun. unfold mbind at 1, M_bind at 1, get_timer in Hrun.
  destruct (e_store e !! t) as [tm|] eqn:Htm; [|done]. exists tm. split; [done|].
  intros d Hd gaddr g Hg Hgrt Hfm.
  destruct (Z.le_gt_cases (group_retransmission_count g) 0) as [|Hpos]; [done|].
  pose proof (found_db_wf _ _ _ _ Hp Hd) as Hdb.
  destruct (gw_grt _ _ _ (dw_groups _ _ Hdb gaddr g Hg) t Hgrt) as (tm' & Htm' & Hty & _).
  assert (tm' = tm) as -> by congruence. rewrite Hty in Hrun.
  unfold querier_timer in Hrun. rewrite Hd in Hrun. unfold mbind, M_bind in Hrun.
  by rewrite (ret_group_null clk snd w _ _ _ held gaddr g) in Hrun by (done || lia).
Qed.

Lemma instance_step_wf s s' : instance_step s s' -> proxy_wf s.2 s.1 -> proxy_wf s'.2 s'.1.
Proof.
  intros [held m p e b p' e' Hok Hrun] Hp; simpl in *.
  assert (Hcase : (exists cm, m = a_config_msg cm /\ cm_instruction cm = ADD_DOWNSTREAM)
    \/ forall cm, m = a_config_msg cm -> cm_instruction cm <> ADD_DOWNSTREAM).
  { destruct m as [|v pr|t|gr|i gaddr sa|cm| |]; try (right; done).
    destruct (cm_instruction cm) eqn:Hi; [left; eauto|right; intros ? [= <-]; congruence..]. }
  destruct Hcase as [(cm & -> & Hi)|Hadd].
  - cbn [handle_message] in Hrun. unfold mbind, M_bind in Hrun.
    pose proof (wlp_add_downstream cm p e Hp Hok Hi) as Hw. unfold wlp in Hw.
    destruct (handle_config clk sock snd vif w cm p e) as [[q e1]|]; [|done].
    unfold mret, M_ret in Hrun. by simplify_eq.
  - assert (Hw := wp_handle_message held m p e Hp Hok Hadd). unfold wp in Hw.
    rewrite Hrun in Hw. apply Hw. intros t ->. by eapply handled_timer_ready.
Qed.

Lemma new_proxy_state_wf gmp name e : env_wf e -> proxy_wf e (new_proxy_state gmp name).
Proof.
  intros Hwf.
  split; simpl; [done|constructor|constructor|constructor|split; constructor|apply map_Forall_empty].
Qed.

(** C3: Invariant of a proxy instance: from its construction on, whatever
    messages it handles and in whatever order (reports, timers, new sources,
    configuration, interleaved over all its interfaces), every state it reaches
    is well formed: each querier's database satisfies the querier's invariant,
    the interface tables are ordered sets without missing interfaces, and the
    table of sources is consistent. *)
Theorem instance_invariant gmp name e0 p e :
  env_wf e0 -> rtc instance_step (new_proxy_state gmp name, e0) (p, e) -> proxy_wf e p.
Proof.
  intros Hwf Hrun. remember (new_proxy_state gmp name, e0) as s eqn:Es.
  remember (p, e) as s' eqn:Es'.
  assert (Hs : proxy_wf s.2 s.1) by (subst s; by apply new_proxy_state_wf). clear Es.
  induction Hrun as [s|s1 s2 s3 Hstep Hrun IH]; [by subst s|].
  apply IH; [done|]. by eapply instance_step_wf.
Qed.

(** C22: The worker never gets stuck: in a well-formed state every report, new
    source, debug, test and exit message, every ready timer and every
    configuration message other than a new downstream interface is handled to
    the end, the state stays well formed, and the thread keeps running unless
    the message is the exit command. *)
Theorem worker_handles_messages held m p e :
  proxy_wf e p -> message_ok m ->
  (forall cm, m = a_config_msg cm -> cm_instruction cm <> ADD_DOWNSTREAM) ->
  (forall t, m = a_timer_msg t -> timer_ready e p t) ->
  wp (handle_message clk sock stats snd gts get_if_name vif w held m p)
     (fun r e' => r.1 = (match m with exit_cmd => false | _ => true end) /\ proxy_wf e' r.2) e.
Proof. apply wp_handle_message. Qed.

(** Upstream interfaces are kept in a set ordered by priority alone: adding an
    unused interface with the priority of another upstream registers the
    interface with the kernel and the receiver, but leaves the set of upstream
    interfaces as it was. *)
Theorem same_priority_upstream_lost cm p e u :
  cm_instruction cm = ADD_UPSTREAM ->
  is_upstream p (cm_if_index cm) = false -> is_downstream p (cm_if_index cm) = false ->
  sl_find (cm_upstream_priority cm) (m_upstreams p) = Some u ->
  wp (handle_config clk sock snd vif w cm p)
     (fun p' e' => m_upstreams p' = m_upstreams p
        /\ e_log e' = e_log e ++ [AddVif (cm_if_index cm) (vif (cm_if_index cm));
                                  RegisterInterface (cm_if_index cm)]) e.
Proof.
  intros Hi Hup Hdown Hfind. unfold handle_config. rewrite Hi, Hup. simpl. rewrite Hdown. simpl.
  apply wp_bind, wp_bind, wp_call. intros b e1 _ He1. apply wp_bind, wp_call.
  intros b2 e2 _ He2. do 2 apply wp_ret. simpl. split.
  - unfold sl_insert. match goal with |- context [sl_find ?k _] =>
      change k with (cm_upstream_priority cm) end. by rewrite Hfind.
  - by rewrite He2, He1, <- app_assoc.
Qed.
End Instance.

(** ** From the packet to the instance *)

Section Packets.
Context (clk : nat -> Z) (sock : nat -> action -> bool) (stats : nat -> ipv4 -> ipv4 -> option Z).
Context (snd : sender (A := ipv4)) `{!SenderLaws snd} (gts : gmap string table)
  (get_if_name : Z -> string) (vif : Z -> Z) (w : Z).
Hypothesis gts_ok : gts_built gts.
Implicit Types (p : proxy_state (A := ipv4)) (e : env ipv4).

(** The messages of a packet, one after the other. *)
Definition handle_messages p (ms : list (proxy_msg ipv4)) :
    M ipv4 (proxy_state (A := ipv4)) :=
  foldM (fun p m => r ← handle_message clk sock stats snd gts get_if_name vif w false m p;
                    mret r.2) p ms.

Lemma wp_handle_messages (r : receiver) ms p e :
  Forall (message_fit r) ms -> proxy_wf e p ->
  wp (handle_messages p ms) (fun p' e' => proxy_wf e' p') e.
Proof.
  intros Hms. revert p e. induction Hms as [|m ms Hm Hms IH]; intros p e Hp; [by apply wp_ret|].
  unfold handle_messages. cbn [foldM]. apply wp_bind, wp_bind. eapply wp_mono.
  - apply wp_handle_message; [done|done|done| | |].
    + by destruct m as [| | |gr| | | |]; try done; destruct Hm.
    + intros cm ->. done.
    + intros t ->. done.
  - intros [b p'] e' [_ Hp']. apply wp_ret. by apply IH.
Qed.

(** C26: No packet can break an instance: whatever octets an IGMP receiver reads
    (as long as it does not run beyond its buffer), the messages it hands over
    are all handled to the end by a well-formed instance, which stays well
    formed. *)
Theorem packets_keep_instance if_nametoindex props ifs (r : receiver) buf ms p e :
  igmp_analyse_packet if_nametoindex props ifs r buf = Some ms -> proxy_wf e p ->
  wp (handle_messages p ms) (fun p' e' => proxy_wf e' p') e.
Proof.
  intros Hbuf. apply (wp_handle_messages r).
  by apply (igmp_messages_fit if_nametoindex props ifs r buf).
Qed.
End Packets.

(** ** Instances

    An IGMPv3 instance with the downstream interface 7, on which the database
    [ex_db1] asks for one source, and the upstream interfaces 2 and 3, none of
    them filtered; one source is known, seen on interface 2. *)

Definition ex_if_name (i : Z) : string := "eth".
Definition ex_vif (i : Z) : Z := i.
Definition ex_stats (n : nat) (gaddr sa : ipv4) : option Z := Some (Z.of_nat n).
Definition ex_interface : option interface := Some (new_interface "eth").
Definition ex_upstream (i pr : Z) : upstream_infos :=
  {| u_if_index := i; u_interface := ex_interface; u_priority := pr |}.
Definition ex_downstream (db : membership_db ipv4) : Z * downstream_infos (A := ipv4) :=
  (7, {| d_db := db; d_timers_values := new_timers_values; d_interface := ex_interface |}).
Definition ex_value : sr_data_value (A := ipv4) :=
  {| m_source_list := [ex_source 1]; m_if_map := {[saddr (ex_source 1) := 2]} |}.
Definition ex_data := m_data (set_data {[ex_group := ex_value]}
  (new_proxy_state (A := ipv4) IGMPv3 "proxy")).
Definition ex_proxy (db : membership_db ipv4) : proxy_state (A := ipv4) :=
  set_data ex_data (set_downstreams [ex_downstream db]
    (set_upstreams [ex_upstream 2 0; ex_upstream 3 1] (new_proxy_state IGMPv3 "proxy"))).

Lemma ex_data_wf : srd_wf ex_data.
Proof.
  apply map_Forall_singleton. split_and!; [repeat constructor|done|]. simpl.
  rewrite dom_singleton_L. unfold sl_keys. simpl. set_solver.
Qed.

Lemma set_source_consistent_witness :
  wp (set_source ex_stats 3 ex_group (ex_source 1) ex_data)
     (fun data' _ => source_set 3 ex_group (ex_source 1) ex_data data') empty_env.
Proof.
  apply (set_source_consistent ex_stats 3 ex_group (ex_source 1) ex_data empty_env ex_data_wf).
Defined.

Lemma refresh_keeps_active_witness :
  wp (refresh_source_or_del_it_if_unused ex_stats ex_group (saddr (ex_source 1)) ex_data)
     (fun r _ => srd_wf r.2 /\ r.1 = true) empty_env.
Proof.
  eapply wp_mono; [apply (refresh_keeps_active ex_stats ex_group (saddr (ex_source 1)) ex_data
    empty_env ex_data_wf)|].
  intros r e' (_ & Hwf & Hr & _). split; [exact Hwf|]. rewrite Hr. reflexivity.
Defined.

Definition ex_include : source_state (A := ipv4) :=
  {| m_mc_filter := INCLUDE_MODE; ss_source_list := [ex_source 1; ex_source 2] |}.
Definition ex_exclude : source_state (A := ipv4) :=
  {| m_mc_filter := EXCLUDE_MODE; ss_source_list := [ex_source 2; ex_source 3] |}.

Lemma merge_is_union_witness :
  state_wants (merge_membership_infos ex_include ex_exclude) (saddr (ex_source 2)) = true.
Proof.
  etransitivity; [apply (merge_is_union ex_include ex_exclude (saddr (ex_source 2)));
    repeat constructor|]. reflexivity.
Defined.

Lemma ex_interfaces_set db : interfaces_set (ex_proxy db).
Proof. split; repeat constructor; by eexists. Qed.

Lemma ex_unfiltered : unfiltered ex_interface.
Proof. by eexists. Qed.

Lemma first_upstream_aggregates_witness :
  exists d, process_upstream_in_first ∅ ex_if_name (ex_proxy ex_db1) ex_group = Some d
    /\ exists st, get_group_memberships 2 d = Some (st, [(3, [])])
        /\ state_wants st (saddr (ex_source 1))
           = downstream_wants (ex_proxy ex_db1) ex_group (saddr (ex_source 1)).
Proof.
  apply (first_upstream_aggregates ∅ ex_if_name (ex_proxy ex_db1) ex_group (ex_upstream 2 0)
    [ex_upstream 3 1]); [reflexivity|apply ex_unfiltered| |].
  - repeat constructor. apply ex_unfiltered.
  - repeat constructor.
Defined.

(** The any-source membership EXCLUDE ({}). *)
Definition ex_any : membership_db ipv4 :=
  set_group ex_group (set_lists EXCLUDE_MODE [] [] (new_gaddr_info IGMPv3)) ex_db.

Lemma mutex_drops_any_source_witness :
  wants (get_group_membership_infos ex_any ex_group) (saddr (ex_source 1)) = true
  /\ process_upstream_in_mutex ∅ ex_if_name (ex_proxy ex_any) ex_group = Some [(2, []); (3, [])].
Proof.
  split; [reflexivity|].
  apply (mutex_drops_any_source ∅ ex_if_name (ex_proxy ex_any) ex_group). repeat constructor.
Defined.

Lemma forwarding_rules_witness :
  exists rt, collect_interested_interfaces ∅ ex_if_name (ex_proxy ex_db1) ex_group [ex_source 1]
             = Some rt /\ Forall (outputs_justified (ex_proxy ex_db1) ex_group) rt.
Proof.
  destruct (collect_total ∅ ex_if_name gts_empty (ex_proxy ex_db1) ex_group [ex_source 1])
    as [rt Hrt].
  exists rt. split; [exact Hrt|].
  apply (forwarding_rules ∅ ex_if_name (ex_proxy ex_db1) ex_group [ex_source 1] rt Hrt).
Defined.

Lemma forwarding_exact_witness :
  collect_interested_interfaces ∅ ex_if_name (ex_proxy ex_db1) ex_group [ex_source 1]
  = Some [(ex_source 1, [7])].
Proof.
  etransitivity; [apply (forwarding_exact ∅ ex_if_name (ex_proxy ex_db1) ex_group (fun _ => 2) [ex_source 1])|].
  - split; [|apply Forall_singleton; split; [apply ex_unfiltered|reflexivity]|repeat constructor|reflexivity].
    repeat constructor; apply ex_unfiltered.
  - apply Forall_singleton. split; [|discriminate]. simpl. reflexivity.
  - vm_compute. reflexivity.
Defined.

Lemma state_change_returns_witness :
  wp (event_querier_state_change ex_sock ex_sender ∅ ex_if_name ex_vif (ex_proxy ex_db1) ex_group)
     (fun _ e' => env_io ex_env e') ex_env.
Proof.
  apply (state_change_returns ex_sock ex_sender ∅ ex_if_name ex_vif gts_empty (ex_proxy ex_db1)
    ex_group ex_env (ex_interfaces_set ex_db1)).
Defined.

Lemma ex_proxy_wf : proxy_wf ex_env (ex_proxy ex_db1).
Proof.
  split; [apply ex_env_wf|repeat constructor|repeat constructor| |apply ex_interfaces_set|
    apply ex_data_wf].
  apply Forall_singleton, ex_db1_wf.
Qed.

Lemma worker_handles_messages_witness :
  wp (handle_message ex_clk ex_sock ex_stats ex_sender ∅ ex_if_name ex_vif 0 false
        (a_group_record_msg (ex_report BLOCK_OLD_SOURCES [ex_source 1; ex_source 2] IGMPv3))
        (ex_proxy ex_db1))
     (fun r e' => r.1 = true /\ proxy_wf e' r.2) ex_env.
Proof.
  apply (worker_handles_messages ex_clk ex_sock ex_stats ex_sender ∅ ex_if_name ex_vif 0 gts_empty
    false (a_group_record_msg (ex_report BLOCK_OLD_SOURCES [ex_source 1; ex_source 2] IGMPv3))
    (ex_proxy ex_db1) ex_env ex_proxy_wf ex_fresh); discriminate.
Defined.

(** A first message that adds the upstream interface 2. *)
Definition ex_add_upstream (i pr : Z) : config_msg :=
  {| cm_instruction := ADD_UPSTREAM; cm_if_index := i; cm_upstream_priority := pr;
     cm_interface := ex_interface; cm_tv := new_timers_values; cm_rule_binding := None |}.

Lemma instance_invariant_witness :
  exists e, proxy_wf e (set_upstreams [ex_upstream 2 0] (new_proxy_state (A := ipv4) IGMPv3 "proxy")).
Proof.
  eexists. apply (instance_invariant ex_clk ex_sock ex_stats ex_sender ∅ ex_if_name ex_vif 0
    gts_empty IGMPv3 "proxy" empty_env _ _ empty_env_wf).
  eapply rtc_once, (instance_message _ _ _ _ _ _ _ _ false (a_config_msg (ex_add_upstream 2 0)));
    [by eexists|reflexivity].
Defined.

Lemma same_priority_upstream_lost_witness :
  wp (handle_config ex_clk ex_sock ex_sender ex_vif 0 (ex_add_upstream 4 1) (ex_proxy ex_db1))
     (fun p' e' => m_upstreams p' = [ex_upstream 2 0; ex_upstream 3 1]
        /\ e_log e' = [AddVif 4 4; RegisterInterface 4]) ex_env.
Proof.
  apply (same_priority_upstream_lost ex_clk ex_sock ex_sender ex_vif 0 (ex_add_upstream 4 1)
    (ex_proxy ex_db1) ex_env (ex_upstream 3 1)); reflexivity.
Defined.

Lemma packets_keep_instance_witness :
  exists ms, igmp_analyse_packet ex_index ex_props ex_table ex_receiver ex_upcall = Some ms
    /\ wp (handle_messages ex_clk ex_sock ex_stats ex_sender ∅ ex_if_name ex_vif 0
             (ex_proxy ex_db1) ms) (fun p' e' => proxy_wf e' p') ex_env.
Proof.
  eexists. split; [reflexivity|].
  apply (packets_keep_instance ex_clk ex_sock ex_stats ex_sender ∅ ex_if_name ex_vif 0 gts_empty
    ex_index ex_props ex_table ex_receiver ex_upcall); [reflexivity|apply ex_proxy_wf].
Defined.
