(* ===== verification/UpstreamSync.v ===== *)
(** * The memberships asked for upstream

    With the rule FIRST and no filters, the reception state that an instance asks
    the kernel for on its first upstream interface is at any time the union of
    the memberships of its downstream interfaces, group by group: reports,
    timers and new sources keep it so. *)

From S2P Require Import Prelude Def TimersValues AddrStorage Filter Timing Messages Sender.
From S2P Require Import MembershipDb Querier QuerierSpec QuerierReports QuerierTimers QuerierTheorems.
From S2P Require Import Notify RoutingData ProxyRouting RoutingTheorems ProxyInstance InstanceTheorems.

Local Open Scope Z_scope.

(** ** The reception state of a socket (RFC 3376, section 3) *)

(** The state of a group on an interface: a filter mode and a list of sources. An
    include state without sources is the state of a group that was not joined. *)
Definition reception_state : Type := mc_filter * list addr_storage.

Definition not_joined : reception_state := (INCLUDE_MODE, []).

Definition reception_step (i : Z) (g : addr_storage) (st : reception_state) (a : action)
    : reception_state :=
  match a with
  | JoinGroup h j =>
    if operator_eq h g && (j =? i) then match st with (INCLUDE_MODE, []) => (EXCLUDE_MODE, []) | _ => st end
    else st
  | LeaveGroup h j => if operator_eq h g && (j =? i) then not_joined else st
  | SetSourceFilter j h mf srcs => if operator_eq h g && (j =? i) then (mf, srcs) else st
  | _ => st
  end.

(** The state after the calls of a log. *)
Definition reception (i : Z) (g : addr_storage) (log : list action) : reception_state :=
  fold_left (reception_step i g) log not_joined.

Definition receives (st : reception_state) (s : addr_storage) : bool :=
  match st.1 with
  | INCLUDE_MODE => existsb (operator_eq s) st.2
  | EXCLUDE_MODE => negb (existsb (operator_eq s) st.2)
  end.

Section Reception.
Context {A : Type} `{Address A}.
Implicit Types (gaddr : A) (l log : list action).

Lemma operator_eq_refl gaddr : operator_eq (to_storage gaddr) (to_storage gaddr) = true.
Proof. rewrite to_storage_eq. by apply bool_decide_eq_true. Qed.

Lemma operator_eq_other gaddr h : h <> gaddr -> operator_eq (to_storage gaddr) (to_storage h) = false.
Proof. intros Hh. rewrite to_storage_eq. by apply bool_decide_eq_false. Qed.

(** The calls that leave the state of every other group alone. *)
Definition concerns gaddr (a : action) : Prop :=
  match a with
  | JoinGroup h _ | LeaveGroup h _ | SetSourceFilter _ h _ _ => h = to_storage gaddr
  | _ => True
  end.

Lemma reception_app i g l l' :
  reception i g (l ++ l') = fold_left (reception_step i g) l' (reception i g l).
Proof. apply fold_left_app. Qed.

Lemma untouched i g l st :
  Forall (fun a => forall st, reception_step i g st a = st) l -> fold_left (reception_step i g) l st = st.
Proof. intros Hl. revert st. induction Hl as [|a l Ha Hl IH]; intros st; [done|]. simpl. by rewrite Ha. Qed.

Lemma concerns_other i gaddr h l st :
  Forall (concerns gaddr) l -> h <> gaddr -> fold_left (reception_step i (to_storage h)) l st = st.
Proof.
  intros Hl Hh. apply untouched. eapply Forall_impl; [exact Hl|]. intros a Ha st'.
  destruct a; simpl in *; try done; subst; by rewrite operator_eq_other.
Qed.

(** Calls for routes. *)
Definition route_call (a : action) : Prop :=
  match a with AddMroute _ _ _ _ | DelMroute _ _ _ => True | _ => False end.

Lemma quiet_untouched i g l st : Forall querier_call l -> fold_left (reception_step i g) l st = st.
Proof. intros Hl. apply untouched. eapply Forall_impl; [exact Hl|]. by intros []. Qed.

Lemma routes_untouched i g l st : Forall route_call l -> fold_left (reception_step i g) l st = st.
Proof. intros Hl. apply untouched. eapply Forall_impl; [exact Hl|]. by intros []. Qed.

Lemma record_calls_state i g mf srcs st :
  operator_eq g g = true -> fold_left (reception_step i g) (record_calls i g mf srcs) st = (mf, srcs).
Proof.
  intros Hg. unfold record_calls. case_if; simpl; rewrite Hg, Z.eqb_refl; [|done]. simpl. bool_simpl. by subst.
Qed.

Lemma record_calls_elsewhere i j g h mf srcs st :
  i <> j -> fold_left (reception_step i g) (record_calls j h mf srcs) st = st.
Proof.
  intros Hij. apply untouched. unfold record_calls.
  case_if; repeat constructor; intros ?; simpl; by rewrite (proj2 (Z.eqb_neq j i)), andb_false_r by done.
Qed.

Lemma receives_wants mf (l : list (source A)) s :
  receives (mf, (fun s => to_storage (saddr s)) <$> l) (to_storage s) = wants (mf, l) s.
Proof.
  assert (Hin : existsb (operator_eq (to_storage s)) ((fun s => to_storage (saddr s)) <$> l)
                = bool_decide (s ∈ sl_keys l)).
  { induction l as [|x l IH]; [symmetry; apply bool_decide_eq_false; set_solver|].
    rewrite fmap_cons. cbn [existsb]. rewrite IH, to_storage_eq. apply eq_true_iff_eq. rewrite orb_true_iff, !bool_decide_eq_true, sl_keys_cons.
    unfold key, source_Keyed. set_solver. }
  unfold receives, wants. simpl. rewrite Hin. by destruct mf.
Qed.
End Reception.

(** ** The calls of a change of memberships *)

Section Sync.
Context {A : Type} `{Address A} (clk : nat -> Z) (sock : nat -> action -> bool)
  (stats : nat -> A -> A -> option Z).
Context (snd : sender (A := A)) `{!SenderLaws snd, !QuietSender snd, !RecordingSender snd}
  (gts : gmap string table) (get_if_name : Z -> string) (vif : Z -> Z) (w : Z).
Context (u : upstream_infos) (us : list upstream_infos).
Implicit Types (p : proxy_state (A := A)) (gaddr : A) (db : membership_db A) (e : env A).

Lemma set_routes_calls p gaddr rt :
  makes route_call (set_routes sock gts get_if_name vif p gaddr rt) always.
Proof.
  unfold set_routes. apply makes_forM. intros [s outs]. unfold set_route, add_route, del_route.
  destruct (get_interface_map gaddr (m_data p) !! _); quiet_steps.
Qed.

(** The instance has the upstream interfaces [u] and [us], the rule FIRST and no
    filters. *)
Record plain p : Prop := {
  pl_upstreams : m_upstreams p = u :: us;
  pl_distinct : NoDup (u_if_index <$> (u :: us));
  pl_rule : is_rule_matching_type p IT_UPSTREAM ID_IN RMT_FIRST = true;
  pl_upstream : unfiltered (u_interface u);
  pl_downstreams : Forall (fun d => unfiltered (d_interface d.2)) (m_downstreams p)
}.

Definition leaves gaddr : list action :=
  (fun u => LeaveGroup (to_storage gaddr) (u_if_index u)) <$> us.

(** What is reported for a group: its membership on the first upstream interface,
    nothing on the others. *)
Definition reported p gaddr (l : list action) : Prop :=
  exists routes mf (sl : list (source A)),
    l = routes ++ record_calls (u_if_index u) (to_storage gaddr) mf ((fun s => to_storage (saddr s)) <$> sl)
          ++ leaves gaddr
    /\ Forall route_call routes
    /\ (memberships_ordered p gaddr -> forall s, wants (mf, sl) s = downstream_wants p gaddr s).

Lemma send_leaves gaddr (vs : list upstream_infos) :
  trace (send_records snd gaddr vs ((fun u => (u_if_index u, [])) <$> vs))
    (fun _ l => l = (fun u => LeaveGroup (to_storage gaddr) (u_if_index u)) <$> vs).
Proof.
  induction vs as [|v vs IH]; [by apply trace_ret|]. cbn [send_records]. unfold get_group_memberships.
  rewrite fmap_cons, Z.eqb_refl. apply trace_bind_ret. eapply trace_bind; [apply send_record_trace|]. intros b acts ->.
  eapply trace_mono; [apply IH|]. by intros [] acts ->.
Qed.

Lemma state_change_reported p gaddr :
  plain p -> trace (event_querier_state_change sock snd gts get_if_name vif p gaddr) (fun _ l => reported p gaddr l).
Proof.
  intros [Hus _ Hrule Hu Hd]. unfold event_querier_state_change.
  apply trace_bind_deref. intros rt _. eapply trace_bind; [apply set_routes_calls|]. intros [] routes [Hr _].
  rewrite Hrule. unfold process_membership_aggregation, interface_memberships. simpl.
  rewrite (process_first_unfiltered gts get_if_name p gaddr u us) by done. rewrite Hus. cbn [send_records].
  set (st := fold_left merge_membership_infos (downstream_states p gaddr).*1 new_source_state).
  apply trace_bind_ret. unfold get_group_memberships. rewrite Z.eqb_refl. fold st.
  apply trace_bind_ret. eapply trace_bind; [apply send_record_trace|]. intros b acts ->.
  eapply trace_mono; [apply send_leaves|]. intros [] l ->. exists routes, (m_mc_filter st), (ss_source_list st).
  split_and!; [done|done|]. intros Ho s. by apply merged_wants.
Qed.

(** ** The invariant *)

(** The reception state asked for is the union of the downstream memberships, and
    nothing is asked for on the other upstream interfaces. *)
Definition in_sync p (log : list action) : Prop :=
  forall gaddr,
    (forall s, receives (reception (u_if_index u) (to_storage gaddr) log) (to_storage s)
               = downstream_wants p gaddr s)
    /\ Forall (fun v => reception (u_if_index v) (to_storage gaddr) log = not_joined) us.

Lemma leaves_elsewhere i g gaddr (vs : list upstream_infos) st :
  i ∉ (u_if_index <$> vs) ->
  fold_left (reception_step i g) ((fun v => LeaveGroup (to_storage gaddr) (u_if_index v)) <$> vs) st = st.
Proof.
  intros Hi. apply untouched. apply Forall_fmap, Forall_forall. intros v Hv st'. unfold compose. simpl.
  rewrite (proj2 (Z.eqb_neq _ _)), andb_false_r; [done|]. intros E. apply Hi, list_elem_of_fmap. eauto.
Qed.

Lemma leaves_left gaddr (vs : list upstream_infos) v st :
  v ∈ vs ->
  fold_left (reception_step (u_if_index v) (to_storage gaddr))
    ((fun v => LeaveGroup (to_storage gaddr) (u_if_index v)) <$> vs) st = not_joined.
Proof.
  intros Hv. assert (Hkeep : forall l, fold_left (reception_step (u_if_index v) (to_storage gaddr))
    ((fun v => LeaveGroup (to_storage gaddr) (u_if_index v)) <$> l) not_joined = not_joined).
  { induction l as [|x l IH]; [done|]. simpl. by case_if. }
  revert st. induction vs as [|x vs IH]; intros st; [set_solver|].
  apply elem_of_cons in Hv as [<-|Hv]; [|by apply IH]. simpl.
  rewrite operator_eq_refl, Z.eqb_refl. apply Hkeep.
Qed.

(** After a report the state of its group is the one reported. *)
Lemma reported_state p gaddr l log :
  plain p -> memberships_ordered p gaddr -> reported p gaddr l ->
  (forall s, receives (reception (u_if_index u) (to_storage gaddr) (log ++ l)) (to_storage s)
             = downstream_wants p gaddr s)
  /\ Forall (fun v => reception (u_if_index v) (to_storage gaddr) (log ++ l) = not_joined) us.
Proof.
  intros Hp Ho (routes & mf & sl & -> & Hr & Hw). specialize (Hw Ho).
  pose proof (pl_distinct _ Hp) as Hnd. rewrite fmap_cons, NoDup_cons in Hnd. destruct Hnd as [Hnd _]. split.
  - intros s. rewrite reception_app, !fold_left_app. unfold leaves. rewrite leaves_elsewhere by done.
    rewrite record_calls_state by apply operator_eq_refl. by rewrite receives_wants.
  - apply Forall_forall. intros v Hv. rewrite reception_app, !fold_left_app. by apply leaves_left.
Qed.

Lemma reported_concerns p gaddr l : reported p gaddr l -> Forall (concerns gaddr) l.
Proof.
  intros (routes & mf & sl & -> & Hr & _). rewrite !Forall_app. split_and!.
  - eapply Forall_impl; [exact Hr|]. by intros [].
  - unfold record_calls. case_if; repeat constructor.
  - apply Forall_fmap, Forall_forall. done.
Qed.

(** *** A querier changes *)

Lemma plain_downstream_db i db p : plain p -> plain (set_downstream_db i db p).
Proof.
  intros [? ? ? ? Hd]. split; try done. simpl. apply Forall_fmap. eapply Forall_impl; [exact Hd|].
  intros d Hi. unfold compose. by case_bool_decide.
Qed.

(** Only the answers of the database matter. *)
Lemma wants_answers i db db' p gaddr s :
  same_answers gaddr db db' ->
  downstream_wants (set_downstream_db i db p) gaddr s = downstream_wants (set_downstream_db i db' p) gaddr s.
Proof.
  intros Hs. unfold downstream_wants. simpl. unfold sl_update.
  induction (m_downstreams p) as [|d ds IH]; [done|]. rewrite !fmap_cons. cbn [existsb]. rewrite IH.
  case_bool_decide; [|done]. simpl. by rewrite Hs.
Qed.

Lemma ordered_answers i db db' p gaddr :
  get_group_membership_infos db gaddr = get_group_membership_infos db' gaddr ->
  memberships_ordered (set_downstream_db i db' p) gaddr -> memberships_ordered (set_downstream_db i db p) gaddr.
Proof.
  intros Hs. unfold memberships_ordered. simpl. unfold sl_update. rewrite !Forall_fmap.
  intros Ho. eapply Forall_impl; [exact Ho|]. intros d. unfold compose. case_bool_decide; [|done]. simpl. by rewrite Hs.
Qed.

Lemma wants_unchanged i db p d gaddr s :
  sl_ordered (m_downstreams p) -> sl_find i (m_downstreams p) = Some d ->
  same_answers gaddr (d_db d.2) db ->
  downstream_wants (set_downstream_db i db p) gaddr s = downstream_wants p gaddr s.
Proof.
  intros Ho Hd Hs. unfold downstream_wants. simpl. unfold sl_update.
  assert (Huniq : forall d', d' ∈ m_downstreams p -> key d' = i -> d' = d).
  { intros d' Hd' <-. apply sl_ordered_find in Hd'; [|done]. congruence. }
  clear Ho Hd. induction (m_downstreams p) as [|d' ds IH]; [done|]. rewrite fmap_cons. cbn [existsb].
  rewrite IH by (intros; apply Huniq; [by right|done]). case_bool_decide as Hk; [|done].
  rewrite (Huniq d') by (left || done). simpl. by rewrite Hs.
Qed.

Lemma wf_memberships_ordered e p gaddr : proxy_wf e p -> memberships_ordered p gaddr.
Proof.
  intros Hp. eapply Forall_impl; [apply (pw_dbs _ _ Hp)|]. intros d Hdb. cbv beta.
  unfold get_group_membership_infos. destruct (group_info (d_db d.2) !! gaddr) as [g|] eqn:Hg; [|constructor].
  pose proof (dw_groups _ _ Hdb gaddr g Hg) as Hwf.
  destruct (is_under_bakcward_compatibility_effects g); [constructor|].
  destruct (filter_mode g); [apply (gw_irl _ _ _ Hwf)|apply (gw_el _ _ _ Hwf)].
Qed.

(** The reports of the querier of interface [i]. *)
Definition querier_reports i p db gaddr (l : list action) : Prop :=
  reported (set_downstream_db i db p) gaddr l.

Lemma told_in_sync e' i p d gaddr db' l log :
  plain p -> sl_ordered (m_downstreams p) -> sl_find i (m_downstreams p) = Some d ->
  proxy_wf e' (set_downstream_db i db' p) -> in_sync p log ->
  others_kept gaddr (d_db d.2) db' -> told (querier_reports i p) concerns gaddr (d_db d.2) db' l ->
  in_sync (set_downstream_db i db' p) (log ++ l).
Proof.
  intros Hp Hod Hd Hwf Hsync Hok Ht.
  assert (Hl : Forall (concerns gaddr) l).
  { eapply told_concerns; [| |exact Ht].
    - by intros g [].
    - intros db g acts Hr. by eapply reported_concerns. }
  assert (Hother : forall h, h <> gaddr -> same_answers h (d_db d.2) db').
  { intros h Hh s. unfold get_group_membership_infos. by rewrite Hok. }
  intros h. destruct (decide (h = gaddr)) as [->|Hh].
  2: { destruct (Hsync h) as [H1 H2]. split.
    - intros s. rewrite reception_app, (concerns_other _ gaddr) by done.
      by rewrite H1, (wants_unchanged i db' p d) by auto.
    - eapply Forall_impl; [exact H2|]. intros v Hv. cbv beta.
      by rewrite reception_app, (concerns_other _ gaddr). }
  destruct Ht as [[Hq Hs]|(l0 & dbn & ln & lq & -> & H0 & Hn & Hq & Hs)].
  - destruct (Hsync gaddr) as [H1 H2]. split.
    + intros s. rewrite reception_app, quiet_untouched by done.
      by rewrite H1, (wants_unchanged i db' p d) by auto.
    + eapply Forall_impl; [exact H2|]. intros v Hv. cbv beta. by rewrite reception_app, quiet_untouched.
  - destruct (reported_state (set_downstream_db i dbn p) gaddr ln (log ++ l0)) as [H1 H2]; [..|done|].
    { by apply plain_downstream_db. }
    { by eapply ordered_answers, wf_memberships_ordered. }
    rewrite !app_assoc. split.
    + intros s. rewrite reception_app, quiet_untouched by done. rewrite H1. apply wants_answers.
      intros s'. by rewrite Hs.
    + eapply Forall_impl; [exact H2|]. intros v Hv. cbv beta. by rewrite reception_app, quiet_untouched.
Qed.

(** *** The messages *)

Hypothesis gts_ok : gts_built gts.

Record sync_inv e p : Prop := {
  si_wf : proxy_wf e p;
  si_plain : plain p;
  si_proper : Forall (fun d => db_proper (d_db d.2)) (m_downstreams p);
  si_sync : in_sync p (e_log e)
}.

(** The messages after the configuration: reports whose querier passes them on
    completely, all timers that were created, and everything else. *)
Definition carried e p (m : proxy_msg A) : Prop :=
  match m with
  | a_group_record_msg gr =>
    fresh_sources (gr_slist gr)
    /\ forall d, sl_find (gr_if_index gr) (m_downstreams p) = Some d -> heard gr (d_db d.2)
  | a_timer_msg t => is_Some (e_store e !! t)
  | a_config_msg _ => False
  | _ => True
  end.

Lemma callback_reports i p :
  plain p -> forall db gaddr,
    trace (cb_state_change sock snd gts get_if_name vif p i db gaddr)
          (fun _ l => querier_reports i p db gaddr l).
Proof. intros Hp db gaddr. by apply state_change_reported, plain_downstream_db. Qed.

Lemma proper_downstream_db i db p :
  db_proper db -> Forall (fun d => db_proper (d_db d.2)) (m_downstreams p) ->
  Forall (fun d => db_proper (d_db d.2)) (m_downstreams (set_downstream_db i db p)).
Proof.
  intros Hdb Hp. simpl. apply Forall_fmap. eapply Forall_impl; [exact Hp|]. intros d Hd.
  unfold compose. by case_bool_decide.
Qed.

Lemma found_proper i p d :
  Forall (fun d => db_proper (d_db d.2)) (m_downstreams p) -> sl_find i (m_downstreams p) = Some d ->
  db_proper (d_db d.2).
Proof. intros Hp Hd. apply sl_find_In in Hd. rewrite Forall_forall in Hp. by apply (Hp d). Qed.

Lemma sync_group_record gr held p e :
  sync_inv e p -> carried e p (a_group_record_msg gr) ->
  wp (handle_message clk sock stats snd gts get_if_name vif w held (a_group_record_msg gr) p)
     (fun r e' => sync_inv e' r.2) e.
Proof.
  intros [Hwf Hp Hpr Hs] [HB Hh]. cbn [handle_message].
  destruct (sl_find (gr_if_index gr) (m_downstreams p)) as [d|] eqn:Hd; [|by apply wp_ret].
  apply wp_bind. eapply wp_mono.
  { apply (wp_report_told clk snd w _ _ _ (querier_reports (gr_if_index gr) p) concerns
      (cb_state_change_io sock snd gts get_if_name vif gts_ok p _ (pw_ifs _ _ Hwf))
      (callback_reports _ p Hp)); [by intros g []| | |by eapply found_proper|by apply Hh].
    - by eapply found_db_wf.
    - done. }
  intros db' e' ([Hext Hdb'] & Hok & Hpr' & l & Hl & Ht). apply wp_ret.
  assert (Hwf' : proxy_wf e' (set_downstream_db (gr_if_index gr) db' p)) by (by eapply set_downstream_wf).
  split; [done|by apply plain_downstream_db|by apply proper_downstream_db|]. simpl. rewrite Hl.
  eapply told_in_sync; try done. apply (pw_down _ _ Hwf).
Qed.

Lemma sync_querier_timer held t tm p e :
  sync_inv e p -> e_store e !! t = Some tm ->
  (forall d, sl_find (tm_if_index tm) (m_downstreams p) = Some d -> retransmission_over t (d_db d.2)) ->
  wp (querier_timer clk sock snd gts get_if_name vif w held t tm p) (fun p' e' => sync_inv e' p') e.
Proof.
  intros [Hwf Hp Hpr Hs] Htm Hover. unfold querier_timer.
  destruct (sl_find (tm_if_index tm) (m_downstreams p)) as [d|] eqn:Hd; [|by apply wp_ret].
  apply wp_bind. eapply wp_mono.
  { apply (wp_timer_told clk snd w _ _ _ (querier_reports (tm_if_index tm) p) concerns
      (cb_state_change_io sock snd gts get_if_name vif gts_ok p _ (pw_ifs _ _ Hwf))
      (callback_reports _ p Hp)) with (tm := tm); [by intros g []| | |done|by apply Hover|by eapply found_proper].
    - intros db gaddr l Hr. by eapply reported_concerns.
    - by eapply found_db_wf. }
  intros db' e' ([Hext Hdb'] & Hpr' & l & Hl & Hcase). apply wp_ret.
  assert (Hwf' : proxy_wf e' (set_downstream_db (tm_if_index tm) db' p)) by (by eapply set_downstream_wf).
  split; [done|by apply plain_downstream_db|by apply proper_downstream_db|]. rewrite Hl.
  destruct Hcase as [[Hq Hsame]|(gaddr & Hok & Ht)].
  - intros gaddr. destruct (Hs gaddr) as [H1 H2]. split.
    + intros s. rewrite reception_app, quiet_untouched by done.
      rewrite H1. symmetry. by apply (wants_unchanged _ _ _ d); [apply (pw_down _ _ Hwf)|..].
    + eapply Forall_impl; [exact H2|]. intros v Hv. cbv beta. by rewrite reception_app, quiet_untouched.
  - eapply told_in_sync; try done. apply (pw_down _ _ Hwf).
Qed.

(** *** Sources *)

(** Only the table of sources changes, and only routes are set. *)
Definition rerouted p p' : Prop := exists data, p' = set_data data p.

Lemma sync_rerouted e p e' p' l :
  sync_inv e p -> proxy_wf e' p' -> rerouted p p' -> e_log e' = e_log e ++ l -> Forall route_call l ->
  sync_inv e' p'.
Proof.
  intros [_ [] Hpr Hs] Hwf' [data ->] Hl Hr. split; [done|by split|done|]. rewrite Hl. intros gaddr.
  destruct (Hs gaddr) as [H1 H2]. split.
  - intros s. rewrite reception_app, routes_untouched by done. apply H1.
  - eapply Forall_impl; [exact H2|]. intros v Hv. cbv beta. by rewrite reception_app, routes_untouched.
Qed.

Lemma rule_not_mutex p :
  is_rule_matching_type p IT_UPSTREAM ID_IN RMT_FIRST = true ->
  is_rule_matching_type p IT_UPSTREAM ID_IN RMT_MUTEX = false.
Proof.
  unfold is_rule_matching_type. destruct (m_upstream_input_rule p) as [rb|]; [|done].
  intros Hr. apply bool_decide_eq_true in Hr. by rewrite Hr.
Qed.

Lemma packet_count_makes gaddr sa : makes route_call (get_current_packet_count stats gaddr sa) always.
Proof.
  unfold get_current_packet_count, get_mroute_stats. eapply (makes_bind _ _ _ always); [|by intros; apply makes_ret].
  apply makes_silent. by intros e x e' [= _ <-].
Qed.

Lemma source_timer_makes p i gaddr sa : makes route_call (set_source_timer clk w p i gaddr sa) always.
Proof. unfold set_source_timer. quiet_steps. Qed.

Ltac next_call := eapply (makes_bind _ _ _ always); [by eauto using makes_deref, set_routes_calls, makes_call|intros ? _].

Lemma new_source_makes i gaddr sa p :
  plain p ->
  makes route_call (event_new_source clk sock stats snd gts get_if_name vif w i gaddr sa p) (rerouted p).
Proof.
  intros Hp. pose proof packet_count_makes. pose proof source_timer_makes. unfold event_new_source.
  next_call. eapply (makes_bind _ _ _ always); [unfold set_source; quiet_steps|intros data _]. cbv zeta.
  do 2 next_call.
  change (is_rule_matching_type (set_data data p)) with (is_rule_matching_type p).
  rewrite (rule_not_mutex p (pl_rule _ Hp)). apply makes_ret. by eexists.
Qed.

Lemma maintain_makes held t p :
  plain p ->
  makes route_call (timer_triggerd_maintain_routing_table clk sock stats snd gts get_if_name vif w held t p)
    (rerouted p).
Proof.
  intros Hp. pose proof packet_count_makes. pose proof source_timer_makes.
  assert (Hsame : makes route_call (mret p : M A _) (rerouted p)) by (apply makes_ret; exists (m_data p); by destruct p).
  unfold timer_triggerd_maintain_routing_table.
  eapply (makes_bind _ _ _ always); [apply makes_get_timer|]. intros tm _. case_if; [done|].
  destruct (tm_type tm); try done. do 2 next_call. destruct (sl_find _ _); [|done]. case_if; [|done].
  eapply (makes_bind _ _ _ always); [unfold refresh_source_or_del_it_if_unused; quiet_steps|].
  intros [b data] _. cbv zeta. cbn [fst Datatypes.snd]. destruct b; cbn [negb].
  - next_call. apply makes_ret. by eexists.
  - eapply (makes_bind _ _ _ always); [by apply makes_call|intros ? _].
    change (is_rule_matching_type (set_data data p)) with (is_rule_matching_type p).
    rewrite (rule_not_mutex p (pl_rule _ Hp)). apply makes_ret. by eexists.
Qed.

(** An event on the sources keeps the invariant. *)
Lemma sync_by_routes (m : M A proxy_state) p e :
  sync_inv e p -> wp m (fun p' e' => proxy_wf e' p') e -> makes route_call m (rerouted p) ->
  wp (p' ← m; mret (true, p')) (fun r e' => sync_inv e' r.2) e.
Proof.
  intros Hinv Hwp Hm. apply wp_bind. eapply wp_mono; [by apply (trace_wp _ _ _ _ Hwp Hm)|].
  intros p' e' (Hwf' & l & Hl & Hr & Hre). apply wp_ret. by eapply sync_rerouted.
Qed.

(** A timer that retransmits a group query whose group has no filter timer. *)
Definition null_filter_message e p (t : tid) : Prop :=
  exists tm d, e_store e !! t = Some tm /\ sl_find (tm_if_index tm) (m_downstreams p) = Some d
    /\ null_filter_query t (d_db d.2).

Lemma ready_or_null e p t : is_Some (e_store e !! t) -> timer_ready e p t \/ null_filter_message e p t.
Proof.
  intros [tm Htm]. destruct (sl_find (tm_if_index tm) (m_downstreams p)) as [d|] eqn:Hd.
  - destruct (over_or_null t (d_db d.2)) as [Hover|Hnull]; [left|right; by exists tm, d].
    exists tm. split; [done|]. intros d' Hd'. by simplify_eq.
  - left. exists tm. split; [done|]. intros d' Hd'. by simplify_eq.
Qed.

(** Every message that its sender and the timers make ready is handled. *)
Definition ready e p (m : proxy_msg A) : Prop :=
  match m with a_timer_msg t => timer_ready e p t | _ => True end.

Lemma sync_message held m p e :
  sync_inv e p -> carried e p m -> ready e p m ->
  wp (handle_message clk sock stats snd gts get_if_name vif w held m p)
     (fun r e' => sync_inv e' r.2) e.
Proof.
  intros Hinv Hm Hready. destruct m as [|v pr|t|gr|i gaddr sa|cm| |]; try by apply wp_ret.
  - destruct Hready as (tm & Htm & Hover). cbn [handle_message]. apply wp_bind.
    unfold wp at 1, get_timer. rewrite Htm.
    assert (Hq : wp (p' ← querier_timer clk sock snd gts get_if_name vif w held t tm p; mret (true, p'))
      (fun r e' => sync_inv e' r.2) e).
    { apply wp_bind. eapply wp_mono; [by apply sync_querier_timer|]. intros p' e' ?. by apply wp_ret. }
    destruct (tm_type tm); try exact Hq; try by apply wp_ret.
    apply (sync_by_routes _ p); [done|by eapply wp_maintain; [..|apply (si_wf _ _ Hinv)|]|].
    apply maintain_makes, (si_plain _ _ Hinv).
  - by apply sync_group_record.
  - apply (sync_by_routes _ p); [done|by apply wp_event_new_source, (si_wf _ _ Hinv)|].
    apply new_source_makes, (si_plain _ _ Hinv).
Qed.

(** C4: The memberships asked for upstream are those of the listeners downstream.
    With the rule FIRST, unfiltered interfaces and a sender that records the
    memberships it is given (the IGMP one), after the configuration: the handling
    of a report of the current version, of an older version's report or leave of a
    group with listeners, of any timer that was created, of a new source, and of
    every other message keeps the invariant that, for every group, the reception
    state which the calls so far ask for on the first upstream interface receives
    a source exactly if some downstream querier wants it, and that nothing is
    joined on the other upstream interfaces. The handling of such a message has a
    result, unless it is a timer that retransmits the query of a group without a
    filter timer. *)
Theorem upstream_in_sync held m p e :
  sync_inv e p -> carried e p m ->
  match handle_message clk sock stats snd gts get_if_name vif w held m p e with
  | Some (r, e') => sync_inv e' r.2
  | None => exists t, m = a_timer_msg t /\ null_filter_message e p t
  end.
Proof.
  intros Hinv Hm.
  assert (Hcase : ready e p m \/ exists t, m = a_timer_msg t /\ null_filter_message e p t).
  { destruct m as [|v pr|t|gr|i gaddr sa|cm| |]; try by left. destruct (ready_or_null e p t Hm); [by left|right; by exists t]. }
  destruct (handle_message clk sock stats snd gts get_if_name vif w held m p e) as [[[b p'] e']|] eqn:Hrun.
  - assert (Hready : ready e p m).
    { destruct m as [|v pr|t|gr|i gaddr sa|cm| |]; try done. by eapply handled_timer_ready; [apply (si_wf _ _ Hinv)|]. }
    pose proof (sync_message held m p e Hinv Hm Hready) as Hwp. unfold wp in Hwp. by rewrite Hrun in Hwp.
  - destruct Hcase as [Hready|?]; [|done].
    pose proof (sync_message held m p e Hinv Hm Hready) as Hwp. unfold wp in Hwp. by rewrite Hrun in Hwp.
Qed.
End Sync.

(** ** Examples: the instance of [ex_proxy], without listeners at first *)

Lemma ex_plain db : plain (ex_upstream 2 0) [ex_upstream 3 1] (ex_proxy db).
Proof.
  split; try reflexivity.
  - repeat constructor; set_solver.
  - apply ex_unfiltered.
  - repeat constructor. apply ex_unfiltered.
Qed.

Lemma ex_sync : sync_inv (ex_upstream 2 0) [ex_upstream 3 1] empty_env (ex_proxy ex_db).
Proof.
  split; [|apply ex_plain|by repeat constructor|].
  - split; [apply empty_env_wf|repeat constructor|repeat constructor| |apply ex_interfaces_set|apply ex_data_wf].
    apply Forall_singleton, ex_db_wf.
  - intros gaddr. split; [done|]. repeat constructor.
Qed.


Lemma upstream_in_sync_witness :
  match handle_message ex_clk ex_sock ex_stats ex_sender ∅ ex_if_name ex_vif 0 false
          (a_group_record_msg (ex_report CHANGE_TO_EXCLUDE_MODE [ex_source 1; ex_source 2] IGMPv3))
          (ex_proxy ex_db) empty_env with
  | Some (r, e') => sync_inv (ex_upstream 2 0) [ex_upstream 3 1] e' r.2
  | None => exists t : tid,
      a_group_record_msg (ex_report CHANGE_TO_EXCLUDE_MODE [ex_source 1; ex_source 2] IGMPv3) = a_timer_msg t
      /\ null_filter_message empty_env (ex_proxy ex_db) t
  end.
Proof.
  apply (upstream_in_sync ex_clk ex_sock ex_stats ex_sender ∅ ex_if_name ex_vif 0 (ex_upstream 2 0)
    [ex_upstream 3 1] gts_empty false _ _ _ ex_sync).
  split; [exact ex_fresh|]. intros d _. left. reflexivity.
Defined.

(** The restriction is needed: after a leave of an older version for a group
    without listeners the instance receives the group, though nobody wants it. *)
Lemma older_leave_out_of_sync :
  match handle_message ex_clk ex_sock ex_stats ex_sender ∅ ex_if_name ex_vif 0 false
          (a_group_record_msg (ex_report CHANGE_TO_INCLUDE_MODE [] IGMPv2)) (ex_proxy ex_db) empty_env with
  | Some (r, e') =>
    receives (reception 2 (to_storage ex_group) (e_log e')) (to_storage (saddr (ex_source 1))) = true
    /\ downstream_wants r.2 ex_group (saddr (ex_source 1)) = false
  | None => False
  end.
Proof. vm_compute. done. Qed.
