(* ===== verification/Reminders.v ===== *)
(** * Every timer that matters is awaited

    The queriers keep timers and the timing thread keeps reminders of them, in a
    map that refuses a reminder if its time point is taken. Here both are put side
    by side: every timer that a querier waits for has its reminder, or its message
    is in the queue, or its reminder was refused; and a timer whose message was
    handled is not waited for any more. *)

From S2P Require Import Prelude Def TimersValues AddrStorage Filter Timing Messages Sender.
From S2P Require Import MembershipDb Querier QuerierSpec QuerierHelpers QuerierReports QuerierTimers.
From S2P Require Import QuerierTheorems RoutingData ProxyRouting RoutingTheorems ProxyInstance InstanceTheorems.

Local Open Scope Z_scope.

(** ** Computations and reminders *)

Section Arms.
Context {A : Type} `{Address A} (clk : nat -> Z) (w : Z).

(** Timers are allocated one after the other. *)
Definition env_ok (e : env A) : Prop := forall t, is_Some (e_store e !! t) -> (t < e_next e)%nat.

(** There is a reminder of a timer, or it was refused. *)
Definition waiting (e : env A) (t : tid) : Prop := (Some w, t) ∈ (e_timing e).*2.
Definition reminded (e : env A) (t : tid) : Prop := waiting e t \/ t ∈ e_lost e.

(** What does not change in a timer. *)
Definition same_timer (tm tm' : timer_msg A) : Prop :=
  tm_type tm' = tm_type tm /\ tm_if_index tm' = tm_if_index tm /\ tm_gaddr tm' = tm_gaddr tm
  /\ tm_saddr tm' = tm_saddr tm.

Definition kept (e e' : env A) : Prop :=
  forall t tm, e_store e !! t = Some tm -> exists tm', e_store e' !! t = Some tm' /\ same_timer tm tm'.

(** A timer with a property that does not change. *)
Definition made (P : timer_msg A -> Prop) (e : env A) (t : tid) : Prop :=
  exists tm, e_store e !! t = Some tm /\ P tm.

Definition lasting (P : timer_msg A -> Prop) : Prop :=
  forall tm tm', same_timer tm tm' -> P tm -> P tm'.

#[local] Instance kept_preorder : PreOrder kept.
Proof.
  split; [intros e t tm Ht; exists tm; by split_and!|].
  intros e1 e2 e3 H12 H23 t tm Ht. destruct (H12 t tm Ht) as (tm2 & Ht2 & ? & ? & ? & ?).
  destruct (H23 t tm2 Ht2) as (tm3 & Ht3 & ? & ? & ? & ?). exists tm3. split; [done|]. split_and!; congruence.
Qed.

Lemma made_kept P e e' t : lasting P -> kept e e' -> made P e t -> made P e' t.
Proof. intros HP Hk (tm & Ht & Htm). destruct (Hk t tm Ht) as (tm' & Ht' & Hs). exists tm'. eauto. Qed.

(** A computation that sets reminders, given timers [ts] of the kind [P]; its
    result is related to the timers for which it set one. *)
Context (P : timer_msg A -> Prop).
Hypothesis P_lasting : lasting P.

Record armed (e e' : env A) (l : list tid) : Prop := {
  ar_ok : env_ok e';
  ar_kept : kept e e';
  ar_reminded : forall t, reminded e t -> reminded e' t;
  ar_set : Forall (fun t => reminded e' t /\ made P e' t) l
}.

Definition arms (ts : list tid) {X} (m : M A X) (R : X -> list tid -> Prop) : Prop :=
  forall e x e', m e = Some (x, e') -> env_ok e -> Forall (made P e) ts ->
    exists l, armed e e' l /\ R x l.

Lemma arms_ret ts {X} (x : X) (R : X -> list tid -> Prop) : R x [] -> arms ts (mret x) R.
Proof. intros HR e y e' [= <- <-] Hok _. exists []. split; [by split|done]. Qed.

Lemma arms_mono ts {X} (m : M A X) (R R' : X -> list tid -> Prop) :
  arms ts m R -> (forall x l, R x l -> R' x l) -> arms ts m R'.
Proof. intros Hm HR e x e' E Hok Hts. destruct (Hm e x e' E Hok Hts) as (l & ? & ?). eauto. Qed.

(** One part after the other. *)
Lemma armed_app ts e e1 e2 l1 l2 :
  armed e e1 l1 -> (Forall (made P e1) ts -> armed e1 e2 l2) -> Forall (made P e) ts -> armed e e2 (l1 ++ l2).
Proof.
  intros [Hok1 Hk1 Hw1 Hs1] H2 Hts. destruct H2 as [Hok2 Hk2 Hw2 Hs2].
  { eapply Forall_impl; [exact Hts|]. intros t. by apply made_kept. }
  split; [done|by etrans|by auto|].
  apply Forall_app. split; [|done]. eapply Forall_impl; [exact Hs1|]. intros t [? ?]. split; [by auto|by eapply made_kept].
Qed.

Lemma arms_bind ts {X Y} (m : M A X) (f : X -> M A Y) (R : X -> list tid -> Prop)
    (R' : Y -> list tid -> Prop) :
  arms ts m R -> (forall x, arms ts (f x) (fun y l' => forall l, R x l -> R' y (l ++ l'))) ->
  arms ts (m ≫= f) R'.
Proof.
  intros Hm Hf e y e' E Hok Hts. unfold mbind, M_bind in E. destruct (m e) as [[x e1]|] eqn:E1; [|done].
  destruct (Hm _ _ _ E1 Hok Hts) as (l1 & H1 & HR1).
  destruct (Hf x _ _ _ E) as (l2 & H2 & HR2); [apply H1| |].
  { eapply Forall_impl; [exact Hts|]. intros t. apply made_kept; [done|apply H1]. }
  exists (l1 ++ l2). split; [|by apply HR2]. by eapply armed_app.
Qed.

Lemma arms_deref ts {X Y} (p : option X) (f : X -> M A Y) (R : Y -> list tid -> Prop) :
  (forall x, p = Some x -> arms ts (f x) R) -> arms ts (deref p ≫= f) R.
Proof. intros Hf e y e' E. destruct p as [x|]; [|done]. by apply (Hf x eq_refl). Qed.

(** Nothing but the clock and the log is touched. *)
Definition passive {X} (m : M A X) (K : X -> Prop) : Prop :=
  forall e x e', m e = Some (x, e') ->
    e_next e' = e_next e /\ e_store e' = e_store e /\ e_timing e' = e_timing e /\ e_lost e' = e_lost e /\ K x.

Lemma arms_passive ts {X} (m : M A X) (K : X -> Prop) : passive m K -> arms ts m (fun x l => l = [] /\ K x).
Proof.
  intros Hm e x e' E Hok Hts. destruct (Hm e x e' E) as (Hn & Hs & Ht & Hl & HK).
  exists []. split; [|done]. split.
  - unfold env_ok. by rewrite Hs, Hn.
  - intros t tm Htm. rewrite Hs. exists tm. by split_and!.
  - unfold reminded, waiting. by rewrite Ht, Hl.
  - constructor.
Qed.

Lemma arms_bind_passive ts {X Y} (m : M A X) (K : X -> Prop) (f : X -> M A Y) (R : Y -> list tid -> Prop) :
  passive m K -> (forall x, K x -> arms ts (f x) R) -> arms ts (m ≫= f) R.
Proof.
  intros Hm Hf e y e' E Hok Hts. unfold mbind, M_bind in E. destruct (m e) as [[x e1]|] eqn:E1; [|done].
  destruct (Hm _ _ _ E1) as (_ & _ & _ & _ & HK). destruct (arms_passive ts m K Hm _ _ _ E1 Hok Hts) as (l1 & H1 & -> & _).
  destruct (Hf x HK _ _ _ E) as (l2 & H2 & HR2); [apply H1| |].
  { eapply Forall_impl; [exact Hts|]. intros t. apply made_kept; [done|apply H1]. }
  exists l2. split; [|done]. by apply (armed_app ts e e1 e' [] l2).
Qed.

(** A new timer may be given a reminder from then on. *)
Lemma arms_make ts ty i g s d {Y} (f : tid -> M A Y) (R : Y -> list tid -> Prop) :
  (forall t0, P (new_timer ty i g s t0 d)) -> (forall t, arms (t :: ts) (f t) R) ->
  arms ts (make_timer clk ty i g s d ≫= f) R.
Proof.
  intros HP Hf e y e' E Hfr Hts. unfold mbind, M_bind, make_timer, mbind, M_bind, now, alloc in E. cbn in E.
  assert (Hnew : forall t, is_Some (e_store e !! t) -> e_next e <> t) by (intros t Ht%Hfr; lia).
  destruct (Hf _ _ _ _ E) as (l & [Hok2 Hk2 Hw2 Hs2] & HR).
  - intros t Ht. cbn in *. destruct (decide (t = e_next e)) as [->|]; [lia|]. rewrite lookup_insert_ne in Ht by done.
    apply Hfr in Ht. lia.
  - constructor; [eexists; cbn; by rewrite lookup_insert_eq|]. eapply Forall_impl; [exact Hts|].
    intros t (tm & Ht & Htm). exists tm. split; [|done]. cbn. rewrite lookup_insert_ne; [done|]. apply Hnew; eauto.
  - exists l. split; [|done]. split; [done| |by auto|done].
    intros t tm Ht. apply (Hk2 t tm). cbn. rewrite lookup_insert_ne; [done|]. apply Hnew; eauto.
Qed.

(** A reminder is set; if its time point is taken, it is refused. *)
Lemma arms_add ts d t (Q : list tid -> Prop) :
  t ∈ ts -> Q [t] -> arms ts (add_time_msg clk d w t) (fun _ l => Q l).
Proof.
  intros Ht HQ e x e' [= <- <-] Hfr Hts. exists [t]. split; [|done].
  rewrite Forall_forall in Hts. unfold reminded, waiting. cbn.
  pose proof (add_time_cases (clk (e_reads e)) d (Some w) t (e_timing e)) as Hdb.
  split.
  - exact Hfr.
  - intros t' tm Htm. exists tm. by split_and!.
  - intros t'. unfold reminded, waiting. cbn. destruct (sl_find _ (e_timing e)); rewrite Hdb.
    + rewrite elem_of_app. tauto.
    + cbn. rewrite elem_of_cons. tauto.
  - constructor; [|constructor]. split; [|by apply (Hts t)].
    unfold reminded, waiting. cbn. destruct (sl_find _ (e_timing e)); rewrite Hdb.
    + right. apply elem_of_app. right. left.
    + left. left.
Qed.

(** *** Passive computations *)

Lemma passive_ret {X} (x : X) (K : X -> Prop) : K x -> passive (mret x) K.
Proof. intros HK e y e' [= <- <-]. by split_and!. Qed.

Lemma passive_bind {X Y} (m : M A X) (f : X -> M A Y) (K : X -> Prop) (K' : Y -> Prop) :
  passive m K -> (forall x, K x -> passive (f x) K') -> passive (m ≫= f) K'.
Proof.
  intros Hm Hf e y e' E. unfold mbind, M_bind in E. destruct (m e) as [[x e1]|] eqn:E1; [|done].
  destruct (Hm _ _ _ E1) as (? & ? & ? & ? & HK). destruct (Hf x HK _ _ _ E) as (? & ? & ? & ? & ?).
  split_and!; congruence || done.
Qed.

Lemma passive_mono {X} (m : M A X) (K K' : X -> Prop) : passive m K -> (forall x, K x -> K' x) -> passive m K'.
Proof. intros Hm HK e x e' E. destruct (Hm e x e' E) as (? & ? & ? & ? & ?). split_and!; auto. Qed.

Lemma passive_io {X} (m : M A X) : (forall e, wp m (fun _ e' => env_io e e') e) -> passive m (fun _ => True).
Proof.
  intros Hm e x e' E. specialize (Hm e). unfold wp in Hm. rewrite E in Hm. by destruct Hm.
Qed.

Lemma passive_foldM {X Y} (f : X -> Y -> M A X) (K : X -> Prop) x l :
  K x -> (forall x y, K x -> passive (f x y) K) -> passive (foldM f x l) K.
Proof.
  intros HK Hf. revert x HK. induction l as [|y l IH]; intros x HK; [by apply passive_ret|].
  eapply passive_bind; [by apply Hf|]. intros x' HK'. by apply IH.
Qed.
End Arms.

(** ** Senders *)

Section Senders.
Context {A : Type} `{Address A} (clk : nat -> Z) (sock : nat -> action -> bool).

(** The timers of a list of sources. *)
Definition timers (l : list (source A)) : list tid := omap shared_source_timer l.

(** The query for sources sets no reminder, and counts their retransmissions down. *)
Class PassiveSender (snd : sender (A := A)) : Prop :=
  source_query_passive i tv g l :
    passive (send_mc_addr_and_src_specific_query snd i tv g l)
      (fun r => r = (existsb counting (count_down <$> l), count_down <$> l)).

Lemma timers_count_down (l : list (source A)) : timers (count_down <$> l) = timers l.
Proof.
  unfold timers. induction l as [|s l IH]; [done|]. cbn. rewrite IH. unfold count_down. by case_if.
Qed.

Lemma passive_get_timer t : passive (get_timer t : M A _) (fun _ => True).
Proof. intros e x e'. unfold get_timer. destruct (_ !! _); [|done]. by intros [= <- <-]. Qed.

Lemma passive_now : passive (now clk : M A _) (fun _ => True).
Proof. apply passive_io. intros e. by apply wp_now. Qed.

Lemma passive_call a : passive (call sock a : M A _) (fun _ => True).
Proof. apply passive_io. intros e. by apply wp_call. Qed.

Lemma query_step_passive tv acc (s : source A) :
  passive (query_step clk tv acc s)
    (fun acc' => acc'.1.1 = ((if counting (count_down s) then true else acc.1.1.1), acc.1.1.2 ++ [count_down s])).
Proof.
  destruct acc as [[[rc out] lo] hi]. unfold query_step. fold (counting s). destruct (counting s) eqn:Hc.
  - rewrite (count_down_counting s Hc). cbv zeta. cbn [shared_source_timer Messages.set_timer retransmission_count].
    destruct (shared_source_timer s); [|by apply passive_ret].
    eapply passive_bind; [apply passive_get_timer|intros tm _].
    eapply passive_bind; [apply passive_now|intros t0 _]. case_if; by apply passive_ret.
  - apply passive_ret. cbn. by rewrite (count_down_idle s Hc), Hc.
Qed.

Lemma query_loop_passive tv (l : list (source A)) :
  passive (query_loop clk tv l) (fun r => r.1.1 = (existsb counting (count_down <$> l), count_down <$> l)).
Proof.
  unfold query_loop.
  cut (forall l acc, passive (foldM (query_step clk tv) acc l)
        (fun r => r.1.1 = (acc.1.1.1 || existsb counting (count_down <$> l), acc.1.1.2 ++ (count_down <$> l))));
    [intros Hl; apply (Hl l (false, [], [], []))|].
  clear l. intros l. induction l as [|s l IH]; intros acc.
  { apply passive_ret. destruct acc as [[[rc out] lo] hi]. cbn. by rewrite orb_false_r, app_nil_r. }
  cbn [foldM]. eapply passive_bind; [apply query_step_passive|]. intros acc' Hacc.
  eapply passive_mono; [apply IH|]. intros r ->. rewrite Hacc. cbn. rewrite <- app_assoc.
  by destruct (counting (count_down s)), acc.1.1.1.
Qed.

Ltac passive_steps :=
  repeat lazymatch goal with
         | |- passive (mret _) _ => apply passive_ret
         | |- passive (mbind _ _) _ => eapply (passive_bind _ _ (fun _ => True)); [|intros ? _]
         | |- passive (call _ _) _ => apply passive_call
         | |- passive (if ?b then _ else _) _ => destruct b
         | |- True => exact I
         end.

#[export] Instance igmp_sender_passive : PassiveSender (igmp_sender clk sock).
Proof.
  intros i tv g l. cbn. unfold igmp_source_query.
  eapply passive_bind; [apply query_loop_passive|]. intros [[[rc out] lo] hi] [= -> ->].
  unfold send_igmpv3_query. cbv zeta. passive_steps; done.
Qed.

#[export] Instance mld_sender_passive : PassiveSender (mld_sender clk sock).
Proof.
  intros i tv g l. cbn. unfold mld_source_query.
  eapply passive_bind; [apply query_loop_passive|]. intros [[[rc out] lo] hi] [= -> ->].
  unfold send_mldv2_query. cbv zeta. passive_steps; done.
Qed.
End Senders.

(** ** The timers a querier waits for *)

Section Roles.
Context {A : Type} `{Address A}.
Implicit Types (gaddr : A) (g : gaddr_info A) (db : membership_db A) (t : tid) (l : list tid).

(** Some source is in retransmission. *)
Definition retransmitting (l : list (source A)) : Prop := exists s, s ∈ l /\ counting s = true.

(** A record waits for its filter timer, the older host present timer, the timers
    of its sources, and for the retransmission timers as long as retransmissions
    remain. *)
Definition record_waits g t (ty : message_type) : Prop :=
  match ty with
  | FILTER_TIMER_MSG => shared_filter_timer g = Some t
  | OLDER_HOST_PRESENT_TIMER_MSG => older_host_present_timer g = Some t
  | SOURCE_TIMER_MSG => t ∈ timers (include_requested_list g) \/ t ∈ timers (exclude_list g)
  | RET_GROUP_TIMER_MSG => group_retransmission_timer g = Some t /\ 0 < group_retransmission_count g
  | RET_SOURCE_TIMER_MSG => source_retransmission_timer g = Some t /\ retransmitting (include_requested_list g)
  | _ => False
  end.

(** A database also waits for the next general query. *)
Definition waits_for db t (ty : message_type) (og : option A) : Prop :=
  (ty = GENERAL_QUERY_TIMER_MSG /\ og = None /\ general_query_timer db = Some t)
  \/ exists gaddr g, og = Some gaddr /\ group_info db !! gaddr = Some g /\ record_waits g t ty.

(** The record [g'] waits for nothing else than [g] but for the timers [l]. *)
Definition more g g' l : Prop := forall t ty, record_waits g' t ty -> record_waits g t ty \/ t ∈ l.

Definition db_more db db' l : Prop :=
  forall t ty og, waits_for db' t ty og -> waits_for db t ty og \/ t ∈ l.

Lemma more_refl g : more g g [].
Proof. intros t ty. by left. Qed.

Lemma more_trans g1 g2 g3 l1 l2 : more g1 g2 l1 -> more g2 g3 l2 -> more g1 g3 (l1 ++ l2).
Proof.
  intros H12 H23 t ty H3. destruct (H23 t ty H3) as [H2|?]; [|right; apply elem_of_app; by right].
  destruct (H12 t ty H2) as [?|?]; [by left|right; apply elem_of_app; by left].
Qed.

Lemma db_more_refl db : db_more db db [].
Proof. intros t ty og. by left. Qed.

Lemma db_more_set gaddr g g' db l :
  (group_info db !! gaddr = Some g \/ forall t ty, ~ record_waits g t ty) -> more g g' l ->
  db_more db (set_group gaddr g' db) l.
Proof.
  intros Hg Hm t ty og [Hq|(h & g1 & -> & Hh & Hw)]; [left; by left|]. simpl in Hh.
  destruct (decide (h = gaddr)) as [->|Hne].
  - rewrite lookup_insert_eq in Hh. injection Hh as <-. destruct (Hm t ty Hw) as [Hw'|?]; [|by right].
    destruct Hg as [Hg|Hg]; [|by destruct (Hg t ty)]. left. right. eauto.
  - rewrite lookup_insert_ne in Hh by done. left. right. eauto.
Qed.

Lemma db_more_del gaddr db l : db_more db (del_group gaddr db) l.
Proof.
  intros t ty og [Hq|(h & g1 & -> & Hh & Hw)]; [left; by left|]. simpl in Hh.
  apply lookup_delete_Some in Hh as [_ Hh]. left. right. eauto.
Qed.

Lemma timers_In (l : list (source A)) t : t ∈ timers l <-> exists s : source A, s ∈ l /\ shared_source_timer s = Some t.
Proof. unfold timers. by rewrite list_elem_of_omap. Qed.

Lemma timers_add (l1 l2 : list (source A)) t : t ∈ timers (sl_add_assign l1 l2) -> t ∈ timers l1 \/ t ∈ timers l2.
Proof. rewrite !timers_In. intros (s & [?|?]%sl_add_In & ?); eauto. Qed.

Lemma timers_mul (l1 l2 : list (source A)) t : t ∈ timers (sl_mul_assign l1 l2) -> t ∈ timers l1.
Proof. rewrite !timers_In. intros (s & ?%sl_mul_In & ?); eauto. Qed.

Lemma timers_sub (l1 l2 : list (source A)) t : t ∈ timers (sl_sub_assign l1 l2) -> t ∈ timers l1.
Proof. rewrite !timers_In. intros (s & ?%sl_sub_In & ?); eauto. Qed.

Lemma retransmitting_add (l1 l2 : list (source A)) :
  retransmitting (sl_add_assign l1 l2) -> retransmitting l1 \/ retransmitting l2.
Proof. intros (s & [?|?]%sl_add_In & ?); [left|right]; by exists s. Qed.

Lemma retransmitting_mul (l1 l2 : list (source A)) : retransmitting (sl_mul_assign l1 l2) -> retransmitting l1.
Proof. intros (s & ?%sl_mul_In & ?). by exists s. Qed.

Lemma retransmitting_sub (l1 l2 : list (source A)) : retransmitting (sl_sub_assign l1 l2) -> retransmitting l1.
Proof. intros (s & ?%sl_sub_In & ?). by exists s. Qed.

Lemma retransmitting_fresh (l : list (source A)) : fresh_sources l -> ~ retransmitting l.
Proof. intros [_ Hl] (s & Hs & Hc). rewrite Forall_forall in Hl. rewrite (Hl s Hs) in Hc. done. Qed.

Lemma retransmitting_existsb (l : list (source A)) : retransmitting l <-> existsb counting l = true.
Proof.
  rewrite existsb_exists. split; intros (s & Hs & Hc); exists s; split; try done; by apply list_elem_of_In.
Qed.

Lemma timers_fresh (l : list (source A)) t : fresh_sources l -> t ∉ timers l.
Proof.
  intros [_ Hl] Ht. apply timers_In in Ht as (s & Hs & Ht). rewrite Forall_forall in Hl.
  rewrite (Hl s Hs) in Ht. done.
Qed.

(** A well-formed database waits for timers of the kind and group it knows them by. *)
Lemma waits_timer e db t ty og : db_wf e db -> waits_for db t ty og -> timer_is e t ty og.
Proof.
  intros Hdb [(-> & -> & Hq)|(gaddr & g & -> & Hg & Hw)]; [by apply (dw_gqt _ _ Hdb)|].
  pose proof (dw_groups _ _ Hdb gaddr g Hg) as Hwf. destruct ty; try done.
  - by apply (gw_filter _ _ _ Hwf).
  - destruct Hw as [Ht|Ht]; apply timers_In in Ht as (s & Hs & Ht).
    + pose proof (gw_timed _ _ _ Hwf) as Hti. rewrite Forall_forall in Hti.
      destruct (Hti s Hs) as (t' & Ht' & Htm). by simplify_eq.
    + pose proof (gw_untimed _ _ _ Hwf) as Hun. rewrite Forall_forall in Hun. rewrite (Hun s Hs) in Ht. done.
  - destruct Hw as [Hw _]. by apply (gw_grt _ _ _ Hwf).
  - destruct Hw as [Hw _]. by apply (gw_srt _ _ _ Hwf).
  - by apply (gw_ohpt _ _ _ Hwf).
Qed.
End Roles.

(** ** The handlers set the reminders of what they wait for *)

Section Handlers.
Context {A : Type} `{Address A} (clk : nat -> Z).
Context (snd : sender (A := A)) `{!SenderLaws snd} `{!PassiveSender snd}.
Context (w i : Z) (tv : timers_values).

Implicit Types (gaddr : A) (g : gaddr_info A) (db : membership_db A) (t : tid).

(** The timers of a querier belong to its interface. *)
Definition of_interface (j : Z) (tm : timer_msg A) : Prop := tm_if_index tm = j.

Lemma of_interface_lasting j : lasting (of_interface j).
Proof. intros tm tm' (_ & Hi & _) Htm. unfold of_interface in *. congruence. Qed.

Notation arming ts m R := (arms w (of_interface i) ts m R).

(** The routing that is told. *)
Context (cb : membership_db A -> A -> M A unit).
Hypothesis cb_io : forall db gaddr e, wp (cb db gaddr) (fun _ e' => env_io e e') e.

Lemma arming_timer ts ty og s d {Y} (f : tid -> M A Y) (R : Y -> list tid -> Prop) :
  (forall t, arming (t :: ts) (f t) (fun y l => R y (t :: l))) ->
  arming ts (t ← make_timer clk ty i og s d; add_time_msg clk d w t;; f t) R.
Proof.
  intros Hf. apply arms_make; [done|]. intros t.
  eapply (arms_bind _ _ (of_interface_lasting i) _ _ _ (fun _ l => l = [t])).
  - apply arms_add; [left|done].
  - intros []. eapply arms_mono; [apply Hf|]. intros y l HR ? ->. done.
Qed.

(** A reminder is only set for a timer that is used. *)
Lemma arming_if (b : bool) t ts d {Y} (f : unit -> M A Y) (R : Y -> list tid -> Prop) :
  t ∈ ts -> arming ts (f tt) (fun y l => R y ((if b then [t] else []) ++ l)) ->
  arming ts ((if b then add_time_msg clk d w t else mret tt) ≫= f) R.
Proof.
  intros Ht Hf. eapply (arms_bind _ _ (of_interface_lasting i) _ _ _ (fun _ l => l = if b then [t] else [])).
  - destruct b; [by apply arms_add|by apply arms_ret].
  - intros []. eapply arms_mono; [exact Hf|]. by intros y l HR ? ->.
Qed.

Lemma arming_bind_more ts (m : M A (gaddr_info A)) f g :
  arming ts m (more g) -> (forall g1, arming ts (f g1) (more g1)) -> arming ts (m ≫= f) (more g).
Proof.
  intros Hm Hf. eapply (arms_bind _ _ (of_interface_lasting i)); [exact Hm|]. intros g1.
  eapply arms_mono; [apply Hf|]. intros g2 l' H2 l H1. by eapply more_trans.
Qed.

Lemma mali_filter_arms ts gaddr g : arming ts (mali_filter clk w i tv gaddr g) (more g).
Proof.
  unfold mali_filter. cbv zeta. apply arming_timer. intros t. apply arms_ret.
  intros t' ty Hw. destruct ty; try (by left). right. cbn in Hw. injection Hw as ->. left.
Qed.

(** The timer of a list that is not empty. *)
Lemma mali_list_arms ts gaddr tmp :
  arming ts (mali_list clk w i tv gaddr tmp)
    (fun l' a => exists st, l' = (fun e => set_timer e (Some st) (-1)) <$> tmp
                 /\ a = if negb (bool_decide (tmp = [])) then [st] else []).
Proof.
  unfold mali_list. cbv zeta. apply arms_make; [done|]. intros st.
  assert (Hb : bool_decide ((fun e : source A => set_timer e (Some st) (-1)) <$> tmp = []) = bool_decide (tmp = []))
    by (apply bool_decide_ext; by destruct tmp).
  rewrite Hb. apply arming_if; [left|]. apply arms_ret. rewrite app_nil_r. by exists st.
Qed.

Lemma mali_sources_arms ts gaddr l tmp :
  arming ts (mali_sources clk w i tv gaddr l tmp)
    (fun l' a => (forall t, t ∈ timers l' -> t ∈ timers l \/ t ∈ a) /\ (retransmitting l' -> retransmitting l)).
Proof.
  unfold mali_sources. eapply (arms_bind _ _ (of_interface_lasting i)); [apply mali_list_arms|].
  intros x. apply arms_ret. intros a (st & -> & ->). rewrite app_nil_r, mali_fold. split.
  - intros t (s & Hs & Ht)%timers_In. unfold mali_on in Hs. apply list_elem_of_fmap in Hs as (s' & -> & Hs').
    case_bool_decide as Hk; [|left; apply timers_In; by exists s'].
    right. cbn in Ht. injection Ht as ->. destruct tmp; [by apply elem_of_sl_keys_In in Hk as (? & ?%elem_of_nil & _)|]. left.
  - intros (s & Hs & Hc). unfold mali_on in Hs. apply list_elem_of_fmap in Hs as (s' & -> & Hs').
    case_bool_decide; [done|by exists s'].
Qed.

Lemma mali_own_arms ts gaddr g tmp : arming ts (mali_own clk w i tv gaddr g tmp) (more g).
Proof.
  unfold mali_own. eapply (arms_bind _ _ (of_interface_lasting i)); [apply mali_sources_arms|].
  intros irl. apply arms_ret. intros a [Ha Hc] t ty Hw. rewrite app_nil_r. destruct ty; try (by left); cbn in Hw |- *.
  - destruct Hw as [Ht|Ht]; [|left; by right]. destruct (Ha t Ht); [left; by left|by right].
  - left. destruct Hw as [? ?]. by auto.
Qed.

(** The marks of [send_Q]. *)
Lemma send_Q_mark_timers st l tmp :
  let r := send_Q_mark tv st l tmp in
  (forall t, t ∈ timers r.2 -> t ∈ timers l \/ r.1 = true /\ t = st) /\ (r.1 = false -> r.2 = l).
Proof.
  unfold send_Q_mark. cut (forall (tmp : list (source A)) (u : bool) l0,
    (forall t, t ∈ timers l0 -> t ∈ timers l \/ u = true /\ t = st) /\ (u = false -> l0 = l) ->
    let r := fold_left (fun '((is_used, sl) : bool * list (source A)) (e : source A) => match sl_find (key e) sl with
      | Some it => if retransmission_count it <? 1 then (true, sl_update (key e)
              (fun it => set_timer it (Some st) (get_last_listener_query_count tv)) sl) else (is_used, sl)
      | None => (is_used, sl) end) tmp (u, l0) in
    (forall t, t ∈ timers r.2 -> t ∈ timers l \/ r.1 = true /\ t = st) /\ (r.1 = false -> r.2 = l)).
  { intros Hgo. apply Hgo. split; [by left|done]. }
  clear tmp. intros tmp. induction tmp as [|e tmp IH]; intros u l0 Hl0; [exact Hl0|]. cbn [fold_left].
  destruct (sl_find (key e) l0) as [it|]; [|by apply IH]. case_if; [|by apply IH]. apply IH.
  destruct Hl0 as [Hl0 _]. split; [|done]. intros t Ht. apply timers_In in Ht as (s & Hs & Ht). unfold sl_update in Hs.
  apply list_elem_of_fmap in Hs as (s' & -> & Hs'). case_bool_decide.
  - right. cbn in Ht. by injection Ht as ->.
  - destruct (Hl0 t) as [?|[_ ->]]; [apply timers_In; by exists s'|by left|by right].
Qed.

(** The result of [send_Q] on the sources of a record; after a retransmission only a
    new timer is waited for. *)
Lemma send_Q_own_arms ts gaddr g tmp r :
  arming ts (send_Q_own clk snd w i tv gaddr g tmp r)
    (fun g' l => more g g' l /\ (r = true -> forall t, record_waits g' t RET_SOURCE_TIMER_MSG -> t ∈ l)).
Proof.
  unfold send_Q_own.
  eapply (arms_bind _ _ (of_interface_lasting i) _ _ _
    (fun (x : gaddr_info A * list (source A)) a =>
       (exists rt, x.1 = set_source_retransmission rt g
          /\ forall t, rt = Some t -> retransmitting x.2 ->
               (r = false /\ source_retransmission_timer g = Some t /\ retransmitting (include_requested_list g)) \/ t ∈ a)
       /\ forall t, t ∈ timers x.2 -> t ∈ timers (include_requested_list g) \/ t ∈ a)).
  2:{ intros [g' l']. apply arms_ret. intros a [(rt & -> & Hrt) Ha]. rewrite app_nil_r. cbn [fst Datatypes.snd] in *.
      assert (Hr : forall t, record_waits (set_irl l' (set_source_retransmission rt g)) t RET_SOURCE_TIMER_MSG ->
        (r = false /\ record_waits g t RET_SOURCE_TIMER_MSG) \/ t ∈ a).
      { intros t [Ht Hl]. destruct (Hrt t Ht Hl) as [(? & ? & ?)|?]; [by left|by right]. }
      split.
      - intros t ty Hw. destruct ty; try (by left).
        + destruct Hw as [Ht|Ht]; cbn in Ht; [|left; by right]. destruct (Ha t Ht); [left; by left|by right].
        + destruct (Hr t Hw) as [[_ ?]|?]; [by left|by right].
      - intros Htrue t Hw. destruct (Hr t Hw) as [[? _]|?]; [congruence|done]. }
  unfold send_Q_sources. cbv zeta. apply arms_make; [done|]. intros st.
  destruct (send_Q_mark_timers st (include_requested_list g) tmp) as [Hmark Hsame].
  destruct (send_Q_mark tv st (include_requested_list g) tmp) as [u l']. cbn [fst Datatypes.snd] in *.
  apply arming_if; [left|].
  assert (Hu : forall t, t ∈ timers l' -> t ∈ timers (include_requested_list g) \/ t ∈ (if u then [st] else [])).
  { intros t Ht. destruct (Hmark t Ht) as [?|[-> ->]]; [by left|right; left]. }
  destruct (u || r) eqn:Hur.
  - eapply (arms_bind_passive _ _ (of_interface_lasting i)); [apply source_query_passive|]. intros [again l2] [= -> ->].
    destruct (existsb counting (count_down <$> l')) eqn:Hagain.
    + apply arming_timer. intros rst. apply arms_ret. cbn [fst Datatypes.snd]. rewrite timers_count_down. split.
      * exists (Some rst). split; [done|]. intros t [= <-] _. right. apply elem_of_app. right. left.
      * intros t Ht. destruct (Hu t Ht); [by left|right; apply elem_of_app; by left].
    + apply arms_ret. rewrite app_nil_r. cbn [fst Datatypes.snd]. rewrite timers_count_down. split; [|exact Hu].
      exists (source_retransmission_timer g). split; [by destruct g|].
      intros t _ Hre%retransmitting_existsb. by rewrite Hagain in Hre.
  - apply orb_false_iff in Hur as [-> ->]. apply arms_ret. rewrite app_nil_r. cbn [fst Datatypes.snd].
    rewrite (Hsame eq_refl) in *. split; [|exact Hu]. exists (source_retransmission_timer g). split; [by destruct g|].
    intros t Ht Hre. by left.
Qed.

Lemma send_Q_own_more ts gaddr g tmp r : arming ts (send_Q_own clk snd w i tv gaddr g tmp r) (more g).
Proof. eapply arms_mono; [apply send_Q_own_arms|]. by intros g' l [? _]. Qed.

(** [send_Q] on a group: a new filter timer gets its reminder, and so does a new
    retransmission timer; no other one is waited for. *)
Lemma send_Q_group_arms ts gaddr g t :
  arming ts (send_Q_group clk snd w i tv gaddr g)
    (fun g' l => more g g' l /\ (record_waits g' t RET_GROUP_TIMER_MSG -> t ∈ l)).
Proof.
  unfold send_Q_group. eapply (arms_bind _ _ (of_interface_lasting i) _ _ _ (more g)).
  { cbv zeta. destruct (group_retransmission_timer g); [apply arms_ret, more_refl|].
    apply arming_timer. intros ft. apply arms_ret. intros t' ty Hw. destruct ty; try (by left).
    - right. cbn in Hw. injection Hw as ->. left.
    - by destruct Hw. }
  intros g1.
  apply (arms_mono _ _ _ _ (fun g2 l => more g1 g2 l /\ (record_waits g2 t RET_GROUP_TIMER_MSG -> t ∈ l))).
  2:{ intros g2 l' [Hm Ht] l Hl. split; [by eapply more_trans|]. intros Hw. apply elem_of_app. right. by apply Ht. }
  destruct (0 <? group_retransmission_count g1) eqn:Hc1.
  2:{ apply arms_ret. split; [|by intros [? _]]. intros t' ty Hw. destruct ty; try (by left). by destruct Hw. }
  eapply (arms_bind _ _ (of_interface_lasting i) _ _ _
    (fun g2 l => more g1 g2 l /\ (record_waits g2 t RET_GROUP_TIMER_MSG -> t ∈ l))).
  { cbv zeta. match goal with |- arms _ _ _ (if ?b then _ else _) _ => destruct b eqn:Hc2 end.
    - apply arming_timer. intros rt. apply arms_ret. split.
      + intros t' ty Hw. destruct ty; try (by left). destruct Hw as [Ht _]. cbn in Ht. injection Ht as ->. right. left.
      + intros [Ht _]. cbn in Ht. injection Ht as ->. left.
    - apply arms_ret. cbn in Hc2. apply Z.ltb_ge in Hc2. split.
      + intros t' ty Hw. destruct ty; try (by left). destruct Hw as [_ Hw]. cbn in Hw. lia.
      + intros [_ Hw]. cbn in Hw. lia. }
  intros g2. apply arms_deref. intros ft _.
  eapply (arms_bind_passive _ _ (of_interface_lasting i)); [apply passive_get_timer|]. intros tm _.
  eapply (arms_bind_passive _ _ (of_interface_lasting i)); [apply passive_now|]. intros t0 _.
  eapply (arms_bind_passive _ _ (of_interface_lasting i));
    [apply passive_io; intros e; apply send_mc_addr_specific_query_law|]. intros _ _.
  apply arms_ret. intros l Hl. by rewrite app_nil_r.
Qed.

Lemma send_Q_group_more ts gaddr g : arming ts (send_Q_group clk snd w i tv gaddr g) (more g).
Proof. eapply arms_mono; [apply (send_Q_group_arms ts gaddr g 0%nat)|]. by intros g' l [? _]. Qed.

(** *** Reports *)

Lemma arming_from ts (m : M A (gaddr_info A)) g0 g1 :
  (forall t ty, record_waits g1 t ty -> record_waits g0 t ty) -> arming ts m (more g1) -> arming ts m (more g0).
Proof.
  intros Hg Hm. eapply arms_mono; [exact Hm|]. intros g2 l H2 t ty Hw. destruct (H2 t ty Hw); [left; by apply Hg|by right].
Qed.

Lemma arming_notify ts db gaddr g : arming ts (state_change_notification cb db gaddr;; mret g) (more g).
Proof.
  eapply (arms_bind_passive _ _ (of_interface_lasting i)); [apply passive_io; intros e; apply cb_io|].
  intros _ _. apply arms_ret, more_refl.
Qed.

(** Sources that are reported have no timers. *)
Ltac waits_more :=
  intros ?t ?ty; destruct ty; cbn -[timers retransmitting sl_add_assign sl_mul_assign sl_mul sl_sub_assign sl_sub]; try done;
  repeat match goal with
         | |- _ \/ _ -> _ => intros [?|?]
         | |- _ -> _ => intros ?
         | Ht : _ ∈ timers (sl_add_assign _ _) |- _ => apply timers_add in Ht as [Ht|Ht]
         | Ht : _ ∈ timers (sl_mul_assign _ _) |- _ => apply timers_mul in Ht
         | Ht : _ ∈ timers (sl_mul _ _) |- _ => apply timers_mul in Ht
         | Ht : _ ∈ timers (sl_sub_assign _ _) |- _ => apply timers_sub in Ht
         | Ht : _ ∈ timers (sl_sub _ _) |- _ => apply timers_sub in Ht
         | Ht : _ /\ retransmitting _ |- _ => destruct Ht as [? Ht]
         | Ht : retransmitting (sl_add_assign _ _) |- _ => apply retransmitting_add in Ht as [Ht|Ht]
         | Ht : retransmitting (sl_mul_assign _ _) |- _ => apply retransmitting_mul in Ht
         | Ht : retransmitting (sl_mul _ _) |- _ => apply retransmitting_mul in Ht
         | Ht : retransmitting (sl_sub_assign _ _) |- _ => apply retransmitting_sub in Ht
         | Ht : retransmitting (sl_sub _ _) |- _ => apply retransmitting_sub in Ht
         | HB : fresh_sources ?B, Ht : retransmitting ?B |- _ => by apply (retransmitting_fresh B HB) in Ht
         | HB : fresh_sources ?B, Ht : _ ∈ timers ?B |- _ => by apply (timers_fresh B _ HB) in Ht
         end; tauto.

Ltac arming_step :=
  lazymatch goal with
  | |- arms _ _ _ (mbind _ (state_change_notification _ _ _)) _ =>
      first [apply arming_notify|eapply arming_from; [|apply arming_notify]; waits_more]
  | |- arms _ _ _ (mbind _ (mali_own _ _ _ _ _ _ _)) _ =>
      eapply arming_bind_more; [eapply arming_from; [|apply mali_own_arms]; waits_more|intros ?]
  | |- arms _ _ _ (mbind _ (mali_filter _ _ _ _ _ _)) _ =>
      eapply arming_bind_more; [eapply arming_from; [|apply mali_filter_arms]; waits_more|intros ?]
  | |- arms _ _ _ (mbind _ (send_Q_own _ _ _ _ _ _ _ _ _)) _ =>
      eapply arming_bind_more; [eapply arming_from; [|apply send_Q_own_more]; waits_more|intros ?]
  | |- arms _ _ _ (mbind _ (send_Q_group _ _ _ _ _ _ _)) _ =>
      eapply arming_bind_more; [apply send_Q_group_more|intros ?]
  end.

Lemma include_mode_arms ts rt gaddr B g db :
  fresh_sources B ->
  arming ts (receive_record_in_include_mode clk snd w i tv cb rt gaddr B g db) (more g).
Proof.
  intros HB. unfold receive_record_in_include_mode. cbv zeta.
  destruct rt; try solve [repeat arming_step].
  - apply send_Q_own_more.
  - apply arms_ret, more_refl.
Qed.

Lemma exclude_mode_arms ts rt gaddr B g db :
  fresh_sources B ->
  arming ts (receive_record_in_exclude_mode clk snd w i tv cb rt gaddr B g db) (more g).
Proof.
  intros HB. unfold receive_record_in_exclude_mode. cbv zeta.
  destruct rt; try solve [repeat arming_step].
  - eapply (arms_bind _ _ (of_interface_lasting i)); [apply mali_sources_arms|]. intros A1.
    set (g1 := set_lists _ _ _ g).
    eapply (arms_mono _ _ _ _ (more g1)); [repeat arming_step|].
    intros g2 l' H2 a Ha. eapply more_trans; [|exact H2].
    destruct Ha as [Ha Hc]. intros t ty. destruct ty; try (by left).
    + intros [Ht|Ht].
      * apply timers_add in Ht as [Ht%timers_mul|Ht%timers_sub]; [by left; left|].
        destruct (Ha t Ht) as [Ht'|?]; [by apply (timers_fresh B _ HB) in Ht'|by right].
      * apply timers_mul in Ht. by left; right.
    + intros [Ht Hre]. left. split; [done|].
      apply retransmitting_add in Hre as [Hre%retransmitting_mul|Hre%retransmitting_sub]; [done|].
      by apply Hc, (retransmitting_fresh B HB) in Hre.
  - eapply arming_from; [|apply send_Q_own_more]. waits_more.
  - apply arms_ret, more_refl.
Qed.

Lemma compatibility_arms ts gr g db : arming ts (compatibility_coordination clk w i tv gr g db) (more g).
Proof.
  unfold compatibility_coordination. cbv zeta. case_if; [|apply arms_ret, more_refl].
  apply arming_timer. intros ot. apply arms_ret. intros t ty Hw. destruct ty; try (by left).
  right. cbn in Hw. injection Hw as ->. left.
Qed.

(** The database with a record of a group, or without it. *)
Definition group_result gaddr g db db' (l : list tid) : Prop :=
  (exists g', db' = set_group gaddr g' db /\ more g g' l) \/ db' = del_group gaddr db.

Lemma group_result_more gaddr g db db' l :
  (group_info db !! gaddr = Some g \/ forall t ty, ~ record_waits g t ty) ->
  group_result gaddr g db db' l -> db_more db db' l.
Proof. intros Hg [(g' & -> & Hm)| ->]; [by eapply db_more_set|apply db_more_del]. Qed.

Lemma arming_bind_result ts (m : M A (gaddr_info A)) f gaddr g db :
  arming ts m (more g) -> (forall g1, arming ts (f g1) (group_result gaddr g1 db)) ->
  arming ts (m ≫= f) (group_result gaddr g db).
Proof.
  intros Hm Hf. eapply (arms_bind _ _ (of_interface_lasting i)); [exact Hm|]. intros g1.
  eapply arms_mono; [apply Hf|]. intros db' l' [(g' & -> & H2)| ->] l H1; [left|by right].
  exists g'. split; [done|]. by eapply more_trans.
Qed.

Lemma arming_set ts gaddr g db : arming ts (mret (set_group gaddr g db)) (group_result gaddr g db).
Proof. apply arms_ret. left. exists g. split; [done|apply more_refl]. Qed.

Lemma receive_record_arms ts gr db :
  fresh_sources (gr_slist gr) ->
  arming ts (receive_record clk snd w i tv cb gr db) (db_more db).
Proof.
  intros HB. unfold receive_record. cbv zeta. set (g0 := default (new_gaddr_info (querier_version_mode db)) (group_info db !! gr_gaddr gr)).
  eapply arms_mono; [|intros db' l; apply (group_result_more (gr_gaddr gr) g0)].
  2:{ unfold g0. destruct (group_info db !! gr_gaddr gr); [by left|right]. intros t ty Hw. cbn in Hw.
      destruct ty; try done; try (by destruct Hw). by destruct Hw as [?%elem_of_nil|?%elem_of_nil]. }
  apply arming_bind_result; [apply compatibility_arms|]. intros g1.
  set (B := if is_in_backward_compatibility_mode g1 && bool_decide (gr_record_type gr = CHANGE_TO_EXCLUDE_MODE)
            then [] else gr_slist gr).
  assert (HB' : fresh_sources B) by (unfold B; case_if; [by split; constructor|done]).
  case_if; [apply arming_set|]. destruct (filter_mode g1).
  - apply arming_bind_result; [by apply include_mode_arms|]. intros g2.
    case_if; [apply arms_ret; by right|apply arming_set].
  - apply arming_bind_result; [by apply exclude_mode_arms|]. intros g2. apply arming_set.
Qed.

(** *** Timers *)

(** A database that waits for nothing new and not for [t] any more, unless it set
    a reminder of it again. *)
Definition released t ty og db db' (l : list tid) : Prop :=
  db_more db db' l /\ (waits_for db' t ty og -> t ∈ l).

Lemma released_set t ty gaddr g g' db l :
  group_info db !! gaddr = Some g -> ty <> GENERAL_QUERY_TIMER_MSG -> more g g' l ->
  (record_waits g' t ty -> t ∈ l) -> released t ty (Some gaddr) db (set_group gaddr g' db) l.
Proof.
  intros Hg Hty Hm Ht. split; [eapply db_more_set; eauto|].
  intros [(-> & _)|(h & g1 & [= <-] & Hh & Hw)]; [done|]. simpl in Hh. rewrite lookup_insert_eq in Hh.
  injection Hh as <-. by apply Ht.
Qed.

Lemma released_del t ty gaddr db l : ty <> GENERAL_QUERY_TIMER_MSG -> released t ty (Some gaddr) db (del_group gaddr db) l.
Proof.
  intros Hty. split; [apply db_more_del|]. intros [(-> & _)|(h & g1 & [= <-] & Hh & _)]; [done|].
  simpl in Hh. by rewrite lookup_delete_eq in Hh.
Qed.

Lemma released_same t ty gaddr g db :
  group_info db !! gaddr = Some g -> ty <> GENERAL_QUERY_TIMER_MSG -> ~ record_waits g t ty ->
  released t ty (Some gaddr) db db [].
Proof.
  intros Hg Hty Hn. split; [apply db_more_refl|]. intros [(-> & _)|(h & g1 & [= <-] & Hh & Hw)]; [done|].
  by simplify_eq.
Qed.

Lemma arming_notify_db ts db db0 (R : membership_db A -> list tid -> Prop) gaddr :
  R db [] -> arming ts (state_change_notification cb db0 gaddr;; mret db) R.
Proof.
  intros HR. eapply (arms_bind_passive _ _ (of_interface_lasting i)); [apply passive_io; intros e; apply cb_io|].
  intros _ _. by apply arms_ret.
Qed.

Lemma timers_filter (f : source A -> bool) l t :
  t ∈ timers (List.filter f l) -> exists s, s ∈ l /\ f s = true /\ shared_source_timer s = Some t.
Proof.
  intros (s & Hs & Ht)%timers_In. apply list_elem_of_In, filter_In in Hs as [Hs Hf].
  exists s. split_and!; [by apply list_elem_of_In|done|done].
Qed.

Lemma timers_left t t' l :
  t' ∈ timers (List.filter (fun s : source A => negb (timed_by t s)) l) -> t' ∈ timers l /\ t' <> t.
Proof.
  intros (s & Hs & Hf & Ht)%timers_filter. split; [apply timers_In; by exists s|].
  intros ->. unfold timed_by in Hf. by rewrite bool_decide_eq_true_2 in Hf.
Qed.

Lemma retransmitting_filter (f : source A -> bool) l : retransmitting (List.filter f l) -> retransmitting l.
Proof.
  intros (s & Hs & Hc). exists s. split; [|done]. apply list_elem_of_In in Hs. apply list_elem_of_In.
  by apply filter_In in Hs as [? _].
Qed.

Lemma timers_untimed (l : list (source A)) t :
  Forall (fun s => shared_source_timer s = None) l -> t ∉ timers l.
Proof. intros Hl (s & Hs & Ht)%timers_In. rewrite Forall_forall in Hl. rewrite (Hl s Hs) in Ht. done. Qed.

Lemma source_timer_arms ts gaddr t g db :
  group_info db !! gaddr = Some g -> Forall (fun s => shared_source_timer s = None) (exclude_list g) ->
  arming ts (timer_triggerd_source_timer cb gaddr t db) (released t SOURCE_TIMER_MSG (Some gaddr) db).
Proof.
  intros Hg Hel. unfold timer_triggerd_source_timer. rewrite Hg. apply arms_deref. intros g' [= <-]. cbv zeta.
  destruct (filter_mode g).
  - apply arming_notify_db. case_if; [by apply released_del|]. apply (released_set _ _ _ g); [done|done| |].
    + intros t' ty Hw. left. destruct ty; try done.
      * destruct Hw as [[? _]%timers_left|?]; [by left|by right].
      * by destruct Hw as [? ?%retransmitting_filter].
    + intros [[_ Hne]%timers_left|Ht]; [done|]. by apply timers_untimed in Ht.
  - set (expired := (fun s => set_timer s None (retransmission_count s)) <$> List.filter (timed_by t) (include_requested_list g)).
    assert (Hnone : forall t', t' ∉ timers (sl_add_assign (exclude_list g) expired)).
    { intros t' Ht. apply timers_add in Ht as [Ht|Ht]; [by apply timers_untimed in Ht|].
      apply timers_In in Ht as (s & Hs & Ht). unfold expired in Hs. by apply list_elem_of_fmap in Hs as (s' & -> & _). }
    apply arming_notify_db. apply (released_set _ _ _ g); [done|done| |].
    + intros t' ty Hw. left. destruct ty; try done.
      * destruct Hw as [[? _]%timers_left|Ht]; [by left|by apply Hnone in Ht].
      * by destruct Hw as [? ?%retransmitting_filter].
    + intros [[_ Hne]%timers_left|Ht]; [done|]. by apply Hnone in Ht.
Qed.

(** The handler of a filter timer that times no sources. *)
Definition filter_timer_rest gaddr t db : M A (membership_db A) :=
  ginfo ← deref (group_info db !! gaddr);
  if negb (bool_decide (shared_filter_timer ginfo = Some t)) then mret db
  else match filter_mode ginfo with
       | EXCLUDE_MODE =>
         if bool_decide (include_requested_list ginfo = []) then
           let db := del_group gaddr db in
           state_change_notification cb db gaddr;; mret db
         else
           let db := set_group gaddr (set_lists INCLUDE_MODE (include_requested_list ginfo) []
                       (set_filter_timer None ginfo)) db in
           state_change_notification cb db gaddr;; mret db
       | INCLUDE_MODE => mret db
       end.

Lemma filter_timer_unused gaddr t tm db e :
  e_store e !! t = Some tm -> tm_is_used_as_source_timer tm = false ->
  timer_triggerd_filter_timer cb gaddr t db e = filter_timer_rest gaddr t db e.
Proof.
  intros Ht Hu. unfold timer_triggerd_filter_timer. unfold mbind at 1, M_bind at 1, get_timer. rewrite Ht, Hu. done.
Qed.

Lemma filter_timer_arms ts gaddr t g db :
  group_info db !! gaddr = Some g -> (filter_mode g = INCLUDE_MODE -> shared_filter_timer g = None) ->
  arming ts (filter_timer_rest gaddr t db) (released t FILTER_TIMER_MSG (Some gaddr) db).
Proof.
  intros Hg Hmode. unfold filter_timer_rest. rewrite Hg. apply arms_deref. intros g' [= <-].
  case_bool_decide as Ht; cbn [negb]; [|by apply arms_ret, (released_same _ _ _ g)].
  destruct (filter_mode g); [by rewrite Hmode in Ht|]. cbv zeta.
  case_if; apply arming_notify_db; [by apply released_del|]. apply (released_set _ _ _ g); [done|done| |done].
  intros t' ty Hw. left. destruct ty; try done. destruct Hw as [?|?%elem_of_nil]; [by left|done].
Qed.

Lemma older_host_arms ts gaddr t g db :
  group_info db !! gaddr = Some g ->
  arming ts (timer_triggerd_older_host_present_timer clk w i tv cb gaddr t db)
    (released t OLDER_HOST_PRESENT_TIMER_MSG (Some gaddr) db).
Proof.
  intros Hg. unfold timer_triggerd_older_host_present_timer. rewrite Hg. apply arms_deref. intros g' [= <-].
  case_bool_decide as Ht; [|by apply arms_ret, (released_same _ _ _ g)]. cbv zeta. case_if.
  - apply arming_notify_db, (released_set _ _ _ g); [done|done| |done]. intros t' ty Hw. left. by destruct ty.
  - apply arming_timer. intros ot. apply arms_ret, (released_set _ _ _ g); [done|done| |].
    + intros t' ty Hw. destruct ty; try (by left). right. cbn in Hw. injection Hw as ->. left.
    + cbn. intros [= ->]. left.
Qed.

(** A general query replaces its timer. *)
Lemma send_general_query_arms ts db :
  arming ts (querier_send_general_query clk snd w i tv db)
    (fun r l => forall t ty og, waits_for r.2 t ty og -> (og <> None /\ waits_for db t ty og) \/ t ∈ l).
Proof.
  unfold querier_send_general_query. cbv zeta. destruct (if 0 <? _ then _ else _) as [n d].
  apply arming_timer. intros gt. eapply (arms_bind_passive _ _ (of_interface_lasting i));
    [apply passive_io; intros e; apply send_general_query_law|]. intros ok _. apply arms_ret.
  intros t ty og [(-> & -> & Hq)|(gaddr & g & -> & Hw)]; [right; cbn in Hq; injection Hq as ->; left|left].
  split; [done|]. right. by exists gaddr, g.
Qed.

Lemma general_query_arms ts t db :
  arming ts (timer_triggerd_general_query_timer clk snd w i tv t db)
    (released t GENERAL_QUERY_TIMER_MSG None db).
Proof.
  unfold timer_triggerd_general_query_timer. case_bool_decide as Ht.
  - eapply (arms_bind _ _ (of_interface_lasting i)); [apply send_general_query_arms|].
    intros r. apply arms_ret. intros l Hl. rewrite app_nil_r. split.
    + intros t' ty og Hw. destruct (Hl t' ty og Hw) as [[_ ?]|?]; [by left|by right].
    + intros Hw. by destruct (Hl _ _ _ Hw) as [[? _]|?].
  - apply arms_ret. split; [apply db_more_refl|]. intros [(_ & _ & Hq)|(h & g & ? & _)]; done.
Qed.

(** A querier that starts has its first general query timer. *)
Lemma new_querier_arms ts v :
  arming ts (new_querier clk snd w i tv v)
    (fun r l => forall db, r = Some db -> forall t ty og, waits_for db t ty og -> t ∈ l).
Proof.
  unfold new_querier. cbv zeta. eapply (arms_bind_passive _ _ (of_interface_lasting i));
    [apply passive_io; intros e; by apply router_groups_io|]. intros ok _.
  case_if; [by apply arms_ret|]. eapply (arms_bind _ _ (of_interface_lasting i)); [apply send_general_query_arms|].
  intros [ok' db]. case_if; apply arms_ret; intros l Hl db' [= <-] t ty og Hw. rewrite app_nil_r.
  destruct (Hl t ty og Hw) as [[Hne [(_ & ? & _)|(gaddr & g & _ & Hg & _)]]|?]; [done| |done].
  cbn in Hg. by rewrite lookup_empty in Hg.
Qed.

(** A retransmission: the timer of the last one is not waited for any more. *)
Lemma retransmission_arms ts gaddr g db (m : M A (gaddr_info A)) (b : bool) t ty :
  group_info db !! gaddr = Some g -> ty <> GENERAL_QUERY_TIMER_MSG ->
  arming ts m (fun g' l => more g g' l /\ (record_waits g' t ty -> t ∈ l)) ->
  (b = false -> ~ record_waits g t ty) ->
  arming ts (if b then ginfo ← m; mret (set_group gaddr ginfo db) else mret db) (released t ty (Some gaddr) db).
Proof.
  intros Hg Hty Hm Hn. destruct b; [|by apply arms_ret, (released_same _ _ _ g); auto].
  eapply (arms_bind _ _ (of_interface_lasting i)); [exact Hm|]. intros g'. apply arms_ret.
  intros l [Hl Ht]. rewrite app_nil_r. by eapply released_set.
Qed.

(** A timer event sets the reminders of all that the database waits for after it,
    and that is not the timer itself. *)
Definition fired t db db' (l : list tid) : Prop :=
  forall t' ty og, waits_for db' t' ty og -> (waits_for db t' ty og /\ t' <> t) \/ t' ∈ l.

Lemma released_fired e t tm db db' l :
  db_wf e db -> e_store e !! t = Some tm -> released t (tm_type tm) (tm_gaddr tm) db db' l ->
  fired t db db' l.
Proof.
  intros Hdb Htm [Hm Ht] t' ty og Hw. destruct (Hm t' ty og Hw) as [Hw'|?]; [|by right].
  destruct (decide (t' = t)) as [->|Hne]; [|by left]. right. apply Ht.
  destruct (waits_timer e db t ty og Hdb Hw') as (tm' & Htm' & Hty & Hg). simplify_eq. done.
Qed.

Lemma waits_in_timers db t ty og : waits_for db t ty og -> t ∈ db_timers db.
Proof.
  unfold db_timers. rewrite elem_of_app. intros [(_ & _ & ->)|(gaddr & g & _ & Hg & Hw)]; [left; by left|right].
  apply list_elem_of_In, in_flat_map. exists (gaddr, g).
  split; [by apply list_elem_of_In, elem_of_map_to_list|]. apply list_elem_of_In. unfold ginfo_timers. cbn.
  rewrite !elem_of_app. destruct ty; try done; cbn in Hw.
  - rewrite Hw. left. by left.
  - destruct Hw; tauto.
  - destruct Hw as [-> _]. right. right. left. by left.
  - destruct Hw as [-> _]. right. right. right. left. by left.
  - rewrite Hw. right. left. by left.
Qed.

(** The timers of groups. *)
Definition group_timer (ty : message_type) : bool :=
  match ty with
  | FILTER_TIMER_MSG | SOURCE_TIMER_MSG | RET_GROUP_TIMER_MSG | RET_SOURCE_TIMER_MSG | OLDER_HOST_PRESENT_TIMER_MSG => true
  | _ => false
  end.

Lemma waits_typed db t ty og :
  waits_for db t ty og -> ty = GENERAL_QUERY_TIMER_MSG /\ og = None
  \/ group_timer ty = true /\ exists gaddr, og = Some gaddr /\ is_Some (group_info db !! gaddr).
Proof.
  intros [(? & ? & _)|(gaddr & g & -> & Hg & Hw)]; [by left|]. right.
  split; [by destruct ty|eauto].
Qed.

Lemma timer_arms held t tm db e db' e' :
  db_wf e db -> e_store e !! t = Some tm ->
  timer_triggerd clk snd w i tv cb held t db e = Some (db', e') ->
  (env_ok e -> exists l, armed w (of_interface i) e e' l /\ fired t db db' l).
Proof.
  intros Hdb Htm.
  assert (Hgoal : forall (m : M A (membership_db A)),
    arming [] m (released t (tm_type tm) (tm_gaddr tm) db) -> m e = Some (db', e') ->
    (env_ok e -> exists l, armed w (of_interface i) e e' l /\ fired t db db' l)).
  { intros m Hm Hrun Hok. destruct (Hm _ _ _ Hrun Hok) as (l & Harm & Hl); [constructor|]. exists l. split; [done|].
    by eapply released_fired. }
  assert (Hsame : ~ waits_for db t (tm_type tm) (tm_gaddr tm) -> arming [] (mret db) (released t (tm_type tm) (tm_gaddr tm) db)).
  { intros Hn. apply arms_ret. split; [apply db_more_refl|done]. }
  unfold timer_triggerd, mbind at 1, M_bind at 1, get_timer at 1. rewrite Htm.
  destruct (negb (held || bool_decide (t ∈ db_timers db))) eqn:Hheld.
  { apply Hgoal, Hsame. intros Hw%waits_in_timers. rewrite bool_decide_eq_true_2, orb_true_r in Hheld by done. done. }
  assert (Hgroup : forall (m : A -> gaddr_info A -> M A (membership_db A)),
    (forall gaddr g, tm_gaddr tm = Some gaddr -> group_info db !! gaddr = Some g ->
       m gaddr g e = Some (db', e') -> (env_ok e -> exists l, armed w (of_interface i) e e' l /\ fired t db db' l)) ->
    tm_type tm <> GENERAL_QUERY_TIMER_MSG ->
    (gaddr ← deref (tm_gaddr tm);
     match group_info db !! gaddr with None => mret db | Some g => m gaddr g end) e = Some (db', e') ->
    (env_ok e -> exists l, armed w (of_interface i) e e' l /\ fired t db db' l)).
  { intros m Hm Hty. unfold mbind, M_bind. destruct (tm_gaddr tm) as [gaddr|] eqn:Hga; [|done]. cbn.
    destruct (group_info db !! gaddr) as [g|] eqn:Hg; [by apply Hm|]. apply (Hgoal (mret db)), Hsame.
    intros [[? _]|(_ & h & [= <-] & Hh)]%waits_typed; [done|]. rewrite Hg in Hh. by destruct Hh. }
  destruct (tm_type tm) eqn:Hty;
    try (apply Hgoal, Hsame; intros [[? _]|[? _]]%waits_typed; done).
  - apply (Hgroup (fun gaddr _ => timer_triggerd_filter_timer cb gaddr t db)); [|congruence].
    intros gaddr g Hga Hg. rewrite (filter_timer_unused gaddr t tm) by (done || by eapply ew_shape; [apply (dw_env _ _ Hdb)|]).
    apply Hgoal. rewrite ?Hty, Hga. apply (filter_timer_arms _ _ _ g); [done|].
    intros Hf. pose proof (gw_mode _ _ _ (dw_groups _ _ Hdb gaddr g Hg)) as Hm. rewrite Hf in Hm. by destruct Hm.
  - apply (Hgroup (fun gaddr _ => timer_triggerd_source_timer cb gaddr t db)); [|congruence].
    intros gaddr g Hga Hg. apply Hgoal. rewrite ?Hty, Hga. apply (source_timer_arms _ _ _ g); [done|].
    apply (gw_untimed _ _ _ (dw_groups _ _ Hdb gaddr g Hg)).
  - apply (Hgroup (fun gaddr _ => timer_triggerd_ret_group_timer clk snd w i tv gaddr t db)); [|congruence].
    intros gaddr g Hga Hg. apply Hgoal. unfold timer_triggerd_ret_group_timer. rewrite Hg. apply arms_deref. intros g' [= <-].
    rewrite ?Hty, Hga. apply (retransmission_arms _ gaddr g); [done|done| |].
    + eapply arms_mono; [apply send_Q_group_arms|]. by intros g' l [? Hl].
    + intros Ht [? _]. by rewrite bool_decide_eq_true_2 in Ht.
  - apply (Hgroup (fun gaddr _ => timer_triggerd_ret_source_timer clk snd w i tv gaddr t db)); [|congruence].
    intros gaddr g Hga Hg. apply Hgoal. unfold timer_triggerd_ret_source_timer. rewrite Hg. apply arms_deref. intros g' [= <-].
    rewrite ?Hty, Hga. apply (retransmission_arms _ gaddr g); [done|done| |].
    + eapply arms_mono; [apply send_Q_own_arms|]. intros g' l [? Hl]. split; [done|]. by apply Hl.
    + intros Ht [? _]. by rewrite bool_decide_eq_true_2 in Ht.
  - apply (Hgroup (fun gaddr _ => timer_triggerd_older_host_present_timer clk w i tv cb gaddr t db)); [|congruence].
    intros gaddr g Hga Hg. apply Hgoal. rewrite ?Hty, Hga. by apply (older_host_arms _ _ _ g).
  - apply Hgoal. eapply arms_mono; [apply general_query_arms|]. intros db1 l [Hm Hn]. split; [done|].
    rewrite ?Hty. intros Hw. apply Hn. pose proof Hw as Hw'. by apply waits_typed in Hw' as [[_ Hn']|[? _]]; [rewrite Hn' in Hw|].
Qed.
End Handlers.

(** ** The timers of the known sources *)

Section Table.
Context {A : Type} `{Address A} (clk : nat -> Z) (sock : nat -> action -> bool)
  (stats : nat -> A -> A -> option Z).
Context (snd : sender (A := A)) `{!SenderLaws snd} (gts : gmap string table)
  (get_if_name : Z -> string) (vif : Z -> Z) (w : Z).
Hypothesis gts_ok : gts_built gts.

Implicit Types (p : proxy_state (A := A)) (gaddr sa : A) (data : gmap A (sr_data_value (A := A))) (t : tid).

(** The table waits for the timer of a source that it knows. *)
Definition table_waits data t gaddr sa : Prop :=
  exists s, s ∈ get_available_sources gaddr data /\ saddr s = sa /\ shared_source_timer s = Some t.

Definition timer_for gaddr sa (tm : timer_msg A) : Prop :=
  tm_type tm = NEW_SOURCE_TIMER_MSG /\ tm_gaddr tm = Some gaddr /\ tm_saddr tm = Some sa.

Lemma timer_for_lasting gaddr sa : lasting (timer_for gaddr sa).
Proof. intros tm tm' (Hty & _ & Hg & Hs) (? & ? & ?). split_and!; congruence. Qed.

(** A source list is replaced. *)
Lemma available_insert gaddr v g' data :
  get_available_sources g' (<[gaddr := v]> data)
  = if bool_decide (gaddr = g') then m_source_list v else get_available_sources g' data.
Proof.
  unfold get_available_sources. case_bool_decide as Hg; [subst; by rewrite lookup_insert_eq|].
  by rewrite lookup_insert_ne.
Qed.

Lemma table_waits_timers data t gaddr sa : table_waits data t gaddr sa -> t ∈ data_timers data.
Proof.
  intros (s & Hs & _ & Ht). unfold get_available_sources in Hs.
  destruct (data !! gaddr) as [v|] eqn:Hv; [|by apply elem_of_nil in Hs].
  unfold data_timers. apply list_elem_of_In, in_flat_map. exists (gaddr, v).
  split; [by apply list_elem_of_In, elem_of_map_to_list|]. apply list_elem_of_In, list_elem_of_omap. by exists s.
Qed.

(** The table afterwards waits for the timers of before, and for those of the
    list for one source. *)
Definition table_more gaddr sa data data' (l : list tid) : Prop :=
  forall t g' s', table_waits data' t g' s' ->
    table_waits data t g' s' \/ (g' = gaddr /\ s' = sa /\ t ∈ l).

Lemma set_source_passive i gaddr s data t :
  srd_wf data -> shared_source_timer s = Some t ->
  passive (set_source stats i gaddr s data) (fun data' => table_more gaddr (saddr s) data data' [t]).
Proof.
  intros Hd Hst e data' e' E.
  assert (Hio := wp_set_source_io stats i gaddr s data e Hd). unfold wp in Hio. rewrite E in Hio.
  destruct Hio as [_ []]. split_and!; try done.
  assert (Hall : forall sl v, (forall x, x ∈ sl -> x ∈ get_available_sources gaddr data
      \/ saddr x = saddr s /\ shared_source_timer x = Some t) -> m_source_list v = sl ->
    table_more gaddr (saddr s) data (<[gaddr := v]> data) [t]).
  { intros sl v Hsl Hv t' g' s' (x & Hx & <- & Ht'). rewrite available_insert, Hv in Hx.
    case_bool_decide as Hg; [subst g'|left; by exists x].
    destruct (Hsl x Hx) as [?|[Hk Htx]]; [left; by exists x|right]. split_and!; [done|done|].
    assert (t' = t) as -> by congruence. left. }
  unfold set_source in E. unfold get_available_sources in Hall.
  destruct (data !! gaddr) as [v|].
  - unfold mbind, M_bind in E. destruct (sl_find (key s) (m_source_list v)).
    + cbn in E. injection E as <- _. eapply Hall; [|done]. intros x [->|[Hx _]%sl_erase_In]%sl_insert_In; [right|by left]. done.
    + cbn in E. injection E as <- _. eapply Hall; [|done]. intros x [->|Hx]%sl_insert_In; [by right|by left].
  - injection E as <- _. eapply Hall; [|done]. intros x ->%list_elem_of_singleton. by right.
Qed.

Lemma passive_deref {X Y} (o : option X) (f : X -> M A Y) (K : Y -> Prop) :
  (forall x, o = Some x -> passive (f x) K) -> passive (deref o ≫= f) K.
Proof. intros Hf e y e' E. destruct o as [x|]; [|done]. by apply (Hf x eq_refl). Qed.

Lemma set_source_timer_arms ts p i gaddr sa :
  arms w (timer_for gaddr sa) ts (set_source_timer clk w p i gaddr sa) (fun t l => l = [t]).
Proof.
  unfold set_source_timer. eapply (arms_bind_passive _ _ (timer_for_lasting gaddr sa) _ _ (fun _ => True)).
  { case_if; [|by apply passive_ret]. apply passive_deref. intros rb _. by apply passive_ret. }
  intros lt _. apply arms_make; [done|]. intros t.
  eapply (arms_bind _ _ (timer_for_lasting gaddr sa) _ _ _ (fun _ l => l = [t])).
  - apply arms_add; [left|done].
  - intros []. apply arms_ret. by intros l ->.
Qed.

Lemma event_new_source_arms ts p i gaddr sa :
  srd_wf (m_data p) -> interfaces_set p ->
  arms w (timer_for gaddr sa) ts (event_new_source clk sock stats snd gts get_if_name vif w i gaddr sa p)
    (fun p' l => m_downstreams p' = m_downstreams p /\ table_more gaddr sa (m_data p) (m_data p') l).
Proof.
  intros Hd Hifs. unfold event_new_source.
  eapply (arms_bind _ _ (timer_for_lasting gaddr sa)); [apply set_source_timer_arms|]. intros t. cbn beta.
  eapply (arms_bind_passive _ _ (timer_for_lasting gaddr sa)); [by apply set_source_passive|]. intros data Hdata.
  cbv zeta. apply arms_deref. intros rt _.
  eapply (arms_bind_passive _ _ (timer_for_lasting gaddr sa)); [apply passive_io; intros e; by apply wp_set_routes|].
  intros [] _. eapply (arms_bind_passive _ _ (timer_for_lasting gaddr sa));
    [apply passive_io; intros e; by apply mutex_aggregation_io|].
  intros [] _. apply arms_ret. intros l ->. by split.
Qed.
(** The table after the timer [t] of a source does not wait for [t] any more. *)
Definition table_fired t gaddr sa data data' (l : list tid) : Prop :=
  forall t' g' s', table_waits data' t' g' s' ->
    (table_waits data t' g' s' /\ t' <> t) \/ (g' = gaddr /\ s' = sa /\ t' ∈ l).

Lemma del_source_waits t gaddr sa data g' s' :
  table_waits (del_source gaddr sa data) t g' s' ->
  table_waits data t g' s' /\ ~ (g' = gaddr /\ s' = sa).
Proof.
  intros (x & Hx & <- & Ht). unfold del_source in Hx.
  destruct (data !! gaddr) as [v|] eqn:Hv.
  2:{ split; [by exists x|]. intros [-> _]. unfold get_available_sources in Hx. rewrite Hv in Hx. by apply elem_of_nil in Hx. }
  cbv zeta in Hx. destruct (decide (g' = gaddr)) as [->|Hne].
  - assert (Hx' : x ∈ sl_erase sa (m_source_list v)).
    { case_bool_decide; [|by rewrite available_insert, bool_decide_eq_true_2 in Hx].
      unfold get_available_sources in Hx. rewrite lookup_delete_eq in Hx. by apply elem_of_nil in Hx. }
    apply sl_erase_In in Hx' as [Hx' Hk]. split; [|by intros [_ ?]].
    exists x. split; [|done]. unfold get_available_sources. by rewrite Hv.
  - split; [|by intros [? _]]. exists x. split; [|done]. unfold get_available_sources in *.
    case_bool_decide; [by rewrite lookup_delete_ne in Hx|by rewrite lookup_insert_ne in Hx].
Qed.

(** The timers of the others stay when the records of a source are changed. *)
Lemma update_waits t gaddr data v (f : source A -> source A) m g' s' :
  data !! gaddr = Some v -> (forall x, saddr (f x) = saddr x) ->
  table_waits (<[gaddr := {| m_source_list := f <$> m_source_list v; m_if_map := m |}]> data) t g' s' ->
  (g' <> gaddr /\ table_waits data t g' s')
  \/ g' = gaddr /\ exists x, x ∈ get_available_sources gaddr data /\ saddr x = s' /\ shared_source_timer (f x) = Some t.
Proof.
  intros Hv Hf (x & Hx & <- & Ht). rewrite available_insert in Hx. case_bool_decide as Hg.
  - subst g'. right. split; [done|]. cbn in Hx. apply list_elem_of_fmap in Hx as (y & -> & Hy).
    exists y. unfold get_available_sources. by rewrite Hv, Hf.
  - left. split; [done|]. by exists x.
Qed.

Lemma refresh_passive gaddr sa data :
  srd_wf data ->
  passive (refresh_source_or_del_it_if_unused stats gaddr sa data)
    (fun r => forall t g' s', table_waits r.2 t g' s' ->
      table_waits data t g' s' /\ (r.1 = false -> ~ (g' = gaddr /\ s' = sa))).
Proof.
  intros Hd e r e' E.
  assert (Hio := refresh_wf stats gaddr sa data e Hd). unfold wp in Hio. rewrite E in Hio.
  destruct Hio as [[] _]. split_and!; try done. clear -E.
  assert (Hdel : forall t g' s', table_waits (del_source gaddr sa data) t g' s' ->
    table_waits data t g' s' /\ (false = false -> ~ (g' = gaddr /\ s' = sa))).
  { intros t g' s' Hw%del_source_waits. tauto. }
  unfold refresh_source_or_del_it_if_unused in E. destruct (data !! gaddr) as [v|] eqn:Hv.
  2:{ injection E as <- _. intros t g' s' Hw. split; [done|]. intros _ [-> _].
      destruct Hw as (x & Hx & _). unfold get_available_sources in Hx. cbn in Hx. rewrite Hv in Hx. by apply elem_of_nil in Hx. }
  destruct (sl_find sa (m_source_list v)) as [s|]; [|by injection E as <- _].
  unfold mbind, M_bind in E. destruct (get_current_packet_count stats gaddr sa e) as [[cnt e1]|]; [|done].
  destruct (to_ulong (retransmission_count s) =? cnt); injection E as <- _; [done|]. cbn [fst Datatypes.snd].
  intros t g' s' Hw. split; [|done].
  apply (update_waits _ _ _ v) in Hw as [[_ Hw]|(-> & x & Hx & <- & Ht)]; [done| |done|].
  - exists x. split_and!; [done|done|]. by case_bool_decide.
  - intros x. by case_bool_decide.
Qed.

Lemma assign_waits t t' gaddr sa data g' s' :
  table_waits (assign_source_timer gaddr sa t data) t' g' s' ->
  (g' = gaddr /\ s' = sa /\ t' = t) \/ (~ (g' = gaddr /\ s' = sa) /\ table_waits data t' g' s').
Proof.
  unfold assign_source_timer. destruct (data !! gaddr) as [v|] eqn:Hv.
  - intros [[Hne Hw]|(-> & x & Hx & <- & Ht)]%(update_waits _ _ _ v); [right|  |done|].
    + split; [by intros [? _]|done].
    + case_bool_decide as Hk; [left|right].
      * split_and!; [done|done|]. cbn in Ht. congruence.
      * split; [by intros [_ ?]|]. by exists x.
    + intros x. by case_bool_decide.
  - intros (x & Hx & <- & Ht). right. split; [|by exists x]. intros [-> _].
    unfold get_available_sources in Hx. rewrite Hv in Hx. by apply elem_of_nil in Hx.
Qed.

(** The table waits for [t] by one name only. *)
Definition only_for t gaddr sa data : Prop :=
  forall g' s', table_waits data t g' s' -> g' = gaddr /\ s' = sa.

Lemma maintain_arms held t tm p e p' e' gaddr sa :
  srd_wf (m_data p) -> interfaces_set p -> e_store e !! t = Some tm -> timer_for gaddr sa tm ->
  timer_triggerd_maintain_routing_table clk sock stats snd gts get_if_name vif w held t p e = Some (p', e') ->
  (env_ok e -> exists l, armed w (timer_for gaddr sa) e e' l
        /\ m_downstreams p' = m_downstreams p /\ (only_for t gaddr sa (m_data p) -> table_fired t gaddr sa (m_data p) (m_data p') l)).
Proof.
  intros Hd Hifs Htm (Hty & Hga & Hsa) Hrun.
  assert (Hgoal : forall m, arms w (timer_for gaddr sa) [] m (fun p' l =>
      m_downstreams p' = m_downstreams p /\ (only_for t gaddr sa (m_data p) -> table_fired t gaddr sa (m_data p) (m_data p') l)) ->
    m e = Some (p', e') -> (env_ok e -> exists l, armed w (timer_for gaddr sa) e e' l
        /\ m_downstreams p' = m_downstreams p /\ (only_for t gaddr sa (m_data p) -> table_fired t gaddr sa (m_data p) (m_data p') l))).
  { intros m Hm Hr Hok. destruct (Hm _ _ _ Hr Hok) as (l & Harm & Hl); [constructor|]. by exists l. }
  revert Hrun. unfold timer_triggerd_maintain_routing_table, mbind at 1, M_bind at 1, get_timer at 1. rewrite Htm.
  assert (Hsame : ~ table_waits (m_data p) t gaddr sa -> arms w (timer_for gaddr sa) [] (mret p) (fun p' l =>
      m_downstreams p' = m_downstreams p /\ (only_for t gaddr sa (m_data p) -> table_fired t gaddr sa (m_data p) (m_data p') l))).
  { intros Hn. apply arms_ret. split; [done|]. intros Honly t' g' s' Hw. left. split; [done|]. intros ->.
    destruct (Honly _ _ Hw) as [-> ->]. done. }
  destruct (negb (held || bool_decide (t ∈ data_timers (m_data p)))) eqn:Hheld.
  { apply Hgoal, Hsame. intros Hw%table_waits_timers. rewrite bool_decide_eq_true_2, orb_true_r in Hheld by done. done. }
  clear Hheld. apply Hgoal. rewrite Hty, Hga, Hsa. apply arms_deref. intros _ [= <-]. apply arms_deref. intros _ [= <-].
  destruct (sl_find sa (get_available_sources gaddr (m_data p))) as [s|] eqn:Hs.
  2:{ apply Hsame. intros (x & Hx & Hk & _). apply sl_find_None in Hs. apply Hs.
      rewrite <- Hk. by apply elem_of_sl_keys_In; exists x. }
  case_bool_decide as Htimer.
  2:{ apply Hsame. intros (x & Hx & <- & Ht).
      assert (Hx' : sl_find (key x) (get_available_sources gaddr (m_data p)) = Some x).
      { apply sl_ordered_find; [|done]. unfold get_available_sources in *.
        destruct (m_data p !! gaddr) eqn:Hv; [|constructor]. by apply (Hd gaddr). }
      assert (Some s = Some x) as [= ->] by (rewrite <- Hs; exact Hx'). done. }
  eapply (arms_bind_passive _ _ (timer_for_lasting gaddr sa)); [by apply refresh_passive|].
  intros [[] data] Hdata; cbn [fst Datatypes.snd negb] in *; cbv zeta.
  - eapply (arms_bind _ _ (timer_for_lasting gaddr sa)); [apply set_source_timer_arms|]. intros t1.
    apply arms_ret. intros l ->. split; [done|]. intros Honly t' g' s' Hw.
    apply assign_waits in Hw as [(-> & -> & ->)|[Hne Hw]]; [right; split_and!; [done|done|left]|].
    left. split; [by apply Hdata|]. intros ->. by apply Hne, Honly, Hdata.
  - eapply (arms_bind_passive _ _ (timer_for_lasting gaddr sa)); [apply passive_call|]. intros _ _.
    eapply (arms_bind_passive _ _ (timer_for_lasting gaddr sa));
      [apply passive_io; intros e0; by apply mutex_aggregation_io|].
    intros [] _. apply arms_ret. split; [done|]. intros Honly t' g' s' Hw. apply Hdata in Hw as [Hw Hne].
    left. split; [done|]. intros ->. by apply Hne, Honly.
Qed.
End Table.

(** ** The instance, its queue and the timing thread *)

Section System.
Context {A : Type} `{Address A} (clk : nat -> Z) (sock : nat -> action -> bool)
  (stats : nat -> A -> A -> option Z).
Context (snd : sender (A := A)) `{!SenderLaws snd} `{!PassiveSender snd} (gts : gmap string table)
  (get_if_name : Z -> string) (vif : Z -> Z) (w : Z).
Hypothesis gts_ok : gts_built gts.

Implicit Types (p : proxy_state (A := A)) (gaddr : A) (e : env A) (t : tid) (m : proxy_msg A) (q : list tid).

(** What an instance waits for a timer for: a record of a querier's database, or
    a known source. *)
Inductive role :=
  | querier_role (i : Z) (ty : message_type) (og : option A)
  | source_role (gaddr sa : A).

Definition role_of (r : role) (tm : timer_msg A) : Prop :=
  match r with
  | querier_role i ty og => tm_if_index tm = i /\ tm_type tm = ty /\ tm_gaddr tm = og
  | source_role gaddr sa => timer_for gaddr sa tm
  end.

Definition proxy_waits p t (r : role) : Prop :=
  match r with
  | querier_role i ty og => exists d, (i, d) ∈ m_downstreams p /\ waits_for (d_db d) t ty og
  | source_role gaddr sa => table_waits (m_data p) t gaddr sa
  end.

(** Every timer is of the kind that it is waited for. *)
Definition known e p : Prop := forall t r, proxy_waits p t r -> made (role_of r) e t.

Lemma role_of_lasting r : lasting (role_of r).
Proof.
  destruct r as [i ty og|gaddr sa]; [|apply timer_for_lasting].
  intros tm tm' (? & ? & ? & _) (? & ? & ?). split_and!; congruence.
Qed.

(** A message sets a reminder for every timer that is waited for after it, except
    for those that were before and are not in the message. *)
Record carried m e e' p p' : Prop := {
  ca_ok : env_ok e';
  ca_kept : kept e e';
  ca_reminded : forall t, reminded w e t -> reminded w e' t;
  ca_waits : forall t r, proxy_waits p' t r ->
    (proxy_waits p t r /\ m <> a_timer_msg t) \/ (reminded w e' t /\ made (role_of r) e' t)
}.

Definition carries m e e' p p' : Prop :=
  env_ok e -> known e p -> carried m e e' p p'.

Lemma carried_armed P m e e' p p' l :
  armed w P e e' l ->
  (forall t r, proxy_waits p' t r -> (proxy_waits p t r /\ m <> a_timer_msg t)
    \/ (t ∈ l /\ (made P e' t -> made (role_of r) e' t))) ->
  carried m e e' p p'.
Proof.
  intros [Hok Hk Hw Hset] Hr. split; [done..|]. intros t r Hp. destruct (Hr t r Hp) as [?|[Ht Hm]]; [by left|right].
  rewrite Forall_forall in Hset. destruct (Hset t Ht). auto.
Qed.

Lemma carries_arms P m mm e b e' p p' (R : bool * proxy_state (A := A) -> list tid -> Prop) :
  mm e = Some ((b, p'), e') -> arms w P [] mm R ->
  (forall l, R (b, p') l -> forall t r, proxy_waits p' t r -> (proxy_waits p t r /\ m <> a_timer_msg t)
    \/ (t ∈ l /\ (made P e' t -> made (role_of r) e' t))) ->
  carries m e e' p p'.
Proof.
  intros Hrun Hm HR Hok _. destruct (Hm _ _ _ Hrun Hok) as (l & Harm & Hl); [constructor|]. by eapply carried_armed; [|apply HR].
Qed.

(** The kind and the group of a querier's timer follow from its database. *)
Lemma made_querier e p i d t ty og :
  proxy_wf e p -> (i, d) ∈ m_downstreams p -> waits_for (d_db d) t ty og ->
  made (of_interface i) e t -> made (role_of (querier_role i ty og)) e t.
Proof.
  intros Hp Hd Hw (tm & Htm & Hi). pose proof (pw_dbs _ _ Hp) as Hdbs. rewrite Forall_forall in Hdbs.
  destruct (waits_timer e _ t ty og (Hdbs _ Hd) Hw) as (tm' & Htm' & Hty & Hg). simplify_eq.
  exists tm. by split_and!.
Qed.

Lemma downstream_found e p i d : proxy_wf e p -> (i, d) ∈ m_downstreams p -> sl_find i (m_downstreams p) = Some (i, d).
Proof. intros Hp Hd. exact (sl_ordered_find _ _ (pw_down _ _ Hp) Hd). Qed.

(** The database of an interface is replaced. *)
Lemma replaced_waits m e e' p i d db' (l : list tid) :
  proxy_wf e p -> proxy_wf e' (set_downstream_db i db' p) -> sl_find i (m_downstreams p) = Some d ->
  (forall t ty og, waits_for db' t ty og -> (waits_for (d_db d.2) t ty og /\ m <> a_timer_msg t) \/ t ∈ l) ->
  (forall t r, proxy_waits p t r -> m = a_timer_msg t -> exists ty og, r = querier_role i ty og) ->
  forall t r, proxy_waits (set_downstream_db i db' p) t r ->
    (proxy_waits p t r /\ m <> a_timer_msg t)
    \/ (t ∈ l /\ (made (of_interface i) e' t -> made (role_of r) e' t)).
Proof.
  intros Hp Hp' Hd Hdb Hm t r Hw.
  assert (Hother : proxy_waits p t r -> (forall ty og, r <> querier_role i ty og) ->
    proxy_waits p t r /\ m <> a_timer_msg t).
  { intros Hr Hne. split; [done|]. intros Hmt. destruct (Hm t r Hr Hmt) as (ty & og & ->). by destruct (Hne ty og). }
  destruct r as [j ty og|gaddr sa]; [|left; by apply Hother].
  destruct Hw as (d' & Hd' & Hw). pose proof Hd' as Hin. simpl in Hd'.
  apply list_elem_of_fmap in Hd' as ([k x] & Heq & Hx). case_bool_decide as Hk; cbn in Hk.
  - subst k. injection Heq as -> ->. cbn [d_db] in Hw.
    rewrite (downstream_found e p i x) in Hd by done. injection Hd as <-. cbn [Datatypes.snd] in *.
    destruct (Hdb t ty og Hw) as [[Ho Hmt]|Hl]; [left|right].
    + split; [|done]. by exists x.
    + split; [done|]. intros Hmade. by eapply made_querier.
  - injection Heq as -> ->. left. apply Hother; [by exists x|]. intros ty' og' [= -> _ _]. done.
Qed.
(** *** The messages *)

(** A configuration adds at most one querier, which waits for what is listed. *)
Definition config_result cm p p' (l : list tid) : Prop :=
  m_data p' = m_data p /\ forall j d, (j, d) ∈ m_downstreams p' ->
    (j, d) ∈ m_downstreams p \/ j = cm_if_index cm /\ forall t ty og, waits_for (d_db d) t ty og -> t ∈ l.

Lemma config_arms cm p :
  arms w (of_interface (A := A) (cm_if_index cm)) [] (handle_config clk sock snd vif w cm p) (config_result cm p).
Proof.
  pose proof (of_interface_lasting (A := A) (cm_if_index cm)) as HP. unfold handle_config. cbv zeta.
  assert (Hret : forall p', m_data p' = m_data p -> (forall j d, (j, d) ∈ m_downstreams p' -> (j, d) ∈ m_downstreams p) ->
    arms w (of_interface (A := A) (cm_if_index cm)) [] (mret p') (config_result cm p)).
  { intros p' Hd Hds. apply arms_ret. split; [done|]. intros j d Hin. left. by apply Hds. }
  destruct (cm_instruction cm).
  - destruct (sl_find _ _); [by apply Hret|].
    eapply (arms_bind_passive _ _ HP); [apply passive_io; intros e; by apply register_io|]. intros _ _.
    eapply (arms_bind _ _ HP); [by apply new_querier_arms|]. intros r. apply arms_deref. intros db ->. apply arms_ret.
    intros l Hl. split; [done|]. intros j d [[= -> ->]|Hin]%sl_insert_In; [right|by left].
    split; [done|]. intros t ty og Hw. apply elem_of_app. left. by eapply Hl.
  - destruct (sl_find _ _); [|by apply Hret].
    eapply (arms_bind_passive _ _ HP); [apply passive_io; intros e; by apply unregister_io|]. intros _ _.
    eapply (arms_bind_passive _ _ HP _ _ (fun _ => True)).
    { unfold destroy_querier. eapply (passive_bind _ _ (fun _ => True)); [apply passive_io; intros e; by apply router_groups_io|].
      intros _ _. by apply passive_ret. }
    intros _ _. apply Hret; [done|]. by intros j d [Hin _]%sl_erase_In.
  - case_if; [|by apply Hret].
    eapply (arms_bind_passive _ _ HP); [apply passive_io; intros e; by apply register_io|]. intros _ _. by apply Hret.
  - destruct (List.find _ _); [|by apply Hret].
    eapply (arms_bind_passive _ _ HP); [apply passive_io; intros e; by apply unregister_io|]. intros _ _. by apply Hret.
  - destruct (cm_rule_binding cm) as [rb|]; [|by apply Hret]. case_if; [|by apply Hret].
    by destruct (m_filter_direction rb); apply Hret.
Qed.

(** A message that is no timer. *)
Lemma report_carried held gr p e b p' e' :
  proxy_wf e p -> proxy_wf e' p' -> fresh_sources (gr_slist gr) ->
  handle_message clk sock stats snd gts get_if_name vif w held (a_group_record_msg gr) p e = Some ((b, p'), e') ->
  carries (a_group_record_msg gr) e e' p p'.
Proof.
  intros Hp Hp' HB Hrun. cbn [handle_message] in Hrun.
  destruct (sl_find (gr_if_index gr) (m_downstreams p)) as [d|] eqn:Hd.
  - eapply (carries_arms (of_interface (gr_if_index gr)) _ _ _ _ _ _ _ (fun r l => exists db', r.2 = set_downstream_db (gr_if_index gr) db' p
      /\ db_more (d_db d.2) db' l)); [exact Hrun| |].
    + eapply (arms_bind _ _ (of_interface_lasting _)).
      { apply receive_record_arms; try done. apply cb_state_change_io; eauto using pw_ifs. }
      intros db'. apply arms_ret. intros l Hl. exists db'. by rewrite app_nil_r.
    + intros l (db' & Heq & Hl). cbn in Heq. subst p'. eapply replaced_waits; [done..| |done].
      intros t ty og Hw. destruct (Hl t ty og Hw); [by left|by right].
  - eapply (carries_arms (fun _ => True) _ _ _ _ _ _ _ (fun r _ => r.2 = p)); [exact Hrun|by apply arms_ret|].
    intros l Heq t r Hw. cbn in Heq. subst. by left.
Qed.

Lemma config_carried held cm p e b p' e' :
  proxy_wf e' p' ->
  handle_message clk sock stats snd gts get_if_name vif w held (a_config_msg cm) p e = Some ((b, p'), e') ->
  carries (a_config_msg cm) e e' p p'.
Proof.
  intros Hp' Hrun. cbn [handle_message] in Hrun.
  eapply (carries_arms _ _ _ _ _ _ _ _ (fun r => config_result cm p r.2)); [exact Hrun| |].
  - eapply (arms_bind _ _ (of_interface_lasting _)); [apply config_arms|]. intros p1. apply arms_ret.
    intros l Hl. rewrite app_nil_r. exact Hl.
  - intros l [Hdata Hds] t [j ty og|gaddr sa] Hw; cbn [Datatypes.snd] in *; [|left; cbn in *; by rewrite Hdata in Hw].
    destruct Hw as (d & Hd & Hw). destruct (Hds j d Hd) as [?|[-> Hl]]; [left; split; [by exists d|done]|right].
    split; [by eapply Hl|]. by eapply made_querier.
Qed.

Lemma source_carried held i gaddr sa p e b p' e' :
  proxy_wf e p ->
  handle_message clk sock stats snd gts get_if_name vif w held (new_source_msg i gaddr sa) p e = Some ((b, p'), e') ->
  carries (new_source_msg i gaddr sa) e e' p p'.
Proof.
  intros Hp Hrun. cbn [handle_message] in Hrun.
  eapply (carries_arms (timer_for gaddr sa) _ _ _ _ _ _ _ (fun r l => m_downstreams r.2 = m_downstreams p
     /\ table_more gaddr sa (m_data p) (m_data r.2) l)); [exact Hrun| |].
  - eapply (arms_bind _ _ (timer_for_lasting gaddr sa)); [by apply event_new_source_arms; [..|apply Hp|apply Hp]|].
    intros p1. apply arms_ret. intros l Hl. by rewrite app_nil_r.
  - intros l [Hds Hl] t [j ty og|g' s'] Hw; cbn [Datatypes.snd] in *; [left; cbn in *; by rewrite Hds in Hw|].
    destruct (Hl t g' s' Hw) as [?|(-> & -> & ?)]; [by left|by right].
Qed.
(** A timer is for one role, which follows from what is stored with it. *)
Lemma querier_timer_carried held t tm p e b p' e' :
  proxy_wf e p -> proxy_wf e' p' -> e_store e !! t = Some tm -> tm_type tm <> NEW_SOURCE_TIMER_MSG ->
  (p0 ← querier_timer clk sock snd gts get_if_name vif w held t tm p; mret (true, p0)) e = Some ((b, p'), e') ->
  carries (a_timer_msg t) e e' p p'.
Proof.
  intros Hp Hp' Htm Hty Hrun. unfold querier_timer in Hrun.
  assert (Hroles : known e p -> forall t' r, proxy_waits p t' r -> a_timer_msg (A := A) t = a_timer_msg t' ->
    exists ty og, r = querier_role (tm_if_index tm) ty og).
  { intros Hkn t' r Hw [= <-]. destruct (Hkn t r Hw) as (tm' & Htm' & Hr). assert (tm' = tm) as -> by congruence.
    destruct r as [i ty og|g s]; [destruct Hr as (<- & _); eauto|by destruct Hr]. }
  destruct (sl_find (tm_if_index tm) (m_downstreams p)) as [d|] eqn:Hd.
  - unfold mbind, M_bind in Hrun.
    destruct (timer_triggerd _ _ _ _ _ _ _ _ _ _) as [[db' e1]|] eqn:E; [|done]. injection Hrun as <- <- <-.
    epose proof (timer_arms clk snd w (tm_if_index tm) (d_timers_values d.2)
      (cb_state_change sock snd gts get_if_name vif p (tm_if_index tm))
      (cb_state_change_io sock snd gts get_if_name vif gts_ok p _ (pw_ifs _ _ Hp)) held t tm (d_db d.2) e db' e1
      (found_db_wf _ _ _ _ Hp Hd) Htm E) as Hrest.
    intros Hok Hkn. destruct (Hrest Hok) as (l & Harm & Hl).
    eapply carried_armed; [exact Harm|]. eapply replaced_waits; [done..| |].
    + intros t' ty og Hw. destruct (Hl t' ty og Hw) as [[? Hne]|?]; [left|by right]. split; [done|congruence].
    + intros t' r Hw Heq. by apply (Hroles Hkn t').
  - injection Hrun as <- <- <-. intros Hok Hkn. split; [done|intros ? tm' ?; exists tm'; by split_and!|done|].
    intros t' r Hw. left. split; [done|]. intros Heq. destruct (Hroles Hkn t' r Hw Heq) as (ty & og & ->).
    destruct Hw as (d & Hin & _). rewrite (downstream_found e p _ _ Hp Hin) in Hd. done.
Qed.

Lemma timer_carried held t p e b p' e' :
  proxy_wf e p -> proxy_wf e' p' ->
  handle_message clk sock stats snd gts get_if_name vif w held (a_timer_msg t) p e = Some ((b, p'), e') ->
  carries (a_timer_msg t) e e' p p'.
Proof.
  intros Hp Hp' Hrun. cbn [handle_message] in Hrun.
  unfold mbind at 1, M_bind at 1, get_timer at 1 in Hrun. destruct (e_store e !! t) as [tm|] eqn:Htm; [|done].
  pose proof (fun Hty => querier_timer_carried held t tm p e b p' e' Hp Hp' Htm Hty) as Hq.
  assert (Hsame : (known e p -> forall r, ~ proxy_waits p t r) -> (mret (true, p) : M A _) e = Some ((b, p'), e') ->
    carries (a_timer_msg t) e e' p p').
  { intros Hn [= <- <- <-] Hok Hkn. split; [done|intros ? tm' ?; exists tm'; by split_and!|done|].
    intros t' r Hw. left. split; [done|]. intros [= <-]. by apply (Hn Hkn r). }
  assert (Hnone : (forall ty, ty = tm_type tm ->
      group_timer ty = false /\ ty <> GENERAL_QUERY_TIMER_MSG /\ ty <> NEW_SOURCE_TIMER_MSG) ->
    known e p -> forall r, ~ proxy_waits p t r).
  { intros Hty Hkn r Hw. destruct (Hkn t r Hw) as (tm' & Htm' & Hr). assert (tm' = tm) as -> by congruence.
    destruct (Hty _ eq_refl) as (Hgt & ? & ?). destruct r as [i ty og|g s]; [|by destruct Hr].
    destruct Hw as (d & _ & Hw). destruct Hr as (_ & <- & _). destruct (waits_typed _ _ _ _ Hw) as [[? _]|[Hgt' _]]; [done|by rewrite Hgt in Hgt']. }
  destruct (tm_type tm) eqn:Hty; try (apply Hq; [congruence|exact Hrun]);
    try (apply Hsame; [apply Hnone; intros ty ->; by split_and!|exact Hrun]).
  destruct (ew_shape _ (pw_env _ _ Hp) _ _ Htm) as [_ [Hga Hsa]].
  destruct Hga as [|[gaddr Hga]]; [congruence|]. destruct (Hsa Hty) as [sa Hsa'].
  unfold mbind, M_bind in Hrun.
  destruct (timer_triggerd_maintain_routing_table _ _ _ _ _ _ _ _ _ _ _ _) as [[p1 e1]|] eqn:E; [|done].
  injection Hrun as <- <- <-.
  epose proof (maintain_arms clk sock stats snd gts get_if_name vif w gts_ok held t tm p e p1 e1 gaddr sa
    (pw_data _ _ Hp) (pw_ifs _ _ Hp) Htm (conj Hty (conj Hga Hsa')) E) as Hrest.
  intros Hok Hkn. destruct (Hrest Hok) as (l & Harm & Hds & Hl).
  eapply carried_armed; [exact Harm|]. intros t' [j ty og|g' s'] Hw; cbn in Hw.
  - left. rewrite Hds in Hw. split; [exact Hw|]. intros [= <-].
    destruct (Hkn t (querier_role j ty og) Hw) as (tm' & Htm' & _ & Hty' & _). destruct Hw as (d & _ & Hw).
    assert (tm' = tm) as -> by congruence. destruct (waits_typed _ _ _ _ Hw) as [[? _]|[? _]]; subst; by rewrite Hty in *.
  - assert (Honly : only_for t gaddr sa (m_data p)).
    { intros g1 s1 Hw1. destruct (Hkn t (source_role g1 s1) Hw1) as (tm' & Htm' & _ & ? & ?). split; congruence. }
    destruct (Hl Honly t' g' s' Hw) as [[? Hne]|(-> & -> & ?)]; [left|by right]. split; [done|congruence].
Qed.

Lemma message_carried held m p e b p' e' :
  proxy_wf e p -> proxy_wf e' p' -> message_ok m ->
  handle_message clk sock stats snd gts get_if_name vif w held m p e = Some ((b, p'), e') ->
  carries m e e' p p'.
Proof.
  intros Hp Hp' Hok Hrun. destruct m as [|v pr|t|gr|i gaddr sa|cm| |].
  3: by eapply timer_carried.
  3: by eapply report_carried.
  3: by eapply source_carried.
  3: by eapply config_carried.
  all: eapply (carries_arms (fun _ => True) _ _ _ _ _ _ _ (fun r _ => r.2 = p)); [exact Hrun|by apply arms_ret|];
    intros l Heq t r Hw; cbn in Heq; subst; by left.
Qed.

(** *** The system *)

(** The instance, its environment with the reminder database, and the timers in
    its queue. Of the other messages only their order of arrival is left open. *)
Definition system : Type := env A * proxy_state (A := A) * list tid.

Definition set_timing (db : timing_db (W := Z) (M := tid)) e : env A :=
  {| e_reads := e_reads e; e_next := e_next e; e_store := e_store e; e_timing := db; e_lost := e_lost e; e_log := e_log e |}.

(** The timers that a round hands to the worker. *)
Definition delivered (fired : list (timing_db_value (W := Z) (M := tid))) : list tid :=
  (List.filter (fun v => bool_decide (v.1 = Some w)) fired).*2.

Inductive system_step : system -> system -> Prop :=
  | other_message held m p e b p' e' q :
      message_ok m -> (forall t, m <> a_timer_msg t) ->
      handle_message clk sock stats snd gts get_if_name vif w held m p e = Some ((b, p'), e') ->
      system_step (e, p, q) (e', p', q)
  | timer_message held t p e b p' e' q1 q2 :
      handle_message clk sock stats snd gts get_if_name vif w held (a_timer_msg t) p e = Some ((b, p'), e') ->
      system_step (e, p, q1 ++ t :: q2) (e', p', q1 ++ q2)
  | timing_round z p e q :
      system_step (e, p, q)
        (set_timing (fire z (e_timing e)).2 e, p, q ++ delivered (fire z (e_timing e)).1).

(** A timer that is on its way to the worker; one whose reminder was refused. *)
Definition pending e q t : Prop := t ∈ q \/ waiting w e t.
Definition lost e t : Prop := t ∈ e_lost e.

Record awaited e p q : Prop := {
  aw_ok : env_ok e;
  aw_known : known e p;
  aw_pending : forall t r, proxy_waits p t r -> pending e q t \/ lost e t
}.

Lemma carried_awaited m e e' p p' q q' :
  carried m e e' p p' -> awaited e p q ->
  (forall t, t ∈ q -> m <> a_timer_msg t -> t ∈ q') -> awaited e' p' q'.
Proof.
  intros [Hok Hk Hw Hr] [_ Hkn Hp] Hq. split; [done|..]; intros t r Hwaits;
    destruct (Hr t r Hwaits) as [[Ho Hne]|[Hwt Hm]].
  - eapply made_kept; [apply role_of_lasting|done|by apply Hkn].
  - done.
  - assert (Hcase : t ∈ q \/ reminded w e t) by (destruct (Hp t r Ho) as [[?|?]|?]; [by left|right; by left|right; by right]).
    unfold pending, lost. destruct Hcase as [?|[?|?]%Hw]; [left; left; by apply Hq|left; by right|by right].
  - unfold pending, lost. destruct Hwt as [?|?]; [left; by right|by right].
Qed.

Lemma fire_all z (db : timing_db (W := Z) (M := tid)) : (fire z db).1 ++ (fire z db).2.*2 = db.*2.
Proof.
  induction db as [|[u v] db IH]; simpl; [done|]. destruct (u <=? z); [|done].
  destruct (fire z db). simpl in *. by rewrite IH.
Qed.

Lemma delivered_In fired t : t ∈ delivered fired <-> (Some w, t) ∈ fired.
Proof.
  unfold delivered. rewrite list_elem_of_fmap. split.
  - intros ([o t'] & -> & Hin). apply list_elem_of_In, filter_In in Hin as [Hin Hb].
    apply list_elem_of_In in Hin. cbn in *. by apply bool_decide_eq_true in Hb as ->.
  - intros Hin. exists (Some w, t). split; [done|]. apply list_elem_of_In, filter_In.
    split; [by apply list_elem_of_In|]. by apply bool_decide_eq_true_2.
Qed.

Lemma round_awaited z e p q :
  awaited e p q -> awaited (set_timing (fire z (e_timing e)).2 e) p (q ++ delivered (fire z (e_timing e)).1).
Proof.
  intros [Hf Hkn Hp]. split; [exact Hf|exact Hkn|].
  intros t r Hw. unfold pending. rewrite elem_of_app, delivered_In.
  destruct (Hp t r Hw) as [[?|Hwait]|?]; [by left; left; left| |by right]. left. unfold waiting in *. cbn.
  rewrite <- (fire_all z), elem_of_app in Hwait. tauto.
Qed.

(** What holds in every state of the system. *)
Definition system_ok (s : system) : Prop :=
  proxy_wf s.1.1 s.1.2 /\ awaited s.1.1 s.1.2 s.2.

Lemma system_step_wf s s' : system_step s s' -> proxy_wf s.1.1 s.1.2 -> proxy_wf s'.1.1 s'.1.2.
Proof.
  intros [held m p e b p' e' q Hok Hne Hrun|held t p e b p' e' q1 q2 Hrun|z p e q] Hp; cbn in *.
  - eapply (instance_step_wf clk sock stats snd gts get_if_name vif w gts_ok (p, e) (p', e')); [by econstructor|done].
  - eapply (instance_step_wf clk sock stats snd gts get_if_name vif w gts_ok (p, e) (p', e')); [|done].
    by eapply (instance_message _ _ _ _ _ _ _ _ held (a_timer_msg t)).
  - eapply proxy_wf_ext; [|exact Hp]. split; cbn; [done..|]. by intros [].
Qed.

Lemma system_step_ok s s' : system_step s s' -> system_ok s -> system_ok s'.
Proof.
  intros Hstep [Hp Haw]. pose proof (system_step_wf _ _ Hstep Hp) as Hp'. split; [done|].
  destruct Hstep as [held m p e b p' e' q Hok Hne Hrun|held t p e b p' e' q1 q2 Hrun|z p e q]; cbn in *.
  - pose proof (message_carried held m p e b p' e') as Hc.
    eapply carried_awaited; [apply Hc; [done..|apply Haw|apply Haw]|done|done].
  - pose proof (message_carried held (a_timer_msg t) p e b p' e') as Hc.
    eapply carried_awaited; [apply Hc; [done..|apply Haw|apply Haw]|done|]. intros t' Hin Hne.
    rewrite elem_of_app, elem_of_cons in Hin. apply elem_of_app. destruct Hin as [?|[->|?]]; [by left|done|by right].
  - apply round_awaited. by apply Haw.
Qed.

Lemma new_system_ok gmp name : system_ok (empty_env, new_proxy_state gmp name, []).
Proof.
  split; cbn.
  - apply new_proxy_state_wf. split; cbn; intros t; [|intros tm; by rewrite lookup_empty].
    rewrite lookup_empty. split; [lia|by intros [? ?]].
  - split.
    + intros t [tm Ht]. unfold empty_env in Ht. cbn in Ht. by rewrite lookup_empty in Ht.
    + intros t [i ty og|g s] Hw; cbn in Hw; [destruct Hw as (d & ?%elem_of_nil & _)|destruct Hw as (x & Hx & _)]; [done|].
      unfold get_available_sources in Hx. cbn in Hx. rewrite lookup_empty in Hx. by apply elem_of_nil in Hx.
    + intros t [i ty og|g s] Hw; cbn in Hw; [destruct Hw as (d & ?%elem_of_nil & _)|destruct Hw as (x & Hx & _)]; [done|].
      unfold get_available_sources in Hx. cbn in Hx. rewrite lookup_empty in Hx. by apply elem_of_nil in Hx.
Qed.

Lemma reachable_ok gmp name s :
  rtc system_step (empty_env, new_proxy_state gmp name, []) s -> system_ok s.
Proof.
  intros Hrun. remember (empty_env, new_proxy_state gmp name, []) as s0 eqn:E.
  assert (Hs : system_ok s0) by (subst; apply new_system_ok). clear E.
  induction Hrun as [s|s1 s2 s3 Hstep _ IH]; [done|]. by eapply IH, system_step_ok.
Qed.

(** C5: No timer is forgotten: whatever messages an instance handles, whenever the
    timing thread runs its rounds and whatever the clock reads, every timer that
    the instance waits for (the next general query of an interface; of a group the
    filter timer, the older host present timer and, while retransmissions remain,
    the two retransmission timers; the timers of the sources of a membership and of
    the known senders) is of the kind and for the interface, group and source it is
    waited for, and its reminder is in the database of the timing thread, or its
    message is in the queue, or the database refused its reminder because another
    one had the same time point. *)
Theorem awaited_timers gmp name e p q :
  rtc system_step (empty_env, new_proxy_state gmp name, []) (e, p, q) ->
  forall t r, proxy_waits p t r -> made (role_of r) e t /\ (pending e q t \/ lost e t).
Proof.
  intros Hrun t r Hw. destruct (reachable_ok _ _ _ Hrun) as [_ [_ Hkn Hp]]. split; [by apply Hkn|by eapply Hp].
Qed.

(** The time points of a database are reached at some time. *)
Lemma fire_late (db : timing_db (W := Z) (M := tid)) : exists z0, forall z, z0 <= z -> (fire z db).2 = [].
Proof.
  induction db as [|[u v] db [z0 IH]]; [by exists 0|]. exists (Z.max u z0). intros z Hz. simpl.
  rewrite (proj2 (Z.leb_le u z)) by lia. specialize (IH z ltac:(lia)). by destruct (fire z db).
Qed.

(** What a group and its sources wait for to expire is handed to the worker, but
    for reminders that were refused. *)
Definition expires (q lost : list tid) (g : gaddr_info A) : Prop :=
  (filter_mode g = EXCLUDE_MODE -> exists t, shared_filter_timer g = Some t /\ (t ∈ q \/ t ∈ lost))
  /\ Forall (fun s => exists t, shared_source_timer s = Some t /\ (t ∈ q \/ t ∈ lost)) (include_requested_list g).

(** C6: No membership lasts for ever, unless the time point of its reminder was
    taken: in every state that an instance reaches, for every group of every
    downstream interface, a late enough round of the timing thread leaves in the
    queue the filter timer of the group, if it is in EXCLUDE mode, and the timer of
    every source of its include or requested list, except for the timers whose
    reminders the database refused. *)
Theorem memberships_expire gmp name e p q :
  rtc system_step (empty_env, new_proxy_state gmp name, []) (e, p, q) ->
  exists z0, forall z, z0 <= z -> forall i d gaddr g,
    (i, d) ∈ m_downstreams p -> group_info (d_db d) !! gaddr = Some g ->
    expires (q ++ delivered (fire z (e_timing e)).1) (e_lost e) g.
Proof.
  intros Hrun. destruct (reachable_ok _ _ _ Hrun) as [Hwf Haw]. cbn in *.
  destruct (fire_late (e_timing e)) as [z0 Hz0]. exists z0. intros z Hz i d gaddr g Hd Hg.
  pose proof (round_awaited z e p q Haw) as [_ _ Hp]. rewrite (Hz0 z Hz) in Hp.
  assert (Hq : forall t ty, record_waits g t ty -> t ∈ q ++ delivered (fire z (e_timing e)).1 \/ t ∈ e_lost e).
  { intros t ty Hw. destruct (Hp t (querier_role i ty (Some gaddr))) as [[?|Hwait]|?];
      [|by left|by apply elem_of_nil in Hwait|by right].
    exists d. split; [done|]. right. by exists gaddr, g. }
  pose proof (pw_dbs _ _ Hwf) as Hdbs. rewrite Forall_forall in Hdbs.
  pose proof (dw_groups _ _ (Hdbs _ Hd) gaddr g Hg) as Hgw. split.
  - intros Hm. pose proof (gw_mode _ _ _ Hgw) as Hmode. rewrite Hm in Hmode. destruct Hmode as [t Ht].
    exists t. split; [done|]. by apply (Hq t FILTER_TIMER_MSG).
  - apply Forall_forall. intros s Hs. pose proof (gw_timed _ _ _ Hgw) as Hti. rewrite Forall_forall in Hti.
    destruct (Hti s Hs) as (t & Ht & _). exists t. split; [done|]. apply (Hq t SOURCE_TIMER_MSG). left.
    apply timers_In. by exists s.
Qed.
End System.

(** ** Examples *)

Definition ex_add_downstream : config_msg :=
  {| cm_instruction := ADD_DOWNSTREAM; cm_if_index := 7; cm_upstream_priority := 0;
     cm_interface := ex_interface; cm_tv := new_timers_values; cm_rule_binding := None |}.

Definition ex_join (gaddr : ipv4) : proxy_msg ipv4 :=
  a_group_record_msg {| gr_if_index := 7; gr_record_type := CHANGE_TO_EXCLUDE_MODE; gr_gaddr := gaddr;
                        gr_slist := [ex_source 1]; gr_grp_mem_proto := IGMPv3 |}.

Definition ex_other_group : ipv4 := mk_ipv4 232 1 1 2.

(** The interface 7 is added and a listener reports two groups. *)
Definition ex_messages : list (proxy_msg ipv4) :=
  [a_config_msg ex_add_downstream; ex_join ex_group; ex_join ex_other_group].

(** The state after the messages, on some clock. *)
Definition ex_run (clk : nat -> Z) : option (proxy_state (A := ipv4) * env ipv4) :=
  handle_messages clk ex_sock ex_stats (igmp_sender clk ex_sock) ∅ ex_if_name ex_vif 0
    (new_proxy_state IGMPv3 "proxy") ex_messages empty_env.

Section Runs.
Context (clk : nat -> Z).
Notation system_step := (system_step clk ex_sock ex_stats (igmp_sender clk ex_sock) ∅ ex_if_name ex_vif 0).

Lemma handled_reachable (ms : list (proxy_msg ipv4)) p e p' e' q :
  Forall (fun m => message_ok m /\ forall t, m <> a_timer_msg t) ms ->
  handle_messages clk ex_sock ex_stats (igmp_sender clk ex_sock) ∅ ex_if_name ex_vif 0 p ms e = Some (p', e') ->
  rtc system_step (e, p, q) (e', p', q).
Proof.
  intros Hms. revert p e. induction Hms as [|m ms [Hok Ht] Hms IH]; intros p e Hrun.
  { injection Hrun as <- <-. apply rtc_refl. }
  unfold handle_messages in Hrun. cbn [foldM] in Hrun. unfold mbind at 1, M_bind at 1, mbind at 1, M_bind at 1 in Hrun.
  destruct (handle_message clk ex_sock ex_stats (igmp_sender clk ex_sock) ∅ ex_if_name ex_vif 0 false m p e) as [[[b p1] e1]|] eqn:E; [|done].
  eapply rtc_l; [by eapply (other_message clk _ _ _ _ _ _ _ false m)|]. by apply IH.
Qed.

Lemma ex_reachable p e :
  ex_run clk = Some (p, e) -> rtc system_step (empty_env, new_proxy_state IGMPv3 "proxy", []) (e, p, []).
Proof.
  unfold ex_run. intros Hrun. refine (handled_reachable ex_messages _ _ _ _ _ _ Hrun).
  repeat (apply Forall_cons_2; [split; [|by intros t]|]); [by eexists|repeat constructor..].
Qed.
End Runs.

Definition ex_after (clk : nat -> Z) : proxy_state (A := ipv4) * env ipv4 :=
  default (new_proxy_state IGMPv3 "proxy", empty_env) (ex_run clk).

Lemma ex_run_after : ex_run ex_clk = Some (ex_after ex_clk).
Proof.
  assert (Hsome : match ex_run ex_clk with Some _ => true | None => false end = true) by (vm_compute; reflexivity).
  unfold ex_after. by destruct (ex_run ex_clk).
Qed.

Lemma ex_after_reachable :
  rtc (system_step ex_clk ex_sock ex_stats ex_sender ∅ ex_if_name ex_vif 0)
    (empty_env, new_proxy_state IGMPv3 "proxy", []) ((ex_after ex_clk).2, (ex_after ex_clk).1, []).
Proof. apply ex_reachable. rewrite ex_run_after. by destruct (ex_after ex_clk). Qed.

(** The record of the group reported last. *)
Definition ex_record p : option (gaddr_info ipv4) :=
  match m_downstreams p with
  | (i, d) :: _ => if bool_decide (i = 7) then group_info (d_db d) !! ex_other_group else None
  | [] => None
  end.

Lemma ex_record_found p g :
  ex_record p = Some g -> exists d, (7, d) ∈ m_downstreams p /\ group_info (d_db d) !! ex_other_group = Some g.
Proof.
  unfold ex_record. destruct (m_downstreams p) as [|[i d] ds]; [done|]. case_bool_decide as Hi; [subst i|done].
  intros Hg. exists d. split; [left|done].
Qed.

Lemma ex_waits p t :
  (g ← ex_record p; shared_filter_timer g) = Some t ->
  proxy_waits p t (querier_role 7 FILTER_TIMER_MSG (Some ex_other_group)).
Proof.
  destruct (ex_record p) as [g|] eqn:Hr; [|done]. intros Ht. destruct (ex_record_found p g Hr) as (d & Hd & Hg).
  exists d. split; [done|]. right. by exists ex_other_group, g.
Qed.

Lemma awaited_timers_witness :
  made (role_of (querier_role 7 FILTER_TIMER_MSG (Some ex_other_group))) (ex_after ex_clk).2 4%nat
  /\ (pending 0 (ex_after ex_clk).2 [] 4%nat \/ lost (ex_after ex_clk).2 4%nat).
Proof.
  apply (awaited_timers ex_clk ex_sock ex_stats ex_sender ∅ ex_if_name ex_vif 0 gts_empty IGMPv3 "proxy"
    (ex_after ex_clk).2 (ex_after ex_clk).1 [] ex_after_reachable).
  apply ex_waits. vm_compute. reflexivity.
Defined.

Lemma memberships_expire_witness :
  exists g, ex_record (ex_after ex_clk).1 = Some g /\ filter_mode g = EXCLUDE_MODE
    /\ exists z0, forall z, z0 <= z -> expires ([] ++ delivered 0 (fire z (e_timing (ex_after ex_clk).2)).1) (e_lost (ex_after ex_clk).2) g.
Proof.
  destruct (ex_record (ex_after ex_clk).1) as [g|] eqn:Hg.
  - exists g. split; [done|]. split.
    + assert (Hm : (filter_mode <$> ex_record (ex_after ex_clk).1) = Some EXCLUDE_MODE) by (vm_compute; reflexivity).
      rewrite Hg in Hm. by injection Hm.
    + destruct (memberships_expire ex_clk ex_sock ex_stats ex_sender ∅ ex_if_name ex_vif 0 gts_empty
        IGMPv3 "proxy" (ex_after ex_clk).2 (ex_after ex_clk).1 [] ex_after_reachable) as [z0 Hz].
      exists z0. intros z Hle. destruct (ex_record_found _ g Hg) as (d & Hd & Hin). by eapply (Hz z Hle).
  - exfalso. assert (Hs : is_Some (shared_filter_timer <$> ex_record (ex_after ex_clk).1)) by (eexists; vm_compute; reflexivity).
    rewrite Hg in Hs. by destruct Hs.
Defined.

(** On a clock with different readings no reminder is refused. *)
Lemma ex_none_lost : e_lost (ex_after ex_clk).2 = [].
Proof. vm_compute. reflexivity. Qed.

(** On a clock whose readings do not change between two reports of different
    groups, the reminder of the second filter timer is lost: the group stays in
    EXCLUDE mode, and nothing will make it leave. *)
Lemma coarse_clock_loses_timer :
  proxy_waits (ex_after (fun _ => 0)).1 4%nat (querier_role 7 FILTER_TIMER_MSG (Some ex_other_group))
  /\ ~ pending 0 (ex_after (fun _ => 0)).2 [] 4%nat /\ lost (ex_after (fun _ => 0)).2 4%nat.
Proof.
  split_and!.
  - apply ex_waits. vm_compute. reflexivity.
  - intros [?%elem_of_nil|Hw]; [done|]. revert Hw. unfold waiting.
    apply (bool_decide_eq_false (_ ∈ _)). vm_compute. reflexivity.
  - unfold lost. vm_compute. left.
Qed.
