(* ===== verification/Status.v ===== *)
(** * The status text (to_string of src/proxy/*.cpp, include/proxy/message_format.hpp)

    What a debug message prints: the state of a proxy instance with the databases
    of its queriers, their timers and the known sources, and the texts of the
    configuration and of the interfaces. The texts of timers read the clock and
    follow the pointers to the timers, so they are computations; the names of
    interfaces come from the operating system ([get_if_name]). *)

From Stdlib Require Import Strings.Ascii.
From S2P Require Import Result.
From S2P Require Import Prelude Def TimersValues AddrStorage Filter InstanceDef Timing Messages Sender Printing.
From S2P Require Import Scanner Configuration Interfaces RpFilter MembershipDb Querier QuerierSpec QuerierReports.
From S2P Require Import QuerierTimers QuerierTheorems RoutingData ProxyRouting RoutingTheorems ProxyInstance.
From S2P Require Import InstanceTheorems Proxy Reminders.

Local Open Scope Z_scope.

(** ** Names *)

Definition get_mc_filter_name (mf : mc_filter) : string :=
  match mf with INCLUDE_MODE => "INCLUDE_MODE" | EXCLUDE_MODE => "EXCLUDE_MODE" end.

Definition get_group_mem_protocol_name (gmp : group_mem_protocol) : string :=
  match gmp with
  | IGMPv1 => "IGMPv1" | IGMPv2 => "IGMPv2" | IGMPv3 => "IGMPv3" | MLDv1 => "MLDv1" | MLDv2 => "MLDv2"
  end.

(** A value that the map does not hold gives the empty string. *)
Definition get_mcast_addr_record_type_name (art : mcast_addr_record_type) : string :=
  match art with
  | MODE_IS_INCLUDE => "MODE_IS_INCLUDE"
  | MODE_IS_EXCLUDE => "MODE_IS_EXCLUDE"
  | CHANGE_TO_INCLUDE_MODE => "CHANGE_TO_INCLUDE_MODE"
  | CHANGE_TO_EXCLUDE_MODE => "CHANGE_TO_EXCLUDE_MODE"
  | ALLOW_NEW_SOURCES => "ALLOW_NEW_SOURCES"
  | BLOCK_OLD_SOURCES => "BLOCK_OLD_SOURCES"
  | UNKNOWN_RECORD _ => EmptyString
  end.

Definition get_message_type_name (mt : message_type) : string :=
  match mt with
  | INIT_MSG => "INIT_MSG"
  | TEST_MSG => "TEST_MSG"
  | EXIT_MSG => "EXIT_MSG"
  | FILTER_TIMER_MSG => "FILTER_TIMER_MSG"
  | SOURCE_TIMER_MSG => "SOURCE_TIMER_MSG"
  | NEW_SOURCE_MSG => "NEW_SOURCE_MSG"
  | NEW_SOURCE_TIMER_MSG => "NEW_SOURCE_TIMER_MSG"
  | RET_GROUP_TIMER_MSG => "RET_GROUP_TIMER_MSG"
  | RET_SOURCE_TIMER_MSG => "RET_SOURCE_TIMER_MSG"
  | OLDER_HOST_PRESENT_TIMER_MSG => "OLDER_HOST_PRESENT_TIMER_MSG"
  | GENERAL_QUERY_TIMER_MSG => "GENERAL_QUERY_TIMER_MSG"
  | CONFIG_MSG => "CONFIG_MSG"
  | GROUP_RECORD_MSG => "GROUP_RECORD_MSG"
  | DEBUG_MSG => "DEBUG_MSG"
  end.

Definition get_message_priority_name (mp : message_priority) : string :=
  match mp with SYSTEMIC => "SYSTEMIC" | USER_INPUT => "USER_INPUT" | LOSEABLE => "LOSEABLE" end.

(** [TT_DISABLE] is not in the map. *)
Definition get_token_type_name (tt : token_type) : string :=
  match tt with
  | TT_PROTOCOL => "TT_PROTOCOL"
  | TT_MLDV1 => "TT_MLDV1"
  | TT_MLDV2 => "TT_MLDV2"
  | TT_IGMPV1 => "TT_IGMPV1"
  | TT_IGMPV2 => "TT_IGMPV2"
  | TT_IGMPV3 => "TT_IGMPV3"
  | TT_PINSTANCE => "TT_PINSTANCE"
  | TT_DOUBLE_DOT => "TT_DOUBLE_DOT"
  | TT_DOT => "TT_DOT"
  | TT_ARROW => "TT_ARROW"
  | TT_UPSTREAM => "TT_UPSTREAM"
  | TT_DOWNSTREAM => "TT_DOWNSTREAM"
  | TT_OUT => "TT_OUT"
  | TT_IN => "TT_IN"
  | TT_BLACKLIST => "TT_BLACKLIST"
  | TT_WHITELIST => "TT_WHITELIST"
  | TT_RULE_MATCHING => "TT_RULE_MATCHING"
  | TT_TABLE => "TT_TABLE"
  | TT_ALL => "TT_ALL"
  | TT_FIRST => "TT_FIRST"
  | TT_MUTEX => "TT_MUTEX"
  | TT_DISABLE => EmptyString
  | TT_LEFT_BRACE => "TT_LEFT_BRACE"
  | TT_RIGHT_BRACE => "TT_RIGHT_BRACE"
  | TT_LEFT_BRACKET => "TT_LEFT_BRACKET"
  | TT_RIGHT_BRACKET => "TT_RIGHT_BRACKET"
  | TT_RANGE => "TT_RANGE"
  | TT_SLASH => "TT_SLASH"
  | TT_STAR => "TT_STAR"
  | TT_PIPE => "TT_PIPE"
  | TT_STRING => "TT_STRING"
  | TT_NIL => "TT_NIL"
  end.

Definition bool_text (b : bool) : string := if b then "true" else "false".

(** [std::ostream] on a [bool]. *)
Definition bit_text (b : bool) : string := if b then "1" else "0".

(** The entries of a [std::map], whose iterators follow the order of the keys. *)
Definition in_order {K V} `{Countable K, !KeyOrder K} (m : gmap K V) : list (K * V) :=
  fold_right sl_insert [] (map_to_list m).

(** ** Times *)

Definition time_to_string_sec (sec : Z) : string := print_Z sec +:+ " sec".
Definition time_to_string_msec (msec : Z) : string := print_Z msec +:+ " msec".

Definition timers_values_to_string (tv : timers_values) : string :=
  let listening := get_robustness_variable tv * get_query_interval tv * 1000 in
  "is_default_timers_values_tank: " +:+ bool_text (is_default_timers_values_tank tv) +:+ endl
  +:+ "Robustness Variable: " +:+ print_Z (get_robustness_variable tv) +:+ endl
  +:+ "Query Interval: " +:+ time_to_string_sec (get_query_interval tv) +:+ endl
  +:+ "Query Response Interval: " +:+ time_to_string_msec (get_query_response_interval tv) +:+ endl
  +:+ "Multicast Address Listining Interval: "
  +:+ time_to_string_msec (listening + get_query_response_interval tv) +:+ endl
  +:+ "Other Querier Present Interval: "
  +:+ time_to_string_msec (listening + Z.quot (get_query_response_interval tv) 2) +:+ endl
  +:+ "Startup Query Interval: " +:+ time_to_string_sec (get_startup_query_interval tv) +:+ endl
  +:+ "Startup Query Count: " +:+ print_Z (get_startup_query_count tv) +:+ endl
  +:+ "Last Listener Query Interval: "
  +:+ time_to_string_msec (get_last_listener_query_interval tv) +:+ endl
  +:+ "Last Listener Query Count: " +:+ print_Z (get_last_listener_query_count tv) +:+ endl
  +:+ "Last Listener Query Time: "
  +:+ time_to_string_msec (get_last_listener_query_interval tv * get_last_listener_query_count tv) +:+ endl
  +:+ "Unsolicited Report Interval: " +:+ time_to_string_msec (get_unsolicited_report_interval tv) +:+ endl
  +:+ "Older Host Present Interval: "
  +:+ time_to_string_msec (listening + get_query_response_interval tv) +:+ endl.

(** [std::ostream] on a [double] that holds an integer that is not negative: six
    significant digits, rounded to even at a tie, without trailing zeros. *)
Fixpoint strip_zeros (fuel : nat) (n : Z) : Z :=
  match fuel with
  | O => n
  | S fuel => if n mod 10 =? 0 then strip_zeros fuel (n / 10) else n
  end.

Definition exponent_text (e : Z) : string :=
  "e+" +:+ (if e <? 10 then "0" else EmptyString) +:+ print_Z e.

Definition mantissa_text (q : Z) : string :=
  match print_Z (strip_zeros 5 q) with
  | String c EmptyString => String c EmptyString
  | String c s => String c ("." +:+ s)
  | EmptyString => EmptyString
  end.

Definition double_to_string (n : Z) : string :=
  let k := Z.of_nat (String.length (print_Z n)) in
  if k <=? 6 then print_Z n
  else let p := 10 ^ (k - 6) in
       let r := n mod p in
       let q := if (p <? 2 * r) || ((2 * r =? p) && Z.odd (n / p)) then n / p + 1 else n / p in
       if q =? 10 ^ 6 then "1" +:+ exponent_text k else mantissa_text q +:+ exponent_text (k - 1).

(** ** The configuration and the process *)

Section Texts.
Context (inet_ntop : addr_family -> list Z -> option string) (get_if_name : Z -> string).

(** The tables in the order of their names. *)
Definition global_table_set_to_string (gts : gmap string table) : string :=
  match (in_order gts).*2 with
  | [] => EmptyString
  | t :: ts => table_to_string inet_ntop t
               +:+ fold_right (fun t acc => endl +:+ table_to_string inet_ntop t +:+ acc) EmptyString ts
  end.

Definition reverse_path_filter_to_string (r : reverse_path_filter) : string :=
  "disabled reverse path filter on following interfaces:"
  +:+ fold_right (fun e acc => endl +:+ tab +:+ "-" +:+ e.1 +:+ acc) EmptyString
        (in_order (gset_to_gmap tt (m_restore_if_state r))).

(** Both loops run over the map from virtual interfaces. *)
Definition interfaces_to_string (ifs : interfaces) (r : reverse_path_filter) : string :=
  "##-- interfaces --##" +:+ endl
  +:+ "virtual interface index mapped to interface:" +:+ endl
  +:+ fold_right (fun e acc => "vif:" +:+ print_Z e.1 +:+ " ==> " +:+ "if:" +:+ get_if_name e.2
        +:+ " (index:" +:+ print_Z e.2 +:+ ")" +:+ endl +:+ acc) EmptyString (m_vif_if ifs)
  +:+ endl
  +:+ "interface mapped to virutal interface index:" +:+ endl
  +:+ fold_right (fun e acc => "if:" +:+ get_if_name e.2 +:+ " (index:" +:+ print_Z e.2 +:+ ")"
        +:+ " ==> " +:+ "vif:" +:+ print_Z e.1 +:+ endl +:+ acc) EmptyString (m_vif_if ifs)
  +:+ endl
  +:+ "reset reverse path filter: " +:+ bit_text (m_reset_reverse_path_filter ifs) +:+ endl
  +:+ endl +:+ reverse_path_filter_to_string r.

(** The interfaces of the instances, in the order of their names. *)
Definition configuration_to_string (conf : configuration) (ims : list (string * (interfaces * reverse_path_filter)))
    : string :=
  "##-- proxy configuration --##" +:+ endl
  +:+ "protocol " +:+ get_group_mem_protocol_name (m_gmp conf) +:+ endl
  +:+ global_table_set_to_string (m_global_table_set conf) +:+ endl
  +:+ inst_def_set_to_string inet_ntop (m_inst_def_set conf) +:+ endl
  +:+ endl
  +:+ fold_right (fun e acc => interfaces_to_string e.2.1 e.2.2 +:+ endl +:+ acc) EmptyString ims.

Definition proxy_to_string (running : bool) (a : arguments) (conf : configuration)
    (ims : list (string * (interfaces * reverse_path_filter))) : string :=
  "##-- multicast proxy status --##" +:+ endl
  +:+ "is running: " +:+ bit_text running +:+ endl
  +:+ "verbose level: " +:+ print_Z (m_verbose_lvl a) +:+ endl
  +:+ "print proxy_status information: " +:+ bit_text (m_print_proxy_status a) +:+ endl
  +:+ "reset all reverse path filter: " +:+ bit_text (m_reset_rp_filter a) +:+ endl
  +:+ "config path: " +:+ m_config_path a +:+ endl
  +:+ "-- proxy configuration --" +:+ endl
  +:+ configuration_to_string conf ims +:+ endl.
End Texts.

(** [proxy::help_output]: the options with their descriptions. *)
Definition help_options : list (ascii * list string) :=
  [("h"%char, ["Display this help screen."]);
   ("r"%char, ["Reset the reverse path filter flag, to accept data from"; "foreign subnets."]);
   ("d"%char, ["Run in debug mode if possible. Output all log messages"; "in thread[X] files."]);
   ("s"%char, ["Print proxy status information repeatedly."]);
   ("v"%char, ["Be verbose. Give twice to see even more messages"]);
   ("f"%char, ["To specify the configuration file."]);
   ("c"%char, ["Check the currently available kernel features."])].

Definition help_output (debug_mode : bool) : string :=
  "Mcproxy version 1.1.0" +:+ endl
  +:+ (if debug_mode then " - Compiled in debug mode." else " - Compiled in release mode.") +:+ endl
  +:+ "Project page: http://mcproxy.realmv6.org/" +:+ endl +:+ endl
  +:+ "Usage:" +:+ endl +:+ "  mcproxy [-h]" +:+ endl +:+ "  mcproxy [-c]" +:+ endl
  +:+ "  mcproxy [-r] [-d] [-s] [-v [-v]] [-f <config file>]" +:+ endl +:+ endl
  +:+ fold_right (fun o acc =>
        tab +:+ "-" +:+ String o.1 EmptyString +:+ endl
        +:+ fold_right (fun l acc => tab +:+ tab +:+ l +:+ endl +:+ acc) EmptyString o.2 +:+ acc)
        EmptyString help_options.

(** Exactly the options that the help names are accepted. *)
Lemma help_names_options c optarg a :
  process_option c optarg a = Result.Err (Result.Throw unknown_argument) <-> c ∉ help_options.*1.
Proof.
  split.
  - intros Hp Hin. repeat (apply elem_of_cons in Hin as [->|Hin]; [done|]). by apply elem_of_nil in Hin.
  - intros Hn. unfold process_option. repeat (case_match; try done); destruct Hn; repeat constructor.
Qed.

(** [scanner::to_string]: a new line before every fifth token. *)
Definition scanner_to_string (m_current_line : Z) (m_cmd : string) (m_token_vec : list token) : string :=
  "##-- scanner --##" +:+ endl +:+ print_Z m_current_line +:+ ": " +:+ m_cmd +:+ endl +:+ " ==> "
  +:+ (fold_left (fun '(i, s) t =>
         (i + 1, s +:+ (if i mod 5 =? 0 then endl else EmptyString) +:+ get_token_type_name (Scanner.get_type t)
                 +:+ (if negb (String.eqb (Scanner.get_string t) EmptyString) then "(" +:+ Scanner.get_string t +:+ ") " else " ")))
         m_token_vec (1, EmptyString)).2.

(** ** The state of an instance *)

Section Status.
Context {A : Type} `{Address A} (clk : nat -> Z).
Context (inet_ntop : addr_family -> list Z -> option string) (get_if_name : Z -> string).
Context (m_instance_name : string) (m_table_number m_proxy_start_time : Z).
Implicit Types (p : proxy_state (A := A)) (gaddr : A) (e : env A) (t : tid) (db : membership_db A).

Definition address_text (a : A) : string := addr_to_string inet_ntop (to_storage a).

(** The difference of the time points is divided as an integer. *)
Definition get_remaining_time t : M A string :=
  tm ← get_timer t;
  current_time ← now clk;
  let seconds := Z.quot (tm_end_time tm - current_time) 1000000000 in
  mret (if 0 <=? seconds then double_to_string seconds +:+ "sec" else "0sec").

Definition source_to_string (s : source A) : M A string :=
  match shared_source_timer s with
  | Some t =>
    r ← get_remaining_time t;
    mret (address_text (saddr s)
          +:+ (if 0 <=? retransmission_count s
               then "(" +:+ r +:+ "," +:+ print_Z (retransmission_count s) +:+ "x)"
               else "(" +:+ r +:+ ")"))
  | None =>
    mret (address_text (saddr s)
          +:+ (if 0 <=? retransmission_count s
               then "(" +:+ print_Z (retransmission_count s) +:+ "x)" else EmptyString))
  end.

(** [operator<<] on a [source_list]: a new line before every third element. *)
Definition source_list_to_string (l : list (source A)) : M A string :=
  r ← foldM (fun '(i, s) y =>
        x ← source_to_string y;
        mret (i + 1, s +:+ (if i mod 3 =? 0 then endl +:+ tab else EmptyString) +:+ x +:+ "; "))
      (1, EmptyString) l;
  mret r.2.

Definition group_record_to_string (r : group_record_msg A) : M A string :=
  sl ← source_list_to_string (gr_slist r);
  mret ("interface: " +:+ get_if_name (gr_if_index r) +:+ endl
        +:+ "record_type: " +:+ get_mcast_addr_record_type_name (gr_record_type r) +:+ endl
        +:+ "group address: " +:+ address_text (gr_gaddr r) +:+ endl
        +:+ "source list: " +:+ sl +:+ endl
        +:+ "report version: " +:+ get_group_mem_protocol_name (gr_grp_mem_proto r)).

Definition source_state_to_string (st : source_state (A := A)) : M A string :=
  sl ← source_list_to_string (ss_source_list st);
  mret (get_mc_filter_name (m_mc_filter st) +:+ "{" +:+ sl +:+ "}").

Definition interface_memberships_to_string (m_data : list (Z * list (source_state (A := A)))) : M A string :=
  foldM (fun s d =>
    states ← foldM (fun s f => x ← source_state_to_string f; mret (s +:+ endl +:+ indention x)) EmptyString d.2;
    mret (s +:+ get_if_name d.1 +:+ ":" +:+ states)) EmptyString m_data.

(** The filter timer is dereferenced in EXCLUDE mode. *)
Definition filter_text (g : gaddr_info A) : M A string :=
  match filter_mode g with
  | EXCLUDE_MODE =>
    ft ← deref (shared_filter_timer g);
    r ← get_remaining_time ft;
    match group_retransmission_timer g with
    | Some rt =>
      r' ← get_remaining_time rt;
      mret ("(" +:+ r +:+ "," +:+ r' +:+ "," +:+ print_Z (group_retransmission_count g) +:+ "x)" +:+ endl)
    | None => mret ("(" +:+ r +:+ ")" +:+ endl)
    end
  | INCLUDE_MODE => mret endl
  end.

Definition list_text (name : string) (rt : option tid) (l : list (source A)) : M A string :=
  r ← (match rt with
       | Some t => r ← get_remaining_time t; mret (r +:+ ", ")
       | None => mret EmptyString
       end);
  sl ← source_list_to_string l;
  mret (name +:+ "(" +:+ r +:+ "#" +:+ print_Z (Z.of_nat (length l)) +:+ "): " +:+ sl).

Definition gaddr_info_to_string (g : gaddr_info A) : M A string :=
  older ← (match older_host_present_timer g with
           | Some t => r ← get_remaining_time t; mret ("(" +:+ r +:+ ")")
           | None => mret EmptyString
           end);
  ft ← filter_text g;
  lists ← (match filter_mode g with
           | INCLUDE_MODE =>
             l ← list_text "included list" (source_retransmission_timer g) (include_requested_list g);
             mret (l +:+ endl)
           | EXCLUDE_MODE =>
             l ← list_text "requested list" (source_retransmission_timer g) (include_requested_list g);
             l' ← list_text "exclude_list" (source_retransmission_timer g) (exclude_list g);
             mret (l +:+ endl +:+ l')
           end);
  mret (get_group_mem_protocol_name (compatibility_mode_variable g) +:+ older
        +:+ ", " +:+ get_mc_filter_name (filter_mode g) +:+ ft +:+ lists).

Definition membership_db_to_string db : M A string :=
  gq ← (match general_query_timer db with
        | Some t => r ← get_remaining_time t; mret ("general query timer: " +:+ r +:+ endl)
        | None => mret EmptyString
        end);
  groups ← foldM (fun s x =>
             g ← gaddr_info_to_string x.2;
             mret (s +:+ endl +:+ "-- group address: " +:+ address_text x.1 +:+ endl +:+ indention g))
           EmptyString (in_order (group_info db));
  mret ("querier version: " +:+ get_group_mem_protocol_name (querier_version_mode db) +:+ endl
        +:+ "is querier: " +:+ bool_text (is_querier db) +:+ endl
        +:+ gq
        +:+ "startup query count: " +:+ print_Z (db_startup_query_count db) +:+ endl
        +:+ "subscribed groups: " +:+ print_Z (Z.of_nat (size (group_info db))) +:+ groups).

Definition querier_to_string (i : Z) db : M A string :=
  s ← membership_db_to_string db;
  mret ("##-- downstream interface: " +:+ get_if_name i +:+ " (index:" +:+ print_Z i +:+ ") --##" +:+ endl
        +:+ s).

Definition routing_data_to_string (d : gmap A (sr_data_value (A := A))) : M A string :=
  groups ← foldM (fun s x =>
             sl ← source_list_to_string (m_source_list x.2);
             mret (s +:+ endl +:+ "group: " +:+ address_text x.1
                   +:+ endl +:+ tab +:+ "sources: " +:+ sl
                   +:+ fold_right (fun m acc => endl +:+ tab +:+ address_text m.1 +:+ " ==> "
                                                +:+ get_if_name m.2 +:+ acc)
                         EmptyString (in_order (m_if_map x.2))))
           EmptyString (in_order d);
  mret ("##-- simple multicast routing information base --##" +:+ groups).

(** [proxy_instance::to_string]; both rules are dereferenced. *)
Definition instance_to_string p : M A string :=
  current_time ← now clk;
  i ← deref (m_upstream_input_rule p);
  o ← deref (m_upstream_output_rule p);
  data ← routing_data_to_string (m_data p);
  queriers ← foldM (fun s d => q ← querier_to_string d.1 (d_db d.2); mret (s +:+ endl +:+ q))
               EmptyString (m_downstreams p);
  mret ("@@##-- proxy instance " +:+ m_instance_name +:+ " (table:" +:+ print_Z m_table_number
        +:+ ",lifetime:" +:+ double_to_string (Z.quot (current_time - m_proxy_start_time) 1000000000)
        +:+ "sec)" +:+ " --##@@" +:+ endl
        +:+ rule_binding_to_string inet_ntop i +:+ endl +:+ rule_binding_to_string inet_ntop o +:+ endl
        +:+ data +:+ endl
        +:+ "##-- upstream interfaces --##" +:+ endl
        +:+ fold_right (fun u acc => get_if_name (u_if_index u) +:+ "(index:" +:+ print_Z (u_if_index u)
                          +:+ ") " +:+ acc) EmptyString (m_upstreams p)
        +:+ endl +:+ queriers).
End Status.

(** ** The status can always be printed *)

Section Defined.
Context {A : Type} `{Address A} (clk : nat -> Z).

(** A text that is computed from the timers of a store, of which it changes
    nothing. *)
Definition prints (st : gmap tid (timer_msg A)) {X} (m : M A X) : Prop :=
  forall e, e_store e = st -> wp m (fun _ e' => env_io e e') e.

Lemma prints_ret st {X} (x : X) : prints st (mret x).
Proof. intros e _. by apply wp_ret. Qed.

Lemma prints_bind st {X Y} (m : M A X) (f : X -> M A Y) :
  prints st m -> (forall x, prints st (f x)) -> prints st (m ≫= f).
Proof.
  intros Hm Hf e He. apply wp_bind. eapply wp_mono; [by apply Hm|]. intros x e1 Hio.
  pose proof (io_store _ _ Hio) as Hs.
  eapply wp_mono; [apply Hf; congruence|]. intros y e2 Hio2. cbn beta in *. by etrans.
Qed.

Lemma prints_deref st {X Y} (o : option X) (f : X -> M A Y) :
  is_Some o -> (forall x, o = Some x -> prints st (f x)) -> prints st (deref o ≫= f).
Proof. intros [x ->] Hf e He. apply wp_bind, wp_deref. by apply Hf. Qed.

Lemma prints_foldM st {X Y} (f : X -> Y -> M A X) x l :
  (forall x y, y ∈ l -> prints st (f x y)) -> prints st (foldM f x l).
Proof.
  revert x. induction l as [|y l IH]; intros x Hf; [apply prints_ret|]. cbn [foldM].
  apply prints_bind; [apply Hf; left|]. intros x'. apply IH. intros x'' y' Hy'. apply Hf. by right.
Qed.

Lemma prints_now st : prints st (now clk).
Proof. intros e _. by apply wp_now. Qed.

Lemma prints_time st t : is_Some (st !! t) -> prints st (get_remaining_time clk t).
Proof.
  intros [tm Ht]. unfold get_remaining_time. intros e <-. unfold wp, get_timer, mbind at 1, M_bind at 1.
  rewrite Ht. apply (prints_bind (e_store e)); [apply prints_now|intros; apply prints_ret|done].
Qed.

(** An optional timer. *)
Lemma prints_timer st (o : option tid) (f : string -> string) :
  (forall t, o = Some t -> is_Some (st !! t)) ->
  prints st (match o with Some t => r ← get_remaining_time clk t; mret (f r) | None => mret EmptyString end).
Proof.
  intros Ho. destruct o as [t|]; [|apply prints_ret].
  apply prints_bind; [by apply prints_time, Ho|]. intros r. apply prints_ret.
Qed.

Context (inet_ntop : addr_family -> list Z -> option string) (get_if_name : Z -> string).

(** The timers of the sources exist. *)
Definition timers_exist (st : gmap tid (timer_msg A)) (l : list (source A)) : Prop :=
  forall s t, s ∈ l -> shared_source_timer s = Some t -> is_Some (st !! t).

Lemma prints_source_list st l : timers_exist st l -> prints st (source_list_to_string clk inet_ntop l).
Proof.
  intros Hl. unfold source_list_to_string. apply prints_bind; [|intros; apply prints_ret].
  apply prints_foldM. intros [i s] y Hy. apply prints_bind; [|intros; apply prints_ret].
  unfold source_to_string. destruct (shared_source_timer y) as [t|] eqn:Ht; [|apply prints_ret].
  apply prints_bind; [|intros; apply prints_ret]. by apply prints_time, (Hl y).
Qed.

Lemma prints_list_text st name rt l :
  (forall t, rt = Some t -> is_Some (st !! t)) -> timers_exist st l ->
  prints st (list_text clk inet_ntop name rt l).
Proof.
  intros Hrt Hl. unfold list_text. apply prints_bind; [by apply (prints_timer st rt (fun r => r +:+ ", "))|].
  intros r. apply prints_bind; [by apply prints_source_list|]. intros; apply prints_ret.
Qed.

Lemma points_to_exists (e : env A) o ty og t : points_to e o ty og -> o = Some t -> is_Some (e_store e !! t).
Proof. intros Hp Ht. destruct (Hp t Ht) as (tm & Htm & _). by exists tm. Qed.

Lemma prints_gaddr_info (e : env A) gaddr g :
  ginfo_wf e gaddr g -> prints (e_store e) (gaddr_info_to_string clk inet_ntop g).
Proof.
  intros Hg.
  assert (Hi : timers_exist (e_store e) (include_requested_list g)).
  { intros s t Hs Ht. pose proof (gw_timed _ _ _ Hg) as Hti. rewrite Forall_forall in Hti.
    destruct (Hti s Hs) as (t' & Ht' & tm & Htm & _). simplify_eq. by exists tm. }
  assert (Hx : timers_exist (e_store e) (exclude_list g)).
  { intros s t Hs Ht. pose proof (gw_untimed _ _ _ Hg) as Hun. rewrite Forall_forall in Hun.
    rewrite (Hun s Hs) in Ht. done. }
  pose proof (fun t => points_to_exists _ _ _ _ t (gw_srt _ _ _ Hg)) as Hrt.
  unfold gaddr_info_to_string. apply prints_bind.
  { apply (prints_timer _ _ (fun r => "(" +:+ r +:+ ")")). intros t. eapply points_to_exists, Hg. }
  intros older. apply prints_bind.
  { unfold filter_text. pose proof (gw_mode _ _ _ Hg) as Hm. destruct (filter_mode g); [apply prints_ret|].
    apply prints_deref; [done|]. intros ft Hft. apply prints_bind.
    - apply prints_time. eapply points_to_exists; [apply (gw_filter _ _ _ Hg)|done].
    - intros r. destruct (group_retransmission_timer g) as [rt|] eqn:Hg2; [|apply prints_ret].
      apply prints_bind; [|intros; apply prints_ret].
      apply prints_time. eapply points_to_exists; [apply (gw_grt _ _ _ Hg)|done]. }
  intros ft. apply prints_bind; [|intros; apply prints_ret].
  destruct (filter_mode g); (apply prints_bind; [by apply prints_list_text|]); intros l; [apply prints_ret|].
  apply prints_bind; [by apply prints_list_text|]. intros; apply prints_ret.
Qed.

Lemma in_order_In {K V} `{Countable K, !KeyOrder K} (m : gmap K V) k v :
  (k, v) ∈ in_order m -> m !! k = Some v.
Proof.
  unfold in_order. intros Hin. apply elem_of_map_to_list. revert Hin.
  induction (map_to_list m) as [|x l IH]; simpl; [done|]. intros [->|?]%sl_insert_In; [left|right; auto].
Qed.

Lemma prints_db (e : env A) db : db_wf e db -> prints (e_store e) (membership_db_to_string clk inet_ntop db).
Proof.
  intros Hdb. unfold membership_db_to_string. apply prints_bind.
  { apply (prints_timer _ _ (fun r => "general query timer: " +:+ r +:+ endl)). intros t.
    eapply points_to_exists, (dw_gqt _ _ Hdb). }
  intros gq. apply prints_bind; [|intros; apply prints_ret]. apply prints_foldM. intros s [k g] Hk.
  apply prints_bind; [|intros; apply prints_ret]. eapply prints_gaddr_info, (dw_groups _ _ Hdb).
  by eapply in_order_In.
Qed.

(** What the text needs besides well-formed databases: the rules, and the timers
    of the known sources. *)
Record printable (e : env A) (p : proxy_state (A := A)) : Prop := {
  pr_input : is_Some (m_upstream_input_rule p);
  pr_output : is_Some (m_upstream_output_rule p);
  pr_table : forall t gaddr sa, table_waits (m_data p) t gaddr sa -> is_Some (e_store e !! t)
}.

Lemma prints_instance name table start (e : env A) p :
  proxy_wf e p -> printable e p ->
  wp (instance_to_string clk inet_ntop get_if_name name table start p) (fun _ e' => env_io e e') e.
Proof.
  intros Hp [Hi Ho Ht]. enough (Hpr : prints (e_store e) (instance_to_string clk inet_ntop get_if_name name table start p)) by by apply Hpr.
  unfold instance_to_string. apply prints_bind; [apply prints_now|]. intros t0.
  apply prints_deref; [done|]. intros i _. apply prints_deref; [done|]. intros o _. apply prints_bind.
  { unfold routing_data_to_string. apply prints_bind; [|intros; apply prints_ret].
    apply prints_foldM. intros s [k v] Hk. apply prints_bind; [|intros; apply prints_ret].
    apply prints_source_list. intros x t Hx Hxt. apply (Ht t k (saddr x)). exists x. split; [|done].
    unfold get_available_sources. by rewrite (in_order_In _ _ _ Hk). }
  intros data. apply prints_bind; [|intros; apply prints_ret]. apply prints_foldM. intros s [k d] Hd.
  apply prints_bind; [|intros; apply prints_ret]. unfold querier_to_string.
  apply prints_bind; [|intros; apply prints_ret]. apply prints_db.
  pose proof (pw_dbs _ _ Hp) as Hdbs. rewrite Forall_forall in Hdbs. by apply (Hdbs (k, d)).
Qed.
End Defined.

(** *** In every reachable state *)

Section Reachable.
Context {A : Type} `{Address A} (clk : nat -> Z) (sock : nat -> action -> bool)
  (stats : nat -> A -> A -> option Z).
Context (snd : sender (A := A)) `{!SenderLaws snd} (gts : gmap string table)
  (get_if_name : Z -> string) (vif : Z -> Z) (w : Z).
Hypothesis gts_ok : gts_built gts.
Implicit Types (p : proxy_state (A := A)) (gaddr : A) (e : env A) (t : tid).

Lemma printable_store e e' p : e_store e ⊆ e_store e' -> printable e p -> printable e' p.
Proof.
  intros Hs [Hi Ho Ht]. split; [done..|]. intros t g s Hw. destruct (Ht t g s Hw) as [tm Htm].
  exists tm. by eapply lookup_weaken.
Qed.

Lemma printable_db e i db p : printable e p -> printable e (set_downstream_db i db p).
Proof. by intros []. Qed.

Lemma wlp_passive {X} (m : M A X) (K : X -> Prop) e :
  env_wf e -> passive m K -> wlp m (fun x e' => env_wf e' /\ e_store e' = e_store e /\ K x) e.
Proof.
  intros [Hn Hsh] Hm. unfold wlp. destruct (m e) as [[x e']|] eqn:E; [|done].
  destruct (Hm e x e' E) as (Hne & Hse & _ & _ & ?). split_and!; [split; rewrite ?Hne, ?Hse|..]; done.
Qed.

Lemma wlp_io {X} (m : M A X) e : wp m (fun _ e' => env_io e e') e -> wlp m (fun _ e' => e_store e' = e_store e) e.
Proof. intros Hm. apply wlp_of_wp in Hm. eapply wlp_mono; [exact Hm|]. by intros x e' []. Qed.

Lemma wlp_bind_store {X Y} (m : M A X) (f : X -> M A Y) (Q : Y -> env A -> Prop) e :
  wp m (fun _ e' => env_io e e') e -> (forall x e', e_store e' = e_store e -> wlp (f x) Q e') -> wlp (m ≫= f) Q e.
Proof. intros Hm Hf. apply wlp_bind. eapply wlp_mono; [by apply wlp_io|]. exact Hf. Qed.

Lemma new_source_printable i gaddr sa p e :
  proxy_wf e p -> printable e p ->
  wlp (event_new_source clk sock stats snd gts get_if_name vif w i gaddr sa p) (fun p' e' => printable e' p') e.
Proof.
  intros Hp Hpr. unfold event_new_source. apply wlp_bind, wlp_of_wp, wp_set_source_timer; [apply Hp|].
  intros t e1 Hext Ht. apply (printable_store _ _ _ (ext_store _ _ Hext)) in Hpr. apply wlp_bind.
  eapply wlp_mono; [apply wlp_passive, (set_source_passive stats i gaddr (set_timer (new_source sa) (Some t) (-1)) (m_data p) t);
    [eapply ext_wf, Hp; done|apply Hp|done]|].
  intros data e2 (_ & Hs2 & Hdata). cbv zeta. apply wlp_bind.
  destruct (collect_interested_interfaces _ _ _ _ _) as [rt|]; [|done]. apply wlp_of_wp, wp_deref.
  assert (Hpr2 : forall e', e_store e' = e_store e1 -> printable e' (set_data data p)).
  { intros e' Hs. destruct Hpr as [Hi Ho Htab]. split; [done..|]. rewrite Hs. intros t' g' s' Hw.
    destruct (Hdata t' g' s' Hw) as [?|(_ & _ & Hin)]; [by eapply Htab|].
    by apply list_elem_of_singleton in Hin as ->. }
  apply wlp_of_wp, wp_bind. eapply wp_mono; [by apply wp_set_routes|].
  intros [] e3 Hio3. apply wp_bind. eapply wp_mono; [apply mutex_aggregation_io; [exact _|exact gts_ok|exact (pw_ifs _ _ Hp)]|].
  intros [] e4 Hio4. apply wp_ret, Hpr2. by rewrite (io_store _ _ Hio4), (io_store _ _ Hio3).
Qed.
Lemma maintain_printable held t p e :
  proxy_wf e p -> printable e p ->
  wlp (timer_triggerd_maintain_routing_table clk sock stats snd gts get_if_name vif w held t p)
      (fun p' e' => printable e' p') e.
Proof.
  intros Hp Hpr. unfold timer_triggerd_maintain_routing_table. apply wlp_bind.
  eapply wlp_mono; [apply wlp_passive, passive_get_timer; apply Hp|]. intros tm e0 (Hwf0 & Hs0 & _).
  assert (Hext0 : e_store e ⊆ e_store e0) by (by rewrite Hs0). apply (printable_store _ _ _ Hext0) in Hpr.
  case_if; [by apply wlp_of_wp, wp_ret|]. destruct (tm_type tm); try (by apply wlp_of_wp, wp_ret).
  apply wlp_bind. destruct (tm_gaddr tm) as [gaddr|]; [|done]. apply wlp_of_wp, wp_deref, wlp_bind.
  destruct (tm_saddr tm) as [sa|]; [|done]. apply wlp_of_wp, wp_deref.
  destruct (sl_find _ _); [|by apply wlp_of_wp, wp_ret]. case_if; [|by apply wlp_of_wp, wp_ret].
  apply wlp_bind. eapply wlp_mono; [apply wlp_passive, refresh_passive, Hp; done|]. intros [b data] e1 (Hwf1 & Hs1 & Hdata).
  cbn [fst Datatypes.snd] in *. cbv zeta. destruct Hpr as [Hi Ho Htab].
  assert (Hpr1 : forall e', e_store e1 ⊆ e_store e' -> printable e' (set_data data p)).
  { intros e' Hs. split; [done..|]. intros t' g' s' Hw. destruct (Htab t' g' s') as [tm' Htm']; [by apply Hdata|].
    exists tm'. eapply lookup_weaken; [|exact Hs]. by rewrite Hs1. }
  destruct b; cbn [negb].
  - apply wlp_bind, wlp_of_wp. apply wp_set_source_timer; [done|].
    intros t' e2 Hext Ht. apply wp_ret. pose proof (ext_store _ _ Hext) as Hs. destruct (Hpr1 e2 Hs) as [_ _ Htab2].
    split; [done..|]. intros t2 g' s' [(-> & -> & ->)|[_ Hw]]%assign_waits; [done|by eapply Htab2].
  - apply wlp_bind_store; [by apply wp_call; intros ? ? ? _|]. intros _ e2 Hs2.
    apply wlp_bind_store; [apply mutex_aggregation_io; [exact _|exact gts_ok|exact (pw_ifs _ _ Hp)]|]. intros _ e3 Hs3.
    apply wlp_of_wp, wp_ret, Hpr1. by rewrite Hs3, Hs2.
Qed.
Lemma report_printable held gr p e :
  proxy_wf e p -> fresh_sources (gr_slist gr) -> printable e p ->
  wlp (handle_message clk sock stats snd gts get_if_name vif w held (a_group_record_msg gr) p)
      (fun r e' => printable e' r.2) e.
Proof.
  intros Hp HB Hpr. cbn [handle_message].
  destruct (sl_find (gr_if_index gr) (m_downstreams p)) as [d|] eqn:Hd; [|by apply wlp_of_wp, wp_ret].
  apply wlp_of_wp, wp_bind. eapply wp_mono.
  { apply (wp_receive_record clk snd w (gr_if_index gr) _ _
      (cb_state_change_io sock snd gts get_if_name vif gts_ok p (gr_if_index gr) (pw_ifs _ _ Hp)) gr (d_db d.2) e);
      [by eapply found_db_wf|done]. }
  intros db' e' [[Hext _] _]. apply wp_ret, printable_db. eapply printable_store, Hpr. apply (ext_store _ _ Hext).
Qed.

Lemma config_printable cm p e :
  env_wf e -> printable e p -> wlp (handle_config clk sock snd vif w cm p) (fun p' e' => printable e' p') e.
Proof.
  intros Hwf Hpr. unfold handle_config. cbv zeta.
  assert (Hret : forall p' e', e_store e ⊆ e_store e' -> m_data p' = m_data p ->
    is_Some (m_upstream_input_rule p') -> is_Some (m_upstream_output_rule p') ->
    wlp (mret p') (fun p' e' => printable e' p') e').
  { intros p' e' Hs Hd Hi Ho. apply wlp_of_wp, wp_ret. apply (printable_store _ _ _ Hs) in Hpr.
    split; [done..|]. rewrite Hd. apply Hpr. }
  destruct Hpr as [Hi Ho _]. destruct (cm_instruction cm).
  - destruct (sl_find _ _); [by apply Hret|]. apply wlp_bind, wlp_of_wp. eapply wp_mono; [apply register_io|].
    intros [] e1 Hio. apply env_io_ext in Hio. apply wlp_bind, wlp_of_wp.
    eapply wp_mono; [apply new_querier_wf; [done|by eapply ext_wf]|].
    intros [db|] e2 [Hext _]; [|done]. apply wlp_bind, wlp_of_wp, wp_deref, Hret; [|done..].
    etrans; [apply (ext_store _ _ Hio)|apply (ext_store _ _ Hext)].
  - destruct (sl_find _ _); [|by apply Hret]. apply wlp_bind_store; [apply unregister_io|]. intros _ e1 Hs1.
    apply wlp_bind_store; [|intros _ e2 Hs2; apply Hret; [by rewrite Hs2, Hs1|done..]].
    unfold destroy_querier. apply wp_bind. eapply wp_mono; [by apply router_groups_io|]. intros b e2 Hio. by apply wp_ret.
  - case_if; [|by apply Hret]. apply wlp_bind_store; [apply register_io|]. intros _ e1 Hs1. apply Hret; [by rewrite Hs1|done..].
  - destruct (List.find _ _); [|by apply Hret]. apply wlp_bind_store; [apply unregister_io|]. intros _ e1 Hs1.
    apply Hret; [by rewrite Hs1|done..].
  - destruct (cm_rule_binding cm) as [rb|]; [|by apply Hret]. case_if; [|by apply Hret].
    destruct (m_filter_direction rb); by apply Hret.
Qed.

Lemma timer_printable held t p e b p' e' :
  proxy_wf e p -> printable e p ->
  handle_message clk sock stats snd gts get_if_name vif w held (a_timer_msg t) p e = Some ((b, p'), e') ->
  printable e' p'.
Proof.
  intros Hp Hpr Hrun.
  destruct (handled_timer_ready clk sock stats snd gts get_if_name vif w held t p e b p' e' Hp Hrun) as (tm & Htm & Hover).
  cbn [handle_message] in Hrun. unfold mbind at 1, M_bind at 1, get_timer at 1 in Hrun. rewrite Htm in Hrun.
  assert (Hfrom : forall (m : M A (proxy_state (A := A))), wlp m (fun p' e' => printable e' p') e ->
    (p0 ← m; mret (true, p0)) e = Some ((b, p'), e') -> printable e' p').
  { intros m Hm E. unfold wlp in Hm. unfold mbind, M_bind in E. destruct (m e) as [[p1 e1]|]; [|done].
    by injection E as _ <- <-. }
  assert (Hq : wlp (querier_timer clk sock snd gts get_if_name vif w held t tm p) (fun p' e' => printable e' p') e).
  { unfold querier_timer. destruct (sl_find (tm_if_index tm) (m_downstreams p)) as [d|] eqn:Hd; [|by apply wlp_of_wp, wp_ret].
    apply wlp_of_wp, wp_bind. eapply wp_mono.
    { apply (wp_timer_triggerd clk snd w (tm_if_index tm) _ _
        (cb_state_change_io sock snd gts get_if_name vif gts_ok p (tm_if_index tm) (pw_ifs _ _ Hp)) held t tm (d_db d.2) e);
        [by eapply found_db_wf|done|by apply Hover]. }
    intros db' e1 [[Hext _] _]. apply wp_ret, printable_db. eapply printable_store, Hpr. apply (ext_store _ _ Hext). }
  destruct (tm_type tm); try (eapply Hfrom; [exact Hq|exact Hrun]); try (injection Hrun as _ <- <-; exact Hpr).
  eapply Hfrom; [|exact Hrun]. by apply maintain_printable.
Qed.

Lemma step_printable s s' :
  instance_step clk sock stats snd gts get_if_name vif w s s' ->
  proxy_wf s.2 s.1 -> printable s.2 s.1 -> printable s'.2 s'.1.
Proof.
  intros [held m p e b p' e' Hok Hrun] Hp Hpr; simpl in *.
  assert (Hfrom : wlp (handle_message clk sock stats snd gts get_if_name vif w held m p) (fun r e' => printable e' r.2) e ->
    printable e' p') by (unfold wlp; by rewrite Hrun).
  destruct m as [|v pr|t|gr|i gaddr sa|cm| |]; try (apply Hfrom, wlp_of_wp, wp_ret, Hpr).
  - by eapply timer_printable.
  - by apply Hfrom, report_printable.
  - apply Hfrom, wlp_bind. eapply wlp_mono; [by apply new_source_printable|]. intros p1 e1 Hp1. by apply wlp_of_wp, wp_ret.
  - apply Hfrom, wlp_bind. eapply wlp_mono; [apply config_printable; [apply Hp|done]|]. intros p1 e1 Hp1.
    by apply wlp_of_wp, wp_ret.
Qed.

(** C19: A debug message is always safe: in every state that an instance reaches
    from its construction, whatever messages it handled, the text of its status
    is computed to the end. The text follows the pointers to the rules, to the
    filter timer of every group in EXCLUDE mode and to all other timers of the
    queriers and of the known sources, none of which is null or dangling, and
    nothing but the clock is touched. *)
Theorem status_defined inet_ntop name table start gmp instance_name e0 p e :
  env_wf e0 ->
  rtc (instance_step clk sock stats snd gts get_if_name vif w) (new_proxy_state gmp instance_name, e0) (p, e) ->
  wp (instance_to_string clk inet_ntop get_if_name name table start p) (fun _ e' => env_io e e') e.
Proof.
  intros Hwf Hrun. remember (new_proxy_state gmp instance_name, e0) as s eqn:Es. remember (p, e) as s' eqn:Es'.
  assert (Hs : proxy_wf s.2 s.1 /\ printable s.2 s.1).
  { subst s. split; [by apply new_proxy_state_wf|]. split; cbn; [eauto..|]. intros t g a (x & Hx & _).
    unfold get_available_sources in Hx. cbn in Hx. rewrite lookup_empty in Hx. by apply elem_of_nil in Hx. }
  clear Es. induction Hrun as [s|s1 s2 s3 Hstep Hrun IH]; [subst s; apply prints_instance; apply Hs|].
  apply IH; [done|]. destruct Hs. split; [|by eapply step_printable].
  by eapply (instance_step_wf clk sock stats snd gts get_if_name vif w gts_ok s1 s2).
Qed.
End Reachable.

(** ** Examples *)

Lemma ex_double : map double_to_string [0; 260; 999999; 1000000; 1234565; 1234575; 9999995]
  = ["0"; "260"; "999999"; "1e+06"; "1.23456e+06"; "1.23458e+06"; "1e+07"].
Proof. vm_compute. reflexivity. Qed.

(** The text of a database with one group and one source. *)
Lemma ex_db_text :
  option_map fst (membership_db_to_string ex_clk (fun _ _ => Some "addr") ex_db1 ex_env)
  = Some ("querier version: IGMPv3" +:+ endl +:+ "is querier: true" +:+ endl
          +:+ "startup query count: 0" +:+ endl +:+ "subscribed groups: 1" +:+ endl
          +:+ "-- group address: addr" +:+ endl
          +:+ tab +:+ "IGMPv3, INCLUDE_MODE" +:+ endl
          +:+ tab +:+ "included list(#1): addr(259sec); " +:+ endl).
Proof. vm_compute. reflexivity. Qed.

Section Runs.
Context (clk : nat -> Z).
Notation instance_step := (instance_step clk ex_sock ex_stats (igmp_sender clk ex_sock) ∅ ex_if_name ex_vif 0).

Lemma ex_handled ms p p' e e' :
  Forall message_ok ms ->
  handle_messages clk ex_sock ex_stats (igmp_sender clk ex_sock) ∅ ex_if_name ex_vif 0 p ms e = Some (p', e') ->
  rtc instance_step (p, e) (p', e').
Proof.
  intros Hms. revert p e. induction Hms as [|m ms Hok Hms IH]; intros p e Hrun.
  { injection Hrun as <- <-. apply rtc_refl. }
  unfold handle_messages in Hrun. cbn [foldM] in Hrun. unfold mbind at 1, M_bind at 1, mbind at 1, M_bind at 1 in Hrun.
  destruct (handle_message clk ex_sock ex_stats (igmp_sender clk ex_sock) ∅ ex_if_name ex_vif 0 false m p e) as [[[b p1] e1]|] eqn:E; [|done].
  eapply rtc_l; [by eapply instance_message|]. by apply IH.
Qed.

(** An instance with a downstream interface and two groups. *)
Lemma ex_run_instance p e :
  ex_run clk = Some (p, e) -> rtc instance_step (new_proxy_state IGMPv3 "proxy", empty_env) (p, e).
Proof.
  unfold ex_run. intros Hrun. refine (ex_handled ex_messages _ _ _ _ _ Hrun).
  repeat (apply Forall_cons_2; [|]); [by eexists|repeat constructor..].
Qed.
End Runs.

Lemma ex_after_instance :
  rtc (instance_step ex_clk ex_sock ex_stats ex_sender ∅ ex_if_name ex_vif 0)
    (new_proxy_state IGMPv3 "proxy", empty_env) ((ex_after ex_clk).1, (ex_after ex_clk).2).
Proof. apply ex_run_instance. rewrite ex_run_after. by destruct (ex_after ex_clk). Qed.

Lemma status_defined_witness :
  ex_record (ex_after ex_clk).1 <> None
  /\ wp (instance_to_string ex_clk (fun _ _ => Some "addr") ex_if_name "proxy" 1 0 (ex_after ex_clk).1)
       (fun _ e' => env_io (ex_after ex_clk).2 e') (ex_after ex_clk).2.
Proof.
  split; [by vm_compute|].
  apply (status_defined ex_clk ex_sock ex_stats ex_sender ∅ ex_if_name ex_vif 0 gts_empty
    (fun _ _ => Some "addr") "proxy" 1 0 IGMPv3 "proxy" empty_env _ _ empty_env_wf ex_after_instance).
Defined.
