(* ===== verification/SelfTestValues.v ===== *)
(** * Self-tests of values, lists, the queue and the timers (test_timers_values of
      src/proxy/timers_values.cpp, test_arithmetic of src/proxy/membership_db.cpp,
      test_worker of src/proxy/worker.cpp, test_timing of src/proxy/timing.cpp)

    What these functions of the debug build print or handle, on the model. *)

From S2P Require Import Prelude Def TimersValues AddrStorage Printing Timing MessageQueue Messages.
From S2P Require Import ProxyInstance Proxy Status.

Local Open Scope Z_scope.

(** ** [test_timers_values] *)

(** [std::uppercase << std::hex]; eight digits are enough for [unsigned int]. *)
Fixpoint hex_digits (fuel : nat) (z : Z) : string :=
  match fuel with
  | O => EmptyString
  | S fuel =>
    (if z <? 16 then EmptyString else hex_digits fuel (z / 16))
    +:+ String.substring (Z.to_nat (z mod 16)) 1 "0123456789ABCDEF"
  end.

Definition to_hex_string (n : Z) : string := "0x" +:+ hex_digits 8 (to_uint32 n).

Definition rule_line : string := "--------------------------------------".

(** [for (int i = first; i <= last; i += step)]. *)
Definition int_range (first step : Z) (rounds : nat) : list Z := map (fun k => first + step * Z.of_nat k) (seq 0 rounds).

Definition verdict (ok : bool) : string := if ok then "OK!" else "FAILED!".

(** The lines printed. The rounds of the loops are those up to 0xFF, 0xFF and 0xFFFF. *)
Definition test_timers_values : list string :=
  let sec name z := name +:+ ": " +:+ time_to_string_sec z in
  let msec name z := name +:+ ": " +:+ time_to_string_msec z in
  ["##-- test timers and values --##"; rule_line]
  ++ map (fun c => sec ("qqic_to_qqi(" +:+ c.1 +:+ ")") (qqic_to_qqi c.2))
       [("1", 1); ("20", 20); ("100", 100); ("127", 127); ("128", 128); ("129", 129); ("0xFF", 0xFF)]
  ++ [rule_line]
  ++ map (fun '(b, exp, mant) =>
       sec ("qqic_to_qqi(" +:+ bool_text b +:+ "," +:+ print_Z exp +:+ "," +:+ print_Z mant +:+ ")")
           (qqic_to_qqi3 b exp mant))
       [(false, 0, 1); (false, 0, 7); (false, 0, 15); (false, 0, 16); (false, 1, 0); (false, 7, 0); (false, 8, 0);
        (false, 7, 15); (true, 0, 0); (true, 0, 1); (true, 1, 0); (true, 1, 1); (true, 7, 15)]
  ++ [rule_line]
  ++ map (fun s => "qqi_to_qqic(" +:+ print_Z s +:+ " sec): " +:+ to_hex_string (qqi_to_qqic s))
       [1; 7; 127; 128; 31744; 32745]
  ++ [rule_line]
  ++ map (fun i => "qqi_to_qqic(qqic_to_qqi(" +:+ print_Z i +:+ "))"
                   +:+ verdict (qqi_to_qqic (qqic_to_qqi i) =? i)) (int_range 100 7 23)
  ++ [rule_line;
      msec "maxrespc_igmpv3_to_maxrespi(true,1,1)" (maxrespc_igmpv3_to_maxrespi3 true 1 1);
      msec "maxrespc_igmpv3_to_maxrespi(0xFF)" (maxrespc_igmpv3_to_maxrespi 0xFF);
      "maxrespi_to_maxrespc_igmpv3(3174400 msec): " +:+ to_hex_string (maxrespi_to_maxrespc_igmpv3 3174400);
      rule_line]
  ++ map (fun i => "maxrespi_to_maxrespc_igmpv3(maxrespc_igmpv3_to_maxrespi(" +:+ print_Z i +:+ ")) "
                   +:+ verdict (maxrespi_to_maxrespc_igmpv3 (maxrespc_igmpv3_to_maxrespi i) =? i)) (int_range 100 7 23)
  ++ [rule_line]
  ++ map (fun c => msec ("tv.maxrespc_mldv2_to_maxrespi(" +:+ c.1 +:+ ")") c.2)
       [("false,0,0", maxrespc_mldv2_to_maxrespi3 false 0 0); ("false,0,0", maxrespc_mldv2_to_maxrespi 0);
        ("true,0,0", maxrespc_mldv2_to_maxrespi3 true 0 0); ("0x8000", maxrespc_mldv2_to_maxrespi 0x8000);
        ("true,0,1", maxrespc_mldv2_to_maxrespi3 true 0 1); ("0x8001", maxrespc_mldv2_to_maxrespi 0x8001);
        ("true,1,1", maxrespc_mldv2_to_maxrespi3 true 1 1); ("0x9001", maxrespc_mldv2_to_maxrespi 0x9001);
        ("5274==" +:+ to_hex_string 5274, maxrespc_mldv2_to_maxrespi 5274)]
  ++ ["tv.calc_msec_to_max_resp_code_mldv2(5274==" +:+ to_hex_string 5274 +:+ "): "
      +:+ to_hex_string (maxrespi_to_maxrespc_mldv2 5274);
      rule_line]
  ++ map (fun i => "calc_msec_to_max_resp_code_mldv2(maxrespc_mldv2_to_maxrespi(" +:+ print_Z i +:+ ") "
                   +:+ verdict (maxrespi_to_maxrespc_mldv2 (maxrespc_mldv2_to_maxrespi i) =? i)) (int_range 1000 2137 31).

(** Setting every value changes the object but not the default values; the copy
    and its destruction leave the original as it is. *)
Definition test_timers_values_copy : string :=
  let tv :=
    set_unsolicited_report_interval 106 (set_last_listener_query_count 105 (set_last_listener_query_interval 104
      (set_startup_query_count 103 (set_startup_query_interval 102 (set_query_response_interval 101
        (set_query_interval 100 (set_robustness_variable 99 new_timers_values))))))) in
  let tv_copy := TimersValues.assign new_timers_values tv in
  "##-- test timers and values copy function --##" +:+ endl +:+ rule_line +:+ endl
  +:+ "my timers_values:" +:+ endl +:+ timers_values_to_string tv +:+ endl
  +:+ "timers_values copy:" +:+ endl +:+ timers_values_to_string tv_copy +:+ endl
  +:+ "my timers_values:" +:+ endl +:+ timers_values_to_string tv +:+ endl.

(** ** [test_arithmetic] *)

(** The sets of integers that are printed, in order; after an assignment operator
    both operands are printed. *)
Definition test_arithmetic : list (list Z) :=
  let sl_a := sl_add [] [0; 1; 2; 55] in
  let sl_b := sl_add [] [1; 2; 3; 55] in
  [sl_a; sl_b;
   sl_add_assign sl_a sl_b; sl_b; sl_add sl_a sl_b; sl_add sl_b sl_a;
   sl_mul_assign sl_a sl_b; sl_b; sl_mul sl_a sl_b; sl_mul sl_b sl_a;
   sl_sub_assign sl_a sl_b; sl_b; sl_sub sl_a sl_b; sl_sub sl_b sl_a;
   sl_sub (sl_sub (sl_add [] [1; 5; 2]) (sl_add [] [2])) (sl_add [] [5; 2])].

(** ** [test_worker] *)

Section Worker.
Context {A : Type} `{Address A}.

(** Seven messages reach the worker while it sleeps, for whose queue four is the
    maximum; it handles them, then the exit command that comes later. *)
Definition test_messages : list (proxy_msg A) :=
  map (fun x => test_msg x.1 x.2)
    [(1, LOSEABLE); (2, LOSEABLE); (3, LOSEABLE); (4, USER_INPUT); (5, SYSTEMIC); (6, USER_INPUT); (7, LOSEABLE)].

Definition test_worker_ops : list (queue_op (T := proxy_msg A)) :=
  map OpAdd test_messages ++ replicate 6 OpDequeue ++ [OpAdd exit_cmd; OpDequeue].

Definition test_worker {Q} `{PriorityQueue (proxy_msg A) msg_prio Q} : list (proxy_msg A) :=
  (queue_run msg_prio test_worker_ops (new_message_queue msg_prio 4)).1.
End Worker.

(** ** [test_timing] *)

(** Five messages with their delays, added at the given readings of the clock. *)
Definition test_timing (readings : list Z) : timing_db (W := Z) (M := Z) :=
  fold_left (fun db x => add_time x.1 x.2.1 None x.2.2 db)
    (combine readings [(5000, 1); (7000, 2); (1000, 3); (1, 4); (1, 5)]) [].

(** ** The outcomes *)

Definition failed (line : string) : bool :=
  String.eqb (String.substring (String.length line - 7) 7 line) "FAILED!".

Lemma timers_values_pass :
  existsb failed test_timers_values = false
  /\ "qqic_to_qqi(128): 128 sec" ∈ test_timers_values
  /\ "qqi_to_qqic(32745 sec): 0xFF" ∈ test_timers_values
  /\ "tv.maxrespc_mldv2_to_maxrespi(0x8001): 32776 msec" ∈ test_timers_values.
Proof. split_and!; [vm_compute; reflexivity|apply (bool_decide_unpack _); by vm_compute..]. Qed.

(** The copy is printed like the original, with the values that were set. *)
Lemma timers_values_copied :
  test_timers_values_copy =
  let text := "is_default_timers_values_tank: false" +:+ endl +:+ "Robustness Variable: 99" +:+ endl
    +:+ "Query Interval: 100 sec" +:+ endl +:+ "Query Response Interval: 101 msec" +:+ endl
    +:+ "Multicast Address Listining Interval: 9900101 msec" +:+ endl
    +:+ "Other Querier Present Interval: 9900050 msec" +:+ endl
    +:+ "Startup Query Interval: 102 sec" +:+ endl +:+ "Startup Query Count: 103" +:+ endl
    +:+ "Last Listener Query Interval: 104 msec" +:+ endl +:+ "Last Listener Query Count: 105" +:+ endl
    +:+ "Last Listener Query Time: 10920 msec" +:+ endl +:+ "Unsolicited Report Interval: 106 msec" +:+ endl
    +:+ "Older Host Present Interval: 9900101 msec" +:+ endl in
  "##-- test timers and values copy function --##" +:+ endl +:+ rule_line +:+ endl
  +:+ "my timers_values:" +:+ endl +:+ text +:+ endl
  +:+ "timers_values copy:" +:+ endl +:+ text +:+ endl
  +:+ "my timers_values:" +:+ endl +:+ text +:+ endl.
Proof. vm_compute. reflexivity. Qed.

Lemma arithmetic_outcome :
  test_arithmetic =
  [[0; 1; 2; 55]; [1; 2; 3; 55];
   [0; 1; 2; 3; 55]; [1; 2; 3; 55]; [0; 1; 2; 3; 55]; [0; 1; 2; 3; 55];
   [1; 2; 55]; [1; 2; 3; 55]; [1; 2; 55]; [1; 2; 55];
   [0]; [1; 2; 3; 55]; [0]; [3];
   [1]].
Proof. vm_compute. reflexivity. Qed.

(** A comment of the test announces "[4 6] 5 [1 2 3] without 7": this is what every
    priority queue gives, whatever it does with messages of the same priority. *)
Section WorkerOutcome.
Context {A : Type} `{Address A} {Q : Type} `{PriorityQueue (proxy_msg A) msg_prio Q}.
Notation mq := (message_queue (Q := Q)).
Implicit Types (q : mq) (l : list (proxy_msg A)) (m : proxy_msg A).

(** What [add_msg] does to the messages of the queue. *)
Definition list_add (size : Z) l m : list (proxy_msg A) :=
  if (msg_prio m =? LOSEABLE_PRIO) && negb (Z.of_nat (length l) <? size) then l else m :: l.

Lemma add_msg_elems m q l :
  mq_elems msg_prio q ≡ₚ l -> mq_elems msg_prio (add_msg msg_prio m q) ≡ₚ list_add (m_size q) l m.
Proof.
  intros Hq. unfold add_msg, list_add, enqueue_loseable, enqueue, mq_length, mq_elems in *. rewrite <- Hq.
  destruct (msg_prio m =? LOSEABLE_PRIO); cbn; [|by rewrite pq_elems_push, Hq].
  case_match; cbn; [by rewrite pq_elems_push, Hq|done].
Qed.

Lemma queue_run_adds ms ops q l :
  mq_elems msg_prio q ≡ₚ l ->
  exists q', queue_run msg_prio (map OpAdd ms ++ ops) q = queue_run msg_prio ops q'
    /\ mq_elems msg_prio q' ≡ₚ fold_left (list_add (m_size q)) ms l /\ m_size q' = m_size q.
Proof.
  revert q l. induction ms as [|m ms IH]; intros q l Hq; cbn; [by exists q|].
  destruct (IH (add_msg msg_prio m q) (list_add (m_size q) l m)) as (q' & Hr & He & Hs).
  { by apply add_msg_elems. }
  exists q'. rewrite add_msg_size in He, Hs. auto.
Qed.

(** Dequeuing serves the messages in the order of their priorities. *)
Lemma queue_run_dequeues l ops q :
  mq_elems msg_prio q ≡ₚ l ->
  exists out q', (queue_run msg_prio (replicate (length l) OpDequeue ++ ops) q).1 = out ++ (queue_run msg_prio ops q').1
    /\ out ≡ₚ l /\ StronglySorted (fun a b => msg_prio a <= msg_prio b) out /\ mq_elems msg_prio q' = [].
Proof.
  remember (length l) as n eqn:En. revert l q En. induction n as [|n IH]; intros l q En Hq; cbn.
  - destruct l; [|done]. exists [], q. split_and!; [done|done|constructor|by apply Permutation_nil_r].
  - destruct (dequeue msg_prio q) as [[m q1]|] eqn:Hd.
    + apply dequeue_Some in Hd as (Hp & Hall & _).
      assert (Hl : l ≡ₚ m :: mq_elems msg_prio q1) by (by rewrite <- Hq).
      destruct (IH (mq_elems msg_prio q1) q1) as (out & q' & Hr & Ho & Hs & He); [|done|].
      { apply Permutation_length in Hl. cbn in Hl. lia. }
      exists (m :: out), q'. destruct (queue_run msg_prio _ q1) as [out1 q2]. cbn in Hr |- *.
      split_and!; [by rewrite Hr|by rewrite Ho, Hl| |done].
      constructor; [done|]. rewrite Hp in Hall. apply Forall_cons in Hall as [_ Hall]. by rewrite Ho.
    + exfalso. unfold dequeue in Hd. destruct (pq_pop (m_q q)) as [[]|] eqn:Hpop; [done|].
      apply pq_pop_empty in Hpop. unfold mq_elems in Hq. rewrite Hpop in Hq.
      apply Permutation_nil_l in Hq. by subst.
Qed.

(** A list that is ordered by priority falls into the three classes. *)
Definition of_prio (z : Z) l : list (proxy_msg A) := List.filter (fun m => msg_prio m =? z) l.

Lemma of_prio_perm z l l' : l ≡ₚ l' -> of_prio z l ≡ₚ of_prio z l'.
Proof. unfold of_prio. induction 1; cbn; repeat case_match; eauto using Permutation. Qed.

Lemma of_prio_none z l : Forall (fun m => z < msg_prio m) l -> of_prio z l = [].
Proof.
  induction 1 as [|m l Hm _ IH]; cbn; [done|]. fold (of_prio z l). rewrite IH. destruct (Z.eqb_spec (msg_prio m) z); [lia|done].
Qed.

Lemma sorted_classes l :
  StronglySorted (fun a b => msg_prio a <= msg_prio b) l -> l = of_prio 1 l ++ of_prio 10 l ++ of_prio 100 l.
Proof.
  assert (Hp : forall m, msg_prio m = 1 \/ msg_prio m = 10 \/ msg_prio m = 100).
  { intros m. unfold msg_prio. destruct (get_priority m); cbn; auto. }
  assert (Hlt : forall m l z, z < msg_prio m -> Forall (fun b => msg_prio m <= msg_prio b) l -> of_prio z l = []).
  { intros m l' z Hz Hall. apply of_prio_none. eapply Forall_impl; [exact Hall|]. cbn. lia. }
  induction 1 as [|m l Hs IH Hall]; [done|]. cbn. fold (of_prio 1 l) (of_prio 10 l) (of_prio 100 l).
  destruct (Hp m) as [E|[E|E]]; rewrite E; cbn.
  - by rewrite IH at 1.
  - rewrite (Hlt m l 1) in IH |- * by (done || lia). cbn in *. by rewrite IH at 1.
  - rewrite (Hlt m l 1), (Hlt m l 10) in IH |- * by (done || lia). cbn in *. by rewrite IH at 1.
Qed.

(** Whatever the queue does with messages of the same priority, the worker handles
    the messages as the comment of the test announces: [4 6] 5 [1 2 3] without 7,
    then the exit command. *)
Theorem worker_outcome :
  exists user loseable,
    test_worker = user ++ [test_msg 5 SYSTEMIC] ++ loseable ++ [exit_cmd]
    /\ user ≡ₚ [test_msg 4 USER_INPUT; test_msg 6 USER_INPUT]
    /\ loseable ≡ₚ [test_msg 1 LOSEABLE; test_msg 2 LOSEABLE; test_msg 3 LOSEABLE].
Proof.
  unfold test_worker, test_worker_ops.
  destruct (queue_run_adds test_messages (replicate 6 OpDequeue ++ [OpAdd exit_cmd; OpDequeue])
    (new_message_queue msg_prio 4) []) as (q1 & Hr1 & He1 & _).
  { unfold mq_elems. cbn. by rewrite pq_elems_empty. }
  rewrite Hr1. clear Hr1. set (l := fold_left _ _ _) in He1. vm_compute in l.
  destruct (queue_run_dequeues l [OpAdd exit_cmd; OpDequeue] q1 He1) as (out & q2 & Hr2 & Hout & Hs & He2).
  change (length l) with 6%nat in Hr2. rewrite Hr2. clear Hr2.
  assert (Hexit : (queue_run msg_prio [OpAdd exit_cmd; OpDequeue] q2).1 = [exit_cmd]).
  { change (queue_run msg_prio [OpAdd exit_cmd; OpDequeue] q2)
      with (queue_run msg_prio (replicate 1 OpDequeue ++ []) (add_msg msg_prio exit_cmd q2)).
    destruct (queue_run_dequeues [exit_cmd] [] (add_msg msg_prio exit_cmd q2)) as (o & q3 & Hr3 & Ho & _).
    { apply (add_msg_elems exit_cmd q2 []). by rewrite He2. }
    cbn [length] in Hr3. rewrite Hr3. apply Permutation_singleton_r in Ho. by subst. }
  rewrite Hexit, (sorted_classes out Hs). exists (of_prio 1 out), (of_prio 100 out).
  pose proof (of_prio_perm 10 _ _ Hout) as H10.
  change (of_prio 10 l) with [test_msg (A := A) 5 SYSTEMIC] in H10. apply Permutation_singleton_r in H10.
  split_and!; [by rewrite H10, <- !app_assoc|etrans; [exact (of_prio_perm 1 _ _ Hout)|apply perm_swap]|].
  etrans; [exact (of_prio_perm 100 _ _ Hout)|].
  apply (Permutation_rev [test_msg 3 LOSEABLE; test_msg 2 LOSEABLE; test_msg 1 LOSEABLE]).
Qed.
End WorkerOutcome.

(** Inserts a reminder into a list of times that are compared by [lia]. *)
Ltac insert_reminder :=
  unfold add_time, sl_insert, ms_to_ns; cbn;
  repeat first
    [ rewrite bool_decide_eq_false_2 by lia | rewrite bool_decide_eq_true_2 by lia
    | rewrite (proj2 (Z.ltb_lt _ _)) by lia | rewrite (proj2 (Z.ltb_ge _ _)) by lia ];
  reflexivity.

(** The messages are delivered in the order of their times, if the last two
    readings of the clock differ; if not, the fifth message is lost. *)
Lemma timing_outcome n1 n2 n3 n4 n5 z :
  n1 <= n2 -> n2 <= n3 -> n3 <= n4 -> n4 <= n5 -> n5 < n3 + 999000000 -> n3 < n1 + 4000000000 ->
  n2 + 7000000000 <= z ->
  (fire z (test_timing [n1; n2; n3; n4; n5])).1.*2 = if decide (n4 = n5) then [4; 3; 1; 2] else [4; 5; 3; 1; 2].
Proof.
  intros H12 H23 H34 H45 H53 H31 Hz. unfold test_timing. cbn [fold_left combine fst snd].
  set (e1 := (n1 + 5000000000, (@None Z, 1))). set (e2 := (n2 + 7000000000, (@None Z, 2))).
  set (e3 := (n3 + 1000000000, (@None Z, 3))). set (e4 := (n4 + 1000000, (@None Z, 4))).
  set (e5 := (n5 + 1000000, (@None Z, 5))).
  replace (add_time n1 5000 None 1 []) with [e1] by (subst e1; insert_reminder).
  replace (add_time n2 7000 None 2 [e1]) with [e1; e2] by (subst e1 e2; insert_reminder).
  replace (add_time n3 1000 None 3 [e1; e2]) with [e3; e1; e2] by (subst e1 e2 e3; insert_reminder).
  replace (add_time n4 1 None 4 [e3; e1; e2]) with [e4; e3; e1; e2] by (subst e1 e2 e3 e4; insert_reminder).
  destruct (decide (n4 = n5)) as [->|Hne].
  - replace (add_time n5 1 None 5 [e4; e3; e1; e2]) with [e4; e3; e1; e2] by (subst e1 e2 e3 e4; insert_reminder).
    subst e1 e2 e3 e4. cbn. by rewrite !(proj2 (Z.leb_le _ _)) by lia.
  - replace (add_time n5 1 None 5 [e4; e3; e1; e2]) with [e4; e5; e3; e1; e2]
      by (subst e1 e2 e3 e4 e5; insert_reminder).
    subst e1 e2 e3 e4 e5. cbn. by rewrite !(proj2 (Z.leb_le _ _)) by lia.
Qed.
