(* ===== verification/QuerierScripts.v ===== *)
(** * The scripted tests of the querier (test_querier, quick_test, test_a to
      test_d, test_backward_compatibility and rand_test of
      src/proxy/proxy_instance.cpp)

    The debug build sends scripted records to an instance in the testing mode and
    prints its status between them. Here the scripts are run on the model of the
    instance together with the timing thread: a record is
    handled when it is sent, and a sleep lets the timing thread make the rounds that
    are due. The texts that surround the prints are left out. *)

From S2P Require Import Prelude Def TimersValues AddrStorage Filter InstanceDef Timing Messages Sender.
From S2P Require Import Interfaces MembershipDb Querier QuerierSpec QuerierTheorems RoutingData ProxyRouting ProxyInstance.
From S2P Require Import InstanceTheorems Reminders Status.

Local Open Scope Z_scope.

(** What a script does: it waits some seconds, sends a record with some of the
    sources s1, s2, ... or prints the status. *)
Inductive script_op :=
  | sleep (sec : Z)
  | send_record (rt : mcast_addr_record_type) (slist : list Z) (gmp : group_mem_protocol)
  | print_proxy_instance.

Definition ns_per_sec : Z := 1000000000.

(** A clock that advances by a nanosecond with every reading. *)
Definition at_time (now : Z) (n : nat) : Z := now + Z.of_nat n.

Section Scripts.
Context (stats : nat -> ipv4 -> ipv4 -> option Z).

Definition if_index : Z := 1.
Definition gaddr : ipv4 := mk_ipv4 239 99 99 99.
Definition test_source (k : Z) : source ipv4 := new_source (mk_ipv4 k k k k).

Notation pr_state := (proxy_state (A := ipv4) * env ipv4)%type.

Definition handle (now : Z) (m : proxy_msg ipv4) (s : pr_state) : option pr_state :=
  r ← handle_message (at_time now) ex_sock stats (igmp_sender (at_time now) ex_sock) ∅ ex_if_name ex_vif 0 false m s.1 s.2;
  Some (r.1.2, r.2).

(** The rounds of the timing thread until a time; each one at the time of the
    earliest reminder. *)
Fixpoint pass_time (fuel : nat) (now target : Z) (s : pr_state) : option pr_state :=
  match fuel with
  | O => None
  | S fuel =>
    match e_timing s.2 with
    | (until, _) :: _ =>
      if until <=? target then
        let now := Z.max now until in
        let '(fired, rest) := fire now (e_timing s.2) in
        s ← fold_left (fun s t => s ≫= handle now (a_timer_msg t)) (delivered 0 fired) (Some (s.1, set_timing rest s.2));
        pass_time fuel now target s
      else Some s
    | [] => Some s
    end
  end.

(** The time, the state and the states that were printed. *)
Fixpoint run_script (l : list script_op) (now : Z) (s : pr_state) : option (list pr_state) :=
  match l with
  | [] => Some []
  | sleep sec :: l' =>
    let target := now + sec * ns_per_sec in
    s ← pass_time 1000 now target s;
    run_script l' target s
  | send_record rt slist gmp :: l' =>
    s ← handle now (a_group_record_msg {| gr_if_index := if_index; gr_record_type := rt; gr_gaddr := gaddr;
                                          gr_slist := sl_add [] (map test_source slist); gr_grp_mem_proto := gmp |}) s;
    run_script l' now s
  | print_proxy_instance :: l' => printed ← run_script l' now s; Some (s :: printed)
  end.

Definition test_timers : timers_values :=
  set_query_response_interval 4000 (set_startup_query_count 4
    (set_startup_query_interval 10 (set_query_interval 10 new_timers_values))).

Definition test_querier (script : list script_op) : option (list pr_state) :=
  s ← handle 0 (a_config_msg {| cm_instruction := ADD_DOWNSTREAM; cm_if_index := if_index; cm_upstream_priority := 0;
                                cm_interface := Some (new_interface "lo"); cm_tv := test_timers; cm_rule_binding := None |})
        (new_proxy_state IGMPv3 "test", empty_env);
  run_script script 0 s.
End Scripts.

Definition send rt slist : script_op := send_record rt slist IGMPv3.

Fixpoint times (n : nat) (l : list script_op) : list script_op :=
  match n with O => [] | S n => l ++ times n l end.

Definition test_a : list script_op :=
  [print_proxy_instance;
   send MODE_IS_INCLUDE [1; 2; 3; 4; 5]; print_proxy_instance;
   sleep 4; send MODE_IS_INCLUDE [1; 3; 5]; print_proxy_instance;
   sleep 5; send MODE_IS_INCLUDE [1; 3; 5]; print_proxy_instance;
   sleep 2; print_proxy_instance;
   sleep 1; send MODE_IS_EXCLUDE [1; 2; 3]; print_proxy_instance;
   sleep 5; send MODE_IS_INCLUDE [1; 2]; print_proxy_instance;
   sleep 1; send MODE_IS_EXCLUDE [6; 7]; print_proxy_instance;
   sleep 1; send MODE_IS_EXCLUDE [6; 7]; print_proxy_instance]
  ++ times 6 [sleep 2; print_proxy_instance] ++ [sleep 1].

Definition test_b : list script_op :=
  [print_proxy_instance;
   sleep 1; send ALLOW_NEW_SOURCES [1; 2; 3]; print_proxy_instance;
   sleep 1; send BLOCK_OLD_SOURCES [2]; print_proxy_instance]
  ++ times 6 [sleep 2; print_proxy_instance] ++ [sleep 1].

Definition test_c : list script_op :=
  [print_proxy_instance;
   sleep 1; send ALLOW_NEW_SOURCES [1; 2; 3; 4]; print_proxy_instance;
   sleep 1; send CHANGE_TO_EXCLUDE_MODE [3; 4; 5; 6]; print_proxy_instance;
   sleep 1; send ALLOW_NEW_SOURCES [7]; print_proxy_instance;
   sleep 1; send ALLOW_NEW_SOURCES [6]; print_proxy_instance]
  ++ times 6 [sleep 2; print_proxy_instance] ++ [sleep 1].

Definition test_d : list script_op :=
  [print_proxy_instance;
   sleep 1; send ALLOW_NEW_SOURCES [1; 2]; print_proxy_instance;
   sleep 2; send MODE_IS_EXCLUDE [2; 3]; print_proxy_instance;
   sleep 2; send BLOCK_OLD_SOURCES [2; 7]; print_proxy_instance;
   sleep 2; send CHANGE_TO_INCLUDE_MODE [1; 2]; print_proxy_instance;
   sleep 4; send CHANGE_TO_EXCLUDE_MODE [1; 7]; print_proxy_instance]
  ++ times 6 [sleep 2; print_proxy_instance] ++ [sleep 1].

Definition test_backward_compatibility : list script_op :=
  [print_proxy_instance;
   sleep 1; send ALLOW_NEW_SOURCES [1; 2]; print_proxy_instance;
   sleep 2; send ALLOW_NEW_SOURCES [3; 2]; print_proxy_instance;
   sleep 2; send_record ALLOW_NEW_SOURCES [4; 2] IGMPv2; print_proxy_instance;
   sleep 2; send ALLOW_NEW_SOURCES [5; 2]; print_proxy_instance;
   sleep 2; send ALLOW_NEW_SOURCES [6; 2]; print_proxy_instance;
   sleep 2; send_record ALLOW_NEW_SOURCES [7; 2] IGMPv2; print_proxy_instance;
   sleep 4]
  ++ times 23 [sleep 2; send ALLOW_NEW_SOURCES [1; 2]; print_proxy_instance] ++ [sleep 1].

Definition quick_test : list script_op :=
  [print_proxy_instance; send MODE_IS_INCLUDE []; send MODE_IS_INCLUDE []]
  ++ times 120 [sleep 1; print_proxy_instance] ++ [sleep 1].

(** The random test: [d_src n] and [d_r_type n] are what the two distributions make
    of the [n]-th number of the engine. The order in which the type and the sources
    of a record are drawn is the compiler's choice; here the type is drawn first. *)
Section RandTest.
Context (d_src d_r_type : nat -> nat).

Definition r_type : list mcast_addr_record_type :=
  [MODE_IS_INCLUDE; MODE_IS_EXCLUDE; CHANGE_TO_INCLUDE_MODE; CHANGE_TO_EXCLUDE_MODE; ALLOW_NEW_SOURCES; BLOCK_OLD_SOURCES].

Definition src : list Z := [1; 2; 3; 4; 5; 6; 7; 8; 9; 10; 11; 12].

(** The sources and the next number of the engine. *)
Definition get_src_list (n : nat) : list Z * nat :=
  let max := d_src n in
  (map (fun i => nth (d_src (S n + i)%nat) src 0) (seq 0 (S max)), (S n + S max)%nat).

Definition rand_round (i n : nat) : list script_op * nat :=
  let time := d_src n in
  let rt := nth (d_r_type (S n)) r_type BLOCK_OLD_SOURCES in
  let '(s, n) := get_src_list (S (S n)) in
  ((if decide (i ∈ [10; 20; 40]%nat) then [sleep 2; send_record MODE_IS_EXCLUDE [] IGMPv2] else [])
   ++ (if decide (i ∈ [11; 25; 40]%nat) then [sleep 2; send_record CHANGE_TO_EXCLUDE_MODE [] IGMPv2] else [])
   ++ [sleep (Z.of_nat time); send_record rt s IGMPv3; print_proxy_instance], n).

Fixpoint rand_rounds (todo i n : nat) : list script_op :=
  match todo with
  | O => [sleep 1]
  | S todo => let '(l, n) := rand_round i n in l ++ rand_rounds todo (S i) n
  end.

Definition rand_test : list script_op := print_proxy_instance :: rand_rounds 50 0 0.
End RandTest.

(** What a status says of the group: its mode, its included or requested sources
    and its excluded ones. *)
Definition group_state (s : proxy_state (A := ipv4) * env ipv4) : option (group_mem_protocol * mc_filter * list Z * list Z) :=
  match m_downstreams s.1 with
  | (_, d) :: _ =>
    g ← group_info (d_db d) !! gaddr;
    Some (compatibility_mode_variable g, filter_mode g, map (fun s => (ip_value (saddr s)) mod 256) (include_requested_list g),
          map (fun s => ip_value (saddr s) mod 256) (exclude_list g))
  | [] => None
  end.

Definition outcome (script : list script_op) := map group_state <$> test_querier (fun _ _ _ => Some 0) script.

(** ** The outcomes *)

Notation incl l := (Some (IGMPv3, INCLUDE_MODE, l, [])).
Notation excl l l' := (Some (IGMPv3, EXCLUDE_MODE, l, l')).
Notation older l := (Some (IGMPv2, INCLUDE_MODE, l, [])).

(** A report that includes no source leaves no group. *)
Lemma quick_test_outcome : outcome quick_test = Some (replicate 121 None).
Proof. vm_compute. reflexivity. Qed.

(** The sources of a report in EXCLUDE mode replace the requested ones; they stay
    requested, with a timer, until it expires. *)
Lemma test_a_outcome :
  outcome test_a =
  Some ([None] ++ replicate 4 (incl [1; 2; 3; 4; 5]) ++ replicate 2 (excl [1; 2; 3] []) ++ replicate 8 (excl [6; 7] [])).
Proof. vm_compute. reflexivity. Qed.

(** A blocked source is queried, and without an answer gone after the last listener
    query time of two seconds. *)
Lemma test_b_outcome :
  outcome test_b = Some ([None] ++ replicate 3 (incl [1; 2; 3]) ++ replicate 5 (incl [1; 3])).
Proof. vm_compute. reflexivity. Qed.

(** A change to EXCLUDE mode queries the requested sources; those that nobody asks
    for again are excluded two seconds later. *)
Lemma test_c_outcome :
  outcome test_c =
  Some ([None; incl [1; 2; 3; 4]; excl [3; 4] [5; 6]; excl [3; 4; 7] [5; 6]; excl [3; 4; 6; 7] [5]]
        ++ replicate 6 (excl [6; 7] [3; 4; 5])).
Proof. vm_compute. reflexivity. Qed.

Lemma test_d_outcome :
  outcome test_d =
  Some ([None; incl [1; 2]; excl [2] [3]; excl [2; 7] [3]; excl [1; 2; 7] [3]; excl [1] [7]; excl [1] [7]]
        ++ replicate 5 (excl [] [1; 7])).
Proof. vm_compute. reflexivity. Qed.

(** A report of an IGMPv2 host sets the group back to IGMPv2 until the older host
    present timer, which starts anew with the second report, expires. The sources
    that are reported only once expire one after the other. *)
Lemma test_backward_compatibility_outcome :
  outcome test_backward_compatibility =
  Some ([None; incl [1; 2]; incl [1; 2; 3]; older [1; 2; 3; 4]; older [1; 2; 3; 4; 5]; older [1; 2; 3; 4; 5; 6]]
        ++ replicate 7 (older [1; 2; 3; 4; 5; 6; 7])
        ++ [older [1; 2; 4; 5; 6; 7]; older [1; 2; 5; 6; 7]; older [1; 2; 6; 7]; older [1; 2; 7]]
        ++ replicate 13 (incl [1; 2])).
Proof. vm_compute. reflexivity. Qed.

(** Twelve sources are prepared for the random test, but the distribution that
    chooses among them ends with the ninth. *)
Definition within (op : script_op) : Prop :=
  match op with
  | sleep t => 0 <= t <= 8
  | send_record _ l _ => (length l <= 9)%nat /\ Forall (fun k => 1 <= k <= 9) l
  | print_proxy_instance => True
  end.

Lemma rand_test_within d_src d_r_type :
  (forall n, d_src n <= 8)%nat -> Forall within (rand_test d_src d_r_type).
Proof.
  intros Hd.
  assert (Hsrc : forall n, 1 <= nth (d_src n) src 0 <= 9).
  { intros n. specialize (Hd n). generalize dependent (d_src n). intros k Hk.
    do 9 (destruct k as [|k]; [cbn; lia|]). lia. }
  unfold rand_test. constructor; [done|].
  assert (Hrounds : forall todo i n, Forall within (rand_rounds d_src d_r_type todo i n)); [|apply Hrounds].
  intros todo. induction todo as [|todo IH]; intros i n; cbn [rand_rounds].
  { constructor; [cbn; lia|constructor]. }
  unfold rand_round, get_src_list. cbv zeta. rewrite !Forall_app. split_and!; [| | |apply IH].
  - case_decide; repeat constructor; cbn; lia.
  - case_decide; repeat constructor; cbn; lia.
  - pose proof (Hd n). pose proof (Hd (S (S n))).
    constructor; [cbn; lia|]. constructor; [|by repeat constructor]. split.
    + rewrite length_map, length_seq. lia.
    + apply Forall_map, Forall_true. intros i'. apply Hsrc.
Qed.
