(* ===== verification/Shutdown.v ===== *)
(** * The threads of an instance and its end
      (src/proxy/worker.cpp, src/proxy/receiver.cpp, src/proxy/timing.cpp,
       the destructors of src/proxy/proxy_instance.cpp)

    An instance is destroyed while its worker, its receiver and the timing thread
    run. The destructor is the sequence of operations that the language makes of
    it: the body of [~proxy_instance], the members in the reverse order of their
    declaration, and the base class [worker]. The threads act in any order; an
    action names the part of the instance that it reads, writes or calls. As long
    as that part exists the action is a step of the process; otherwise the process
    fails: a virtual function of a derived class that is gone is a pure virtual
    call, which aborts, and the use of a destroyed member is undefined. *)

From S2P Require Import Prelude Def AddrStorage Filter Timing Messages ProxyInstance.

Local Open Scope Z_scope.

Section Shutdown.
Context {A : Type} `{Address A}.

(** The timers that messages point to. *)
Context (store : gmap tid (timer_msg A)).
Implicit Types (m : proxy_msg A) (q : list (proxy_msg A)).

(** ** The destructor *)

(** The parts of an instance: [WORKER_BASE] is the base class with its thread,
    [m_running] and the queue, [INSTANCE_DERIVED] the virtual function of the
    derived class that the thread starts with; the receiver is a base class
    [receiver], with the thread and [m_running], and a derived part that overrides
    its functions. *)
Inductive part :=
  | RULES | DOWNSTREAMS | UPSTREAMS | ROUTING_MANAGEMENT | ROUTING | RECEIVER_DERIVED
  | RECEIVER_BASE | SENDER | MRT_SOCK | TIMING_REFERENCE | INTERFACES_REFERENCE | INSTANCE_DERIVED
  | WORKER_BASE.

#[export] Instance part_eq_dec : EqDecision part.
Proof. solve_decision. Defined.

Inductive thread_op :=
  | AddMsg (m : proxy_msg A)
  | Destroy (x : part)
  | StopReceiver
  | JoinReceiver
  | StopWorker
  | JoinWorker.

Definition receiver_dtor : list thread_op := [StopReceiver; JoinReceiver].
Definition worker_dtor : list thread_op := [StopWorker; JoinWorker].
Definition proxy_instance_dtor : list thread_op := [AddMsg exit_cmd].

(** Destroying the members, the last one first; [m_receiver] owns the receiver. *)
Definition destroy_members : list thread_op :=
  [Destroy RULES; Destroy DOWNSTREAMS; Destroy UPSTREAMS; Destroy ROUTING_MANAGEMENT; Destroy ROUTING;
   Destroy RECEIVER_DERIVED] ++ receiver_dtor ++ [Destroy RECEIVER_BASE;
   Destroy SENDER; Destroy MRT_SOCK; Destroy TIMING_REFERENCE; Destroy INTERFACES_REFERENCE].

Definition destroy_instance : list thread_op :=
  proxy_instance_dtor ++ destroy_members ++ [Destroy INSTANCE_DERIVED] ++ worker_dtor ++ [Destroy WORKER_BASE].

(** ** The threads *)

(** The members that the handler of a message reads first. *)
Definition members_used m : list part :=
  match get_type store m with
  | Some (FILTER_TIMER_MSG | SOURCE_TIMER_MSG | RET_GROUP_TIMER_MSG | RET_SOURCE_TIMER_MSG
          | OLDER_HOST_PRESENT_TIMER_MSG | GENERAL_QUERY_TIMER_MSG | GROUP_RECORD_MSG) => [DOWNSTREAMS]
  | Some (NEW_SOURCE_MSG | NEW_SOURCE_TIMER_MSG) => [ROUTING_MANAGEMENT]
  | Some DEBUG_MSG => [RULES; ROUTING_MANAGEMENT; UPSTREAMS; DOWNSTREAMS]
  | Some CONFIG_MSG =>
    match m with
    | a_config_msg cm =>
      match cm_instruction cm with
      | ADD_DOWNSTREAM | DEL_DOWNSTREAM => [DOWNSTREAMS]
      | ADD_UPSTREAM | DEL_UPSTREAM => [UPSTREAMS]
      | SET_GLOBAL_RULE_BINDING => []
      end
    | _ => []
    end
  | _ => []
  end.

(** Where a worker is in [worker_thread]: at its call, at the test of [m_running],
    in [dequeue], in a handler with the members it still reads, or at its end. *)
Inductive worker_pc := W_start | W_test | W_dequeue | W_handle (m : proxy_msg A) (todo : list part) | W_end.

(** A receiver: before its loop, where it asks for the sizes of its buffers, at the
    test of [m_running], in [receive_msg], at the call of
    [analyse_packet], adding the messages of a packet, or at its end. *)
Inductive receiver_pc := R_start | R_test | R_receive | R_analyse | R_add (ms : list (proxy_msg A)) | R_end.

Record state := {
  st_main : list thread_op;
  st_queue : list (proxy_msg A);
  st_running : bool;
  st_worker : worker_pc;
  st_receiving : bool;
  st_receiver : receiver_pc;
  st_dead : list part
}.

(** [start] of a worker and of a receiver (which does nothing in the testing
    mode); the instance is then destroyed at some time. *)
Definition worker_start : bool * worker_pc := (true, W_start).
Definition receiver_start (in_debug_testing_mode : bool) : bool * receiver_pc :=
  if in_debug_testing_mode then (false, R_end) else (true, R_start).

Definition started (prog : list thread_op) q (debug : bool) : state :=
  {| st_main := prog; st_queue := q;
     st_running := worker_start.1; st_worker := worker_start.2;
     st_receiving := (receiver_start debug).1; st_receiver := (receiver_start debug).2;
     st_dead := [] |}.

Definition set_worker (q : list (proxy_msg A)) (running : bool) (pc : worker_pc) (s : state) : state :=
  {| st_main := st_main s; st_queue := q; st_running := running; st_worker := pc;
     st_receiving := st_receiving s; st_receiver := st_receiver s; st_dead := st_dead s |}.

Definition set_receiver (q : list (proxy_msg A)) (pc : receiver_pc) (s : state) : state :=
  {| st_main := st_main s; st_queue := q; st_running := st_running s; st_worker := st_worker s;
     st_receiving := st_receiving s; st_receiver := pc; st_dead := st_dead s |}.

(** An operation of the destructor; [join] waits for the end of its thread. *)
Definition run_op (op : thread_op) (ops : list thread_op) (s : state) : option state :=
  let next q running receiving dead :=
    {| st_main := ops; st_queue := q; st_running := running; st_worker := st_worker s;
       st_receiving := receiving; st_receiver := st_receiver s; st_dead := dead |} in
  match op with
  | AddMsg m => Some (next (m :: st_queue s) (st_running s) (st_receiving s) (st_dead s))
  | Destroy x => Some (next (st_queue s) (st_running s) (st_receiving s) (x :: st_dead s))
  | StopReceiver => Some (next (st_queue s) (st_running s) false (st_dead s))
  | StopWorker => Some (next (st_queue s) false (st_receiving s) (st_dead s))
  | JoinReceiver =>
    match st_receiver s with
    | R_end => Some (next (st_queue s) (st_running s) (st_receiving s) (st_dead s))
    | _ => None
    end
  | JoinWorker =>
    match st_worker s with
    | W_end => Some (next (st_queue s) (st_running s) (st_receiving s) (st_dead s))
    | _ => None
    end
  end.

(** An element that [dequeue] may return. *)
Definition first_of q m : Prop := m ∈ q /\ Forall (fun m' => msg_prio m <= msg_prio m') q.

Inductive thread := MAIN | WORKER | RECEIVER | TIMING.

#[export] Instance thread_eq_dec : EqDecision thread.
Proof. solve_decision. Defined.

(** What a thread does next, and the part that it uses for it. *)
Inductive act : thread -> option part -> state -> state -> Prop :=
  | main_step op ops s s' :
      st_main s = op :: ops -> run_op op ops s = Some s' -> act MAIN None s s'
  | worker_call s :
      st_worker s = W_start ->
      act WORKER (Some INSTANCE_DERIVED) s (set_worker (st_queue s) (st_running s) W_test s)
  | worker_test s :
      st_worker s = W_test ->
      act WORKER (Some WORKER_BASE) s
        (set_worker (st_queue s) (st_running s) (if st_running s then W_dequeue else W_end) s)
  | worker_dequeue s m q :
      st_worker s = W_dequeue -> first_of (st_queue s) m -> st_queue s ≡ₚ m :: q ->
      act WORKER (Some WORKER_BASE) s (set_worker q (st_running s) (W_handle m (members_used m)) s)
  | worker_access s m x todo :
      st_worker s = W_handle m (x :: todo) ->
      act WORKER (Some x) s (set_worker (st_queue s) (st_running s) (W_handle m todo) s)
  | worker_handled s m :
      st_worker s = W_handle m [] ->
      act WORKER (match m with exit_cmd => Some WORKER_BASE | _ => None end) s
        (set_worker (st_queue s) (match m with exit_cmd => false | _ => st_running s end) W_test s)
  | receiver_sizes s :
      st_receiver s = R_start ->
      act RECEIVER (Some RECEIVER_DERIVED) s (set_receiver (st_queue s) R_test s)
  | receiver_test s :
      st_receiver s = R_test ->
      act RECEIVER (Some RECEIVER_BASE) s
        (set_receiver (st_queue s) (if st_receiving s then R_receive else R_end) s)
  | receiver_timeout s :
      st_receiver s = R_receive ->
      act RECEIVER (Some RECEIVER_BASE) s (set_receiver (st_queue s) R_test s)
  | receiver_packet s :
      st_receiver s = R_receive ->
      act RECEIVER (Some RECEIVER_BASE) s (set_receiver (st_queue s) R_analyse s)
  | receiver_analyse s ms :
      st_receiver s = R_analyse -> Forall (fun m => get_priority m = LOSEABLE) ms ->
      act RECEIVER (Some RECEIVER_DERIVED) s (set_receiver (st_queue s) (R_add ms) s)
  | receiver_add s m ms (full : bool) :
      st_receiver s = R_add (m :: ms) ->
      act RECEIVER (Some WORKER_BASE) s
        (set_receiver (if full then st_queue s else m :: st_queue s) (R_add ms) s)
  | receiver_added s :
      st_receiver s = R_add [] ->
      act RECEIVER (Some RECEIVER_BASE) s (set_receiver (st_queue s) R_test s)
  | timing_adds s t :
      act TIMING (Some WORKER_BASE) s
        (set_worker (a_timer_msg t :: st_queue s) (st_running s) (st_worker s) s).

(** The process goes on, or has failed in the state [s], when the thread [th] used
    the part [x] after its destruction. *)
Inductive process := Alive (s : state) | Failed (th : thread) (x : part) (s : state).

Definition exists_part (s : state) (x : option part) : Prop :=
  match x with Some y => y ∉ st_dead s | None => True end.

Inductive step : thread -> process -> process -> Prop :=
  | thread_acts th x s s' : act th x s s' -> exists_part s x -> step th (Alive s) (Alive s')
  | thread_fails th x s s' : act th (Some x) s s' -> x ∈ st_dead s -> step th (Alive s) (Failed th x s).

Definition any_step (p p' : process) : Prop := exists th, step th p p'.

(** The actions alone, as if destroyed parts could still be used. *)
Definition any_act (s s' : state) : Prop := exists th x, act th x s s'.

(** A thread reads or writes a part that is destroyed. *)
Definition used_after_destruction th (x : part) (s : state) : Prop :=
  x ∈ st_dead s /\ exists s', act th (Some x) s s'.

(** ** What a join protects *)

(** The operations that are done, and what follows from them. *)
Record progress_of (prog done : list thread_op) (s : state) : Prop := {
  po_prog : prog = done ++ st_main s;
  po_dead : forall x, x ∈ st_dead s -> Destroy x ∈ done;
  po_worker : JoinWorker ∈ done -> st_worker s = W_end;
  po_receiver : JoinReceiver ∈ done -> st_receiver s = R_end;
  po_stopped : StopReceiver ∈ done -> st_receiving s = false
}.

Lemma run_op_progress prog done op ops s s' :
  st_main s = op :: ops -> run_op op ops s = Some s' -> progress_of prog done s ->
  progress_of prog (done ++ [op]) s'.
Proof.
  intros Hm Hrun [Hpr Hd Hw Hr Hs]. rewrite Hm in Hpr.
  assert (Hin : forall o, o ∈ done ++ [op] -> o ∈ done \/ o = op).
  { intros o [?|?%list_elem_of_singleton]%elem_of_app; auto. }
  destruct op; cbn in Hrun; [| | |destruct (st_receiver s) eqn:Er| |destruct (st_worker s) eqn:Ew];
    simplify_eq; split; cbn; try (by rewrite <- app_assoc);
    try (intros ?x ?Hx; apply elem_of_app; left; by apply Hd);
    try (intros [?|[=]]%Hin; by auto).
  - intros y [->|Hy]%elem_of_cons; apply elem_of_app; [right; left|left; by apply Hd].
Qed.

Lemma act_progress prog done th x s s' :
  act th x s s' -> progress_of prog done s -> exists done', progress_of prog done' s'.
Proof.
  intros Hstep Hp. destruct Hstep; [eexists; by eapply run_op_progress|..];
    exists done; destruct Hp as [Hpr Hd Hw Hr Hs]; split; cbn; try done;
    try (intros Hj; specialize (Hw Hj); congruence); try (intros Hj; specialize (Hr Hj); congruence).
Qed.

Lemma reachable_progress prog q debug s :
  rtc any_act (started prog q debug) s -> exists done, progress_of prog done s.
Proof.
  intros Hrun. remember (started prog q debug) as s0 eqn:E.
  assert (Hs : exists done, progress_of prog done s0).
  { exists []. subst. by split; cbn; [|intros x ?%elem_of_nil|intros ?%elem_of_nil..]. }
  clear E. induction Hrun as [s|s1 s2 s3 (th & x & Hstep) _ IH]; [done|]. apply IH.
  destruct Hs as [done Hp]. by eapply act_progress.
Qed.

(** The join of a thread comes before the end of a part. *)
Definition is_join th (op : thread_op) : bool :=
  match th, op with WORKER, JoinWorker | RECEIVER, JoinReceiver => true | _, _ => false end.

Definition destroys (x : part) (op : thread_op) : bool :=
  match op with Destroy y => bool_decide (x = y) | _ => false end.

Fixpoint joined_before th (x : part) (prog : list thread_op) : bool :=
  match prog with
  | [] => false
  | op :: ops => is_join th op || (negb (destroys x op) && joined_before th x ops)
  end.

Lemma joined_prefix th x done rest :
  joined_before th x (done ++ rest) = true -> Destroy x ∈ done -> exists op, is_join th op = true /\ op ∈ done.
Proof.
  induction done as [|op done IH]; cbn; intros Hj Hd; [by apply elem_of_nil in Hd|].
  apply orb_true_iff in Hj as [Hj|[Hn Hj]%andb_true_iff]; [exists op; split; [done|by left]|].
  apply elem_of_cons in Hd as [<-|Hd]; [cbn in Hn; by rewrite bool_decide_true in Hn|].
  destruct (IH Hj Hd) as (o & Ho & Hin). exists o. split; [done|by right].
Qed.

Lemma join_protects prog q debug th x s :
  joined_before th x prog = true -> rtc any_act (started prog q debug) s -> ~ used_after_destruction th x s.
Proof.
  intros Hj Hrun [Hdead (s' & Hstep)].
  destruct (reachable_progress _ _ _ _ Hrun) as (done & [-> Hd Hw Hr _]).
  destruct (joined_prefix _ _ _ _ Hj (Hd x Hdead)) as (op & Hop & Hin).
  destruct th, op; try done.
  - specialize (Hw Hin). inversion Hstep; subst; congruence.
  - specialize (Hr Hin). inversion Hstep; subst; congruence.
Qed.

(** ** The destructor ends *)

(** The messages of user input in the queue; they are taken first. *)
Definition is_urgent m : bool := match get_priority m with USER_INPUT => true | _ => false end.
Definition urgent q : nat := length (List.filter is_urgent q).

Lemma urgent_perm q q' : q ≡ₚ q' -> urgent q = urgent q'.
Proof.
  unfold urgent. induction 1 as [|x l l' _ IH|x y l|l l1 l2 _ IH1 _ IH2]; cbn; [done| | |lia].
  - destruct (is_urgent x); cbn; lia.
  - by destruct (is_urgent x), (is_urgent y).
Qed.

Lemma urgent_cons m q : urgent (m :: q) = ((if is_urgent m then 1 else 0) + urgent q)%nat.
Proof. unfold urgent. cbn. by destruct (is_urgent m). Qed.

#[local] Arguments urgent : simpl never.

Lemma not_urgent m : get_priority m = LOSEABLE -> is_urgent m = false.
Proof. unfold is_urgent. by intros ->. Qed.

(** The exit command is in the queue or was taken. *)
Definition exit_ahead (s : state) : Prop :=
  exit_cmd ∈ st_queue s \/ (exists todo, st_worker s = W_handle exit_cmd todo)
  \/ (st_running s = false /\ (st_worker s = W_test \/ st_worker s = W_end)).

Definition is_add (op : thread_op) : bool := match op with AddMsg _ => true | _ => false end.

(** The receiver is told to stop before it is joined. *)
Fixpoint stops_first (ops : list thread_op) : bool :=
  match ops with
  | [] | JoinReceiver :: _ => false
  | StopReceiver :: _ => true
  | _ :: ops' => stops_first ops'
  end.

(** The messages of a packet may be lost. *)
Definition adds_loseable (s : state) : Prop :=
  forall ms, st_receiver s = R_add ms -> Forall (fun m => get_priority m = LOSEABLE) ms.

(** What holds from the first operation of the destructor on. *)
Record closing (s : state) : Prop := {
  cl_exit : exit_ahead s;
  cl_main : Forall (fun op => is_add op = false) (st_main s);
  cl_stop : st_receiving s = false \/ stops_first (st_main s) = true;
  cl_adds : adds_loseable s
}.

Lemma members_used_few m : (length (members_used m) <= 4)%nat.
Proof.
  unfold members_used. destruct (get_type store m) as [[]|]; cbn; try lia.
  destruct m; cbn; try lia. destruct (cm_instruction cm); cbn; lia.
Qed.

(** With the exit command in the queue a message of user input is taken. *)
Lemma first_is_urgent q m : exit_cmd ∈ q -> first_of q m -> is_urgent m = true.
Proof.
  intros He [_ Hf]. rewrite Forall_forall in Hf. specialize (Hf _ He). unfold msg_prio in Hf. cbn in Hf.
  unfold is_urgent. by destruct (get_priority m); cbn in Hf; [|lia..].
Qed.

(** What the main thread and the worker still do. *)
Definition worker_left (s : state) : nat :=
  match st_worker s with
  | W_end => 0
  | W_start => 8 * urgent (st_queue s) + 3
  | W_test => 8 * urgent (st_queue s) + 2
  | W_dequeue => 8 * urgent (st_queue s) + 1
  | W_handle _ todo => 8 * urgent (st_queue s) + 3 + length todo
  end.

Lemma act_adds th x s s' : act th x s s' -> adds_loseable s -> adds_loseable s'.
Proof.
  intros Hstep Ha ms. destruct Hstep as [op ops s s' Hop Hrun|s Hw|s Hw|s m q Hw Hf Hq|s m x todo Hw|s m Hw|s Hr|s Hr|s Hr|s Hr|s ms' Hr Hl|s m ms' full Hr|s Hr|s t];
    cbn; try apply Ha; try done.
  - destruct op; cbn in Hrun; [| | |destruct (st_receiver s) eqn:Er| |destruct (st_worker s) eqn:Ew];
      simplify_eq; cbn; rewrite ?Er; try apply Ha; done.
  - by destruct (st_receiving s).
  - by intros [= <-].
  - intros [= <-]. by eapply Forall_inv_tail, Ha.
Qed.

(** An operation of the main thread after the first one. *)
Lemma run_op_closing op ops s s' :
  st_main s = op :: ops -> run_op op ops s = Some s' -> closing s ->
  closing s' /\ st_main s' = ops /\ worker_left s' = worker_left s.
Proof.
  intros Hop Hrun [He Hm Hs Ha]. unfold adds_loseable, exit_ahead, worker_left in *.
  rewrite Hop in Hm, Hs. apply Forall_cons in Hm as [Hop' Hm].
  destruct op; cbn in Hrun, Hop', Hs; [done| | |destruct (st_receiver s) eqn:Er| |destruct (st_worker s) eqn:Ew];
    simplify_eq; (split; [split|]); cbn; rewrite ?Ew, ?Er; auto.
  - by destruct Hs; [left|].
  - unfold exit_ahead. cbn. destruct He as [?|[?|[_ ?]]]; auto.
Qed.

Lemma act_closing th x s s' : act th x s s' -> closing s -> closing s'.
Proof.
  intros Hstep Hc. pose proof (act_adds _ _ _ _ Hstep (cl_adds _ Hc)) as Ha'.
  destruct Hstep as [op ops s s' Hop Hrun|s Hw|s Hw|s m q Hw Hf Hq|s m x todo Hw|s m Hw|s Hr|s Hr|s Hr|s Hr|s ms Hr _|s m ms full Hr|s Hr|s t];
    [by apply (run_op_closing op ops) in Hrun as [? _]|..];
    destruct Hc as [He Hm Hs Ha]; split; try done; unfold exit_ahead in *; cbn.
  - destruct He as [?|[[todo Hw']|[_ [?|?]]]]; [by left|congruence..].
  - destruct He as [?|[[todo Hw']|[Hr _]]]; [by left|congruence|]. rewrite Hr. right. right. auto.
  - destruct He as [He|[[todo Hw']|[_ [?|?]]]]; [|congruence..].
    rewrite Hq in He. apply elem_of_cons in He as [<-|?]; [right; left; by eexists|by left].
  - destruct He as [?|[[l Hw']|[_ [?|?]]]]; [by left| |congruence..].
    assert (m = exit_cmd) as -> by congruence. right. left. by eexists.
  - destruct He as [?|[[l Hw']|[_ [?|?]]]]; [by left| |congruence..].
    assert (m = exit_cmd) as -> by congruence. right. right. auto.
  - destruct He as [?|?]; [left; destruct full; [done|by right]|by right].
  - destruct He as [?|[[todo Hw']|Hr]]; [left; by right|right; left; by exists todo|by right; right].
Qed.

Definition work_left (s : state) : nat := length (st_main s) + worker_left s.

(** What a receiver that was told to stop still does. *)
Definition packet_left (s : state) : nat :=
  if st_receiving s then 0 else match st_receiver s with R_receive => 2 | R_analyse => 1 | _ => 0 end.

Definition adds_left (s : state) : nat :=
  if st_receiving s then 0
  else match st_receiver s with R_add ms => 2 + length ms | R_start => 2 | R_test => 1 | _ => 0 end.

Definition lower (s' s : state) : Prop :=
  (work_left s' < work_left s \/ work_left s' = work_left s /\
   (packet_left s' < packet_left s \/ packet_left s' = packet_left s /\ adds_left s' < adds_left s))%nat.

Lemma lower_wf : well_founded lower.
Proof.
  assert (Hall : forall w p a s, work_left s = w -> packet_left s = p -> adds_left s = a -> Acc lower s).
  { intros w. induction (lt_wf w) as [w _ IHw]. intros p. induction (lt_wf p) as [p _ IHp].
    intros a. induction (lt_wf a) as [a _ IHa]. intros s <- <- <-. constructor. intros s' [Hw|[Hw [Hp|[Hp Ha]]]].
    - by eapply IHw.
    - by eapply IHp.
    - by eapply IHa. }
  intros s. by eapply Hall.
Qed.

(** The thread that the destructor waits for. *)
Definition helpful (s : state) : thread :=
  match st_main s with
  | JoinReceiver :: _ => match st_receiver s with R_end => MAIN | _ => RECEIVER end
  | JoinWorker :: _ => match st_worker s with W_end => MAIN | _ => WORKER end
  | _ => MAIN
  end.

Lemma main_lower x s s' : act MAIN x s s' -> closing s -> lower s' s.
Proof.
  intros Hstep Hc. inversion Hstep; subst. left.
  destruct (run_op_closing op ops s s') as (_ & Hm & Hw); [done..|].
  unfold work_left. rewrite Hm, Hw. match goal with Hop : st_main s = _ |- _ => rewrite Hop end. cbn. lia.
Qed.

Lemma worker_lower x s s' : act WORKER x s s' -> closing s -> lower s' s.
Proof.
  intros Hstep [He _ _ _]. left. unfold work_left, worker_left.
  inversion Hstep as [|? Hw|? Hw|? m q Hw Hf Hq|? ? ? ? Hw|? ? Hw| | | | | | | |]; subst; cbn; rewrite Hw; cbn.
  - lia.
  - destruct (st_running s); lia.
  - destruct He as [He|[[l Hw']|[_ [?|?]]]]; [|congruence..].
    rewrite (urgent_perm _ _ Hq), urgent_cons, (first_is_urgent _ _ He Hf).
    pose proof (members_used_few m). lia.
  - lia.
  - lia.
Qed.

Lemma receiver_step_lower x s s' :
  act RECEIVER x s s' -> closing s -> if st_receiving s then lower s' s \/ work_left s' = work_left s /\ st_receiving s' = true else lower s' s.
Proof.
  intros Hstep [_ _ _ Ha]. unfold lower, work_left, worker_left, packet_left, adds_left.
  inversion Hstep as [| | | | | |? Hr|? Hr|? Hr|? Hr|? ms Hr _|? m ms full Hr|? Hr|]; subst; cbn; rewrite Hr;
    destruct (st_receiving s) eqn:E; cbn; try lia; try (by right).
  - right. split; [|done]. apply Ha, Forall_cons in Hr as [Hm _].
    destruct full; [done|]. by rewrite urgent_cons, (not_urgent _ Hm).
  - right. apply Ha, Forall_cons in Hr as [Hm _].
    split; [|by right; split; [|lia]].
    destruct full; [done|]. by rewrite urgent_cons, (not_urgent _ Hm).
Qed.

Definition rank (s : state) : nat * nat * nat := (work_left s, packet_left s, adds_left s).

Lemma lower_rank s1 s2 s3 : rank s2 = rank s3 -> lower s1 s2 -> lower s1 s3.
Proof. unfold rank, lower. intros [= -> -> ->]. done. Qed.

(** A step of a thread that the destructor does not wait for leaves it waiting. *)
Lemma act_lower th x s s' :
  act th x s s' -> closing s ->
  lower s' s \/ (th <> helpful s /\ helpful s' = helpful s /\ rank s' = rank s).
Proof.
  intros Hstep Hc. destruct th.
  - left. by eapply main_lower.
  - left. by eapply worker_lower.
  - pose proof (receiver_step_lower _ _ _ Hstep Hc) as Hl.
    destruct (st_receiving s) eqn:E; [destruct Hl as [Hl|[Hw E']]|]; [by left| |by left].
    right. assert (Hh : st_main s' = st_main s /\ st_worker s' = st_worker s) by (by inversion Hstep).
    destruct Hh as [Hm Hk], (cl_stop _ Hc) as [?|Hs]; [congruence|].
    unfold helpful, rank, packet_left, adds_left. rewrite Hm, Hk, E, E', Hw.
    destruct (st_main s) as [|[] ?]; try done. by destruct (st_worker s).
  - right. inversion Hstep; subst. unfold helpful, rank, packet_left, adds_left, work_left, worker_left. cbn.
    rewrite urgent_cons. split; [|done]. by destruct (st_main s) as [|[] ?], (st_receiver s), (st_worker s).
Qed.

(** ** Runs under a schedule *)

(** The element that [dequeue] takes. *)
Fixpoint pick q : option (proxy_msg A * list (proxy_msg A)) :=
  match q with
  | [] => None
  | m :: q' =>
    match pick q' with
    | None => Some (m, [])
    | Some (m', rest) => if msg_prio m <=? msg_prio m' then Some (m, q') else Some (m', m :: rest)
    end
  end.

Lemma pick_spec q :
  match pick q with Some (m, rest) => first_of q m /\ q ≡ₚ m :: rest | None => q = [] end.
Proof.
  induction q as [|m q IH]; cbn; [done|].
  destruct (pick q) as [[m' rest]|].
  - destruct IH as [[Hin Hall] Hp]. destruct (Z.leb_spec (msg_prio m) (msg_prio m')); split; try done.
    + split; [left|]. constructor; [lia|]. eapply Forall_impl; [exact Hall|]. cbn. lia.
    + split; [by right|]. constructor; [lia|done].
    + rewrite Hp. by constructor.
  - subst. split; [split; [left|by repeat constructor]|done].
Qed.

(** One action of a thread; a receiver waits in vain, and reminders stay where they are. *)
Definition next th (s : state) : option state :=
  match th with
  | MAIN => match st_main s with [] => None | op :: ops => run_op op ops s end
  | WORKER =>
    match st_worker s with
    | W_start => Some (set_worker (st_queue s) (st_running s) W_test s)
    | W_test => Some (set_worker (st_queue s) (st_running s) (if st_running s then W_dequeue else W_end) s)
    | W_dequeue =>
      match pick (st_queue s) with
      | Some (m, q) => Some (set_worker q (st_running s) (W_handle m (members_used m)) s)
      | None => None
      end
    | W_handle m (_ :: todo) => Some (set_worker (st_queue s) (st_running s) (W_handle m todo) s)
    | W_handle m [] =>
      Some (set_worker (st_queue s) (match m with exit_cmd => false | _ => st_running s end) W_test s)
    | W_end => None
    end
  | RECEIVER =>
    match st_receiver s with
    | R_start => Some (set_receiver (st_queue s) R_test s)
    | R_test => Some (set_receiver (st_queue s) (if st_receiving s then R_receive else R_end) s)
    | R_receive => Some (set_receiver (st_queue s) R_test s)
    | R_analyse => Some (set_receiver (st_queue s) (R_add []) s)
    | R_add (m :: ms) => Some (set_receiver (st_queue s) (R_add ms) s)
    | R_add [] => Some (set_receiver (st_queue s) R_test s)
    | R_end => None
    end
  | TIMING => Some (set_worker (a_timer_msg 0%nat :: st_queue s) (st_running s) (st_worker s) s)
  end.

(** The part that the next action of a thread uses. *)
Definition part_used th (s : state) : option part :=
  match th with
  | MAIN => None
  | WORKER =>
    match st_worker s with
    | W_start => Some INSTANCE_DERIVED
    | W_handle _ (x :: _) => Some x
    | W_handle m [] => match m with exit_cmd => Some WORKER_BASE | _ => None end
    | _ => Some WORKER_BASE
    end
  | RECEIVER =>
    match st_receiver s with
    | R_start | R_analyse => Some RECEIVER_DERIVED
    | R_add (_ :: _) => Some WORKER_BASE
    | _ => Some RECEIVER_BASE
    end
  | TIMING => Some WORKER_BASE
  end.

Lemma act_part th x s s' : act th x s s' -> x = part_used th s.
Proof.
  intros Ha. destruct Ha as [op ops s s' Hop Hrun|s Hw|s Hw|s m q Hw Hf Hq|s m x todo Hw|s m Hw|s Hr|s Hr|s Hr|s Hr|s ms Hr _|s m ms full Hr|s Hr|s t];
    cbn; rewrite ?Hw, ?Hr; done.
Qed.

(** One step of the process. *)
Definition next_process th (p : process) : option process :=
  match p with
  | Alive s =>
    s' ← next th s;
    match part_used th s with
    | Some x => if bool_decide (x ∈ st_dead s) then Some (Failed th x s) else Some (Alive s')
    | None => Some (Alive s')
    end
  | Failed _ _ _ => None
  end.

Lemma next_acts th s s' : next th s = Some s' -> act th (part_used th s) s s'.
Proof.
  intros Hn. cut (exists x, act th x s s'); [intros [x Hx]; by rewrite <- (act_part _ _ _ _ Hx)|]. destruct th; cbn in Hn.
  - destruct (st_main s) as [|op ops] eqn:E; [done|]. eexists. by eapply main_step.
  - destruct (st_worker s) as [| | |m [|x todo]|] eqn:E; simplify_eq; try (by eexists; constructor).
    pose proof (pick_spec (st_queue s)) as Hp. destruct (pick (st_queue s)) as [[m q]|]; simplify_eq.
    destruct Hp. eexists. by eapply worker_dequeue.
  - destruct (st_receiver s) as [| | | |[|m ms]|] eqn:E; simplify_eq; try (by eexists; constructor).
    eexists. by eapply (receiver_add s m ms true).
  - simplify_eq. eexists. constructor.
Qed.

Lemma next_complete th x s s' : act th x s s' -> next th s <> None.
Proof.
  intros Hstep. destruct Hstep as [op ops s s' Hop Hrun|s Hw|s Hw|s m q Hw Hf Hq|s m x todo Hw|s m Hw|s Hr|s Hr|s Hr|s Hr|s ms Hr _|s m ms full Hr|s Hr|s t];
    cbn; rewrite ?Hop, ?Hw, ?Hr; try congruence.
  pose proof (pick_spec (st_queue s)) as Hp. destruct (pick (st_queue s)) as [[]|]; [done|].
  destruct Hf as [Hin _]. rewrite Hp in Hin. by apply elem_of_nil in Hin.
Qed.

(** Every action is a step, if only the last one. *)
Lemma act_steps th x s s' :
  act th x s s' ->
  (exists_part s x /\ step th (Alive s) (Alive s')) \/ exists y, x = Some y /\ step th (Alive s) (Failed th y s).
Proof.
  intros Ha. destruct x as [y|]; [|left; split; [done|by eapply thread_acts]].
  destruct (decide (y ∈ st_dead s)) as [Hd|Hd]; [right; exists y; split; [done|by eapply thread_fails]|].
  left. split; [done|by eapply thread_acts].
Qed.

Lemma next_process_sound th p p' : next_process th p = Some p' -> step th p p'.
Proof.
  destruct p as [s|]; [|done]. cbn. intros (s' & Ha%next_acts & Hp)%bind_Some.
  destruct (part_used th s) as [x|]; [|injection Hp as <-; by eapply thread_acts].
  case_bool_decide; injection Hp as <-; [by eapply thread_fails|by eapply thread_acts].
Qed.

Lemma next_process_complete th p p' : step th p p' -> next_process th p <> None.
Proof.
  intros Hs. assert (Hn : exists s x s', p = Alive s /\ act th x s s') by (destruct Hs; eauto 10).
  destruct Hn as (s & x & s' & -> & Ha). apply next_complete in Ha. cbn.
  destruct (next th s); [cbn|done]. destruct (part_used th s); [by case_bool_decide|done].
Qed.

(** The thread that the destructor waits for can act. *)
Lemma helpful_enabled s : closing s -> st_main s <> [] -> exists x s', act (helpful s) x s s'.
Proof.
  intros [He Hm Hs Ha] Hne.
  destruct (next (helpful s) s) as [s'|] eqn:Hn; [apply next_acts in Hn; by eexists _, s'|].
  exfalso. revert Hn. unfold helpful. destruct (st_main s) as [|op ops] eqn:E; [done|].
  destruct op; cbn; rewrite ?E; cbn; try done.
  - destruct (st_receiver s) as [| | | |[]|] eqn:Er; cbn; rewrite ?E, ?Er; cbn; rewrite ?Er; done.
  - destruct (st_worker s) as [| | |m [|]|] eqn:Ew; cbn; rewrite ?E, ?Ew; cbn; rewrite ?Ew; try done.
    pose proof (pick_spec (st_queue s)) as Hp. destruct (pick (st_queue s)) as [[]|]; [done|].
    unfold exit_ahead in He. rewrite Ew, Hp in He.
    destruct He as [?%elem_of_nil|[[? ?]|[_ [?|?]]]]; done.
Qed.

(** *** Whole processes *)

Lemma act_phase th x s s' :
  act th x s s' -> adds_loseable s /\ (st_main s = destroy_instance \/ closing s) ->
  adds_loseable s' /\ (st_main s' = destroy_instance \/ closing s').
Proof.
  intros Hstep [Ha Hph]. pose proof (act_adds _ _ _ _ Hstep Ha) as Ha'. split; [done|].
  destruct Hph as [Hm|Hc]; [|right; by eapply act_closing].
  destruct th; [|left; by inversion Hstep..].
  right. inversion Hstep as [op ops ? ? Hop Hrun| | | | | | | | | | | | |]; subst.
  rewrite Hop in Hm. injection Hm as -> ->. cbn in Hrun. simplify_eq.
  split; [left; left|by repeat constructor|by right|done].
Qed.

(** The state of a process acts its way there. *)
Definition state_of (p : process) : state := match p with Alive s | Failed _ _ s => s end.

Lemma process_acts p0 p : rtc any_step p0 p -> rtc any_act (state_of p0) (state_of p).
Proof.
  induction 1 as [p|p1 p2 p3 [th Hs] _ IH]; [done|].
  destruct Hs as [th x s s' Ha Hx|th x s s' Ha Hx]; [|exact IH]. eapply rtc_l; [by exists th, x|exact IH].
Qed.

Lemma failed_use p0 th x s : rtc any_step (Alive p0) (Failed th x s) -> used_after_destruction th x s.
Proof.
  intros Hr. apply rtc_inv_r in Hr as [?|(p & _ & [th' Hs])]; [done|]. inversion Hs; subst. split; [done|by eexists].
Qed.

(** As long as the destructor runs, nothing but itself waits for [WORKER_BASE]. *)
Lemma base_destroyed_last done rest :
  destroy_instance = done ++ rest -> Destroy WORKER_BASE ∈ done -> rest = [].
Proof.
  assert (Hlast : exists pre, destroy_instance = pre ++ [Destroy WORKER_BASE] /\ Destroy WORKER_BASE ∉ pre).
  { eexists (removelast destroy_instance). split; [reflexivity|]. cbn. rewrite !not_elem_of_cons. split_and!; try done. apply not_elem_of_nil. }
  destruct Hlast as (pre & -> & Hpre). intros Heq Hin.
  destruct rest as [|y rest _] using rev_ind; [done|]. rewrite app_assoc in Heq. apply app_inj_tail in Heq as [-> _].
  rewrite elem_of_app in Hpre. tauto.
Qed.

(** The ways in which the process fails before the destructor ends. *)
Definition race th (x : part) : Prop :=
  (th = WORKER /\ x <> WORKER_BASE) \/ (th = RECEIVER /\ x = RECEIVER_DERIVED).

Definition finished (p : process) : Prop :=
  match p with Alive s => st_main s = [] | Failed th x _ => race th x end.

Lemma failure_is_race q debug th x s s' :
  rtc any_act (started destroy_instance q debug) s -> st_main s <> [] ->
  act th (Some x) s s' -> x ∈ st_dead s -> race th x.
Proof.
  intros Hr Hne Ha Hd.
  assert (Hno : forall th' x', joined_before th' x' destroy_instance = true -> th = th' -> x <> x').
  { intros th' x' Hj -> ->. eapply join_protects; [exact Hj|exact Hr|]. split; [done|by exists s']. }
  destruct th.
  - by inversion Ha.
  - left. split; [done|]. by apply (Hno WORKER WORKER_BASE).
  - right. split; [done|]. pose proof (Hno RECEIVER RECEIVER_BASE eq_refl eq_refl).
    pose proof (Hno RECEIVER WORKER_BASE eq_refl eq_refl). by inversion Ha; subst.
  - assert (x = WORKER_BASE) as -> by (by inversion Ha).
    destruct (reachable_progress _ _ _ _ Hr) as (done & [Hpr Hdead _ _ _]).
    destruct Hne. by eapply base_destroyed_last, Hdead.
Qed.

Lemma reachable_phase q debug s :
  rtc any_act (started destroy_instance q debug) s -> adds_loseable s /\ (st_main s = destroy_instance \/ closing s).
Proof.
  intros Hrun. remember (started destroy_instance q debug) as s0 eqn:E.
  assert (Hs : adds_loseable s0 /\ (st_main s0 = destroy_instance \/ closing s0)).
  { subst. split; [|by left]. intros ms. by destruct debug. }
  clear E. induction Hrun as [s|s1 s2 s3 (th & x & Hstep) _ IH]; [done|]. by eapply IH, act_phase.
Qed.

Section Schedule.
Context (sched : nat -> thread) (r : nat -> process) (q : list (proxy_msg A)) (debug : bool).

(** At every time the scheduled thread takes a step if it can. *)
Definition runs : Prop := forall i,
  step (sched i) (r i) (r (S i)) \/ (~ (exists p', step (sched i) (r i) p') /\ r (S i) = r i).

Definition fair : Prop := forall th i, th <> TIMING -> exists d, sched (i + d)%nat = th.

Context (Hruns : runs) (Hfair : fair).

Lemma runs_reachable p0 : rtc any_step p0 (r 0%nat) -> forall i, rtc any_step p0 (r i).
Proof.
  intros H0 i. induction i as [|i IH]; [done|].
  destruct (Hruns i) as [Hstep|[_ ->]]; [|done]. eapply rtc_r; [exact IH|by exists (sched i)].
Qed.

Context (H0 : rtc any_step (Alive (started destroy_instance q debug)) (r 0%nat)).

(** What happens at a time at which the destructor still runs. *)
Lemma run_cases i s :
  r i = Alive s -> st_main s <> [] ->
  (exists x s', act (sched i) x s s' /\ r (S i) = Alive s')
  \/ ((forall x s', ~ act (sched i) x s s') /\ r (S i) = Alive s)
  \/ finished (r (S i)).
Proof.
  intros Hi Hne. pose proof (process_acts _ _ (runs_reachable _ H0 i)) as Hreach.
  destruct (Hruns i) as [Hs|[Hno Hsame]]; rewrite Hi in *; cbn in Hreach.
  - inversion Hs as [th x s1 s' Ha Hx|th x s1 s' Ha Hx]; subst; [left; by eexists _, _|].
    right. right. by eapply failure_is_race.
  - right. left. split; [|done]. intros x s' Ha. destruct Hno.
    destruct (act_steps _ _ _ _ Ha) as [[_ ?]|(y & _ & ?)]; by eexists.
Qed.

Lemma wait_for d i s :
  r i = Alive s -> closing s -> sched (i + d)%nat = helpful s ->
  (forall j s', r j = Alive s' -> lower s' s -> closing s' -> exists k, finished (r k)) ->
  exists k, finished (r k).
Proof.
  revert i s. induction d as [|d IHd]; intros i s Hi Hc Hd IH;
    (destruct (decide (st_main s = [])) as [?|Hne]; [exists i; by rewrite Hi|]);
    destruct (run_cases i s Hi Hne) as [(x & s' & Hstep & Hnext)|[[Hno Hsame]|?]]; try (by eexists).
  all: try (pose proof (act_closing _ _ _ _ Hstep Hc) as Hc';
    destruct (act_lower _ _ _ _ Hstep Hc) as [Hl|(Hth & Hh & Hr)]; [by eapply IH|]).
  - by rewrite Nat.add_0_r in Hd.
  - rewrite Nat.add_0_r in Hd. destruct (helpful_enabled s Hc Hne) as (x & s' & Ha). rewrite <- Hd in Ha. by apply Hno in Ha.
  - apply (IHd (S i) s'); [done|done|rewrite Hh, <- Hd; f_equal; lia|].
    intros j s2 Hj Hl. eapply IH; [done|]. by eapply lower_rank.
  - apply (IHd (S i) s); [done|done|rewrite <- Hd; f_equal; lia|done].
Qed.

Lemma closing_ends i s : r i = Alive s -> closing s -> exists k, finished (r k).
Proof.
  revert i. induction (lower_wf s) as [s _ IH]. intros i Hi Hc.
  destruct (Hfair (helpful s) i) as [d Hd].
  { unfold helpful. by destruct (st_main s) as [|[] ?], (st_receiver s), (st_worker s). }
  apply (wait_for d i s Hi Hc Hd). intros j s' Hj Hl Hc'. by eapply IH.
Qed.

(** The first operation of the destructor is done. *)
Lemma closing_starts d i s :
  r i = Alive s -> st_main s = destroy_instance -> adds_loseable s -> sched (i + d)%nat = MAIN ->
  exists k, finished (r k).
Proof.
  revert i s. induction d as [|d IHd]; intros i s Hi Hm Ha Hd;
    (destruct (run_cases i s Hi) as [(x & s' & Hstep & Hnext)|[[Hno Hsame]|?]]; [by rewrite Hm| | |by eexists]).
  all: try (destruct (act_phase _ _ _ _ Hstep) as [Ha' [Hm'|Hc]]; [by auto| |by eapply closing_ends]).
  - rewrite Nat.add_0_r in Hd. rewrite Hd in Hstep.
    inversion Hstep as [op ops ? ? Hop Hrun| | | | | | | | | | | | |]; subst.
    rewrite Hop in Hm. injection Hm as -> ->. cbn in Hrun. injection Hrun as <-. done.
  - destruct (Hno None (set_worker (exit_cmd :: st_queue s) (st_running s) (st_worker s)
      {| st_main := tail destroy_instance; st_queue := st_queue s; st_running := st_running s; st_worker := st_worker s;
         st_receiving := st_receiving s; st_receiver := st_receiver s; st_dead := st_dead s |})).
    rewrite Nat.add_0_r in Hd. rewrite Hd. eapply main_step; [exact Hm|reflexivity].
  - by apply (IHd (S i) s'); [..|rewrite <- Hd; f_equal; lia].
  - by apply (IHd (S i) s); [..|rewrite <- Hd; f_equal; lia].
Qed.
End Schedule.

(** ** The theorems *)

(** C17: Destroying an instance ends, or a race of its destructor makes the process
    fail. Whatever the threads are doing when the destructor starts and however
    many reports and reminders arrive meanwhile, under a schedule that does not
    neglect the main thread, the worker or the receiver: either the main thread
    passes every operation of the destructor, and both threads have ended then, or
    at some time the worker uses a destroyed part of the instance other than its
    base class, or the receiver calls a function of its derived class when that is
    gone (a pure virtual call, which aborts the process). In particular no thread
    waits for ever: the exit command overtakes everything that is not user input, so
    a full queue does not delay it. *)
Theorem destructor_ends (sched : nat -> thread) (r : nat -> process) q debug s0 :
  runs sched r -> fair sched ->
  rtc any_step (Alive (started destroy_instance q debug)) (Alive s0) -> r 0%nat = Alive s0 ->
  exists i, match r i with
            | Alive s => st_main s = [] /\ st_worker s = W_end /\ st_receiver s = R_end
            | Failed th x s => used_after_destruction th x s /\ race th x
            end.
Proof.
  intros Hruns Hfair H0 E0. rewrite <- E0 in H0.
  assert (Hend : exists i, finished (r i)).
  { pose proof (process_acts _ _ H0) as Hs0. rewrite E0 in Hs0. destruct (reachable_phase _ _ _ Hs0) as [Ha [Hm|Hc]];
      [|by eapply (closing_ends sched r q debug)].
    destruct (Hfair MAIN 0%nat) as [d Hd]; [done|]. by eapply (closing_starts sched r q debug Hruns Hfair H0 d 0%nat). }
  destruct Hend as [i Hi]. exists i. pose proof (runs_reachable _ _ Hruns _ H0 i) as Hreach.
  destruct (r i) as [s|th x s]; [|split; [by eapply failed_use|done]]. cbn in Hi. split; [done|].
  destruct (reachable_progress _ _ _ _ (process_acts _ _ Hreach)) as (done & [Hpr _ Hw Hr _]). cbn in Hpr, Hw, Hr.
  rewrite Hi, app_nil_r in Hpr. subst done. split; [apply Hw|apply Hr]; vm_compute; repeat (left || right).
Qed.

(** C18: What the joins at the end of the base classes are good for: at no time
    during the destruction of an instance does the worker use its queue or
    [m_running] after the worker's base class is destroyed, nor does the
    receiver use its own base class or the queue after these are; not even if
    every other use of a destroyed part went unnoticed. *)
Theorem bases_outlive_threads q debug s th x :
  rtc any_act (started destroy_instance q debug) s ->
  (th, x) ∈ [(WORKER, WORKER_BASE); (RECEIVER, RECEIVER_BASE); (RECEIVER, WORKER_BASE)] ->
  ~ used_after_destruction th x s.
Proof.
  intros Hrun Hin. eapply join_protects; [|exact Hrun].
  repeat apply elem_of_cons in Hin as [[= -> ->]|Hin]; [reflexivity..|by apply elem_of_nil in Hin].
Qed.

(** Steps of given threads. *)
Fixpoint take_steps (ths : list thread) (p : process) : option process :=
  match ths with [] => Some p | th :: ths' => next_process th p ≫= take_steps ths' end.

Lemma take_steps_reach ths p0 p p' :
  rtc any_step p0 p -> take_steps ths p = Some p' -> rtc any_step p0 p'.
Proof.
  revert p. induction ths as [|th ths IH]; cbn; intros p Hr Ht; [congruence|].
  destruct (next_process th p) as [p1|] eqn:Hn; [|done]. cbn in Ht.
  apply (IH p1); [|done]. eapply rtc_r; [done|]. exists th. by apply next_process_sound.
Qed.

(** A process that fails on the way. *)
Definition fails_at th (x : part) (p : option process) : bool :=
  match p with Some (Failed th' x' _) => bool_decide (th = th') && bool_decide (x = x') | _ => false end.

Lemma take_steps_fail ths p0 p th x :
  rtc any_step p0 p -> fails_at th x (take_steps ths p) = true -> exists s, rtc any_step p0 (Failed th x s).
Proof.
  intros Hr Hf. destruct (take_steps ths p) as [[|th' x' s]|] eqn:Ht; try done.
  apply andb_true_iff in Hf as [<-%bool_decide_eq_true <-%bool_decide_eq_true]. exists s. by eapply take_steps_reach.
Qed.

(** The exit command is only enqueued before the members are destroyed: a worker
    that writes the status text meanwhile reads destroyed members. *)
Lemma members_not_protected x :
  x ∈ [RULES; ROUTING_MANAGEMENT; UPSTREAMS; DOWNSTREAMS] ->
  exists s, rtc any_step (Alive (started destroy_instance [debug_msg] false)) (Failed WORKER x s).
Proof.
  intros Hx. repeat apply elem_of_cons in Hx as [->|Hx]; [..|by apply elem_of_nil in Hx].
  - by apply (take_steps_fail (repeat WORKER 3 ++ repeat MAIN 2 ++ [WORKER]) _ _ _ _ (rtc_refl _ _)).
  - by apply (take_steps_fail (repeat WORKER 4 ++ repeat MAIN 5 ++ [WORKER]) _ _ _ _ (rtc_refl _ _)).
  - by apply (take_steps_fail (repeat WORKER 5 ++ repeat MAIN 4 ++ [WORKER]) _ _ _ _ (rtc_refl _ _)).
  - by apply (take_steps_fail (repeat WORKER 6 ++ repeat MAIN 3 ++ [WORKER]) _ _ _ _ (rtc_refl _ _)).
Qed.

(** The receiver is joined by the destructor of its base class, when the
    functions of its derived class are gone: a packet, or the start of the thread,
    leads to a pure virtual call. *)
Lemma receiver_not_protected :
  exists s, rtc any_step (Alive (started destroy_instance [] false)) (Failed RECEIVER RECEIVER_DERIVED s).
Proof.
  set (s0 := started destroy_instance [] false).
  assert (Hr : rtc any_step (Alive s0) (Alive (set_receiver [] R_analyse s0))).
  { apply (rtc_l _ _ (Alive (set_receiver [] R_test s0))).
    { exists RECEIVER. eapply thread_acts; [by apply (receiver_sizes s0)|apply not_elem_of_nil]. }
    apply (rtc_l _ _ (Alive (set_receiver [] R_receive s0))).
    { exists RECEIVER. eapply thread_acts; [by apply (receiver_test (set_receiver [] R_test s0))|apply not_elem_of_nil]. }
    apply rtc_once. exists RECEIVER.
    eapply thread_acts; [by apply (receiver_packet (set_receiver [] R_receive s0))|apply not_elem_of_nil]. }
  by apply (take_steps_fail (repeat MAIN 7 ++ [RECEIVER]) _ _ _ _ Hr).
Qed.

Lemma late_start_fails :
  exists s, rtc any_step (Alive (started destroy_instance [] true)) (Failed WORKER INSTANCE_DERIVED s).
Proof. by apply (take_steps_fail (repeat MAIN 15 ++ [WORKER]) _ _ _ _ (rtc_refl _ _)). Qed.

(** Nothing takes the reminders of the instance from the timing thread. *)
Lemma reminders_outlive_instance :
  exists s, rtc any_step (Alive (started destroy_instance [] true)) (Failed TIMING WORKER_BASE s) /\ st_main s = [].
Proof.
  destruct (take_steps ([MAIN] ++ repeat WORKER 5 ++ repeat MAIN 17 ++ [TIMING]) (Alive (started destroy_instance [] true))) as [p|] eqn:Ht;
    [|by vm_compute in Ht].
  pose proof (take_steps_reach _ _ _ _ (rtc_refl _ _) Ht) as Hr. vm_compute in Ht. injection Ht as <-.
  eexists. split; [exact Hr|done].
Qed.

(** The run that [next_process] makes of a schedule. *)
Fixpoint run_of (sched : nat -> thread) (p : process) (i : nat) : process :=
  match i with
  | O => p
  | S i' => let p' := run_of sched p i' in default p' (next_process (sched i') p')
  end.

Lemma run_of_runs sched p : runs sched (run_of sched p).
Proof.
  intros i. cbn. destruct (next_process (sched i) (run_of sched p i)) as [p'|] eqn:Hn; cbn.
  - left. by apply next_process_sound.
  - right. split; [|done]. intros (p' & Hstep). by apply next_process_complete in Hstep.
Qed.
End Shutdown.

(** ** Examples *)

(** The threads in turn. *)
Definition in_turn (i : nat) : thread :=
  match i mod 3 with O => MAIN | 1 => WORKER | _ => RECEIVER end%nat.

Lemma in_turn_fair : fair in_turn.
Proof.
  assert (Hd : forall i k, (k < 3)%nat -> exists d, ((i + d) mod 3 = k)%nat).
  { intros i k Hk. exists (k + 3 - i mod 3)%nat. pose proof (Nat.mod_upper_bound i 3).
    replace (i + (k + 3 - i mod 3))%nat with (k + (1 + i / 3) * 3)%nat by (pose proof (Nat.div_mod_eq i 3); lia).
    rewrite Nat.Div0.mod_add. by apply Nat.mod_small. }
  intros th i Hth. unfold in_turn.
  destruct th; [destruct (Hd i 0%nat) as [d E]|destruct (Hd i 1%nat) as [d E]|destruct (Hd i 2%nat) as [d E]|done];
    try lia; exists d; by rewrite E.
Qed.

Definition ex_queue : list (proxy_msg ipv4) := [a_timer_msg 0%nat; new_source_msg 7 (mk_ipv4 232 1 1 1) (mk_ipv4 10 0 0 1); debug_msg].

Definition ex_run : nat -> process (A := ipv4) := run_of ∅ in_turn (Alive (started destroy_instance ex_queue false)).

Lemma destructor_ends_witness :
  exists i, match ex_run i with
            | Alive s => st_main s = [] /\ st_worker s = W_end /\ st_receiver s = R_end
            | Failed th x s => used_after_destruction ∅ th x s /\ race th x
            end.
Proof.
  apply (destructor_ends ∅ in_turn ex_run ex_queue false (started destroy_instance ex_queue false));
    [apply run_of_runs|apply in_turn_fair|apply rtc_refl|reflexivity].
Defined.

(** This run ends without a failure; the exit command overtakes the messages of the
    queue, which stay there. *)
Definition ex_destroyed : state := state_of (ex_run 100).

Lemma ex_overtakes : ex_run 100 = Alive ex_destroyed /\ st_queue ex_destroyed = ex_queue /\ st_main ex_destroyed = [].
Proof. vm_compute. done. Qed.

Lemma ex_destroyed_reachable : rtc (any_act ∅) (started destroy_instance ex_queue false) ex_destroyed.
Proof.
  assert (Hr : rtc (any_step ∅) (Alive (started destroy_instance ex_queue false)) (ex_run 100))
    by (apply (runs_reachable ∅ in_turn); [apply run_of_runs|apply rtc_refl]).
  exact (process_acts _ _ _ Hr).
Qed.

Lemma bases_outlive_threads_witness :
  WORKER_BASE ∈ st_dead ex_destroyed /\ ~ used_after_destruction ∅ WORKER WORKER_BASE ex_destroyed.
Proof.
  split; [by apply (bool_decide_eq_true _); vm_compute|].
  apply (bases_outlive_threads ∅ ex_queue false); [apply ex_destroyed_reachable|by left].
Defined.
